(* ===== verification/_CoqProject ===== *)
-Q . S2P
Prelude.v
Errors.v
Wire.v
Text.v
Packet.v
Version.v
Crypto.v
Kex.v
Algo.v
Cipher.v
Compress.v
Connection.v
Auth.v
Keystore.v
Transport.v
TransportFrames.v
TransportBytes.v
TransportInv.v
TransportSteps.v
TransportDemo.v
TransportProps.v
TransportStream.v
TransportDuplex.v
Rounds.v
Handshake.v
RekeyRound.v
Rekey.v
TransportFindings.v
Server.v
ServerInv.v
ServerSteps.v
Client.v
ClientSteps.v
SessionDemo.v
ClientTrust.v
ServerLogin.v
ServerProps.v
ServerChannels.v
ClientProps.v
Limits.v
Policy.v
Float64.v
Rate.v
Driver.v
Exec.v
ExecInv.v
System.v
Process.v
Serve.v
ServeFrame.v
ServeCalls.v
ServeTasks.v
ServeInv.v
ServeDemo.v
ServeProps.v
Listener.v
ListenerProps.v
Cli.v
ServerMain.v
ClientMain.v
TuiInput.v
TuiBackend.v
TuiScreen.v
TuiTerminal.v
