(* ===== verification/Prelude.v ===== *)
(** ssh-bench: a verification development of a sans-IO SSH implementation in Rust.

    * The program

    The repository is a workspace of crates.  [src/crates/ssh-transport] is the protocol:
    bytes in, bytes and events out, no sockets.  From the bottom up it has the wire
    codec ([wire.rs]), the identification exchange ([version.rs]), packet framing and the
    packet ciphers ([packet.rs], [cipher.rs]), key exchange and key derivation ([kex.rs],
    [mlkem.rs], [sntrup.rs], [kdf.rs], [hostkey.rs]), negotiation ([algo.rs]), compression
    ([compress.rs]), the transport state machine that ties them together
    ([transport.rs]), and on top of it the connection protocol ([connection.rs]), user
    authentication ([auth.rs]) and the two sessions ([server.rs], [client.rs]).
    [src/crates/ssh-io] runs sessions over sockets and adds key files ([keystore.rs]),
    admission control ([limits.rs], [policy.rs]), the program registry ([exec.rs]), a
    runner of system commands ([system.rs]) and the server's loop ([serve.rs]).
    [src/crates/ssh-tui] decodes and draws terminals.  [src/crates/ssh-client] and
    [src/crates/ssh-server] are two command-line programs over these crates.

    A session owns a transport; [on_input] hands it bytes, the transport turns them into
    a queue of events, and the session's [pump] handles each event, which may queue
    packets (they go back through the transport) and events for the driver.  The driver
    feeds bytes, takes the output, polls events and calls back.

    * How it is modelled

    A method with [&mut self] is a computation of the monad [M E S] of [Prelude]: from a
    state it gives an outcome (a value, an error, a panic, or fuel that ran out) and the
    state it leaves, also when it fails.  Structs are records with the source's fields,
    enums are inductive types, [u8] to [u64] and [usize] (64 bits) are [Z] with their
    wrap-around, saturation or overflow check written out; a checked operation out of
    range, an [unwrap] of [None] and a slice out of bounds are [Panic].  [wp] says that a
    computation returns and what then holds; [stays] and [keeps] are its frames.

    Code that is not in the repository is a parameter.  [Crypto] (file [Crypto.v]) is the
    class of the cryptographic and compression crates, with a random generator as a state
    that is passed on; [CryptoOk] is what the code relies on (lengths, opening what was
    sealed, agreement of the two sides, verification of what was signed), [agreeable] that
    X25519 does not refuse honest keys, [FlateOk] the
    contract of the deflate streams (progress, bounded output), [OctetsOk] that their
    outputs are bytes.  [Crypto.Toy] is a concrete instance of all four, with which the
    examples and the recorded handshakes are computed.  [Semaphore] stands for tokio's
    counting semaphore, [ServerAuthHandler] and [ClientAuthHandler] for the application's
    policies ([SteadyCaps]: its caps do not move), [ConnectionPolicy] and [RetryPolicy]
    for the admission policies, [SshKey] for the ssh-key crate (laws [SshKeyOk], instance
    [ToyKeys]), [Terminal] for the terminal at the other end (laws [TerminalOk], instance
    [Vt]); a clock reading is an argument.

    * The files

    - [Prelude]: machine integers, byte strings, the monad, weakest preconditions,
      frames, record updates, finite sequences of steps.
    - [Text]: the operations of [str] that the code calls, with their laws.
    - [Errors] ([error.rs], [msg.rs], UTF-8), [Wire] ([wire.rs]), [Packet] ([packet.rs]),
      [Version] ([version.rs]), [Crypto], [Kex] ([kex.rs], [mlkem.rs], [sntrup.rs],
      [kdf.rs], [hostkey.rs]), [Algo] ([algo.rs]), [Cipher] ([cipher.rs]), [Compress]
      ([compress.rs]), [Connection] ([connection.rs]), [Auth] ([auth.rs]): the data, the
      operations and the properties of each component.
    - [Transport] ([transport.rs]): one definition per method.  [TransportFrames],
      [TransportBytes], [TransportInv]: what its methods leave alone, that octets stay
      octets, and the invariant [tinv] that every method keeps.  [TransportSteps]: its
      interface as a step relation ([treachable]).  [TransportDemo]: an executed
      handshake.  [TransportStream]: the packet loop as a function of the bytes that are
      left.  [TransportProps], [TransportDuplex], [TransportFindings]: its
      theorems.  [Rounds], [Handshake], [RekeyRound], [Rekey]: two honest ends, message by
      message, through their handshake and through a re-key.
    - [Server] ([server.rs]), [ServerInv] (the invariant [sinv]), [ServerSteps]
      ([sreachable]), [ServerProps], [ServerChannels]; [Client] ([client.rs]),
      [ClientSteps] ([cinv], [creachable]), [ClientProps]; [SessionDemo]: an executed
      session of the two, which the witnesses use.  [ClientTrust] and [ServerLogin]: what
      a client sends before it trusts its host and whom a server lets in, over whole
      sessions and for any policy of a stated shape.
    - [Keystore] ([keystore.rs] and the OpenSSH formats of [hostkey.rs]): key lists and the
      host key file.
    - [Limits] ([limits.rs], the connection limiter), [Policy] ([policy.rs]; [RetryOk] is
      what a server asks of a retry policy), and [Rate] ([limits.rs], the token bucket) over
      [Float64], the binary floats of 64 bits with the errors of their rounding.
    - [Driver] ([ssh-io/lib.rs]): the [Session] trait as a class with the two sessions as
      instances, and the driver over a stream.  [Exec] ([exec.rs]): the registry and a
      handler's end of its channel, over the class [Tokio] of the queues, the semaphore
      and the watches (laws [TokioOk], instance [plain_tokio] in [ExecInv]).  [Serve]
      ([serve.rs], [serve_with]): its variables as a record, each [select!] arm as a
      definition, and the loop with its timers and tasks as the step relation
      [serve_step].  [ExecInv], [ServeCalls], [ServeTasks], [ServeInv]: conservation of the output
      budget, the session's calls, and the loop's invariant.  [ServeDemo]: executed
      connections; [ServeProps]: the theorems.
    - [Listener] ([serve.rs], [Defense] and [serve_listener]): the gates of the accept loop
      and the whole server as the step relation [listener_step], whose connections take
      steps of [serve_step] over one store of the policies.  [ListenerProps]: its invariant
      and theorems.  [ServeFrame]: what one connection does to that store
      and to its session.
    - [System] ([system.rs]): up to the child process, the mapping of the input, the exit
      status.  [Process]: [run_process] as the step relation [process_step] of its pumps,
      its [select!] and its tear-down, over a handler's end of a channel.
    - [Cli] ([ssh-client/main.rs], [ssh-server/main.rs]): the policies, the registry and
      the client's loops, joined with the key files, the sessions and the serve loop.
      [ServerMain]: [main] of the server, which puts all of this together.  [ClientMain]:
      [main] of the client, and two runs of it side by side.
    - [TuiInput] ([ssh-tui/input.rs]), [TuiBackend] ([backend.rs]), [TuiScreen] (what a
      terminal makes of its bytes), [TuiTerminal] ([terminal.rs]).

    * What the theorems show

    - No panic, and every call returns, in every reachable state of the transport, of the
      server session and of the client session, whatever bytes the peer sends
      ([transport_never_panics], [server_never_panics], [client_never_panics]).
    - The channel is faithful and confidential: what one end sends the other receives in
      order and unchanged ([delivery], [open_seal]), however the bytes are cut on the way
      ([cut_anywhere]), two honest ends complete their handshake and are then in step
      ([handshake_completes]), they can re-key while they send ([rekey_completes]), the two ends of a key exchange derive the same keys
      ([kex_agreement]), a handshake admits no other messages ([handshake_filter]), an
      established transport sends nothing in the clear and renews its keys in time
      ([established_sends_encrypted],
      [gcm_iv_unique]), and what is signed binds what it should ([exchange_hash_binds],
      [signed_data_binds]).
    - Authentication: nothing of the connection protocol happens before it ([auth_gate]),
      it is the policy's decision ([authentication_sound]), its attempts are capped
      ([auth_caps]), an honest key logs in ([key_login]), and a rejected host key ends the
      connection ([host_key_gate]).
    - The key files decide: a key is trusted for a host exactly when a line records it for
      that host ([trusted_records]), a client says nothing before its host is trusted
      ([nothing_before_trust]) and so sends a password only to a host that its file
      records ([password_needs_known_host]): to any other, two runs of the program that
      differ in the user, the password or the command look the same
      ([unknown_host_learns_nothing]).  A server lets in only whom its configuration
      or its file names ([demo_login]), and its own key never changes ([host_key_stable]).
    - Commands: what the restricted server runs ([restricted_runs_cat], a lemma), that an exec
      never reaches a shell ([exec_not_through_shell]), what the input pump writes
      ([stdin_pump_spec], a lemma), and that the runner neither loses nor reorders what a process
      reads and writes ([runner_faithful]).
    - The terminal: the escape sequences of a frame, with the moves and the style changes
      that the backend leaves out, draw exactly its cells ([frame_reaches_screen]).
    - Flow control: a channel's output refines its byte stream ([drain_output_spec]),
      windows are neither exceeded nor starved ([flow_bounded], [client_window_open]).
    - The serve loop: it never panics ([serve_never_panics]), output that waits for the
      client is bounded end to end ([output_bounded]), only registered programs of an
      authenticated user run ([programs_authorized]), no handler outlives its connection
      ([handlers_torn_down]), the login timer guards exactly the connections without a
      user ([login_timer_exact]), and a handler reads its input in order
      ([stdin_in_order]).
    - The server program: from [main] to the wire, who is logged in, what runs and how much
      there is of it ([server_program]).
    - The whole server: its connections, those of one address and their waiting output are
      bounded ([server_bounded]), a visitor that the policy accepts is served when a slot
      and a token are free ([free_slot_served]), a banned address is not served while the
      ban lasts ([banned_stay_out]), and the token bucket lets in no more than its rate,
      rounding included ([admissions_bounded]), nor starves ([idle_admits]).
    - The state is well typed: octets are octets, numbers fit their machine integers
      ([session_well_typed]).
    - Codecs and parsers: round trips ([parse_ours_with], [auth_request_roundtrip]), the
      incremental key decoder refines a decoder of whole sequences and does not depend on
      how the input is cut ([feed_refines_decoded], [feed_chunking]).
    - Defects, each with an execution or a theorem that exhibits it: [plaintext_downgrade],
      [ecdh_init_uncounted], [exhausted_still_authenticates], [success_after_rejection],
      [banner_flood_unbounded], [refused_addresses_accumulate], [channel_data_spec],
      [stale_output_crosses], [stdin_without_window], [write_after_close_panics],
      [unreadable_known_hosts_trusts_all], [lost_connection_is_success], [cut_crlf_doubled],
      [killed_is_success], [append_lines_misplaces], [banned_host_starves].

    * Fuel

    Loops that are not structural take a number of rounds: the transport's packet loop
    the length of its receive buffer plus one (every round consumes a byte or stops), the
    sessions' event loops the length of the event queue (no handler adds to it), draining
    a channel the number of queued bytes (every message carries one), compression the
    capacity that the stream may still fill, padding two, the serve loop's event loop the
    length of the session's queue, a reader's loop the length of its queue.  The theorems
    above show that fuel never runs out.

    * Not modelled

    - The cryptographic primitives and deflate (parameters), zeroizing and constant time
      (no functional effect), debug printing.
    - Sockets, processes, tasks and timers as such: a socket call's outcome, the clock and
      the order of the ready branches are arguments or nondeterministic steps.
      Of [run_process] the child process itself; of the command-line
      programs the calls that connect, bind and accept and the thread that reads stdin; of ratatui
      what happens between a render closure and the backend.
    - The fuzz targets, benches and examples: harnesses around the modelled code.

    * Bounds

    The token bucket is exact up to its rounding for a burst of at most 2^52 and pauses of
    less than 2^53 seconds between connections ([LONGEST]); beyond these a float no longer
    counts the tokens or the seconds one by one.  The caps on authentication and the bytes
    that a channel holds are those of the [u32] and [u64] that count them, as hypotheses
    where a theorem needs them ([SteadyCaps], [s_op_ok]).

    * Plan

    Left: re-keying that both ends begin at once; the examples of [ssh-tui]. *)

From stdpp Require Export base list list_numbers option gmap strings numbers.
From Stdlib Require Export ZArith Lia.

Declare Scope prog_scope.
Delimit Scope prog_scope with prog.
#[global] Open Scope Z_scope.
#[global] Open Scope prog_scope.

(** The databases of the development: [ssh_len] rewrites lengths and slices of
    byte strings; [ssh] resolves the side conditions the components share. *)
Create HintDb ssh.
Create Rewrite HintDb ssh_len.

(** * Bytes, lengths and machine integers

    A [u8]/[u16]/[u32]/[u64]/[usize] is a [Z]; the wrap-around of an [as] cast
    is written out, and a checked [+] or [-] is an operation of the monad below
    that panics out of range.  [usize] has 64 bits. *)

Abbreviation bytes := (list Z).

Definition U8_MAX : Z := 255.
Definition U16_MAX : Z := 65535.
Definition U32_MAX : Z := 4294967295.
Definition U64_MAX : Z := 18446744073709551615.

Definition is_u8 (x : Z) : Prop := 0 <= x <= U8_MAX.
Definition is_u16 (x : Z) : Prop := 0 <= x <= U16_MAX.
Definition is_u32 (x : Z) : Prop := 0 <= x <= U32_MAX.
Definition is_u64 (x : Z) : Prop := 0 <= x <= U64_MAX.
Definition is_bytes (b : bytes) : Prop := Forall is_u8 b.

(** [x as u8], [x as u16], [x as u32]. *)
Definition as_u8 (x : Z) : Z := x mod 256.
Definition as_u16 (x : Z) : Z := x mod 65536.
Definition as_u32 (x : Z) : Z := x mod 4294967296.

(** [wrapping_add] and [saturating_add]. *)
Definition wrapping_add32 (x y : Z) : Z := (x + y) mod 4294967296.
Definition wrapping_add64 (x y : Z) : Z := (x + y) mod 18446744073709551616.
Definition saturating_add32 (x y : Z) : Z := Z.min (x + y) U32_MAX.
Definition saturating_add64 (x y : Z) : Z := Z.min (x + y) U64_MAX.
Definition saturating_sub (x y : Z) : Z := Z.max (x - y) 0.

Definition len {A} (l : list A) : Z := Z.of_nat (length l).

(** [&l\[..n\]], [&l\[n..\]] and [&l\[a..b\]] with indices in [Z]; the callers
    check the bounds first, as the slices of the source panic out of range. *)
Definition ztake {A} (n : Z) (l : list A) : list A := take (Z.to_nat n) l.
Definition zdrop {A} (n : Z) (l : list A) : list A := drop (Z.to_nat n) l.
Definition slice {A} (a b : Z) (l : list A) : list A := ztake (b - a) (zdrop a l).
Definition znth (l : bytes) (i : Z) : Z := nth (Z.to_nat i) l 0.
Definition zeros (n : Z) : bytes := replicate (Z.to_nat n) 0.

(** The bytes of a string literal. *)
Fixpoint str (s : string) : bytes :=
  match s with
  | EmptyString => []
  | String a s' => Z.of_N (Ascii.N_of_ascii a) :: str s'
  end.

(** Equality of byte strings, as [==] on slices and [str]s. *)
Definition beq (a b : bytes) : bool := bool_decide (a = b).

(** [u32::to_be_bytes] and friends, and their inverses. *)
Fixpoint be_bytes (n : nat) (v : Z) : bytes :=
  match n with
  | O => []
  | S n' => be_bytes n' (v / 256) ++ [v mod 256]
  end.

Definition be_val (b : bytes) : Z := fold_left (fun acc x => acc * 256 + x) b 0.

Definition to_be32 (v : Z) : bytes := be_bytes 4 v.
Definition to_be64 (v : Z) : bytes := be_bytes 8 v.

Section Lengths.
Context {A : Type}.
Implicit Types l : list A.

Lemma len_nonneg l : 0 <= len l.
Proof. unfold len. lia. Qed.

Lemma len_nil : len (@nil A) = 0.
Proof. reflexivity. Qed.

Lemma len_cons x l : len (x :: l) = 1 + len l.
Proof. unfold len. cbn [length]. lia. Qed.

Lemma len_app l1 l2 : len (l1 ++ l2) = len l1 + len l2.
Proof. unfold len. rewrite length_app. lia. Qed.

Lemma len_zero_inv l : len l <= 0 -> l = [].
Proof. destruct l; [done|]. rewrite len_cons. pose proof (len_nonneg l). lia. Qed.

Lemma len_ztake n l : 0 <= n <= len l -> len (ztake n l) = n.
Proof. unfold len, ztake. rewrite length_take. lia. Qed.

Lemma len_zdrop n l : 0 <= n <= len l -> len (zdrop n l) = len l - n.
Proof. unfold len, zdrop. rewrite length_drop. lia. Qed.

Lemma len_slice a b l : 0 <= a <= b -> b <= len l -> len (slice a b l) = b - a.
Proof. intros. unfold slice. rewrite len_ztake; rewrite ?len_zdrop; lia. Qed.

Lemma ztake_zdrop n l : ztake n l ++ zdrop n l = l.
Proof. apply take_drop. Qed.

Lemma zdrop_0 l : zdrop 0 l = l.
Proof. done. Qed.

Lemma ztake_app_len l1 l2 n : n = len l1 -> ztake n (l1 ++ l2) = l1.
Proof. intros ->. unfold ztake, len. by rewrite Nat2Z.id, take_app_length. Qed.

Lemma zdrop_app_len l1 l2 n : n = len l1 -> zdrop n (l1 ++ l2) = l2.
Proof. intros ->. unfold zdrop, len. by rewrite Nat2Z.id, drop_app_length. Qed.

Lemma zdrop_zdrop a b l : 0 <= a -> 0 <= b -> zdrop a (zdrop b l) = zdrop (b + a) l.
Proof. intros. unfold zdrop. rewrite drop_drop. f_equal. lia. Qed.

Lemma ztake_all n l : len l <= n -> ztake n l = l.
Proof. intros. unfold ztake. apply take_ge. unfold len in *. lia. Qed.

Lemma ztake_ztake_app n l1 l2 : len l1 <= n -> ztake n (l1 ++ l2) = l1 ++ ztake (n - len l1) l2.
Proof.
  intros H. unfold ztake, len in *. rewrite take_app_ge by lia. do 2 f_equal. lia.
Qed.

Lemma zdrop_zdrop_app n l1 l2 : len l1 <= n -> zdrop n (l1 ++ l2) = zdrop (n - len l1) l2.
Proof. intros H. unfold zdrop, len in *. rewrite drop_app_ge by lia. f_equal. lia. Qed.

Lemma slice_app_mid l1 l2 l3 a b :
  a = len l1 -> b = len l1 + len l2 -> slice a b (l1 ++ l2 ++ l3) = l2.
Proof.
  intros -> ->. unfold slice. rewrite zdrop_app_len by done.
  apply ztake_app_len. lia.
Qed.

Lemma slice_prefix l1 l2 b : b = len l1 -> slice 0 b (l1 ++ l2) = l1.
Proof. intros ->. unfold slice. rewrite zdrop_0. apply ztake_app_len. lia. Qed.
End Lengths.

Lemma len_map {A B} (f : A -> B) l : len (map f l) = len l.
Proof. unfold len. by rewrite length_map. Qed.

Lemma len_zeros n : 0 <= n -> len (zeros n) = n.
Proof. intros. unfold len, zeros. rewrite length_replicate. lia. Qed.

#[export] Hint Rewrite @len_nil @len_cons @len_app @len_map : ssh_len.
#[export] Hint Resolve len_nonneg : ssh.

(** Normalise lengths and close the arithmetic that is left. *)
Ltac len_simpl := autorewrite with ssh_len in *.
Ltac len_nonneg_all :=
  repeat match goal with
  | |- context [@len ?A ?l] =>
      lazymatch goal with
      | H : 0 <= @len A l |- _ => fail
      | _ => pose proof (@len_nonneg A l)
      end
  | H0 : context [@len ?A ?l] |- _ =>
      lazymatch goal with
      | H : 0 <= @len A l |- _ => fail
      | _ => pose proof (@len_nonneg A l)
      end
  end.
Ltac len_lia := len_simpl; len_nonneg_all; lia.

Section BigEndian.
Lemma length_be_bytes n v : length (be_bytes n v) = n.
Proof.
  revert v. induction n as [|n IH]; intros v; [done|].
  cbn. rewrite length_app, IH. cbn. lia.
Qed.

Lemma be_val_snoc l x : be_val (l ++ [x]) = be_val l * 256 + x.
Proof. unfold be_val. by rewrite fold_left_app. Qed.

Lemma be_val_be_bytes n v : be_val (be_bytes n v) = v mod 256 ^ Z.of_nat n.
Proof.
  revert v. induction n as [|n IH]; intros v.
  - cbn. by rewrite Z.mod_1_r.
  - cbn [be_bytes]. rewrite be_val_snoc, IH, Nat2Z.inj_succ, Z.pow_succ_r by lia.
    rewrite (Z.rem_mul_r v 256) by (try apply Z.pow_pos_nonneg; lia).
  rewrite (Z.mul_comm 256). apply Z.add_comm.
Qed.

Lemma be_bytes_range n v : is_bytes (be_bytes n v).
Proof.
  unfold is_bytes. revert v. induction n as [|n IH]; intros v; [constructor|].
  cbn. apply Forall_app. split; [apply IH|]. repeat constructor; unfold is_u8, U8_MAX.
  all: pose proof (Z.mod_pos_bound v 256); lia.
Qed.

Lemma be_val_bound l : is_bytes l -> 0 <= be_val l < 256 ^ len l.
Proof.
  intros H. induction l as [|x l IH] using rev_ind; [by cbv|].
  apply Forall_app in H as [Hl Hx]. inversion Hx as [|? ? Hx0 _]; subst.
  unfold is_u8, U8_MAX in Hx0. specialize (IH Hl).
  rewrite be_val_snoc, len_app. change (len [x]) with 1.
  rewrite Z.pow_add_r, Z.pow_1_r by (unfold len; lia). lia.
Qed.

Lemma be_bytes_be_val l : is_bytes l -> be_bytes (length l) (be_val l) = l.
Proof.
  intros H. induction l as [|x l IH] using rev_ind; [done|].
  apply Forall_app in H as [Hl Hx]. inversion Hx as [|? ? Hx0 _]; subst.
  unfold is_u8, U8_MAX in Hx0.
  rewrite length_app, be_val_snoc, Nat.add_comm. cbn [length Nat.add be_bytes].
  rewrite Z.div_add_l, Z.div_small, Z.add_0_r by lia.
  rewrite (Z.add_comm (be_val l * 256)), Z.mod_add, Z.mod_small, IH by (done || lia).
  done.
Qed.
End BigEndian.

Lemma len_to_be32 v : len (to_be32 v) = 4.
Proof. unfold len, to_be32. by rewrite length_be_bytes. Qed.

Lemma len_to_be64 v : len (to_be64 v) = 8.
Proof. unfold len, to_be64. by rewrite length_be_bytes. Qed.

Lemma be_val_to_be32 v : be_val (to_be32 v) = as_u32 v.
Proof. apply be_val_be_bytes. Qed.

Lemma be_val_to_be64 v : be_val (to_be64 v) = v mod 18446744073709551616.
Proof. apply be_val_be_bytes. Qed.

Lemma as_u32_id v : is_u32 v -> as_u32 v = v.
Proof. unfold is_u32, U32_MAX, as_u32. intros. apply Z.mod_small. lia. Qed.

Lemma as_u8_id v : is_u8 v -> as_u8 v = v.
Proof. unfold is_u8, U8_MAX, as_u8. intros. apply Z.mod_small. lia. Qed.

Lemma is_u32_as_u32 v : is_u32 (as_u32 v).
Proof. unfold is_u32, U32_MAX, as_u32. pose proof (Z.mod_pos_bound v 4294967296). lia. Qed.

#[export] Hint Rewrite len_to_be32 len_to_be64 : ssh_len.
#[export] Hint Resolve is_u32_as_u32 : ssh.

Lemma zdrop_app_l {A} n (l l' : list A) : 0 <= n <= len l -> zdrop n (l ++ l') = zdrop n l ++ l'.
Proof. intros H. unfold zdrop, len in *. by rewrite drop_app_le by lia. Qed.

Lemma zdrop_all {A} (l : list A) : zdrop (len l) l = [].
Proof. unfold zdrop, len. rewrite Nat2Z.id. by apply drop_ge. Qed.

Lemma slice_app_l {A} a b (l l' : list A) :
  0 <= a <= b -> b <= len l -> slice a b (l ++ l') = slice a b l.
Proof.
  intros H1 H2. unfold slice, ztake, zdrop, len in *.
  rewrite drop_app_le by lia. rewrite take_app_le; [done|]. rewrite length_drop. lia.
Qed.

Lemma znth_app_l l l' i : 0 <= i < len l -> znth (l ++ l') i = znth l i.
Proof. intros H. unfold znth, len in *. rewrite app_nth1; [done|lia]. Qed.

Lemma is_bytes_app a b : is_bytes (a ++ b) <-> is_bytes a /\ is_bytes b.
Proof. apply Forall_app. Qed.

Lemma is_bytes_ztake n b : is_bytes b -> is_bytes (ztake n b).
Proof. apply Forall_take. Qed.

Lemma is_bytes_zdrop n b : is_bytes b -> is_bytes (zdrop n b).
Proof. apply Forall_drop. Qed.

Lemma is_bytes_slice i j b : is_bytes b -> is_bytes (slice i j b).
Proof. intros H. by apply is_bytes_ztake, is_bytes_zdrop. Qed.

#[export] Hint Resolve is_bytes_ztake is_bytes_zdrop is_bytes_slice : ssh.

Lemma beq_refl b : beq b b = true.
Proof. unfold beq. by rewrite bool_decide_eq_true. Qed.

Lemma beq_true a b : beq a b = true <-> a = b.
Proof. unfold beq. by rewrite bool_decide_eq_true. Qed.

Lemma beq_false a b : beq a b = false <-> a <> b.
Proof. unfold beq. by rewrite bool_decide_eq_false. Qed.

#[export] Hint Rewrite beq_refl : ssh_len.

(** * Outcomes and the state-and-error monad

    A [&mut self] method that returns [Result<A>] is a function from the state
    to an outcome and the state it leaves: [?] keeps what was mutated before the
    error.  [Panic] is a Rust panic (an [unwrap] on [None], a slice out of range,
    an integer overflow with overflow checks on); [OutOfFuel] is a loop that the
    fuel of its definition cuts short. *)

Inductive outcome (E A : Type) : Type :=
| Ok (a : A)
| Err (e : E)
| Panic
| OutOfFuel.
Arguments Ok {E A} a.
Arguments Err {E A} e.
Arguments Panic {E A}.
Arguments OutOfFuel {E A}.

Definition M (E S A : Type) : Type := S -> outcome E A * S.

Section Monad.
Context {E S : Type}.

Definition ret {A} (a : A) : M E S A := fun s => (Ok a, s).
Definition err {A} (e : E) : M E S A := fun s => (Err e, s).
Definition panic {A} : M E S A := fun s => (Panic, s).
Definition out_of_fuel {A} : M E S A := fun s => (OutOfFuel, s).
Definition bind {A B} (m : M E S A) (f : A -> M E S B) : M E S B :=
  fun s => match m s with
           | (Ok a, s') => f a s'
           | (Err e, s') => (Err e, s')
           | (Panic, s') => (Panic, s')
           | (OutOfFuel, s') => (OutOfFuel, s')
           end.
Definition get : M E S S := fun s => (Ok s, s).
Definition gets {A} (f : S -> A) : M E S A := fun s => (Ok (f s), s).
Definition modify (f : S -> S) : M E S unit := fun s => (Ok tt, f s).
Definition lift {A} (o : outcome E A) : M E S A := fun s => (o, s).
(** [opt.ok_or(e)?] and [opt.unwrap()]. *)
Definition ok_or {A} (o : option A) (e : E) : M E S A :=
  match o with Some a => ret a | None => err e end.
Definition unwrap {A} (o : option A) : M E S A :=
  match o with Some a => ret a | None => panic end.
Definition when (b : bool) (m : M E S unit) : M E S unit :=
  if b then m else ret tt.
(** Checked arithmetic at a width: out of range panics. *)
Definition checked (hi : Z) (x : Z) : M E S Z :=
  if (0 <=? x) && (x <=? hi) then ret x else panic.
(** Run a computation on a component of the state. *)
Definition zoom {T A} (g : S -> T) (p : T -> S -> S) (m : M E T A) : M E S A :=
  fun s => let '(o, t) := m (g s) in (o, p t s).
(** Run a computation on a local value (a [Reader]) and hand it back. *)
Definition on_local {T A} (m : M E T A) (t : T) : M E S (A * T) :=
  fun s => match m t with
           | (Ok a, t') => (Ok (a, t'), s)
           | (Err e, _) => (Err e, s)
           | (Panic, _) => (Panic, s)
           | (OutOfFuel, _) => (OutOfFuel, s)
           end.
Fixpoint mfor {A} (l : list A) (f : A -> M E S unit) : M E S unit :=
  match l with
  | [] => ret tt
  | x :: l' => bind (f x) (fun _ => mfor l' f)
  end.
End Monad.

(** A bind that returned normally: both parts did. *)
Lemma bind_Ok {E S A B} (m : M E S A) (f : A -> M E S B) s b s2 :
  bind m f s = (Ok b, s2) -> exists a s1, m s = (Ok a, s1) /\ f a s1 = (Ok b, s2).
Proof. unfold bind. destruct (m s) as [[a|e| |] s1]; intros; simplify_eq; eauto. Qed.

(** [fst] of a run: the value of a computation whose state is dropped. *)
Definition run {E S A} (m : M E S A) (s : S) : outcome E A := fst (m s).

Notation "'let*' x ':=' m 'in' k" := (bind m (fun x => k))
  (at level 10, x name, m at level 100, k at level 200) : prog_scope.
Notation "'let*' ''' p ':=' m 'in' k" :=
  (bind m (fun x => match x with p => k end))
  (at level 10, p pattern, m at level 100, k at level 200) : prog_scope.
Notation "m ';;;' k" := (bind m (fun _ => k))
  (at level 199, right associativity) : prog_scope.

Definition omap_ok {E A B} (f : A -> B) (o : outcome E A) : outcome E B :=
  match o with Ok a => Ok (f a) | Err e => Err e | Panic => Panic | OutOfFuel => OutOfFuel end.

Definition is_ok {E A} (o : outcome E A) : bool :=
  match o with Ok _ => true | _ => false end.

(** ** Weakest preconditions

    [wp m Q X s]: run from [s], [m] returns (it neither panics nor runs out of
    fuel), and what it returns satisfies [Q] (normally) or [X] (with an error). *)
Definition wp {E S A} (m : M E S A) (Q : A -> S -> Prop) (X : E -> S -> Prop) (s : S) : Prop :=
  match m s with
  | (Ok a, s') => Q a s'
  | (Err e, s') => X e s'
  | _ => False
  end.

Section WP.
Context {E S : Type}.
Implicit Types s : S.

Lemma wp_bind {A B} (m : M E S A) (f : A -> M E S B) Q X s :
  wp m (fun a => wp (f a) Q X) X s -> wp (bind m f) Q X s.
Proof. unfold wp, bind. destruct (m s) as [[]]; auto. Qed.

Lemma wp_bind_inv {A B} (m : M E S A) (f : A -> M E S B) Q X s :
  wp (bind m f) Q X s -> wp m (fun a => wp (f a) Q X) X s.
Proof. unfold wp, bind. destruct (m s) as [[]]; auto. Qed.

Lemma wp_mono {A} (m : M E S A) (Q Q' : A -> S -> Prop) (X X' : E -> S -> Prop) s :
  wp m Q X s -> (forall a s', Q a s' -> Q' a s') -> (forall e s', X e s' -> X' e s') ->
  wp m Q' X' s.
Proof. unfold wp. destruct (m s) as [[]]; auto. Qed.

Lemma wp_ret {A} (a : A) (Q : A -> S -> Prop) X s : Q a s -> wp (E := E) (ret a) Q X s.
Proof. done. Qed.

Lemma wp_err {A} e (Q : A -> S -> Prop) (X : E -> S -> Prop) s : X e s -> wp (err e) Q X s.
Proof. done. Qed.

Lemma wp_get Q X s : Q s s -> wp (E := E) get Q X s.
Proof. done. Qed.

Lemma wp_gets {A} (f : S -> A) Q X s : Q (f s) s -> wp (E := E) (gets f) Q X s.
Proof. done. Qed.

Lemma wp_modify f Q X s : Q tt (f s) -> wp (E := E) (modify f) Q X s.
Proof. done. Qed.

Lemma wp_ok_or {A} (o : option A) (e : E) (Q : A -> S -> Prop) (X : E -> S -> Prop) s :
  (forall a, o = Some a -> Q a s) -> (o = None -> X e s) -> wp (ok_or o e) Q X s.
Proof. destruct o; cbn; auto. Qed.

Lemma wp_unwrap {A} (o : option A) (Q : A -> S -> Prop) (X : E -> S -> Prop) s :
  (exists a, o = Some a /\ Q a s) -> wp (unwrap o) Q X s.
Proof. intros (a & -> & H). done. Qed.

Lemma wp_when b (m : M E S unit) Q X s :
  (b = true -> wp m Q X s) -> (b = false -> Q tt s) -> wp (when b m) Q X s.
Proof. destruct b; cbn; auto. Qed.

Lemma wp_if {A} (b : bool) (m1 m2 : M E S A) Q X s :
  (b = true -> wp m1 Q X s) -> (b = false -> wp m2 Q X s) ->
  wp (if b then m1 else m2) Q X s.
Proof. destruct b; auto. Qed.

Lemma wp_checked hi x (Q : Z -> S -> Prop) (X : E -> S -> Prop) s :
  0 <= x <= hi -> Q x s -> wp (checked hi x) Q X s.
Proof.
  intros H HQ. unfold checked.
  destruct ((0 <=? x) && (x <=? hi)) eqn:Hb; [done|]. lia.
Qed.

Lemma wp_on_local {T A} (m : M E T A) t (Q : A * T -> S -> Prop) (X : E -> S -> Prop) s :
  wp m (fun a t' => Q (a, t') s) (fun e _ => X e s) t -> wp (on_local m t) Q X s.
Proof. unfold wp, on_local. destruct (m t) as [[]]; auto. Qed.

Lemma wp_zoom {T A} g p (m : M E T A) (Q : A -> S -> Prop) (X : E -> S -> Prop) s :
  wp m (fun a t => Q a (p t s)) (fun e t => X e (p t s)) (g s) -> wp (zoom g p m) Q X s.
Proof. unfold wp, zoom. destruct (m (g s)) as [[]]; auto. Qed.

Lemma wp_lift {A} (o : outcome E A) (Q : A -> S -> Prop) (X : E -> S -> Prop) s :
  match o with Ok a => Q a s | Err e => X e s | _ => False end -> wp (lift o) Q X s.
Proof. unfold wp, lift. by destruct o. Qed.

Lemma wp_mfor {A} (I : S -> Prop) (X : E -> S -> Prop) (l : list A) f s :
  (forall x s', I s' -> wp (f x) (fun _ => I) X s') ->
  I s -> wp (mfor l f) (fun _ => I) X s.
Proof.
  intros Hf. revert s. induction l as [|x l IH]; intros s Hs; [exact Hs|].
  apply wp_bind. eapply wp_mono; [by apply Hf| |done]. cbn. auto.
Qed.

Lemma wp_run {A} (m : M E S A) Q X s :
  wp m Q X s ->
  (exists a s', m s = (Ok a, s') /\ Q a s') \/ (exists e s', m s = (Err e, s') /\ X e s').
Proof.
  unfold wp. destruct (m s) as [[a|e| |] s'] eqn:Hm; try done; intros HQ.
  - left. eauto.
  - right. eauto.
Qed.

(** The strongest use: the value is known, so the [wp] is a conjunction. *)
Lemma wp_value {A} (m : M E S A) (Q : A -> S -> Prop) X s a s' :
  m s = (Ok a, s') -> wp m Q X s <-> Q a s'.
Proof. unfold wp. by intros ->. Qed.
End WP.

(** One symbolic step through a computation, by its head. *)
Ltac wp_step :=
  lazymatch goal with
  | |- wp (bind _ _) _ _ _ => apply wp_bind
  | |- wp (ret _) _ _ _ => apply wp_ret
  | |- wp (err _) _ _ _ => apply wp_err
  | |- wp get _ _ _ => apply wp_get
  | |- wp (gets _) _ _ _ => apply wp_gets
  | |- wp (modify _) _ _ _ => apply wp_modify
  | |- wp (ok_or _ _) _ _ _ => apply wp_ok_or; intros
  | |- wp (when _ _) _ _ _ => apply wp_when; intros
  | |- wp (if _ then _ else _) _ _ _ => apply wp_if; intros
  | |- wp (on_local _ _) _ _ _ => apply wp_on_local
  | |- wp (match ?x with _ => _ end) _ _ _ => destruct x eqn:?
  end; cbv beta.
Ltac wp_steps := repeat wp_step.

(** ** Frames

    [stays R m]: however [m] ends, the state it leaves is related to the state it started
    in, for a preorder [R]; [keeps f m] is the case where the part [f] does not change. *)
Definition stays {E S A} (R : S -> S -> Prop) (m : M E S A) : Prop := forall s, R s (snd (m s)).
Definition same {S T} (f : S -> T) (s s' : S) : Prop := f s' = f s.
Abbreviation keeps f := (stays (same f)).

#[export] Instance same_preorder {S T} (f : S -> T) : PreOrder (same f).
Proof. unfold same. split; [done|]. intros x y z. congruence. Qed.

Section Stays.
Context {E S : Type} (R : S -> S -> Prop) `{!PreOrder R}.

Lemma stays_bind {A B} (m : M E S A) (k : A -> M E S B) :
  stays R m -> (forall a, stays R (k a)) -> stays R (bind m k).
Proof.
  intros Hm Hk s. unfold bind. specialize (Hm s). destruct (m s) as [[a|e| |] s'];
    cbn in *; [|done..]. etransitivity; [exact Hm|apply Hk].
Qed.

Lemma stays_modify u : (forall s, R s (u s)) -> stays (E := E) R (modify u).
Proof. intros H s. apply H. Qed.

Lemma stays_ret {A} (a : A) : stays (E := E) R (ret a).
Proof. intros s. reflexivity. Qed.
Lemma stays_err {A} e : stays R (err (A := A) (E := E) e).
Proof. intros s. reflexivity. Qed.
Lemma stays_get : stays (E := E) R get.
Proof. intros s. reflexivity. Qed.
Lemma stays_gets {A} (g : S -> A) : stays (E := E) R (gets g).
Proof. intros s. reflexivity. Qed.
Lemma stays_lift {A} (o : outcome E A) : stays R (lift o).
Proof. intros s. reflexivity. Qed.
Lemma stays_fuel {A} : stays (E := E) R (out_of_fuel (A := A)).
Proof. intros s. reflexivity. Qed.
Lemma stays_panic {A} : stays (E := E) R (panic (A := A)).
Proof. intros s. reflexivity. Qed.
Lemma stays_ok_or {A} (o : option A) (e : E) : stays R (ok_or o e).
Proof. intros s. by destruct o. Qed.
Lemma stays_unwrap {A} (o : option A) : stays (E := E) R (unwrap o).
Proof. intros s. by destruct o. Qed.
Lemma stays_checked hi x : stays (E := E) R (checked hi x).
Proof. intros s. unfold checked. by destruct (_ && _). Qed.
Lemma stays_when b (m : M E S unit) : stays R m -> stays R (when b m).
Proof. destruct b; [done|]. intros _ s. reflexivity. Qed.
Lemma stays_zoom {U A} (g : S -> U) p (m : M E U A) :
  (forall t s, R s (p t s)) -> stays R (zoom g p m).
Proof. intros H s. unfold zoom. destruct (m (g s)) as [o t]. apply H. Qed.
(** A component whose own relation implies ours. *)
Lemma stays_zoom_rel {U A} (R' : U -> U -> Prop) (g : S -> U) p (m : M E U A) :
  stays R' m -> (forall t s, R' (g s) t -> R s (p t s)) -> stays R (zoom g p m).
Proof.
  intros Hm H s. specialize (Hm (g s)). unfold zoom. destruct (m (g s)) as [o t]. by apply H.
Qed.
Lemma stays_on_local {U A} (m : M E U A) t : stays R (on_local m t).
Proof. intros s. unfold on_local. by destruct (m t) as [[]]. Qed.
Lemma stays_mfor {A} (l : list A) (k : A -> M E S unit) : (forall x, stays R (k x)) -> stays R (mfor l k).
Proof.
  intros H. induction l as [|x l IH]; cbn [mfor]; [apply stays_ret|].
  by apply stays_bind; [apply H|].
Qed.
Lemma stays_mono {A} (R' : S -> S -> Prop) (m : M E S A) :
  (forall s s', R' s s' -> R s s') -> stays R' m -> stays R m.
Proof. intros HR Hm s. by apply HR. Qed.
End Stays.

(** What [m] does by its [wp] and by its frame. *)
Lemma wp_stays {E S A} (R : S -> S -> Prop) (m : M E S A) Q X s :
  stays R m -> wp m Q X s ->
  wp m (fun a s' => Q a s' /\ R s s') (fun e s' => X e s' /\ R s s') s.
Proof. intros Hk. specialize (Hk s). unfold wp. by destruct (m s) as [[] ?]. Qed.

(** Frames compose by the shape of the program; lemmas of the database [frame] close the
    calls of other methods. *)
Create HintDb frame.
Ltac stays_leaf := cbv beta; try unfold same; first [reflexivity | done | auto with frame].
Ltac keeps_step :=
  cbv beta zeta;
  lazymatch goal with
  | |- stays _ (bind _ _) => apply stays_bind; [typeclasses eauto| |intros ?]
  | |- stays _ (modify _) => refine (stays_modify _ _ _); intros; solve [stays_leaf]
  | |- stays _ (ret _) => apply stays_ret; typeclasses eauto
  | |- stays _ (err _) => apply stays_err; typeclasses eauto
  | |- stays _ get => apply stays_get; typeclasses eauto
  | |- stays _ (gets _) => apply stays_gets; typeclasses eauto
  | |- stays _ (lift _) => apply stays_lift; typeclasses eauto
  | |- stays _ (ok_or _ _) => apply stays_ok_or; typeclasses eauto
  | |- stays _ (unwrap _) => apply stays_unwrap; typeclasses eauto
  | |- stays _ (checked _ _) => apply stays_checked; typeclasses eauto
  | |- stays _ (when _ _) => apply stays_when; [typeclasses eauto|]
  | |- stays _ (zoom _ _ _) => apply stays_zoom; intros; solve [stays_leaf]
  | |- stays _ (on_local _ _) => apply stays_on_local; typeclasses eauto
  | |- stays _ (mfor _ _) => apply stays_mfor; [typeclasses eauto|intros ?]
  | |- stays _ out_of_fuel => apply stays_fuel; typeclasses eauto
  | |- stays _ panic => apply stays_panic; typeclasses eauto
  | |- stays _ (if ?b then _ else _) => destruct b
  | |- stays _ (match ?x with _ => _ end) => destruct x
  | |- _ => solve [eauto with frame]
  end.
Ltac keeps_auto := repeat keeps_step.

(** * Record updates

    [set f u r] is [r] with its field [f] passed through [u].  A record declares
    how it is rebuilt from its fields ([Eta]); the setter of each field is found
    from that by [solve_setter]. *)
Class Eta (R : Type) := eta : R -> R.
Class Setter {R T : Type} (f : R -> T) := set : (T -> T) -> R -> R.
Arguments set {R T} f {_} _ _.

Ltac solve_setter :=
  lazymatch goal with
  | |- @Setter ?R ?T ?f =>
      let body := eval hnf in (@eta R _) in
      let p := eval pattern f in body in
      lazymatch p with
      | ?F _ => let t := eval cbv beta in (fun (u : T -> T) (r : R) => F (fun r' => u (f r')) r) in
                exact t
      end
  end.
#[export] Hint Extern 1 (Setter _) => solve_setter : typeclass_instances.

Notation "r '<|' f ':=' v '|>'" := (set f (fun _ => v) r)
  (at level 1, left associativity, f at level 0, format "r  <| f  :=  v |>") : prog_scope.
Notation "r '<|' f '::=' u '|>'" := (set f u r)
  (at level 1, left associativity, f at level 0, format "r  <| f  ::=  u |>") : prog_scope.
(** [self.f = v] and [self.f op= v] as computations. *)
Notation "f '<-!' v" := (modify (set f (fun _ => v))) (at level 95, no associativity) : prog_scope.
Notation "f '<-~' u" := (modify (set f u)) (at level 95, no associativity) : prog_scope.

(** Reduce [field (record <| other := v |>)] without unfolding the records. *)
Ltac rsimpl1 t k :=
  match t with
  | context [?g (@set ?R ?T ?f ?i ?u ?r)] =>
      first [ let x := constr:(g r) in
              unify (g (@set R T f i u r)) x;
              k (g (@set R T f i u r)) x
            | let x := constr:(u (g r)) in
              let x := eval cbv beta in x in
              unify (g (@set R T f i u r)) x;
              k (g (@set R T f i u r)) x ]
  end.
Ltac rsimpl_goal :=
  repeat match goal with
  | |- ?t => rsimpl1 t ltac:(fun a b => change a with b)
  end.
Ltac rsimpl_in H :=
  repeat (let t := type of H in rsimpl1 t ltac:(fun a b => change a with b in H)).
Ltac rsimpl :=
  rsimpl_goal; repeat match goal with H : context [set _ _ _] |- _ => progress (rsimpl_in H) end.

(** * Finite sequences of steps *)
Inductive steps {St : Type} (R : St -> St -> Prop) : St -> St -> Prop :=
| steps_refl s : steps R s s
| steps_cons s1 s2 s3 : R s1 s2 -> steps R s2 s3 -> steps R s1 s3.

Lemma steps_snoc {St} (R : St -> St -> Prop) s1 s2 s3 : steps R s1 s2 -> R s2 s3 -> steps R s1 s3.
Proof. induction 1; intros; econstructor; eauto. constructor. Qed.

Lemma steps_invariant {St} (R : St -> St -> Prop) (I : St -> Prop) :
  (forall s s', R s s' -> I s -> I s') ->
  forall s s', steps R s s' -> I s -> I s'.
Proof. intros Hstep s s' H. induction H; eauto. Qed.
