(* ===== verification/Errors.v ===== *)
(** Errors, message numbers and UTF-8: [error.rs], [msg.rs], and the part of
    [core::str] the parsers use. *)
From S2P Require Import Prelude.

(** [SshError] (error.rs); the static strings are kept. *)
Inductive SshError : Type :=
| BadVersion (s : string)
| BadPacket (s : string)
| Encoding (s : string)
| NoCommonAlgorithm (s : string)
| Kex (s : string)
| Key (s : string)
| Compression (s : string)
| Integrity
| Protocol (s : string)
| AuthFailed.

#[export] Instance SshError_eq_dec : EqDecision SshError.
Proof. solve_decision. Defined.

Abbreviation result := (outcome SshError).

(** The text of an error, as [Display] prints it. *)
Definition display_error (e : SshError) : bytes :=
  match e with
  | BadVersion s => str "bad SSH identification string: " ++ str s
  | BadPacket s => str "malformed binary packet: " ++ str s
  | Encoding s => str "wire encoding error: " ++ str s
  | NoCommonAlgorithm s => str "no common algorithm for " ++ str s
  | Kex s => str "key exchange failed: " ++ str s
  | Key s => str "key error: " ++ str s
  | Compression s => str "compression error: " ++ str s
  | Integrity => str "message integrity check failed"
  | Protocol s => str "protocol violation: " ++ str s
  | AuthFailed => str "authentication failed"
  end.

(** [msg.rs]: the first byte of every payload. *)
Module msg.
Definition DISCONNECT : Z := 1.
Definition IGNORE : Z := 2.
Definition UNIMPLEMENTED : Z := 3.
Definition DEBUG : Z := 4.
Definition SERVICE_REQUEST : Z := 5.
Definition SERVICE_ACCEPT : Z := 6.
Definition KEXINIT : Z := 20.
Definition NEWKEYS : Z := 21.
Definition KEX_ECDH_INIT : Z := 30.
Definition KEX_ECDH_REPLY : Z := 31.
Definition USERAUTH_REQUEST : Z := 50.
Definition USERAUTH_FAILURE : Z := 51.
Definition USERAUTH_SUCCESS : Z := 52.
Definition USERAUTH_BANNER : Z := 53.
Definition USERAUTH_PK_OK : Z := 60.
Definition GLOBAL_REQUEST : Z := 80.
Definition REQUEST_SUCCESS : Z := 81.
Definition REQUEST_FAILURE : Z := 82.
Definition CHANNEL_OPEN : Z := 90.
Definition CHANNEL_OPEN_CONFIRMATION : Z := 91.
Definition CHANNEL_OPEN_FAILURE : Z := 92.
Definition CHANNEL_WINDOW_ADJUST : Z := 93.
Definition CHANNEL_DATA : Z := 94.
Definition CHANNEL_EXTENDED_DATA : Z := 95.
Definition CHANNEL_EOF : Z := 96.
Definition CHANNEL_CLOSE : Z := 97.
Definition CHANNEL_REQUEST : Z := 98.
Definition CHANNEL_SUCCESS : Z := 99.
Definition CHANNEL_FAILURE : Z := 100.
(** [msg::disconnect] reason codes. *)
Definition PROTOCOL_ERROR : Z := 2.
Definition KEY_EXCHANGE_FAILED : Z := 3.
Definition MAC_ERROR : Z := 5.
Definition NO_MORE_AUTH_METHODS_AVAILABLE : Z := 14.
(** [msg::extended_data]. *)
Definition STDERR : Z := 1.
End msg.

(** * UTF-8

    [core::str::from_utf8] accepts exactly the well-formed sequences of the
    Unicode standard (table 3-7): shortest form, no surrogates, at most U+10FFFF.
    [utf8_char b] decodes one scalar value at the front of [b], with its width. *)
Definition cont (x : Z) : bool := (128 <=? x) && (x <=? 191).
Definition within (lo hi x : Z) : bool := (lo <=? x) && (x <=? hi).

Definition utf8_char (b : bytes) : option (Z * Z) :=
  match b with
  | [] => None
  | b0 :: t =>
      if within 0 127 b0 then Some (b0, 1)
      else match t with
      | [] => None
      | b1 :: t1 =>
          if within 194 223 b0 then
            if cont b1 then Some ((b0 - 192) * 64 + (b1 - 128), 2) else None
          else match t1 with
          | [] => None
          | b2 :: t2 =>
              if within 224 239 b0 then
                if within (if b0 =? 224 then 160 else 128) (if b0 =? 237 then 159 else 191) b1
                   && cont b2
                then Some ((b0 - 224) * 4096 + (b1 - 128) * 64 + (b2 - 128), 3) else None
              else match t2 with
              | [] => None
              | b3 :: _ =>
                  if within 240 244 b0 then
                    if within (if b0 =? 240 then 144 else 128) (if b0 =? 244 then 143 else 191) b1
                       && cont b2 && cont b3
                    then Some ((b0 - 240) * 262144 + (b1 - 128) * 4096 + (b2 - 128) * 64
                               + (b3 - 128), 4)
                    else None
                  else None
              end
          end
      end
  end.

Fixpoint utf8_valid_fuel (fuel : nat) (b : bytes) : bool :=
  match b with
  | [] => true
  | _ =>
      match fuel with
      | O => false
      | S fuel' =>
          match utf8_char b with
          | Some (_, n) => utf8_valid_fuel fuel' (zdrop n b)
          | None => false
          end
      end
  end.

(** [core::str::from_utf8(b).is_ok()]: every character takes at least one byte,
    so the length of [b] is enough fuel. *)
Definition utf8_valid (b : bytes) : bool := utf8_valid_fuel (length b) b.

Definition is_ascii (b : bytes) : bool := forallb (fun x => within 0 127 x) b.

Lemma utf8_char_width b c n : utf8_char b = Some (c, n) -> 1 <= n <= 4 /\ n <= len b.
Proof.
  unfold utf8_char.
  destruct b as [|b0 [|b1 [|b2 [|b3 b]]]]; intros H;
    repeat case_match; simplify_eq; len_lia.
Qed.

Lemma utf8_ascii b : is_ascii b = true -> utf8_valid b = true.
Proof.
  unfold utf8_valid, is_ascii. induction b as [|x b IH]; [done|]. cbn.
  intros [Hx Hb]%andb_prop. rewrite Hx. exact (IH Hb).
Qed.

(** The fuel is enough: validity does not depend on it. *)
Lemma utf8_valid_fuel_enough n b :
  (length b <= n)%nat -> utf8_valid_fuel n b = utf8_valid b.
Proof.
  unfold utf8_valid.
  remember (length b) as k eqn:Hk. revert b Hk n.
  induction k as [k IH] using lt_wf_ind. intros b -> n Hn.
  destruct b as [|x b']; [by destruct n|].
  destruct n as [|n]; [cbn in Hn; lia|].
  change (length (x :: b')) with (S (length b')). cbn [utf8_valid_fuel].
  destruct (utf8_char (x :: b')) as [[c w]|] eqn:Hc; [|done].
  apply utf8_char_width in Hc as [Hw1 Hw2].
  assert (Hl : (length (zdrop w (x :: b')) < length (x :: b'))%nat).
  { unfold zdrop. rewrite length_drop. cbn. lia. }
  cbn [length] in Hl, Hn.
  rewrite (IH _ Hl _ eq_refl n), (IH _ Hl _ eq_refl (length b')) by lia. done.
Qed.

Lemma utf8_char_app b b' c n : utf8_char b = Some (c, n) -> utf8_char (b ++ b') = Some (c, n).
Proof.
  unfold utf8_char.
  destruct b as [|b0 [|b1 [|b2 [|b3 b]]]]; intros H; cbn [app];
    repeat case_match; simplify_eq; done.
Qed.

(** The concatenation of two strings is a string. *)
Lemma utf8_valid_app b1 b2 :
  utf8_valid b1 = true -> utf8_valid b2 = true -> utf8_valid (b1 ++ b2) = true.
Proof.
  intros H1 H2. remember (length b1) as k eqn:Hk. revert b1 Hk H1.
  induction k as [k IH] using lt_wf_ind. intros b1 -> H1.
  destruct b1 as [|x b1']; [done|].
  unfold utf8_valid in H1. cbn [length utf8_valid_fuel] in H1.
  destruct (utf8_char (x :: b1')) as [[c w]|] eqn:Hc; [|done].
  pose proof (utf8_char_width _ _ _ Hc) as [Hw1 Hw2].
  assert (Hl : (length (zdrop w (x :: b1')) < length (x :: b1'))%nat).
  { unfold zdrop. rewrite length_drop. cbn. lia. }
  rewrite utf8_valid_fuel_enough in H1 by (cbn in Hl; lia).
  specialize (IH _ Hl _ eq_refl H1).
  unfold utf8_valid. cbn [length app utf8_valid_fuel].
  change (x :: b1' ++ b2) with ((x :: b1') ++ b2).
  rewrite (utf8_char_app _ b2 _ _ Hc).
  assert (Hd : zdrop w ((x :: b1') ++ b2) = zdrop w (x :: b1') ++ b2).
  { unfold zdrop, len in *. rewrite drop_app_le by lia. done. }
  rewrite Hd, utf8_valid_fuel_enough; [done|].
  rewrite length_app in *. cbn [length] in Hl. rewrite length_app. lia.
Qed.

#[export] Hint Resolve utf8_ascii utf8_valid_app : ssh.
