(* ===== verification/Wire.v ===== *)
(** The SSH wire primitives of [wire.rs]: [Module Reader] and [Module Writer],
    and their round trips. *)
From S2P Require Import Prelude Errors.

Definition MAX_NAME_LIST_ENTRIES : Z := 256.

(** [struct Reader]: a cursor over a borrowed buffer. *)
Record Reader := mkReader { buf : bytes; pos : Z }.
#[export] Instance eta_Reader : Eta Reader := fun r => mkReader (buf r) (pos r).

Abbreviation RM := (M SshError Reader).

(** [str::split(sep)]: one piece more than there are separators. *)
Fixpoint split_on (sep : Z) (l : bytes) : list bytes :=
  match l with
  | [] => [[]]
  | x :: l' =>
      if x =? sep then [] :: split_on sep l'
      else match split_on sep l' with
           | h :: t => (x :: h) :: t
           | [] => [[x]]
           end
  end.

Definition count_byte (c : Z) (l : bytes) : Z := len (filter (fun x => x = c) l).

Module Reader.
Definition new (b : bytes) : Reader := mkReader b 0.

Definition remaining (r : Reader) : bytes := zdrop (pos r) (buf r).

Definition is_empty (r : Reader) : bool := len (buf r) <=? pos r.

Definition take (n : Z) : RM bytes :=
  let* r := get in
  let fin := pos r + n in
  if U64_MAX <? fin then err (Encoding "length overflow")
  else if len (buf r) <? fin then err (Encoding "unexpected end of buffer")
  else
    pos <-! fin ;;;
    ret (slice (pos r) fin (buf r)).

Definition u8 : RM Z :=
  let* b := take 1 in ret (znth b 0).

Definition boolean : RM bool :=
  let* x := u8 in ret (negb (x =? 0)).

Definition u32 : RM Z :=
  let* b := take 4 in ret (be_val b).

Definition u64 : RM Z :=
  let* b := take 8 in ret (be_val b).

Definition string : RM bytes :=
  let* n := u32 in take n.

Definition utf8 : RM bytes :=
  let* s := string in
  if utf8_valid s then ret s else err (Encoding "invalid utf-8").

Definition mpint : RM bytes := string.

Definition name_list : RM (list bytes) :=
  let* s := string in
  if len s =? 0 then ret []
  else if negb (is_ascii s) then err (Encoding "non-ascii name-list")
  else if MAX_NAME_LIST_ENTRIES <=? count_byte 44 s then err (Encoding "name-list too long")
  else if negb (utf8_valid s) then err (Encoding "invalid name-list")
  else ret (split_on 44 s).
End Reader.

(** [struct Writer]: an owned buffer that grows at its end.  The methods take the
    writer last, so that [w >>> Writer.u8 v] reads as [w.u8(v)]. *)
Record Writer := mkWriter { wbuf : bytes }.

Notation "w '>>>' f" := (f w) (at level 50, left associativity, only parsing) : prog_scope.

(** The names of a list, with a comma before every one but the first. *)
Fixpoint join_rest (names : list bytes) : bytes :=
  match names with
  | [] => []
  | n :: names' => 44 :: n ++ join_rest names'
  end.

Definition join_names (names : list bytes) : bytes :=
  match names with
  | [] => []
  | n :: names' => n ++ join_rest names'
  end.

(** [iter().position(|&b| b != 0)]. *)
Fixpoint first_nonzero (l : bytes) : option Z :=
  match l with
  | [] => None
  | x :: l' => if x =? 0 then Z.succ <$> first_nonzero l' else Some 0
  end.

Definition sum_len (names : list bytes) : Z := fold_right (fun n acc => len n + acc) 0 names.

Module Writer.
Definition new : Writer := mkWriter [].
Definition with_capacity (cap : Z) : Writer := mkWriter [].
Definition into_bytes (w : Writer) : bytes := wbuf w.
Definition as_slice (w : Writer) : bytes := wbuf w.
Definition wlen (w : Writer) : Z := len (wbuf w).
Definition is_empty (w : Writer) : bool := len (wbuf w) =? 0.

Definition raw (b : bytes) (w : Writer) : Writer := mkWriter (wbuf w ++ b).
Definition u8 (v : Z) (w : Writer) : Writer := mkWriter (wbuf w ++ [v]).
Definition boolean (v : bool) (w : Writer) : Writer := mkWriter (wbuf w ++ [if v then 1 else 0]).
Definition u32 (v : Z) (w : Writer) : Writer := mkWriter (wbuf w ++ to_be32 v).
Definition u64 (v : Z) (w : Writer) : Writer := mkWriter (wbuf w ++ to_be64 v).

Definition string (b : bytes) (w : Writer) : Writer :=
  w >>> u32 (as_u32 (len b)) >>> raw b.

Definition name_list (names : list bytes) (w : Writer) : Writer :=
  let commas := saturating_sub (len names) 1 in
  let total := sum_len names + commas in
  w >>> u32 (as_u32 total) >>> raw (join_names names).

Definition mpint (magnitude : bytes) (w : Writer) : Writer :=
  match first_nonzero magnitude with
  | None => w >>> u32 0
  | Some start =>
      let mag := zdrop start magnitude in
      if negb (Z.land (znth mag 0) 128 =? 0)
      then w >>> u32 (as_u32 (len mag + 1)) >>> u8 0 >>> raw mag
      else w >>> string mag
  end.
End Writer.

(** * Round trips

    [reads p b x]: wherever [b] stands in a buffer, [p] started at it yields [x]
    and leaves the cursor just after it. *)
Definition reads {A} (p : RM A) (b : bytes) (x : A) : Prop :=
  forall pre post, len (pre ++ b ++ post) <= U64_MAX ->
    p (mkReader (pre ++ b ++ post) (len pre)) =
      (Ok x, mkReader (pre ++ b ++ post) (len pre + len b)).

Section Reads.
Lemma reads_ret {A} (x : A) : reads (ret x) [] x.
Proof. intros pre post _. unfold ret. do 2 f_equal. len_lia. Qed.

Lemma reads_bind {A B} (p : RM A) (f : A -> RM B) b1 b2 x y :
  reads p b1 x -> reads (f x) b2 y -> reads (bind p f) (b1 ++ b2) y.
Proof.
  intros H1 H2 pre post. rewrite <- (app_assoc b1 b2 post). intros Hl. unfold bind.
  rewrite H1 by done.
  replace (pre ++ b1 ++ b2 ++ post) with ((pre ++ b1) ++ b2 ++ post) by by rewrite <- app_assoc.
  replace (len pre + len b1) with (len (pre ++ b1)) by len_lia.
  rewrite H2 by (rewrite <- !app_assoc in *; done).
  f_equal. f_equal. len_lia.
Qed.

(** A last component that consumes nothing. *)
Lemma reads_bind_ret {A B} (p : RM A) (f : A -> B) b x :
  reads p b x -> reads (bind p (fun a => ret (f a))) b (f x).
Proof.
  intros H. rewrite <- (app_nil_r b). eapply reads_bind; [done|]. apply reads_ret.
Qed.

Lemma reads_if {A} (c : bool) (p q : RM A) b x :
  c = true -> reads p b x -> reads (if c then p else q) b x.
Proof. by intros ->. Qed.

Lemma reads_take b n : n = len b -> reads (Reader.take n) b b.
Proof.
  intros -> pre post Hl. unfold Reader.take, bind, get. cbn [buf pos].
  len_simpl. pose proof (len_nonneg post).
  destruct (Z.ltb_spec U64_MAX (len pre + len b)); [lia|].
  destruct (Z.ltb_spec (len pre + (len b + len post)) (len pre + len b)); [lia|].
  unfold modify, ret. f_equal. f_equal. by rewrite slice_app_mid.
Qed.

Lemma reads_u8 v : reads Reader.u8 [v] v.
Proof. exact (reads_bind_ret (Reader.take 1) (fun b : bytes => znth b 0) [v] [v] (reads_take [v] 1 eq_refl)). Qed.

Lemma reads_boolean (v : bool) : reads Reader.boolean [if v then 1 else 0] v.
Proof.
  replace v with (negb ((if v then 1 else 0) =? 0)) at 2 by by destruct v.
  apply (reads_bind_ret Reader.u8 (fun x : Z => negb (x =? 0))), reads_u8.
Qed.

Lemma reads_u32 v : reads Reader.u32 (to_be32 v) (as_u32 v).
Proof.
  rewrite <- be_val_to_be32. apply (reads_bind_ret (Reader.take 4) be_val).
  by apply reads_take.
Qed.

Lemma reads_u32_id v : is_u32 v -> reads Reader.u32 (to_be32 v) v.
Proof. intros H. rewrite <- (as_u32_id v H) at 2. apply reads_u32. Qed.

Lemma reads_u64 v : is_u64 v -> reads Reader.u64 (to_be64 v) v.
Proof.
  intros H. assert (Hv : v = be_val (to_be64 v)).
  { rewrite be_val_to_be64, Z.mod_small; [done|]. unfold is_u64, U64_MAX in H. lia. }
  rewrite Hv at 2. apply (reads_bind_ret (Reader.take 8) be_val). by apply reads_take.
Qed.

Lemma as_u32_idem v : as_u32 (as_u32 v) = as_u32 v.
Proof. unfold as_u32. by rewrite Z.mod_mod. Qed.

Lemma reads_string b : len b <= U32_MAX ->
  reads Reader.string (to_be32 (as_u32 (len b)) ++ b) b.
Proof.
  intros H. eapply reads_bind; [apply reads_u32|]. apply reads_take.
  rewrite as_u32_idem. apply as_u32_id. split; [apply len_nonneg|done].
Qed.

Lemma reads_utf8 b : len b <= U32_MAX -> utf8_valid b = true ->
  reads Reader.utf8 (to_be32 (as_u32 (len b)) ++ b) b.
Proof.
  intros H Hu. rewrite <- (app_nil_r (_ ++ b)).
  eapply reads_bind; [by apply reads_string|]. rewrite Hu. apply reads_ret.
Qed.

Lemma reads_run {A} (p : RM A) b x :
  reads p b x -> len b <= U64_MAX -> run p (Reader.new b) = Ok x.
Proof.
  intros H Hl. specialize (H [] []). cbn [app] in H. rewrite app_nil_r in H.
  unfold run, Reader.new. change 0 with (len (@nil Z)). by rewrite H.
Qed.

(** Trailing bytes do not matter. *)
Lemma reads_run_app {A} (p : RM A) b post x :
  reads p b x -> len (b ++ post) <= U64_MAX -> run p (Reader.new (b ++ post)) = Ok x.
Proof.
  intros H Hl. specialize (H [] post). cbn [app] in H.
  unfold run, Reader.new. change 0 with (len (@nil Z)). by rewrite H.
Qed.

(** Two parsers in sequence over a prefix. *)
Lemma reads_app_eq {A} (p : RM A) b b' x : b = b' -> reads p b x -> reads p b' x.
Proof. by intros ->. Qed.
End Reads.

(** ** Writers as appended bytes *)
Definition wire_string (b : bytes) : bytes := to_be32 (as_u32 (len b)) ++ b.
Definition wire_bool (v : bool) : bytes := [if v then 1 else 0].

Lemma reads_wire_string b : len b <= U32_MAX -> reads Reader.string (wire_string b) b.
Proof. apply reads_string. Qed.
Lemma reads_wire_utf8 b :
  len b <= U32_MAX -> utf8_valid b = true -> reads Reader.utf8 (wire_string b) b.
Proof. apply reads_utf8. Qed.

Lemma len_wire_string b : len (wire_string b) = 4 + len b.
Proof. unfold wire_string. len_lia. Qed.
#[export] Hint Rewrite len_wire_string : ssh_len.

Lemma writer_string b w : Writer.string b w = mkWriter (wbuf w ++ wire_string b).
Proof. unfold Writer.string, Writer.raw, Writer.u32, wire_string. cbn [wbuf]. by rewrite app_assoc. Qed.

Lemma split_on_nonempty c l : split_on c l <> [].
Proof. destruct l as [|x l]; cbn; [done|]. case_match; [done|]. by case_match. Qed.

Lemma split_on_join_app c n l :
  Forall (fun x => x <> c) n ->
  split_on c (n ++ l) =
    match split_on c l with h :: t => (n ++ h) :: t | [] => [n] end.
Proof.
  intros Hn. induction Hn as [|x n Hx Hn IH]; cbn.
  - pose proof (split_on_nonempty c l). by destruct (split_on c l).
  - destruct (Z.eqb_spec x c); [done|]. rewrite IH.
    pose proof (split_on_nonempty c l). by destruct (split_on c l).
Qed.

Definition comma_free (n : bytes) : Prop := Forall (fun x => x <> 44) n.

Lemma split_on_join_rest names :
  Forall comma_free names -> split_on 44 (join_rest names) = [] :: names.
Proof.
  induction 1 as [|n names Hn Hnames IH]; [done|].
  cbn. rewrite split_on_join_app by done. rewrite IH. by rewrite app_nil_r.
Qed.

Lemma split_on_join_names n names :
  Forall comma_free (n :: names) -> split_on 44 (join_names (n :: names)) = n :: names.
Proof.
  intros H. inversion_clear H as [|? ? Hn Hnames]. cbn.
  rewrite split_on_join_app, split_on_join_rest by done. by rewrite app_nil_r.
Qed.

Lemma sum_len_cons n names : sum_len (n :: names) = len n + sum_len names.
Proof. done. Qed.
Lemma sum_len_nonneg names : 0 <= sum_len names.
Proof. induction names as [|n names IH]; [done|]. rewrite sum_len_cons. pose proof (len_nonneg n). lia. Qed.

Lemma len_join_rest names : len (join_rest names) = sum_len names + len names.
Proof.
  induction names as [|n names IH]; [done|].
  cbn [join_rest]. rewrite sum_len_cons. len_lia.
Qed.

Lemma len_join_names names :
  len (join_names names) = sum_len names + saturating_sub (len names) 1.
Proof.
  destruct names as [|n names]; [done|]. cbn [join_names]. unfold saturating_sub.
  rewrite sum_len_cons. len_simpl. rewrite len_join_rest. pose proof (len_nonneg names). lia.
Qed.

Lemma count_byte_app c a b : count_byte c (a ++ b) = count_byte c a + count_byte c b.
Proof. unfold count_byte. rewrite list.filter_app. len_lia. Qed.

Lemma count_byte_free n : comma_free n -> count_byte 44 n = 0.
Proof.
  unfold count_byte. induction 1 as [|x n Hx Hn IH]; [done|].
  rewrite filter_cons, decide_False by done. done.
Qed.

Lemma count_byte_join_rest names :
  Forall comma_free names -> count_byte 44 (join_rest names) = len names.
Proof.
  induction 1 as [|n names Hn Hnames IH]; [done|]. cbn [join_rest].
  change (44 :: n ++ join_rest names) with ([44] ++ n ++ join_rest names).
  rewrite !count_byte_app, (count_byte_free n), IH by done.
  change (count_byte 44 [44]) with 1. len_lia.
Qed.

Lemma count_byte_join_names n names :
  Forall comma_free (n :: names) -> count_byte 44 (join_names (n :: names)) = len names.
Proof.
  intros H. inversion_clear H as [|? ? Hn Hnames]. cbn [join_names].
  by rewrite count_byte_app, count_byte_free, count_byte_join_rest by done.
Qed.

Definition wire_name_list (names : list bytes) : bytes :=
  to_be32 (as_u32 (sum_len names + saturating_sub (len names) 1)) ++ join_names names.

Lemma writer_name_list names w :
  Writer.name_list names w = mkWriter (wbuf w ++ wire_name_list names).
Proof.
  unfold Writer.name_list, Writer.raw, Writer.u32, wire_name_list. cbn [wbuf].
  by rewrite app_assoc.
Qed.

(** A list of names that a name-list carries: ASCII, no commas, at most
    [MAX_NAME_LIST_ENTRIES] of them, and not the singleton empty name (whose
    encoding is that of the empty list). *)
Definition name_list_ok (names : list bytes) : Prop :=
  Forall comma_free names /\ is_ascii (join_names names) = true /\
  len names <= MAX_NAME_LIST_ENTRIES /\ names <> [[]] /\
  len (join_names names) <= U32_MAX.

Lemma join_names_nil_inv names : join_names names = [] -> names <> [[]] -> names = [].
Proof.
  destruct names as [|n names]; [done|]. cbn. intros [-> H]%app_eq_nil Hne.
  destruct names; [done|]. done.
Qed.

Lemma reads_name_list names :
  name_list_ok names -> reads Reader.name_list (wire_name_list names) names.
Proof.
  intros (Hcf & Hasc & Hmax & Hne & Hlen).
  unfold wire_name_list. rewrite <- len_join_names, <- (app_nil_r (_ ++ join_names names)).
  eapply reads_bind; [by apply reads_string|].
  destruct (Z.eqb_spec (len (join_names names)) 0) as [H0|H0].
  { rewrite (join_names_nil_inv names); [apply reads_ret| |done].
    apply len_zero_inv. lia. }
  rewrite Hasc. cbn [negb].
  destruct names as [|n names]; [done|].
  rewrite count_byte_join_names by done.
  len_simpl. destruct (Z.leb_spec MAX_NAME_LIST_ENTRIES (len names)); [lia|].
  rewrite utf8_ascii by done. cbn [negb].
  rewrite split_on_join_names by done. apply reads_ret.
Qed.

(** Builders are flattened to the bytes they append. *)
Create Rewrite HintDb ssh_wire.
#[export] Hint Rewrite writer_string writer_name_list : ssh_wire.
Ltac wire_norm :=
  unfold Writer.into_bytes, Writer.u8, Writer.u32, Writer.boolean, Writer.raw, Writer.new,
    Writer.with_capacity;
  autorewrite with ssh_wire; cbn [wbuf app]; rewrite <- ?app_assoc; cbn [app].

(** One component of a [reads] goal for a builder: split a known prefix off. *)
Ltac reads_step :=
  lazymatch goal with
  | |- reads (bind ?p ?f) ?b _ => eapply reads_bind
  end.

(** * Reading octets

    What the accessors return when the buffer is a string of bytes: every read is an error
    or a value of its width. *)
Section Octets.
Implicit Types r : Reader.
Abbreviation any := (fun (_ : SshError) (_ : Reader) => True).

Lemma take_wp n r :
  is_bytes (buf r) -> wp (Reader.take n) (fun b r' => is_bytes b /\ len b <= Z.max n 0 /\ is_bytes (buf r')) any r.
Proof.
  intros H. unfold Reader.take. wp_steps; try done. split; [by apply is_bytes_slice|].
  split; [|done]. unfold slice, ztake, len. rewrite length_take. lia.
Qed.

Lemma be_val_u32 b : is_bytes b -> len b <= 4 -> is_u32 (be_val b).
Proof.
  intros Hb Hl. pose proof (be_val_bound b Hb). pose proof (len_nonneg b).
  assert (256 ^ len b <= 256 ^ 4) by (apply Z.pow_le_mono_r; lia). unfold is_u32, U32_MAX. lia.
Qed.

Lemma u8_wp r : is_bytes (buf r) -> wp Reader.u8 (fun _ r' => is_bytes (buf r')) any r.
Proof.
  intros H. apply wp_bind. eapply wp_mono; [by apply take_wp| |done]. by intros b r' (? & ? & ?).
Qed.

Lemma boolean_wp r : is_bytes (buf r) -> wp Reader.boolean (fun _ r' => is_bytes (buf r')) any r.
Proof. intros H. apply wp_bind. eapply wp_mono; [by apply u8_wp| |done]. done. Qed.

Lemma u32_wp r : is_bytes (buf r) -> wp Reader.u32 (fun v r' => is_u32 v /\ is_bytes (buf r')) any r.
Proof.
  intros H. apply wp_bind. eapply wp_mono; [by apply take_wp| |done]. cbv beta.
  intros b r' (? & ? & ?). split; [|done]. by apply be_val_u32.
Qed.

Lemma string_wp r : is_bytes (buf r) ->
  wp Reader.string (fun b r' => (is_bytes b /\ len b <= U32_MAX) /\ is_bytes (buf r')) any r.
Proof.
  intros H. apply wp_bind. eapply wp_mono; [by apply u32_wp| |done]. cbv beta.
  intros n r1 [Hn H1]. eapply wp_mono; [by apply take_wp| |done]. cbv beta.
  intros b r' (? & ? & ?). unfold is_u32 in Hn. split_and!; (done || lia).
Qed.

Lemma utf8_wp r : is_bytes (buf r) ->
  wp Reader.utf8 (fun b r' => (is_bytes b /\ len b <= U32_MAX) /\ is_bytes (buf r')) any r.
Proof.
  intros H. apply wp_bind. eapply wp_mono; [by apply string_wp| |done]. cbv beta.
  intros b r1 H1. by wp_steps.
Qed.

Lemma name_list_wp r : is_bytes (buf r) ->
  wp Reader.name_list (fun _ r' => is_bytes (buf r')) any r.
Proof.
  intros H. apply wp_bind. eapply wp_mono; [by apply string_wp| |done]. cbv beta.
  intros b r1 [_ H1]. by wp_steps.
Qed.
End Octets.

(** Walk through a parser over octets, keeping what each read is known to return. *)
Ltac octet_read :=
  repeat (cbv beta;
    lazymatch goal with
    | |- wp (bind _ _) _ _ _ => apply wp_bind
    | |- wp (ret _) _ _ _ => apply wp_ret
    | |- wp (err _) _ _ _ => apply wp_err
    | |- wp Reader.u8 _ _ _ => eapply wp_mono; [apply u8_wp; eassumption|cbv beta; intros ? ? ?|done]
    | |- wp Reader.boolean _ _ _ =>
        eapply wp_mono; [apply boolean_wp; eassumption|cbv beta; intros ? ? ?|done]
    | |- wp Reader.u32 _ _ _ => eapply wp_mono; [apply u32_wp; eassumption|cbv beta; intros ? ? [? ?]|done]
    | |- wp Reader.string _ _ _ =>
        eapply wp_mono; [apply string_wp; eassumption|cbv beta; intros ? ? [[? ?] ?]|done]
    | |- wp Reader.utf8 _ _ _ =>
        eapply wp_mono; [apply utf8_wp; eassumption|cbv beta; intros ? ? [[? ?] ?]|done]
    | |- wp Reader.name_list _ _ _ =>
        eapply wp_mono; [apply name_list_wp; eassumption|cbv beta; intros ? ? ?|done]
    | |- wp (if _ then _ else _) _ _ _ => apply wp_if; intros
    end).

(** * Parsers never panic *)
Definition total_reader {A} (p : RM A) : Prop :=
  forall r, wp p (fun _ _ => True) (fun _ _ => True) r.

Lemma total_run {A} (p : RM A) r :
  total_reader p -> (exists x, run p r = Ok x) \/ (exists e, run p r = Err e).
Proof.
  intros H. specialize (H r). unfold wp, run in *. destruct (p r) as [[x|e| |] r'];
    cbn; (done || eauto).
Qed.

Lemma total_bind {A B} (p : RM A) (f : A -> RM B) :
  total_reader p -> (forall x, total_reader (f x)) -> total_reader (bind p f).
Proof.
  intros Hp Hf r. apply wp_bind. eapply wp_mono; [apply Hp| |done]. intros x r' _. apply Hf.
Qed.

Lemma total_take n : total_reader (Reader.take n).
Proof. intros r. unfold Reader.take. wp_steps; done. Qed.
Lemma total_ret {A} (x : A) : total_reader (ret x).
Proof. done. Qed.
Lemma total_err {A} e : total_reader (err (A := A) e).
Proof. done. Qed.
Lemma total_if {A} (b : bool) (p q : RM A) :
  total_reader p -> total_reader q -> total_reader (if b then p else q).
Proof. by destruct b. Qed.
Lemma total_ok_or {A} (o : option A) e : total_reader (ok_or o e).
Proof. by destruct o. Qed.

Ltac total :=
  repeat first
    [ apply total_take | apply total_ret | apply total_err | apply total_ok_or
    | apply total_if | apply total_bind; [|intros ?]
    | progress unfold Reader.u8, Reader.u32, Reader.u64, Reader.boolean, Reader.string,
        Reader.utf8, Reader.name_list ].
