(* ===== verification/Text.v ===== *)
(** The operations on text that the code takes from the standard library: a [str] is its
    UTF-8 bytes. *)
From S2P Require Import Prelude Errors Wire.

(** [char::is_whitespace]: the Unicode property White_Space. *)
Definition is_whitespace (c : Z) : bool :=
  within 9 13 c || (c =? 32) || (c =? 133) || (c =? 160) || (c =? 5760) || within 8192 8202 c
  || (c =? 8232) || (c =? 8233) || (c =? 8239) || (c =? 8287) || (c =? 12288).

(** The characters of a string, each as its bytes. *)
Fixpoint chars_loop (fuel : nat) (b : bytes) : list bytes :=
  match fuel with
  | O => []
  | S fuel' =>
      match utf8_char b with
      | Some (_, n) => ztake n b :: chars_loop fuel' (zdrop n b)
      | None => []
      end
  end.
Definition chars (b : bytes) : list bytes := chars_loop (length b) b.

Definition blank (ch : bytes) : bool :=
  match utf8_char ch with Some (c, _) => is_whitespace c | None => false end.

Fixpoint drop_blanks (cs : list bytes) : list bytes :=
  match cs with
  | [] => []
  | c :: cs' => if blank c then drop_blanks cs' else cs
  end.

(** [str::trim]. *)
Definition trim (b : bytes) : bytes :=
  List.concat (List.rev (drop_blanks (List.rev (drop_blanks (chars b))))).

(** [split_once(char::is_whitespace)]. *)
Fixpoint split_blank (cs : list bytes) : option (bytes * bytes) :=
  match cs with
  | [] => None
  | c :: cs' =>
      if blank c then Some ([], List.concat cs')
      else match split_blank cs' with
           | Some (before, after) => Some (c ++ before, after)
           | None => None
           end
  end.
Definition split_once_blank (b : bytes) : option (bytes * bytes) := split_blank (chars b).

(** [str::lines]: every line loses its LF, and a CR before that. *)
Definition strip_cr (line : bytes) : bytes :=
  match List.rev line with 13 :: r => List.rev r | _ => line end.
Definition lines (b : bytes) : list bytes :=
  match split_on 10 b with
  | [] => []
  | ls => List.map strip_cr (removelast ls) ++ (if len (List.last ls []) =? 0 then [] else [List.last ls []])
  end.


(** [split_whitespace]: the words, none of them empty. *)
Fixpoint words (cs : list bytes) (word : bytes) : list bytes :=
  match cs with
  | [] => match word with [] => [] | _ => [word] end
  | c :: cs' =>
      if blank c then match word with [] => words cs' [] | _ => word :: words cs' [] end
      else words cs' (word ++ c)
  end.
Definition split_whitespace (b : bytes) : list bytes := words (chars b) [].

(** * Their laws *)

Lemma chars_loop_concat fuel b :
  utf8_valid_fuel fuel b = true -> List.concat (chars_loop fuel b) = b.
Proof.
  revert b. induction fuel as [|fuel IH]; intros [|x b] Hv; try done.
  cbn [utf8_valid_fuel chars_loop] in *. destruct (utf8_char (x :: b)) as [[c n]|]; [|done].
  cbn [List.concat]. rewrite IH by done. apply ztake_zdrop.
Qed.

(** A string is its characters. *)
Lemma chars_concat b : utf8_valid b = true -> List.concat (chars b) = b.
Proof. apply chars_loop_concat. Qed.

Definition unblank (c : bytes) : bool := negb (blank c).

(** A word is a nonempty run of characters that are not white space. *)
Definition is_word (w : bytes) : Prop :=
  w <> [] /\ exists cs, w = List.concat cs /\ Forall (fun c => blank c = false) cs.

Lemma words_concat cs w : List.concat (words cs w) = w ++ List.concat (List.filter unblank cs).
Proof.
  revert w. induction cs as [|c cs IH]; intros w; cbn [words List.filter].
  - destruct w; cbn; by rewrite ?app_nil_r.
  - unfold unblank at 1. destruct (blank c); cbn [negb].
    + destruct w; cbn [List.concat]; by rewrite ?IH.
    + rewrite IH. cbn [List.concat]. by rewrite app_assoc.
Qed.

Lemma words_words cs w :
  (w = [] \/ is_word w) -> Forall (fun c => c <> []) cs -> Forall is_word (words cs w).
Proof.
  revert w. induction cs as [|c cs IH]; intros w Hw Hc; cbn [words].
  - destruct w; [constructor|]. destruct Hw; [done|]. by constructor.
  - apply List.Forall_cons_iff in Hc as [Hc Hcs]. destruct (blank c) eqn:Hb.
    + destruct w; [by apply IH; [left|]|]. destruct Hw as [|Hw]; [done|].
      constructor; [done|]. apply IH; [by left|done].
    + apply IH; [|done]. right. split; [destruct w; cbn; [done|discriminate]|].
      destruct Hw as [->|(_ & cs' & -> & H)].
      * exists [c]. cbn. rewrite app_nil_r. split; [done|]. by repeat constructor.
      * exists (cs' ++ [c]). rewrite concat_app. cbn. rewrite app_nil_r. split; [done|].
        apply Forall_app_2; [done|]. by repeat constructor.
Qed.

Lemma chars_nonempty fuel b : Forall (fun c => c <> []) (chars_loop fuel b).
Proof.
  revert b. induction fuel as [|fuel IH]; intros b; cbn [chars_loop]; [constructor|].
  destruct (utf8_char b) as [[c n]|] eqn:Hc; [|constructor].
  apply utf8_char_width in Hc as [Hn Hl]. constructor; [|apply IH].
  intros E. assert (len (ztake n b) = 0) by by rewrite E. rewrite len_ztake in * by lia. lia.
Qed.

Lemma split_whitespace_words b : Forall is_word (split_whitespace b).
Proof. apply words_words; [by left|apply chars_nonempty]. Qed.
