(* ===== verification/Packet.v ===== *)
(** Unencrypted packet framing: [packet.rs] (RFC 4253, section 6). *)
From S2P Require Import Prelude Errors.

Definition MIN_PADDING : Z := 4.
Definition MIN_PACKET : Z := 16.
Definition BLOCK : Z := 8.
Definition MAX_PACKET_LENGTH : Z := 1024 * 1024.

(** The [while] loop of [padding_len]; two rounds are enough, see
    [padding_len_spec]. *)
Fixpoint pad_up (fuel : nat) (payload_len block pad : Z) : Z :=
  match fuel with
  | O => pad
  | S fuel' =>
      if 4 + 1 + payload_len + pad <? MIN_PACKET
      then pad_up fuel' payload_len block (pad + block)
      else pad
  end.

Definition padding_len (payload_len block : Z) : Z :=
  let block := Z.max block BLOCK in
  let unpadded := 4 + 1 + payload_len in
  let pad := block - unpadded mod block in
  let pad := if pad <? MIN_PADDING then pad + block else pad in
  pad_up 2 payload_len block pad.

(** [encode_plain_into(payload, out)]: the frame is appended to [out]. *)
Definition encode_plain_into (payload out : bytes) : bytes :=
  let pad := padding_len (len payload) BLOCK in
  let packet_length := 1 + len payload + pad in
  out ++ to_be32 (as_u32 packet_length) ++ [as_u8 pad] ++ payload ++ zeros pad.

Definition decode_plain (buf : bytes) : result (option (bytes * Z)) :=
  if len buf <? 4 then Ok None
  else
    let packet_length := be_val (slice 0 4 buf) in
    if negb ((MIN_PACKET - 4 <=? packet_length) && (packet_length <=? MAX_PACKET_LENGTH))
    then Err (BadPacket "packet_length out of range")
    else
      let total := 4 + packet_length in
      if len buf <? total then Ok None
      else
        let padding_length := znth buf 4 in
        if (padding_length <? MIN_PADDING) || (packet_length <? padding_length + 1)
        then Err (BadPacket "invalid padding_length")
        else
          let payload_len := packet_length - padding_length - 1 in
          Ok (Some (slice 5 (5 + payload_len) buf, total)).

(** * Properties *)

(** The loop of [padding_len] exits by its own test, the packet is a multiple of
    the block, and the padding is at least 4 and fits its byte for any block that
    the ciphers use. *)
Lemma padding_len_spec payload_len block :
  0 <= payload_len ->
  let pad := padding_len payload_len block in
  (4 + 1 + payload_len + pad) mod Z.max block BLOCK = 0 /\
  MIN_PADDING <= pad <= 2 * Z.max block BLOCK + MIN_PADDING /\
  MIN_PACKET <= 4 + 1 + payload_len + pad.
Proof.
  intros Hp. unfold padding_len, MIN_PADDING, MIN_PACKET.
  set (b := Z.max block BLOCK). assert (Hb : 8 <= b) by (unfold b, BLOCK; lia).
  set (u := 4 + 1 + payload_len). fold u.
  pose proof (Z.mod_pos_bound u b ltac:(lia)) as Hu.
  assert (Hal : forall k, (u + (b - u mod b + k * b)) mod b = 0).
  { intros k. replace (u + (b - u mod b + k * b)) with ((u - u mod b) + (1 + k) * b) by lia.
    rewrite Z.mod_add by lia. rewrite Zminus_mod_idemp_r, Z.sub_diag. done. }
  pose proof (Hal 0) as H0. pose proof (Hal 1) as H1. pose proof (Hal 2) as H2.
  rewrite Z.mul_0_l, Z.add_0_r in H0. rewrite Z.mul_1_l in H1.
  replace (b - u mod b + 2 * b) with (b - u mod b + b + b) in H2 by lia.
  cbn [pad_up]. unfold MIN_PADDING, MIN_PACKET. fold u.
  repeat case_match; repeat split; try lia; try done;
    repeat rewrite <- ?Z.add_assoc in *; try done; lia.
Qed.

(** A frame, split in its parts. *)
Lemma encode_plain_into_out payload out :
  encode_plain_into payload out = out ++ encode_plain_into payload [].
Proof. done. Qed.

Definition plain_frame (payload : bytes) : bytes := encode_plain_into payload [].

Lemma len_plain_frame payload :
  len (plain_frame payload) = 4 + 1 + len payload + padding_len (len payload) BLOCK.
Proof.
  pose proof (padding_len_spec (len payload) BLOCK (len_nonneg _)) as (_ & Hp & _).
  unfold MIN_PADDING in Hp.
  unfold plain_frame, encode_plain_into. len_simpl. rewrite len_zeros; lia.
Qed.

(** The three fields a decoder reads of a frame. *)
Lemma plain_frame_fields payload rest :
  let pad := padding_len (len payload) BLOCK in
  let n := 1 + len payload + pad in
  n <= MAX_PACKET_LENGTH ->
  be_val (slice 0 4 (plain_frame payload ++ rest)) = n /\
  znth (plain_frame payload ++ rest) 4 = pad /\
  slice 5 (5 + len payload) (plain_frame payload ++ rest) = payload.
Proof.
  intros pad n Hn.
  pose proof (padding_len_spec (len payload) BLOCK (len_nonneg _)) as (_ & Hp & _).
  fold pad in Hp. unfold MIN_PADDING in Hp. change (Z.max BLOCK BLOCK) with 8 in Hp.
  unfold MAX_PACKET_LENGTH in Hn. pose proof (len_nonneg payload).
  assert (Hn0 : 0 <= n) by (unfold n; lia).
  assert (Hf : plain_frame payload ++ rest =
    to_be32 (as_u32 n) ++ [as_u8 pad] ++ payload ++ zeros pad ++ rest).
  { unfold plain_frame, encode_plain_into. fold pad n.
    by rewrite app_nil_l, <- !app_assoc. }
  rewrite Hf. repeat split.
  - change (to_be32 (as_u32 n) ++ [as_u8 pad] ++ payload ++ zeros pad ++ rest) with
      ([] ++ to_be32 (as_u32 n) ++ ([as_u8 pad] ++ payload ++ zeros pad ++ rest)).
    rewrite slice_app_mid by len_lia. rewrite be_val_to_be32.
    rewrite !as_u32_id; unfold is_u32, U32_MAX; rewrite ?as_u32_id; unfold is_u32, U32_MAX; lia.
  - unfold znth. rewrite app_nth2; unfold to_be32; rewrite length_be_bytes by lia; [|lia].
    change (Z.to_nat 4 - 4)%nat with 0%nat. cbn [nth app].
    apply as_u8_id. unfold is_u8, U8_MAX. lia.
  - rewrite (app_assoc (to_be32 _)). rewrite slice_app_mid; len_lia || done.
Qed.

(** ** Round trip and incremental decoding *)

Lemma decode_encode_plain_frame payload rest :
  1 + len payload + padding_len (len payload) BLOCK <= MAX_PACKET_LENGTH ->
  decode_plain (encode_plain_into payload [] ++ rest)
    = Ok (Some (payload, len (encode_plain_into payload []))).
Proof.
  intros Hn. change (encode_plain_into payload []) with (plain_frame payload).
  pose proof (plain_frame_fields payload rest Hn) as (H1 & H2 & H3).
  pose proof (padding_len_spec (len payload) BLOCK (len_nonneg _)) as (_ & Hp & Hm).
  unfold decode_plain. rewrite H1, H2.
  rewrite len_plain_frame, len_app, len_plain_frame.
  unfold MIN_PADDING, MIN_PACKET, MAX_PACKET_LENGTH in *.
  pose proof (len_nonneg payload). pose proof (len_nonneg rest).
  destruct (Z.ltb_spec (4 + 1 + len payload + padding_len (len payload) BLOCK + len rest) 4); [lia|].
  replace ((16 - 4 <=? 1 + len payload + padding_len (len payload) BLOCK) &&
           (1 + len payload + padding_len (len payload) BLOCK <=? 1024 * 1024)) with true by lia.
  cbn [negb].
  destruct (Z.ltb_spec (4 + 1 + len payload + padding_len (len payload) BLOCK + len rest)
              (4 + (1 + len payload + padding_len (len payload) BLOCK))); [lia|].
  destruct ((padding_len (len payload) BLOCK <? 4) ||
            (1 + len payload + padding_len (len payload) BLOCK <?
              padding_len (len payload) BLOCK + 1)) eqn:Hb; [lia|].
  replace (1 + len payload + padding_len (len payload) BLOCK - padding_len (len payload) BLOCK - 1)
    with (len payload) by lia.
  rewrite H3. do 3 f_equal. lia.
Qed.

(** Round trip of the plaintext framing: a payload that fits a packet is decoded back
    from its frame, whatever bytes follow, and exactly the frame is consumed. *)
Lemma decode_encode_plain payload rest :
  1 + len payload + padding_len (len payload) BLOCK <= MAX_PACKET_LENGTH ->
  decode_plain (encode_plain_into payload [] ++ rest)
    = Ok (Some (payload, len (encode_plain_into payload []))).
Proof. apply decode_encode_plain_frame. Qed.

(** What a successful decode consumes and returns. *)
Lemma decode_plain_bounds buf payload n :
  decode_plain buf = Ok (Some (payload, n)) ->
  MIN_PACKET <= n <= 4 + MAX_PACKET_LENGTH /\ n <= len buf /\
  len payload + 1 + MIN_PADDING <= n - 4.
Proof.
  unfold decode_plain. intros H. repeat case_match; simplify_eq.
  match goal with Hx : negb _ = false |- _ => apply negb_false_iff in Hx end.
  unfold MIN_PACKET, MIN_PADDING, MAX_PACKET_LENGTH in *.
  rewrite len_slice by lia. lia.
Qed.

(** Decoding never panics and needs no fuel. *)
Lemma decode_plain_total buf :
  (exists o, decode_plain buf = Ok o) \/ (exists s, decode_plain buf = Err (BadPacket s)).
Proof. unfold decode_plain. repeat case_match; eauto. Qed.

(** Bytes that arrive later do not change a decision already taken: once a packet
    or an error is found, it is found again with more input. *)
Lemma decode_plain_stable buf more r :
  decode_plain buf = r -> r <> Ok None -> decode_plain (buf ++ more) = r.
Proof.
  intros <- Hr. unfold decode_plain in *. len_simpl. pose proof (len_nonneg more).
  destruct (Z.ltb_spec (len buf) 4); [done|].
  destruct (Z.ltb_spec (len buf + len more) 4); [lia|].
  rewrite slice_app_l by lia.
  destruct (negb _) eqn:Hn; [done|].
  destruct (Z.ltb_spec (len buf) (4 + be_val (slice 0 4 buf))); [done|].
  destruct (Z.ltb_spec (len buf + len more) (4 + be_val (slice 0 4 buf))); [lia|].
  apply negb_false_iff in Hn. unfold MIN_PACKET in Hn.
  rewrite znth_app_l by lia.
  destruct (_ || _) eqn:Hp; [done|]. unfold MIN_PADDING in Hp.
  rewrite slice_app_l by lia. done.
Qed.

(** A strict prefix of a frame is not yet a packet: the decoder asks for more. *)
Lemma decode_plain_prefix payload k :
  1 + len payload + padding_len (len payload) BLOCK <= MAX_PACKET_LENGTH ->
  0 <= k < len (plain_frame payload) ->
  decode_plain (ztake k (plain_frame payload)) = Ok None.
Proof.
  intros Hn Hk.
  destruct (decode_plain (ztake k (plain_frame payload))) as [[[p n]|]| | |] eqn:Hd; [|done|..].
  - pose proof (decode_plain_bounds _ _ _ Hd) as (_ & Hle & _).
    apply decode_plain_stable with (more := zdrop k (plain_frame payload)) in Hd; [|done].
    rewrite ztake_zdrop in Hd.
    pose proof (decode_encode_plain_frame payload [] Hn) as He. rewrite app_nil_r in He.
    unfold plain_frame in *. rewrite He in Hd. simplify_eq.
    rewrite len_ztake in Hle by lia. lia.
  - apply decode_plain_stable with (more := zdrop k (plain_frame payload)) in Hd; [|done].
    rewrite ztake_zdrop in Hd.
    pose proof (decode_encode_plain_frame payload [] Hn) as He. rewrite app_nil_r in He.
    unfold plain_frame in *. congruence.
  - destruct (decode_plain_total (ztake k (plain_frame payload))) as [[? ?]|[? ?]]; congruence.
  - destruct (decode_plain_total (ztake k (plain_frame payload))) as [[? ?]|[? ?]]; congruence.
Qed.
