(* ===== verification/Version.v ===== *)
(** The identification exchange: [version.rs] (RFC 4253, section 4.2). *)
From S2P Require Import Prelude Errors Packet.

Definition LOCAL_ID : bytes := str "SSH-2.0-rust_ssh_0.1.0".
Definition MAX_LINE : Z := 255.

(** [struct PeerId]. *)
Record PeerId := mkPeerId { raw : bytes }.

Definition local_id_line : bytes := LOCAL_ID ++ [13; 10].

(** [iter().position(|&b| b == c)]. *)
Fixpoint position (c : Z) (l : bytes) : option Z :=
  match l with
  | [] => None
  | x :: l' => if x =? c then Some 0 else Z.succ <$> position c l'
  end.

(** [starts_with]. *)
Fixpoint starts_with (p l : bytes) : bool :=
  match p, l with
  | [], _ => true
  | x :: p', y :: l' => (x =? y) && starts_with p' l'
  | _ :: _, [] => false
  end.

(** [parse_peer_id]: one round of the [loop] for the line that begins at [start];
    every round moves past a line feed, so [length buf] rounds are enough. *)
Fixpoint parse_peer_id_from (fuel : nat) (buf : bytes) (allow_banner : bool) (start : Z)
  : result (option (PeerId * Z)) :=
  match fuel with
  | O => OutOfFuel
  | S fuel' =>
      match position 10 (zdrop start buf) with
      | None =>
          if MAX_LINE * 64 <? len buf - start then Err (BadVersion "banner too long")
          else Ok None
      | Some rel_nl =>
          let nl := start + rel_nl in
          if MAX_LINE <? nl - start + 1 then Err (BadVersion "identification line too long")
          else
            let line_end :=
              if (start <? nl) && (znth buf (nl - 1) =? 13) then nl - 1 else nl in
            let line := slice start line_end buf in
            if starts_with (str "SSH-2.0-") line || starts_with (str "SSH-1.99-") line
            then Ok (Some (mkPeerId line, nl + 1))
            else if negb allow_banner
            then Err (BadVersion "expected SSH identification string")
            else parse_peer_id_from fuel' buf allow_banner (nl + 1)
      end
  end.

Definition parse_peer_id (buf : bytes) (allow_banner : bool) : result (option (PeerId * Z)) :=
  parse_peer_id_from (S (length buf)) buf allow_banner 0.

(** * Properties *)

Lemma position_Some c l i :
  position c l = Some i ->
  0 <= i < len l /\ exists l1 l2, l = l1 ++ c :: l2 /\ len l1 = i /\ position c l1 = None.
Proof.
  revert i. induction l as [|x l IH]; intros i; cbn [position]; [done|].
  destruct (Z.eqb_spec x c) as [->|Hx].
  - intros [= <-]. len_simpl. pose proof (len_nonneg l).
    split; [lia|]. exists [], l. done.
  - destruct (position c l) as [j|] eqn:Hj; cbn; [|done]. intros [= <-].
    destruct (IH _ eq_refl) as (Hb & l1 & l2 & -> & Hl1 & Hn).
    split; [len_lia|]. exists (x :: l1), l2. split; [done|]. split; [len_lia|].
    cbn [position]. destruct (Z.eqb_spec x c); [done|]. by rewrite Hn.
Qed.

Lemma position_app_found c l l' i : position c l = Some i -> position c (l ++ l') = Some i.
Proof.
  revert i. induction l as [|x l IH]; intros i; cbn [position app]; [done|].
  destruct (x =? c); [done|].
  destruct (position c l) as [j|]; cbn; [|done]. intros [= <-]. by rewrite (IH _ eq_refl).
Qed.

Lemma position_app_late c l l' i : position c l = None -> position c (l ++ l') = Some i -> len l <= i.
Proof.
  revert i. induction l as [|x l IH]; intros i; cbn [position app].
  - intros _ Hp. apply position_Some in Hp as [Hp _]. rewrite len_nil. lia.
  - destruct (x =? c); [done|]. destruct (position c l); [done|].
    destruct (position c (l ++ l')) as [j|]; [|done]. intros _ [= <-].
    specialize (IH j eq_refl eq_refl). rewrite len_cons. lia.
Qed.

Lemma starts_with_true p l : starts_with p l = true <-> exists t, l = p ++ t.
Proof.
  revert l. induction p as [|x p IH]; intros l; cbn [starts_with app].
  { split; eauto. }
  destruct l as [|y l]; [split; [done|by intros [t ?]]|].
  rewrite andb_true_iff, Z.eqb_eq, IH. split.
  - intros [-> [t ->]]. eauto.
  - intros [t [= -> ->]]. eauto.
Qed.

(** The bounds of the line a round looks at. *)
Lemma parse_line_bounds buf start rel :
  0 <= start <= len buf -> position 10 (zdrop start buf) = Some rel ->
  0 <= rel /\ start + rel < len buf.
Proof.
  intros Hs Hp. apply position_Some in Hp as (Hb & _). rewrite len_zdrop in Hb by lia. lia.
Qed.

Lemma parse_peer_id_returns buf allow_banner :
  (exists o, parse_peer_id buf allow_banner = Ok o) \/
  (exists s, parse_peer_id buf allow_banner = Err (BadVersion s)).
Proof.
  unfold parse_peer_id.
  assert (H : forall fuel start, 0 <= start <= len buf -> len buf - start < Z.of_nat fuel ->
    (exists o, parse_peer_id_from fuel buf allow_banner start = Ok o) \/
    (exists s, parse_peer_id_from fuel buf allow_banner start = Err (BadVersion s))).
  { induction fuel as [|fuel IH]; intros start Hs Hf; [lia|]. cbn [parse_peer_id_from].
    destruct (position _ _) as [rel|] eqn:Hp; [|case_match; eauto].
    pose proof (parse_line_bounds _ _ _ Hs Hp).
    destruct (MAX_LINE <? _); [eauto|]. destruct (_ || _); [eauto|].
    destruct (negb _); [eauto|]. apply IH; lia. }
  apply H; unfold len; lia.
Qed.

(** Parsing the peer's identification terminates: the rounds the definition
    allows are enough for every buffer, and the result is an answer or an error,
    never a panic. *)
Lemma parse_peer_id_terminates buf allow_banner :
  (exists o, parse_peer_id buf allow_banner = Ok o) \/
  (exists s, parse_peer_id buf allow_banner = Err (BadVersion s)).
Proof. apply parse_peer_id_returns. Qed.

(** What is consumed is a prefix of the buffer that ends in a line feed, and the
    identification is one short line of it. *)
Lemma parse_peer_id_from_bounds fuel buf ab start p n :
  0 <= start <= len buf -> parse_peer_id_from fuel buf ab start = Ok (Some (p, n)) ->
  start < n <= len buf /\ znth buf (n - 1) = 10 /\ len (raw p) < MAX_LINE /\
  (starts_with (str "SSH-2.0-") (raw p) || starts_with (str "SSH-1.99-") (raw p)) = true.
Proof.
  revert start. induction fuel as [|fuel IH]; intros start Hs H; [done|].
  cbn [parse_peer_id_from] in H.
  destruct (position _ _) as [rel|] eqn:Hp; [|by case_match].
  pose proof (parse_line_bounds _ _ _ Hs Hp) as [Hr1 Hr2].
  apply position_Some in Hp as (_ & l1 & l2 & Hd & Hl1 & _).
  destruct (MAX_LINE <? _) eqn:Hm; [done|].
  match type of H with (if ?c then _ else _) = _ => destruct c eqn:Hst end.
  - simplify_eq. cbn [raw]. split; [lia|]. split; [|split; [|done]].
    + replace (start + len l1 + 1 - 1) with (start + len l1) by lia.
      assert (Hb : buf = (ztake start buf ++ l1) ++ 10 :: l2)
        by (rewrite <- app_assoc, <- Hd; by rewrite ztake_zdrop).
      rewrite Hb. unfold znth. rewrite app_nth2; rewrite length_app.
      * replace (Z.to_nat _ - _)%nat with 0%nat; [done|].
        pose proof (len_ztake start buf Hs). unfold len in *. lia.
      * pose proof (len_ztake start buf Hs). unfold len in *. lia.
    + unfold MAX_LINE in *. case_match; rewrite len_slice; lia.
  - destruct (negb ab); [done|]. apply IH in H as (? & ? & ? & ?); [|lia].
    repeat split; try done; lia.
Qed.

Lemma parse_peer_id_bounds buf ab p n :
  parse_peer_id buf ab = Ok (Some (p, n)) ->
  0 < n <= len buf /\ znth buf (n - 1) = 10 /\ len (raw p) < MAX_LINE /\
  (starts_with (str "SSH-2.0-") (raw p) || starts_with (str "SSH-1.99-") (raw p)) = true.
Proof.
  intros H. apply (parse_peer_id_from_bounds _ _ _ 0) in H; [done|].
  pose proof (len_nonneg buf). lia.
Qed.

(** What [parse_peer_id] returns: the consumed bytes are a prefix of the buffer
    ending in a line feed, and the identification fits a line and starts with one
    of the two version prefixes. *)
Lemma parse_peer_id_sound buf ab p n :
  parse_peer_id buf ab = Ok (Some (p, n)) ->
  0 < n <= len buf /\ znth buf (n - 1) = 10 /\ len (raw p) < MAX_LINE /\
  (starts_with (str "SSH-2.0-") (raw p) || starts_with (str "SSH-1.99-") (raw p)) = true.
Proof. apply parse_peer_id_bounds. Qed.

(** Where a line that has ended ends does not depend on what follows. *)
Lemma line_end_app buf more start rel :
  0 <= start -> start + rel < len buf ->
  (start <? start + rel) && (znth (buf ++ more) (start + rel - 1) =? 13) =
  (start <? start + rel) && (znth buf (start + rel - 1) =? 13).
Proof. intros Hs Hr. destruct (Z.ltb_spec start (start + rel)); [|done]. by rewrite znth_app_l by lia. Qed.

(** More input does not change an identification already found. *)
Lemma parse_peer_id_from_stable fuel fuel' buf more ab start p n :
  (fuel <= fuel')%nat -> 0 <= start <= len buf ->
  parse_peer_id_from fuel buf ab start = Ok (Some (p, n)) ->
  parse_peer_id_from fuel' (buf ++ more) ab start = Ok (Some (p, n)).
Proof.
  revert fuel' start. induction fuel as [|fuel IH]; intros fuel' start Hf Hs; [done|].
  destruct fuel' as [|fuel']; [lia|]. cbn [parse_peer_id_from].
  rewrite zdrop_app_l by lia.
  destruct (position _ (zdrop _ buf)) as [rel|] eqn:Hp; [|case_match; done].
  rewrite (position_app_found _ _ _ _ Hp).
  pose proof (parse_line_bounds _ _ _ Hs Hp) as [Hr1 Hr2].
  destruct (MAX_LINE <? _); [done|].
  rewrite line_end_app by lia. rewrite slice_app_l by (case_match; lia).
  destruct (_ || _); [done|]. destruct (negb ab); [done|].
  apply IH; lia.
Qed.

(** An error stays one, though its text may change: a line that is too long for a banner
    may end after all, and is then too long for an identification. *)
Lemma parse_peer_id_from_error fuel fuel' buf more ab start e :
  (fuel <= fuel')%nat -> 0 <= start <= len buf ->
  parse_peer_id_from fuel buf ab start = Err e ->
  exists s s', e = BadVersion s /\ parse_peer_id_from fuel' (buf ++ more) ab start = Err (BadVersion s').
Proof.
  revert fuel' start. induction fuel as [|fuel IH]; intros fuel' start Hf Hs; [done|].
  destruct fuel' as [|fuel']; [lia|]. cbn [parse_peer_id_from].
  rewrite zdrop_app_l by lia.
  destruct (position _ (zdrop _ buf)) as [rel|] eqn:Hp.
  - rewrite (position_app_found _ _ _ _ Hp).
    pose proof (parse_line_bounds _ _ _ Hs Hp) as [Hr1 Hr2].
    destruct (MAX_LINE <? _); [intros [= <-]; by eexists _, _|].
    rewrite line_end_app by lia. rewrite slice_app_l by (case_match; lia).
    destruct (_ || _); [done|]. destruct (negb ab); [intros [= <-]; by eexists _, _|].
    apply IH; lia.
  - destruct (Z.ltb_spec (MAX_LINE * 64) (len buf - start)) as [Hlong|]; [|done]. intros [= <-].
    pose proof (len_nonneg more). unfold MAX_LINE in *.
    destruct (position 10 (zdrop start buf ++ more)) as [rel|] eqn:Hr.
    + pose proof (position_app_late _ _ _ _ Hp Hr) as Hl. rewrite len_zdrop in Hl by lia.
      replace (255 <? start + rel - start + 1) with true by lia. by eexists _, _.
    + rewrite len_app. replace (255 * 64 <? len buf + len more - start) with true by lia. by eexists _, _.
Qed.

Lemma parse_peer_id_error buf more ab e :
  parse_peer_id buf ab = Err e ->
  exists s s', e = BadVersion s /\ parse_peer_id (buf ++ more) ab = Err (BadVersion s').
Proof.
  unfold parse_peer_id. apply parse_peer_id_from_error.
  - rewrite length_app. lia.
  - pose proof (len_nonneg buf). lia.
Qed.

Lemma parse_peer_id_stable buf more ab p n :
  parse_peer_id buf ab = Ok (Some (p, n)) ->
  parse_peer_id (buf ++ more) ab = Ok (Some (p, n)).
Proof.
  unfold parse_peer_id. apply parse_peer_id_from_stable.
  - rewrite length_app. lia.
  - pose proof (len_nonneg buf). lia.
Qed.

(** Round trip: the line we send is parsed back to [LOCAL_ID] by either role,
    whatever follows it, and exactly the line is consumed. *)
Lemma parse_local_id_line rest ab :
  parse_peer_id (local_id_line ++ rest) ab = Ok (Some (mkPeerId LOCAL_ID, len local_id_line)).
Proof. apply parse_peer_id_stable. destruct ab; vm_compute; reflexivity. Qed.

(** The server accepts no banner: a first line that is no identification is fatal. *)
Lemma server_rejects_banner buf rel :
  position 10 buf = Some rel -> rel + 1 <= MAX_LINE ->
  starts_with (str "SSH-") buf = false ->
  parse_peer_id buf false = Err (BadVersion "expected SSH identification string").
Proof.
  intros Hp Hr Hs. unfold parse_peer_id. cbn [parse_peer_id_from].
  rewrite zdrop_0, Hp. pose proof (position_Some _ _ _ Hp) as (Hb & _).
  destruct (Z.ltb_spec MAX_LINE (0 + rel - 0 + 1)); [lia|].
  assert (Hpre : forall q e, starts_with (str "SSH-" ++ q) (slice 0 e buf) = false).
  { intros q e. apply not_true_iff_false. intros [t Ht]%starts_with_true.
    apply not_true_iff_false in Hs. apply Hs, starts_with_true.
    unfold slice in Ht. rewrite zdrop_0 in Ht.
    exists (q ++ t ++ zdrop (e - 0) buf). rewrite <- (ztake_zdrop (e - 0) buf) at 1.
    by rewrite Ht, <- !app_assoc. }
  change (str "SSH-2.0-") with (str "SSH-" ++ str "2.0-").
  change (str "SSH-1.99-") with (str "SSH-" ++ str "1.99-").
  by rewrite !Hpre.
Qed.

(** [n] short banner lines in a row. *)
Definition banner_lines (n : nat) : bytes := concat (replicate n [120; 10]).

Lemma len_banner_lines n : len (banner_lines n) = 2 * Z.of_nat n.
Proof.
  unfold banner_lines. induction n as [|n IH]; [done|].
  cbn [replicate concat]. rewrite len_app, IH. change (len [120; 10]) with 2. lia.
Qed.

(** The guard against a pre-identification flood bounds only the incomplete last
    line: a client waits, without an error, on any number of complete banner lines,
    and the bytes it has to keep ([consumed] is never reported) grow without bound. *)
Lemma banner_flood_unbounded n :
  parse_peer_id (banner_lines n) true = Ok None /\ len (banner_lines n) = 2 * Z.of_nat n.
Proof.
  split; [|apply len_banner_lines]. unfold parse_peer_id.
  assert (H : forall k fuel pre, (k < fuel)%nat ->
    parse_peer_id_from fuel (pre ++ banner_lines k) true (len pre) = Ok None).
  { induction k as [|k IH]; intros [|fuel] pre Hf; try lia; cbn [parse_peer_id_from].
    - rewrite zdrop_app_len by done. cbn [position banner_lines replicate concat].
      len_simpl. change (len (banner_lines 0)) with 0.
      destruct (Z.ltb_spec (MAX_LINE * 64) (len pre + 0 - len pre)); [unfold MAX_LINE in *; lia|done].
    - rewrite zdrop_app_len by done.
      change (banner_lines (S k)) with (120 :: 10 :: banner_lines k).
      change (position 10 (120 :: 10 :: banner_lines k)) with (Some 1). cbv iota.
      replace (len pre + 1 - len pre + 1) with 2 by lia.
      change (MAX_LINE <? 2) with false. cbv iota.
      replace (len pre + 1 - 1) with (len pre) by lia.
      assert (Hz : znth (pre ++ 120 :: 10 :: banner_lines k) (len pre) = 120).
      { unfold znth, len. rewrite Nat2Z.id, app_nth2, Nat.sub_diag by lia. done. }
      rewrite Hz. change (120 =? 13) with false. rewrite andb_false_r.
      change (120 :: 10 :: banner_lines k) with ([120] ++ (10 :: banner_lines k)).
      rewrite slice_app_mid by done. cbn [starts_with str orb negb].
      change (starts_with (str "SSH-2.0-") [120]) with false.
      change (starts_with (str "SSH-1.99-") [120]) with false. cbn [orb negb].
      specialize (IH fuel (pre ++ [120; 10])). rewrite <- app_assoc in IH.
      rewrite len_app in IH. change (len [120; 10]) with 2 in IH.
      replace (len pre + 1 + 1) with (len pre + 2) by lia. apply IH. lia. }
  specialize (H n (S (length (banner_lines n))) []). cbn [app] in H. apply H.
  pose proof (len_banner_lines n) as Hl. unfold len in Hl. lia.
Qed.

(** * Witnesses *)

Lemma parse_peer_id_sound_witness :
  let buf := local_id_line ++ [1; 2] in
  0 < len local_id_line <= len buf /\ znth buf (len local_id_line - 1) = 10 /\
  len (raw (mkPeerId LOCAL_ID)) < MAX_LINE /\
  starts_with (str "SSH-2.0-") LOCAL_ID || starts_with (str "SSH-1.99-") LOCAL_ID = true.
Proof. apply (parse_peer_id_sound (local_id_line ++ [1; 2]) false (mkPeerId LOCAL_ID)). reflexivity. Defined.
