(* ===== verification/Crypto.v ===== *)
(** The cryptographic and compression crates, which are not part of the
    repository: a class of operations ([Crypto]), the documented behaviour the
    code relies on ([CryptoOk]), and a concrete instance used by the witnesses. *)
From S2P Require Import Prelude Errors.

(** One field per external operation the code calls.  [rand_core]: [next_u32],
    [fill_bytes]; [sha2]/[sha3]; [chacha20] (the legacy stream cipher: the
    keystream of a key and nonce, from a byte offset, for a length); [poly1305];
    [aes_gcm]; [x25519_dalek]; [ed25519_dalek]; [ml_kem]; [sntrup761]; [flate2].
    [sntrup761_enabled] is the crate feature of that name. *)
Class Crypto := {
  Rng : Type;
  next_u32 : Rng -> Z * Rng;
  fill_bytes : Z -> Rng -> bytes * Rng;

  sha256 : bytes -> bytes;
  sha512 : bytes -> bytes;
  shake128 : bytes -> Z -> bytes;

  chacha20_keystream : bytes -> bytes -> Z -> Z -> bytes;
  poly1305 : bytes -> bytes -> bytes;
  aes256gcm_encrypt : bytes -> bytes -> bytes -> bytes -> bytes * bytes;
  aes256gcm_decrypt : bytes -> bytes -> bytes -> bytes -> bytes -> option bytes;

  X25519Secret : Type;
  x25519_random : Rng -> X25519Secret * Rng;
  x25519_public : X25519Secret -> bytes;
  x25519_dh : X25519Secret -> bytes -> bytes;
  x25519_was_contributory : bytes -> bool;

  SigningKey : Type;
  VerifyingKey : Type;
  signing_generate : Rng -> SigningKey * Rng;
  signing_from_bytes : bytes -> SigningKey;
  verifying_key : SigningKey -> VerifyingKey;
  verifying_from_bytes : bytes -> option VerifyingKey;
  verifying_as_bytes : VerifyingKey -> bytes;
  ed25519_sign : SigningKey -> bytes -> bytes;
  ed25519_verify_strict : VerifyingKey -> bytes -> bytes -> bool;

  MlKemDecap : Type;
  MlKemEncap : Type;
  mlkem_from_seed : bytes -> MlKemDecap;
  mlkem_encapsulation_key : MlKemDecap -> bytes;
  mlkem_new_ek : bytes -> option MlKemEncap;
  mlkem_encapsulate : MlKemEncap -> bytes -> bytes * bytes;
  mlkem_decapsulate : MlKemDecap -> bytes -> option bytes;

  sntrup761_enabled : bool;
  SnDecap : Type;
  SnEncap : Type;
  sntrup_from_seed : bytes -> bytes * SnDecap;
  sntrup_ek : bytes -> option SnEncap;
  sntrup_encapsulate : SnEncap -> bytes -> bytes * bytes;
  sntrup_ciphertext_ok : bytes -> bool;
  sntrup_decapsulate : SnDecap -> bytes -> bytes;

  Deflate : Type;
  Inflate : Type;
  deflate_new : Deflate;
  inflate_new : Inflate;
  (** input and spare capacity; bytes consumed and bytes produced *)
  compress_vec : Deflate -> bytes -> Z -> Deflate * (Z * bytes);
  (** the same, with [Status::StreamEnd]; [None] is an error *)
  decompress_vec : Inflate -> bytes -> Z -> Inflate * option (Z * bytes * bool)
}.

(** What the documentation of those crates promises and the code relies on:
    lengths; decryption inverts encryption; Diffie-Hellman commutes; a signature
    made with a key verifies; decapsulation inverts encapsulation. *)
Class CryptoOk (C : Crypto) : Prop := {
  next_u32_range r : is_u32 (fst (next_u32 r));
  fill_bytes_len n r : 0 <= n -> len (fst (fill_bytes n r)) = n;
  sha256_len b : len (sha256 b) = 32;
  sha512_len b : len (sha512 b) = 64;
  shake128_len b n : 0 <= n -> len (shake128 b n) = n;
  keystream_len k nonce off n : 0 <= n -> len (chacha20_keystream k nonce off n) = n;
  poly1305_len k d : len (poly1305 k d) = 16;
  gcm_ct_len k iv aad pt : len (fst (aes256gcm_encrypt k iv aad pt)) = len pt;
  gcm_tag_len k iv aad pt : len (snd (aes256gcm_encrypt k iv aad pt)) = 16;
  gcm_decrypt_len k iv aad ct tag pt : aes256gcm_decrypt k iv aad ct tag = Some pt ->
    len pt = len ct;
  gcm_decrypt_encrypt k iv aad pt ct tag : aes256gcm_encrypt k iv aad pt = (ct, tag) ->
    aes256gcm_decrypt k iv aad ct tag = Some pt;
  x25519_public_len s : len (x25519_public s) = 32;
  x25519_dh_comm s t : x25519_dh s (x25519_public t) = x25519_dh t (x25519_public s);
  verifying_from_as sk :
    verifying_from_bytes (verifying_as_bytes (verifying_key sk)) = Some (verifying_key sk);
  verifying_as_bytes_len vk : len (verifying_as_bytes vk) = 32;
  ed25519_sign_len sk m : len (ed25519_sign sk m) = 64;
  ed25519_verify_sign sk m : ed25519_verify_strict (verifying_key sk) m (ed25519_sign sk m) = true;
  mlkem_ek_len dk : len (mlkem_encapsulation_key dk) = 1184;
  mlkem_ek_valid dk : is_Some (mlkem_new_ek (mlkem_encapsulation_key dk));
  mlkem_ct_len ek m : len (fst (mlkem_encapsulate ek m)) = 1088;
  mlkem_agree dk ek m : mlkem_new_ek (mlkem_encapsulation_key dk) = Some ek ->
    mlkem_decapsulate dk (fst (mlkem_encapsulate ek m)) = Some (snd (mlkem_encapsulate ek m));
  sntrup_pk_len s : len (fst (sntrup_from_seed s)) = 1158;
  sntrup_ek_valid s : is_Some (sntrup_ek (fst (sntrup_from_seed s)));
  sntrup_ct_len ek m : len (fst (sntrup_encapsulate ek m)) = 1039;
  sntrup_ct_valid ek m : sntrup_ciphertext_ok (fst (sntrup_encapsulate ek m)) = true;
  sntrup_agree s ek m : sntrup_ek (fst (sntrup_from_seed s)) = Some ek ->
    sntrup_decapsulate (snd (sntrup_from_seed s)) (fst (sntrup_encapsulate ek m))
      = snd (sntrup_encapsulate ek m)
}.

(** What [flate2] promises about flushing: a call neither reads past its input nor
    writes past its room; a call that returns with room left has read everything
    (and, for a sync flush, emitted everything that was pending).  [pending] bounds
    what is still to be emitted for an input. *)
Class FlateOk (C : Crypto) : Prop := {
  compress_vec_ok : exists pending : Deflate -> bytes -> Z,
    (forall d b, 0 <= pending d b <= U64_MAX) /\
    (forall d b room d' n o, 0 < room -> compress_vec d b room = (d', (n, o)) ->
      0 <= n <= len b /\ len o <= room /\
      (len o < room -> n = len b) /\
      (len o = room -> pending d' (zdrop n b) <= pending d b - room));
  decompress_vec_ok d b room d' n o fin : 0 < room ->
    decompress_vec d b room = (d', Some (n, o, fin)) ->
    0 <= n <= len b /\ len o <= room /\ (fin = false -> len o < room -> n = len b)
}.

(** What the libraries produce are octets. *)
Class OctetsOk (C : Crypto) : Prop := {
  keystream_octets k nonce off n : is_bytes (chacha20_keystream k nonce off n);
  gcm_decrypt_octets k iv aad ct tag pt :
    is_bytes ct -> aes256gcm_decrypt k iv aad ct tag = Some pt -> is_bytes pt;
  decompress_octets d b room d' n o fin :
    is_bytes b -> decompress_vec d b room = (d', Some (n, o, fin)) -> is_bytes o
}.

(** Two byte strings combined bit by bit, as [apply_keystream] does. *)
Definition xor_bytes (a k : bytes) : bytes := zip_with Z.lxor a k.

Lemma len_xor_bytes a k : len a <= len k -> len (xor_bytes a k) = len a.
Proof. unfold xor_bytes, len. intros. rewrite length_zip_with. lia. Qed.

Lemma xor_bytes_invol a k : len a <= len k -> xor_bytes (xor_bytes a k) k = a.
Proof.
  unfold xor_bytes. revert k. induction a as [|x a IH]; intros [|y k] H; cbn [zip_with]; try done.
  len_simpl. rewrite IH by lia.
  by rewrite Z.lxor_assoc, Z.lxor_nilpotent, Z.lxor_0_r.
Qed.

Lemma is_u8_lxor x y : is_u8 x -> is_u8 y -> is_u8 (Z.lxor x y).
Proof.
  unfold is_u8, U8_MAX. intros Hx Hy.
  assert (H0 : 0 <= Z.lxor x y) by (apply Z.lxor_nonneg; lia). split; [exact H0|].
  destruct (Z.eq_dec (Z.lxor x y) 0) as [->|Hn]; [lia|].
  assert (Hl : Z.log2 (Z.lxor x y) < 8); [|apply Z.log2_lt_pow2 in Hl; lia].
  pose proof (Z.log2_lxor x y ltac:(lia) ltac:(lia)).
  assert (forall z, 0 <= z <= 255 -> Z.log2 z <= 7).
  { intros z Hz. apply (Z.le_trans _ (Z.log2 255)); [apply Z.log2_le_mono; lia|done]. }
  pose proof (H1 x ltac:(lia)). pose proof (H1 y ltac:(lia)). lia.
Qed.

Lemma is_bytes_xor a k : is_bytes a -> is_bytes k -> is_bytes (xor_bytes a k).
Proof.
  unfold xor_bytes, is_bytes. intros Ha. revert k.
  induction Ha as [|x a Hx Ha IH]; intros k Hk; cbn [zip_with]; [constructor|].
  destruct Hk as [|y k Hy Hk]; [constructor|]. constructor; [by apply is_u8_lxor|by apply IH].
Qed.
#[export] Hint Resolve is_bytes_xor : ssh.

(** * A concrete instance

    Arithmetic stand-ins that satisfy [CryptoOk] and [FlateOk], so that theorems
    with those hypotheses are applied at closed inputs.  They are not ciphers. *)
Module Toy.
Definition hash (n : nat) (b : bytes) : bytes :=
  be_bytes n (fold_left (fun acc x => Z.land (acc * 263 + x + 7) 281474976710655) b 11).
(** A digest followed by zeros, for the large public values. *)
Definition wide (n : nat) (b : bytes) : bytes := hash 32 b ++ replicate n 0.
Definition stream (n : Z) (seed : Z) : bytes :=
  (fun i => (seed + 31 * Z.of_nat i) mod 256) <$> seq 0 (Z.to_nat n).
Definition mac (a b c d : bytes) : bytes := hash 16 (a ++ b ++ c ++ d).
Definition N : Z := 2 ^ 256.

#[export] Instance crypto : Crypto := {|
  Rng := Z;
  next_u32 r := (as_u32 (r * 17 + 5), r + 1);
  fill_bytes n r := (stream n r, r + 1);
  sha256 := hash 32;
  sha512 := hash 64;
  shake128 b n := stream n (fold_left Z.add b 1);
  chacha20_keystream k nonce off n :=
    stream n (fold_left Z.add k 3 + 5 * fold_left Z.add nonce 1 + off);
  poly1305 k d := mac k d [] [];
  aes256gcm_encrypt k iv aad pt :=
    let ct := xor_bytes pt (stream (len pt) (fold_left Z.add (k ++ iv) 9)) in (ct, mac k iv aad ct);
  aes256gcm_decrypt k iv aad ct tag :=
    if bool_decide (mac k iv aad ct = tag)
    then Some (xor_bytes ct (stream (len ct) (fold_left Z.add (k ++ iv) 9))) else None;
  X25519Secret := Z;
  x25519_random r := (2 * (r * 12345 + 67) + 1, r + 1);
  x25519_public s := be_bytes 32 (s * 9);
  x25519_dh s p := be_bytes 32 (s * be_val p);
  x25519_was_contributory b := negb (forallb (Z.eqb 0) b);
  SigningKey := Z;
  VerifyingKey := Z;
  signing_generate r := (r * 77 + 3, r + 1);
  signing_from_bytes b := be_val b;
  verifying_key s := (s * 3 + 1) mod N;
  verifying_from_bytes b := if len b =? 32 then Some (be_val b) else None;
  verifying_as_bytes v := be_bytes 32 v;
  ed25519_sign s m := hash 64 (be_bytes 32 ((s * 3 + 1) mod N) ++ m);
  ed25519_verify_strict v m sig := bool_decide (sig = hash 64 (be_bytes 32 v ++ m));
  MlKemDecap := bytes;
  MlKemEncap := bytes;
  mlkem_from_seed s := s;
  mlkem_encapsulation_key dk := wide 1152 dk;
  mlkem_new_ek b := Some b;
  mlkem_encapsulate ek m := (wide 1056 m, hash 32 (wide 1056 m ++ ek));
  mlkem_decapsulate dk ct := Some (hash 32 (ct ++ wide 1152 dk));
  sntrup761_enabled := false;
  SnDecap := bytes;
  SnEncap := bytes;
  sntrup_from_seed s := (wide 1126 s, s);
  sntrup_ek b := Some b;
  sntrup_encapsulate ek m := (wide 1007 m, hash 32 (wide 1007 m ++ ek));
  sntrup_ciphertext_ok ct := len ct =? 1039;
  sntrup_decapsulate dk ct := hash 32 (ct ++ wide 1126 dk);
  Deflate := bytes;
  Inflate := unit;
  deflate_new := [];
  inflate_new := tt;
  (* "stored": the state keeps what is still to be emitted *)
  compress_vec d b room :=
    let all := ztake U32_MAX (d ++ b) in
    (zdrop room all, (len b, ztake room all));
  decompress_vec d b room := (tt, Some (Z.min (len b) room, ztake room b, false))
|}.

Lemma len_toy_stream n s : 0 <= n -> len (stream n s) = n.
Proof. intros. unfold stream, len. rewrite length_fmap, length_seq. lia. Qed.

Lemma len_hash n b : len (hash n b) = Z.of_nat n.
Proof. unfold hash, len. by rewrite length_be_bytes. Qed.

Lemma len_wide n b : len (wide n b) = 32 + Z.of_nat n.
Proof. unfold wide. rewrite len_app, len_hash. unfold len. by rewrite length_replicate. Qed.

Lemma be_bytes_mod n v : be_bytes n (v mod 256 ^ Z.of_nat n) = be_bytes n v.
Proof.
  rewrite <- be_val_be_bytes. rewrite <- (length_be_bytes n v) at 1.
  apply be_bytes_be_val, be_bytes_range.
Qed.

Lemma dh_mod s v : be_bytes 32 (s * (v mod N)) = be_bytes 32 (s * v).
Proof.
  rewrite <- (be_bytes_mod 32 (s * (v mod N))), <- (be_bytes_mod 32 (s * v)).
  change (256 ^ Z.of_nat 32) with N. rewrite Z.mul_mod_idemp_r; [done|]. done.
Qed.

Lemma zeros_val b : forallb (Z.eqb 0) b = true -> be_val b = 0.
Proof.
  unfold be_val. assert (H : forall acc, forallb (Z.eqb 0) b = true -> acc = 0 -> fold_left (fun a x => a * 256 + x) b acc = 0); [|intros Hb; by apply H].
  induction b as [|x b IH]; intros acc; cbn -[Z.eqb]; [done|]. intros [E Hb]%andb_prop ->. apply Z.eqb_eq in E as <-. by apply IH.
Qed.

(** The secrets are odd, so a product of two is never zero. *)
Lemma odd_contributory r r' :
  x25519_was_contributory (x25519_dh (fst (x25519_random r)) (x25519_public (fst (x25519_random r')))) = true.
Proof.
  cbn -[be_bytes be_val Z.mul Z.add]. destruct (forallb _ _) eqn:E; [|done]. exfalso. apply zeros_val in E.
  rewrite !be_val_be_bytes in E. change (256 ^ Z.of_nat 32) with N in E. rewrite Z.mul_mod_idemp_r in E by done.
  set (a := r * 12345 + 67) in E. set (b := r' * 12345 + 67) in E. unfold N in E.
  pose proof (Z_div_mod_eq_full ((2 * a + 1) * ((2 * b + 1) * 9)) (2 ^ 256)) as D. rewrite E in D.
  change (2 ^ 256) with (2 * 2 ^ 255) in D. revert D. generalize ((2 * a + 1) * ((2 * b + 1) * 9) / (2 * 2 ^ 255)) as q. intros q D.
  assert (H : 2 * (18 * a * b + 9 * a + 9 * b + 4 - 2 ^ 255 * q) = -1) by (ring_simplify in D; ring_simplify; lia). lia.
Qed.

#[export] Instance crypto_ok : CryptoOk crypto.
Proof.
  constructor; cbn -[be_bytes be_val len hash wide stream Z.of_nat Z.mul Z.add N]; intros.
  - apply is_u32_as_u32.
  - by apply len_toy_stream.
  - apply (len_hash 32).
  - apply (len_hash 64).
  - by apply len_toy_stream.
  - by apply len_toy_stream.
  - apply (len_hash 16).
  - apply len_xor_bytes. rewrite len_toy_stream; pose proof (len_nonneg pt); lia.
  - apply (len_hash 16).
  - repeat case_match; simplify_eq. apply len_xor_bytes.
    rewrite len_toy_stream; pose proof (len_nonneg ct); lia.
  - simplify_eq. rewrite bool_decide_true by done.
    rewrite len_xor_bytes, xor_bytes_invol; try done;
      rewrite len_toy_stream; pose proof (len_nonneg pt); lia.
  - unfold len. by rewrite length_be_bytes.
  - rewrite !be_val_be_bytes. change (256 ^ Z.of_nat 32) with N.
    rewrite !dh_mod. f_equal. lia.
  - unfold len. rewrite length_be_bytes. change (Z.of_nat 32 =? 32) with true. cbv iota.
    rewrite be_val_be_bytes. change (256 ^ Z.of_nat 32) with N. by rewrite Z.mod_mod.
  - unfold len. by rewrite length_be_bytes.
  - apply (len_hash 64).
  - by rewrite bool_decide_true.
  - apply (len_wide 1152).
  - eauto.
  - apply (len_wide 1056).
  - by simplify_eq.
  - apply (len_wide 1126).
  - eauto.
  - apply (len_wide 1007).
  - by rewrite (len_wide 1007).
  - by simplify_eq.
Qed.

Lemma stream_bytes n s : is_bytes (stream n s).
Proof.
  unfold stream, is_bytes. apply Forall_fmap, Forall_true. intros i.
  unfold is_u8, U8_MAX. cbn. pose proof (Z.mod_pos_bound (s + 31 * Z.of_nat i) 256). lia.
Qed.

#[export] Instance octets_ok : OctetsOk crypto.
Proof.
  constructor; cbn -[stream]; intros.
  - apply stream_bytes.
  - case_bool_decide; simplify_eq. apply is_bytes_xor; [done|apply stream_bytes].
  - simplify_eq. by apply is_bytes_ztake.
Qed.

#[export] Instance flate_ok : FlateOk crypto.
Proof.
  constructor.
  - exists (fun d b => len (ztake U32_MAX (d ++ b))). split.
    { intros d b. split; [apply len_nonneg|].
      unfold len, ztake, U64_MAX, U32_MAX. rewrite length_take. lia. }
    intros d b room d' n o Hr [= <- <- <-]. pose proof (len_nonneg b).
    split; [lia|]. set (all := ztake U32_MAX (d ++ b)).
    assert (Ho : len (ztake room all) = Z.min room (len all)).
    { unfold len, ztake. rewrite length_take. lia. }
    rewrite Ho. split; [lia|]. split; [done|]. intros He.
    replace (zdrop (len b) b) with (@nil Z)
      by (unfold zdrop, len; rewrite Nat2Z.id, drop_ge; done).
    rewrite app_nil_r, ztake_all; [rewrite len_zdrop; lia|].
    rewrite len_zdrop by lia.
    assert (len all <= U32_MAX); [|lia].
    unfold all, len, ztake, U32_MAX. rewrite length_take. lia.
  - intros d b room d' n o fin Hr [= <- <- <- <-].
    assert (Ho : len (ztake room b) = Z.min room (len b)).
    { unfold len, ztake. rewrite length_take. lia. }
    pose proof (len_nonneg b). rewrite Ho. lia.
Qed.
End Toy.
