(* ===== verification/Kex.v ===== *)
(** Key exchange: the X25519 pair of [kex.rs], the hybrids of [mlkem.rs] and
    [sntrup.rs], the exchange hash and key derivation of [kdf.rs], and the host
    keys of [hostkey.rs]. *)
From S2P Require Import Prelude Errors Wire Crypto.

(** [ssh-ed25519] (algo.rs) and the hybrid method names. *)
Definition HOSTKEY_ED25519 : bytes := str "ssh-ed25519".
Definition KEX_MLKEM768_X25519 : bytes := str "mlkem768x25519-sha256".
Definition KEX_SNTRUP761_X25519 : bytes := str "sntrup761x25519-sha512@openssh.com".

Definition MLKEM_EK_LEN : Z := 1184.
Definition MLKEM_CT_LEN : Z := 1088.
Definition SNTRUP_PK_LEN : Z := 1158.
Definition SNTRUP_CT_LEN : Z := 1039.
Definition X25519_LEN : Z := 32.

(** [KexHash] and [SharedSecret] (kdf.rs). *)
Inductive KexHash := Sha256 | Sha512.

Inductive SharedSecret :=
| Mpint (magnitude : bytes)
| SString (b : bytes).

Definition encode_secret (s : SharedSecret) : bytes :=
  match s with
  | Mpint magnitude =>
      Writer.with_capacity (len magnitude + 5) >>> Writer.mpint magnitude >>> Writer.into_bytes
  | SString b =>
      Writer.with_capacity (len b + 4) >>> Writer.string b >>> Writer.into_bytes
  end.

Record ExchangeHashInput := mkExchangeHashInput {
  client_id : bytes;
  server_id : bytes;
  client_kexinit : bytes;
  server_kexinit : bytes;
  host_key_blob : bytes;
  client_ephemeral : bytes;
  server_ephemeral : bytes;
  shared_secret : SharedSecret
}.

(** The bytes that [exchange_hash] feeds to the digest. *)
Definition exchange_hash_preimage (input : ExchangeHashInput) : bytes :=
  Writer.new
    >>> Writer.string (client_id input)
    >>> Writer.string (server_id input)
    >>> Writer.string (client_kexinit input)
    >>> Writer.string (server_kexinit input)
    >>> Writer.string (host_key_blob input)
    >>> Writer.string (client_ephemeral input)
    >>> Writer.string (server_ephemeral input)
    >>> Writer.raw (encode_secret (shared_secret input))
    >>> Writer.as_slice.

Section Ecdh.
Context `{C : Crypto}.

(** A draw from the generator. *)
Definition draw {A} (f : Rng -> A * Rng) : M SshError Rng A :=
  fun r => let '(a, r') := f r in (Ok a, r').

(** * kex.rs *)
Record EcdhKeypair := mkEcdhKeypair { ek_secret : X25519Secret; ek_public : bytes }.

Definition ecdh_generate : M SshError Rng EcdhKeypair :=
  let* secret := draw x25519_random in
  ret (mkEcdhKeypair secret (x25519_public secret)).

Definition ecdh_public (kp : EcdhKeypair) : bytes := ek_public kp.

Definition ecdh_agree (kp : EcdhKeypair) (peer_public : bytes) : result bytes :=
  if negb (len peer_public =? 32) then Err (Kex "peer public key is not 32 bytes")
  else
    let shared := x25519_dh (ek_secret kp) peer_public in
    if negb (x25519_was_contributory shared) then Err (Kex "non-contributory key exchange")
    else Ok shared.

End Ecdh.

(** * mlkem.rs *)
Module mlkem.
Section mlkem.
Context `{C : Crypto}.
Definition CLIENT_INIT_LEN : Z := MLKEM_EK_LEN + X25519_LEN.
Definition SERVER_REPLY_LEN : Z := MLKEM_CT_LEN + X25519_LEN.

Definition combine (k_pq k_x25519 : bytes) : bytes := sha256 (k_pq ++ k_x25519).

Record HybridClient := mkHybridClient { decap : MlKemDecap; x25519 : EcdhKeypair; init : bytes }.

Definition generate : M SshError Rng HybridClient :=
  let* seed := draw (fill_bytes 64) in
  let decap := mlkem_from_seed seed in
  let ek := mlkem_encapsulation_key decap in
  let* x25519 := ecdh_generate in
  ret (mkHybridClient decap x25519 (ek ++ ecdh_public x25519)).

Definition agree (hc : HybridClient) (server_reply : bytes) : result bytes :=
  if negb (len server_reply =? SERVER_REPLY_LEN)
  then Err (Kex "mlkem768x25519 server reply has wrong length")
  else
    let ciphertext := ztake MLKEM_CT_LEN server_reply in
    let server_x := zdrop MLKEM_CT_LEN server_reply in
    match mlkem_decapsulate (decap hc) ciphertext with
    | None => Err (Kex "mlkem768 ciphertext has wrong length")
    | Some k_pq => omap_ok (combine k_pq) (ecdh_agree (x25519 hc) server_x)
    end.

Definition server_respond (client_init : bytes) : M SshError Rng (bytes * bytes) :=
  if negb (len client_init =? CLIENT_INIT_LEN)
  then err (Kex "mlkem768x25519 client init has wrong length")
  else
    let ek_bytes := ztake MLKEM_EK_LEN client_init in
    let client_x := zdrop MLKEM_EK_LEN client_init in
    let* ek := ok_or (mlkem_new_ek ek_bytes) (Kex "invalid mlkem768 encapsulation key") in
    let* m := draw (fill_bytes 32) in
    let '(ciphertext, k_pq) := mlkem_encapsulate ek m in
    let* server_x := ecdh_generate in
    let server_x_pub := ecdh_public server_x in
    let* k_x25519 := lift (ecdh_agree server_x client_x) in
    ret (ciphertext ++ server_x_pub, combine k_pq k_x25519).
End mlkem.
End mlkem.

(** * sntrup.rs *)
Module sntrup.
Section sntrup.
Context `{C : Crypto}.
Definition CLIENT_INIT_LEN : Z := SNTRUP_PK_LEN + X25519_LEN.
Definition SERVER_REPLY_LEN : Z := SNTRUP_CT_LEN + X25519_LEN.

Definition combine (k_pq k_x25519 : bytes) : bytes := sha512 (k_pq ++ k_x25519).

Record HybridClient := mkHybridClient { decap : SnDecap; x25519 : EcdhKeypair; init : bytes }.

Definition generate : M SshError Rng HybridClient :=
  let* seed := draw (fill_bytes 32) in
  let '(ek, decap) := sntrup_from_seed seed in
  let* x25519 := ecdh_generate in
  ret (mkHybridClient decap x25519 (ek ++ ecdh_public x25519)).

Definition agree (hc : HybridClient) (server_reply : bytes) : result bytes :=
  if negb (len server_reply =? SERVER_REPLY_LEN)
  then Err (Kex "sntrup761x25519 server reply has wrong length")
  else
    let ciphertext := ztake SNTRUP_CT_LEN server_reply in
    let server_x := zdrop SNTRUP_CT_LEN server_reply in
    if negb (sntrup_ciphertext_ok ciphertext)
    then Err (Kex "sntrup761 ciphertext has wrong length")
    else
      let k_pq := sntrup_decapsulate (decap hc) ciphertext in
      omap_ok (combine k_pq) (ecdh_agree (x25519 hc) server_x).

Definition server_respond (client_init : bytes) : M SshError Rng (bytes * bytes) :=
  if negb (len client_init =? CLIENT_INIT_LEN)
  then err (Kex "sntrup761x25519 client init has wrong length")
  else
    let pk_bytes := ztake SNTRUP_PK_LEN client_init in
    let client_x := zdrop SNTRUP_PK_LEN client_init in
    let* ek := ok_or (sntrup_ek pk_bytes) (Kex "sntrup761 public key has wrong length") in
    let* seed := draw (fill_bytes 32) in
    let '(ciphertext, k_pq) := sntrup_encapsulate ek seed in
    let* server_x := ecdh_generate in
    let server_x_pub := ecdh_public server_x in
    let* k_x25519 := lift (ecdh_agree server_x client_x) in
    ret (ciphertext ++ server_x_pub, combine k_pq k_x25519).
End sntrup.
End sntrup.

(** * kdf.rs *)
Section Kdf.
Context `{C : Crypto}.
Definition digest (hash : KexHash) (b : bytes) : bytes :=
  match hash with Sha256 => sha256 b | Sha512 => sha512 b end.

Definition exchange_hash (input : ExchangeHashInput) (hash : KexHash) : bytes :=
  digest hash (exchange_hash_preimage input).

(** The [while out.len() < out_len] loop; every round adds a digest. *)
Fixpoint derive_loop (fuel : nat) (k_enc h out : bytes) (out_len : Z) (hash : KexHash) : bytes :=
  match fuel with
  | O => out
  | S fuel' =>
      if len out <? out_len
      then derive_loop fuel' k_enc h (out ++ digest hash (k_enc ++ h ++ out)) out_len hash
      else out
  end.

Definition derive_key (k_enc h : bytes) (letter : Z) (session_id : bytes) (out_len : Z)
  (hash : KexHash) : bytes :=
  let first := digest hash (k_enc ++ h ++ [letter] ++ session_id) in
  ztake out_len (derive_loop (Z.to_nat out_len) k_enc h first out_len hash).

Record Keys := mkKeys { iv_c2s : bytes; iv_s2c : bytes; enc_c2s : bytes; enc_s2c : bytes }.

Definition derive (shared_secret : SharedSecret) (h session_id : bytes) (key_len iv_len : Z)
  (hash : KexHash) : Keys :=
  let k_enc := encode_secret shared_secret in
  mkKeys
    (derive_key k_enc h 65 session_id iv_len hash)
    (derive_key k_enc h 66 session_id iv_len hash)
    (derive_key k_enc h 67 session_id key_len hash)
    (derive_key k_enc h 68 session_id key_len hash).

(** * hostkey.rs *)
Record HostKey := mkHostKey { signing : SigningKey }.
Record HostPublicKey := mkHostPublicKey { verifying : VerifyingKey }.

Definition public_blob_of (vk : VerifyingKey) : bytes :=
  Writer.new >>> Writer.string HOSTKEY_ED25519 >>> Writer.string (verifying_as_bytes vk)
    >>> Writer.into_bytes.

End Kdf.

Module HostKey.
Section HostKey.
Context `{C : Crypto}.
Definition from_seed (seed : bytes) : HostKey := mkHostKey (signing_from_bytes seed).
Definition generate : M SshError Rng HostKey :=
  let* sk := draw signing_generate in ret (mkHostKey sk).
Definition public_blob (k : HostKey) : bytes := public_blob_of (verifying_key (signing k)).
Definition public (k : HostKey) : HostPublicKey := mkHostPublicKey (verifying_key (signing k)).
Definition sign_exchange_hash (k : HostKey) (h : bytes) : bytes :=
  let sig := ed25519_sign (signing k) h in
  Writer.new >>> Writer.string HOSTKEY_ED25519 >>> Writer.string sig >>> Writer.into_bytes.
End HostKey.
End HostKey.

Module HostPublicKey.
Section HostPublicKey.
Context `{C : Crypto}.
Definition parse_blob_r : RM HostPublicKey :=
  let* alg := Reader.utf8 in
  if negb (beq alg HOSTKEY_ED25519) then err (Kex "unsupported host key algorithm")
  else
    let* key := Reader.string in
    if negb (len key =? 32) then err (Kex "ed25519 key is not 32 bytes")
    else
      let* verifying := ok_or (verifying_from_bytes key) (Kex "invalid ed25519 key") in
      ret (mkHostPublicKey verifying).
Definition parse_blob (blob : bytes) : result HostPublicKey := run parse_blob_r (Reader.new blob).

Definition from_ed25519_bytes (b : bytes) : result HostPublicKey :=
  match verifying_from_bytes b with
  | Some vk => Ok (mkHostPublicKey vk)
  | None => Err (Kex "invalid ed25519 key")
  end.

Definition blob (k : HostPublicKey) : bytes := public_blob_of (verifying k).

Definition verify_r (k : HostPublicKey) (h : bytes) : RM unit :=
  let* alg := Reader.utf8 in
  if negb (beq alg HOSTKEY_ED25519) then err (Kex "unsupported signature algorithm")
  else
    let* sig := Reader.string in
    if negb (len sig =? 64) then err (Kex "ed25519 signature is not 64 bytes")
    else if ed25519_verify_strict (verifying k) h sig then ret tt
    else err (Kex "host key signature verification failed").
Definition verify (k : HostPublicKey) (h sig_blob : bytes) : result unit :=
  run (verify_r k h) (Reader.new sig_blob).
End HostPublicKey.
End HostPublicKey.

(** * Properties *)

Lemma exchange_hash_preimage_eq i :
  exchange_hash_preimage i =
    wire_string (client_id i) ++ wire_string (server_id i) ++ wire_string (client_kexinit i) ++
    wire_string (server_kexinit i) ++ wire_string (host_key_blob i) ++
    wire_string (client_ephemeral i) ++ wire_string (server_ephemeral i) ++
    encode_secret (shared_secret i).
Proof.
  unfold exchange_hash_preimage, Writer.as_slice. wire_norm. done.
Qed.

(** A [string] is a prefix code. *)
Lemma wire_string_inj a b ra rb :
  len a <= U32_MAX -> len b <= U32_MAX ->
  wire_string a ++ ra = wire_string b ++ rb -> a = b /\ ra = rb.
Proof.
  intros Ha Hb H. unfold wire_string in H. rewrite <- !app_assoc in H.
  apply app_inj_1 in H as [Hl H].
  - apply (f_equal be_val) in Hl. rewrite !be_val_to_be32, !as_u32_idem in Hl.
    rewrite !as_u32_id in Hl by (split; [apply len_nonneg|done]).
    apply app_inj_1 in H; [done|]. unfold len in Hl. lia.
  - unfold to_be32. by rewrite !length_be_bytes.
Qed.

(** The sizes a [u32] length prefix can carry. *)
Definition hash_input_ok (i : ExchangeHashInput) : Prop :=
  Forall (fun b => len b <= U32_MAX)
    [client_id i; server_id i; client_kexinit i; server_kexinit i; host_key_blob i;
     client_ephemeral i; server_ephemeral i].

(** The exchange hash binds the whole transcript: two inputs with the same digest
    input agree on both identifications, both KEXINIT payloads, the host key, both
    ephemeral values and the encoded secret. *)
Lemma exchange_hash_binds i j :
  hash_input_ok i -> hash_input_ok j ->
  exchange_hash_preimage i = exchange_hash_preimage j ->
  (client_id i, server_id i, client_kexinit i, server_kexinit i, host_key_blob i,
   client_ephemeral i, server_ephemeral i, encode_secret (shared_secret i)) =
  (client_id j, server_id j, client_kexinit j, server_kexinit j, host_key_blob j,
   client_ephemeral j, server_ephemeral j, encode_secret (shared_secret j)).
Proof.
  unfold hash_input_ok. rewrite !List.Forall_cons_iff. intros Hi Hj H.
  rewrite !exchange_hash_preimage_eq in H.
  destruct Hi as (?&?&?&?&?&?&?&_), Hj as (?&?&?&?&?&?&?&_).
  do 7 (apply wire_string_inj in H as [? H]; [|done|done]). congruence.
Qed.

Section KexProps.
Context `{C : Crypto} `{!CryptoOk C}.

Lemma len_digest hash b : len (digest hash b) = match hash with Sha256 => 32 | Sha512 => 64 end.
Proof. destruct hash; [apply sha256_len|apply sha512_len]. Qed.

Lemma derive_loop_len fuel k_enc h out out_len hash :
  out_len <= len out + 32 * Z.of_nat fuel ->
  out_len <= len (derive_loop fuel k_enc h out out_len hash).
Proof.
  revert out. induction fuel as [|fuel IH]; intros out H; cbn [derive_loop]; [lia|].
  destruct (Z.ltb_spec (len out) out_len); [|done].
  apply IH. rewrite len_app, len_digest. destruct hash; lia.
Qed.

(** The expansion only appends: what was derived first stays in front. *)
Lemma derive_loop_prefix fuel k_enc h out out_len hash :
  exists t, derive_loop fuel k_enc h out out_len hash = out ++ t.
Proof.
  revert out. induction fuel as [|fuel IH]; intros out; cbn [derive_loop].
  - exists []. by rewrite app_nil_r.
  - destruct (_ <? _); [|exists []; by rewrite app_nil_r].
    destruct (IH (out ++ digest hash (k_enc ++ h ++ out))) as [t ->].
    eexists. by rewrite <- app_assoc.
Qed.

Lemma len_derive_key k_enc h letter sid out_len hash :
  0 <= out_len -> len (derive_key k_enc h letter sid out_len hash) = out_len.
Proof.
  intros Ho. unfold derive_key. apply len_ztake. split; [done|].
  apply derive_loop_len. rewrite len_digest. destruct hash; lia.
Qed.

(** Key derivation returns exactly the bytes asked for, for any length and either
    digest: the expansion loop runs until there are enough. *)
Lemma derive_key_len k_enc h letter sid out_len hash :
  0 <= out_len -> len (derive_key k_enc h letter sid out_len hash) = out_len.
Proof. apply len_derive_key. Qed.

(** A shorter key is a prefix of a longer one derived for the same letter. *)
Lemma derive_key_first_block k_enc h letter sid out_len hash :
  0 <= out_len <= 32 ->
  derive_key k_enc h letter sid out_len hash =
    ztake out_len (digest hash (k_enc ++ h ++ [letter] ++ sid)).
Proof.
  intros Ho. unfold derive_key.
  destruct (derive_loop_prefix (Z.to_nat out_len) k_enc h
    (digest hash (k_enc ++ h ++ [letter] ++ sid)) out_len hash) as [t ->].
  pose proof (len_digest hash (k_enc ++ h ++ [letter] ++ sid)) as Hd.
  unfold ztake, len in *. rewrite take_app_le; [done|]. destruct hash; lia.
Qed.

(** ** The two sides agree *)

Definition fresh_pair (kp : EcdhKeypair) : Prop := ek_public kp = x25519_public (ek_secret kp).

Lemma ecdh_generate_fresh r :
  exists kp r', ecdh_generate r = (Ok kp, r') /\ fresh_pair kp.
Proof.
  unfold ecdh_generate, bind, draw, ret.
  destruct (x25519_random r) as [s r'] eqn:Hr. by eexists _, _.
Qed.

Lemma ecdh_agree_sym a b :
  fresh_pair a -> fresh_pair b ->
  ecdh_agree a (ecdh_public b) = ecdh_agree b (ecdh_public a).
Proof.
  unfold fresh_pair, ecdh_agree, ecdh_public. intros -> ->.
  by rewrite !x25519_public_len, x25519_dh_comm.
Qed.

Lemma len_ecdh_public kp : fresh_pair kp -> len (ecdh_public kp) = 32.
Proof. unfold fresh_pair, ecdh_public. intros ->. apply x25519_public_len. Qed.

(** The hybrid client as [generate] builds it. *)
Definition mlkem_client_ok (hc : mlkem.HybridClient) : Prop :=
  fresh_pair (mlkem.x25519 hc) /\ mlkem.init hc = mlkem_encapsulation_key (mlkem.decap hc) ++ ecdh_public (mlkem.x25519 hc).

Lemma mlkem_generate_ok r :
  exists hc r', mlkem.generate r = (Ok hc, r') /\ mlkem_client_ok hc.
Proof.
  unfold mlkem.generate, bind, draw.
  destruct (fill_bytes 64 r) as [seed r1] eqn:Hs.
  destruct (ecdh_generate_fresh r1) as (kp & r2 & -> & Hf).
  by eexists _, _.
Qed.

Lemma len_mlkem_init hc : mlkem_client_ok hc -> len (mlkem.init hc) = mlkem.CLIENT_INIT_LEN.
Proof. intros [Hf ->]. by rewrite len_app, mlkem_ek_len, len_ecdh_public. Qed.

Lemma mlkem_agree_lemma hc r reply k r' :
  mlkem_client_ok hc ->
  mlkem.server_respond (mlkem.init hc) r = (Ok (reply, k), r') ->
  mlkem.agree hc reply = Ok k /\ len (mlkem.init hc) = mlkem.CLIENT_INIT_LEN /\ len reply = mlkem.SERVER_REPLY_LEN.
Proof.
  intros Hc. pose proof (len_mlkem_init _ Hc) as Hl. destruct Hc as [Hf Hi].
  unfold mlkem.server_respond. rewrite Hl, Z.eqb_refl. cbn [negb]. rewrite Hi.
  rewrite ztake_app_len by by rewrite mlkem_ek_len.
  rewrite zdrop_app_len by by rewrite mlkem_ek_len.
  destruct (mlkem_ek_valid (mlkem.decap hc)) as [ek Hek]. rewrite Hek.
  unfold bind at 1. cbn [ok_or ret]. unfold bind at 1, draw.
  destruct (fill_bytes 32 r) as [m r1] eqn:Hm.
  pose proof (mlkem_ct_len ek m) as Hct. pose proof (mlkem_agree _ ek m Hek) as Hag.
  destruct (mlkem_encapsulate ek m) as [ct kpq] eqn:He. cbn [fst snd] in Hct, Hag.
  unfold bind at 1. destruct (ecdh_generate_fresh r1) as (sk & r2 & -> & Hsf).
  rewrite (ecdh_agree_sym sk) by done.
  unfold bind, lift. destruct (ecdh_agree (mlkem.x25519 hc) (ecdh_public sk)) as [kx| | |] eqn:Hkx;
    try done.
  intros [= <- <- <-]. unfold mlkem.agree.
  rewrite len_app, len_ecdh_public, Hct, Z.eqb_refl by done. cbn [negb].
  rewrite ztake_app_len, zdrop_app_len by done. by rewrite Hag, Hkx.
Qed.

(** The hybrid exchange agrees: whatever the server answers to a client's init
    blob, the client derives the same secret from the answer, and the two blobs
    have the advertised lengths. *)
Lemma mlkem_hybrid_agree hc r reply k r' :
  mlkem_client_ok hc ->
  mlkem.server_respond (mlkem.init hc) r = (Ok (reply, k), r') ->
  mlkem.agree hc reply = Ok k /\ len (mlkem.init hc) = mlkem.CLIENT_INIT_LEN /\ len reply = mlkem.SERVER_REPLY_LEN.
Proof. apply mlkem_agree_lemma. Qed.

Definition sntrup_client_ok (hc : sntrup.HybridClient) : Prop :=
  fresh_pair (sntrup.x25519 hc) /\ exists seed, sntrup.decap hc = snd (sntrup_from_seed seed) /\ sntrup.init hc = fst (sntrup_from_seed seed) ++ ecdh_public (sntrup.x25519 hc).

Lemma sntrup_generate_ok r :
  exists hc r', sntrup.generate r = (Ok hc, r') /\ sntrup_client_ok hc.
Proof.
  unfold sntrup.generate, bind, draw.
  destruct (fill_bytes 32 r) as [seed r1] eqn:Hs.
  destruct (sntrup_from_seed seed) as [ek dk] eqn:Hd.
  destruct (ecdh_generate_fresh r1) as (kp & r2 & -> & Hf).
  eexists _, _. split; [done|]. split; [done|]. exists seed. by rewrite Hd.
Qed.

Lemma sntrup_hybrid_agree hc r reply k r' :
  sntrup_client_ok hc ->
  sntrup.server_respond (sntrup.init hc) r = (Ok (reply, k), r') ->
  sntrup.agree hc reply = Ok k /\ len (sntrup.init hc) = sntrup.CLIENT_INIT_LEN /\ len reply = sntrup.SERVER_REPLY_LEN.
Proof.
  intros (Hf & seed & Hd & Hi).
  assert (Hl : len (sntrup.init hc) = sntrup.CLIENT_INIT_LEN).
  { by rewrite Hi, len_app, sntrup_pk_len, len_ecdh_public. }
  unfold sntrup.server_respond. rewrite Hl, Z.eqb_refl. cbn [negb]. rewrite Hi.
  rewrite ztake_app_len by by rewrite sntrup_pk_len.
  rewrite zdrop_app_len by by rewrite sntrup_pk_len.
  destruct (sntrup_ek_valid seed) as [ek Hek]. rewrite Hek.
  unfold bind at 1. cbn [ok_or ret]. unfold bind at 1, draw.
  destruct (fill_bytes 32 r) as [m r1] eqn:Hm.
  pose proof (sntrup_ct_len ek m) as Hct. pose proof (sntrup_ct_valid ek m) as Hcv.
  pose proof (sntrup_agree _ ek m Hek) as Hag. rewrite <- Hd in Hag.
  destruct (sntrup_encapsulate ek m) as [ct kpq] eqn:He. cbn [fst snd] in Hct, Hag, Hcv.
  unfold bind at 1. destruct (ecdh_generate_fresh r1) as (sk & r2 & -> & Hsf).
  rewrite (ecdh_agree_sym sk) by done.
  unfold bind, lift. destruct (ecdh_agree (sntrup.x25519 hc) (ecdh_public sk)) as [kx| | |] eqn:Hkx;
    try done.
  intros [= <- <- <-]. unfold sntrup.agree.
  rewrite len_app, len_ecdh_public, Hct, Z.eqb_refl by done. cbn [negb].
  rewrite ztake_app_len, zdrop_app_len by done. by rewrite Hcv, Hag, Hkx.
Qed.

(** ** Host keys *)

Lemma reads_beq {A} (b : bytes) (p q : RM A) x y :
  reads q x y -> reads (if negb (beq b b) then p else q) x y.
Proof. intros H. by rewrite beq_refl. Qed.

Lemma parse_public_blob k :
  HostPublicKey.parse_blob (HostKey.public_blob k) = Ok (HostKey.public k).
Proof.
  unfold HostKey.public_blob, public_blob_of, HostPublicKey.parse_blob. wire_norm.
  apply reads_run.
  - eapply reads_bind; [by apply reads_wire_utf8|]. apply reads_beq.
    rewrite <- (app_nil_r (wire_string _)).
    eapply reads_bind; [apply reads_wire_string; by rewrite verifying_as_bytes_len|].
    rewrite verifying_as_bytes_len. change (negb (32 =? 32)) with false. cbv iota.
    rewrite verifying_from_as. apply (reads_ret (mkHostPublicKey _)).
  - len_simpl. by rewrite verifying_as_bytes_len.
Qed.

Lemma verify_sign_lemma k h :
  HostPublicKey.verify (HostKey.public k) h (HostKey.sign_exchange_hash k h) = Ok tt.
Proof.
  unfold HostKey.sign_exchange_hash, HostPublicKey.verify. wire_norm.
  apply reads_run.
  - eapply reads_bind; [by apply reads_wire_utf8|]. apply reads_beq.
    rewrite <- (app_nil_r (wire_string _)).
    eapply reads_bind; [apply reads_wire_string; by rewrite ed25519_sign_len|].
    rewrite ed25519_sign_len. change (negb (64 =? 64)) with false. cbv iota.
    change (verifying (HostKey.public k)) with (verifying_key (signing k)).
    rewrite ed25519_verify_sign. apply reads_ret.
  - len_simpl. by rewrite ed25519_sign_len.
Qed.

(** A host key's signature over an exchange hash is accepted by the public key the
    client parses from the blob the server sends. *)
Lemma hostkey_sign_verify k h :
  exists pk, HostPublicKey.parse_blob (HostKey.public_blob k) = Ok pk /\ HostPublicKey.verify pk h (HostKey.sign_exchange_hash k h) = Ok tt.
Proof. exists (HostKey.public k). split; [apply parse_public_blob|apply verify_sign_lemma]. Qed.
End KexProps.

(** * Witnesses *)

Definition demo_hash_input (secret : SharedSecret) : ExchangeHashInput :=
  mkExchangeHashInput (str "SSH-2.0-a") (str "SSH-2.0-b") [20; 1] [20; 2] [7] [8] [9] secret.

Lemma exchange_hash_binds_witness :
  let i := demo_hash_input (Mpint [5]) in let j := demo_hash_input (Mpint [0; 5]) in
  (client_id i, server_id i, client_kexinit i, server_kexinit i, host_key_blob i,
   client_ephemeral i, server_ephemeral i, encode_secret (shared_secret i)) =
  (client_id j, server_id j, client_kexinit j, server_kexinit j, host_key_blob j,
   client_ephemeral j, server_ephemeral j, encode_secret (shared_secret j)).
Proof.
  apply (exchange_hash_binds (demo_hash_input (Mpint [5])) (demo_hash_input (Mpint [0; 5])));
    [repeat constructor; vm_compute; congruence..|reflexivity].
Defined.
