(* ===== verification/Algo.v ===== *)
(** Algorithm negotiation and [SSH_MSG_KEXINIT]: [algo.rs] (RFC 4253, section 7.1). *)
From S2P Require Import Prelude Errors Wire Crypto Kex.

Definition KEX_CURVE25519 : bytes := str "curve25519-sha256".
Definition KEX_CURVE25519_LIBSSH : bytes := str "curve25519-sha256@libssh.org".
Definition CIPHER_CHACHA20_POLY1305 : bytes := str "chacha20-poly1305@openssh.com".
Definition CIPHER_AES256_GCM : bytes := str "aes256-gcm@openssh.com".
Definition COMPRESSION_NONE : bytes := str "none".
Definition COMPRESSION_ZLIB_OPENSSH : bytes := str "zlib@openssh.com".
Definition KEX_STRICT_CLIENT : bytes := str "kex-strict-c-v00@openssh.com".
Definition KEX_STRICT_SERVER : bytes := str "kex-strict-s-v00@openssh.com".

(** The crate feature decides whether the sntrup761 hybrid is offered. *)
Definition KEX_ALGORITHMS `{C : Crypto} : list bytes :=
  if sntrup761_enabled
  then [KEX_MLKEM768_X25519; KEX_SNTRUP761_X25519; KEX_CURVE25519; KEX_CURVE25519_LIBSSH]
  else [KEX_MLKEM768_X25519; KEX_CURVE25519; KEX_CURVE25519_LIBSSH].
Definition HOSTKEY_ALGORITHMS : list bytes := [HOSTKEY_ED25519].
Definition CIPHERS : list bytes := [CIPHER_CHACHA20_POLY1305; CIPHER_AES256_GCM].
Definition MACS : list bytes := [str "hmac-sha2-256"].
Definition COMPRESSIONS : list bytes := [COMPRESSION_NONE; COMPRESSION_ZLIB_OPENSSH].

Record KexInit := mkKexInit {
  payload : bytes;
  kex : list bytes;
  host_key : list bytes;
  cipher_c2s : list bytes;
  cipher_s2c : list bytes;
  comp_c2s : list bytes;
  comp_s2c : list bytes;
  first_kex_packet_follows : bool
}.

Definition default_ciphers : list bytes := CIPHERS.
Definition default_compressions : list bytes := COMPRESSIONS.

(** [to_owned] copies the names. *)
Definition to_owned (names : list bytes) : list bytes := map (fun s => s) names.

(** [r_take16]: sixteen [u8] reads. *)
Fixpoint r_take (n : nat) : RM bytes :=
  match n with
  | O => ret []
  | S n' => let* b := Reader.u8 in let* c := r_take n' in ret (b :: c)
  end.
Definition r_take16 : RM bytes := r_take 16.

Module KexInit.
Section KexInit.
Context `{C : Crypto}.

Definition ours_with (is_server : bool) (ciphers compressions : list bytes)
  : M SshError Rng KexInit :=
  let* seed := draw (fill_bytes 32) in
  let cookie := shake128 seed 16 in
  let kex_algorithms :=
    KEX_ALGORITHMS ++ [if is_server then KEX_STRICT_SERVER else KEX_STRICT_CLIENT] in
  let w := Writer.new
    >>> Writer.u8 msg.KEXINIT
    >>> Writer.raw cookie
    >>> Writer.name_list kex_algorithms
    >>> Writer.name_list HOSTKEY_ALGORITHMS
    >>> Writer.name_list ciphers
    >>> Writer.name_list ciphers
    >>> Writer.name_list MACS
    >>> Writer.name_list MACS
    >>> Writer.name_list compressions
    >>> Writer.name_list compressions
    >>> Writer.name_list []
    >>> Writer.name_list []
    >>> Writer.boolean false
    >>> Writer.u32 0 in
  let payload := w >>> Writer.into_bytes in
  ret (mkKexInit payload (to_owned kex_algorithms) (to_owned HOSTKEY_ALGORITHMS)
    (to_owned ciphers) (to_owned ciphers) (to_owned compressions) (to_owned compressions)
    false).

Definition ours (is_server : bool) : M SshError Rng KexInit :=
  ours_with is_server CIPHERS COMPRESSIONS.
End KexInit.

Definition parse_r (payload : bytes) : RM KexInit :=
  let* id := Reader.u8 in
  if negb (id =? msg.KEXINIT) then err (Protocol "expected SSH_MSG_KEXINIT")
  else
    let* _cookie := r_take16 in
    let* kex := Reader.name_list in
    let* host_key := Reader.name_list in
    let* cipher_c2s := Reader.name_list in
    let* cipher_s2c := Reader.name_list in
    let* _mac_c2s := Reader.name_list in
    let* _mac_s2c := Reader.name_list in
    let* comp_c2s := Reader.name_list in
    let* comp_s2c := Reader.name_list in
    let* _lang_c2s := Reader.name_list in
    let* _lang_s2c := Reader.name_list in
    let* first_kex_packet_follows := Reader.boolean in
    let* _reserved := Reader.u32 in
    ret (mkKexInit payload kex host_key cipher_c2s cipher_s2c comp_c2s comp_s2c
           first_kex_packet_follows).

Definition parse (payload : bytes) : result KexInit := run (parse_r payload) (Reader.new payload).
End KexInit.

(** [server.iter().any(|s| s == c)]. *)
Definition offers (names : list bytes) (c : bytes) : bool := existsb (fun s => beq s c) names.

(** [client.iter().find(..)]. *)
Fixpoint find_first (p : bytes -> bool) (l : list bytes) : option bytes :=
  match l with
  | [] => None
  | x :: l' => if p x then Some x else find_first p l'
  end.

Definition pick (client server : list bytes) (slot : string) : result bytes :=
  match find_first (offers server) client with
  | Some c => Ok c
  | None => Err (NoCommonAlgorithm slot)
  end.

Record Negotiated := mkNegotiated {
  n_kex : bytes;
  n_host_key : bytes;
  n_cipher_c2s : bytes;
  n_cipher_s2c : bytes;
  n_comp_c2s : bytes;
  n_comp_s2c : bytes
}.

Definition negotiate_m {S} (client server : KexInit) : M SshError S Negotiated :=
  let* k := lift (pick (kex client) (kex server) "kex") in
  let* hk := lift (pick (host_key client) (host_key server) "host key") in
  let* cc := lift (pick (cipher_c2s client) (cipher_c2s server) "cipher c2s") in
  let* cs := lift (pick (cipher_s2c client) (cipher_s2c server) "cipher s2c") in
  let* zc := lift (pick (comp_c2s client) (comp_c2s server) "compression c2s") in
  let* zs := lift (pick (comp_s2c client) (comp_s2c server) "compression s2c") in
  ret (mkNegotiated k hk cc cs zc zs).

Definition negotiate (client server : KexInit) : result Negotiated :=
  run (negotiate_m client server) tt.

(** * Negotiation *)

Lemma offers_spec names c : offers names c = true <-> c ∈ names.
Proof.
  unfold offers. rewrite existsb_exists. setoid_rewrite beq_true.
  rewrite list_elem_of_In. split; [by intros (x & Hx & ->)|eauto].
Qed.

Lemma find_first_some p l x :
  find_first p l = Some x <->
  exists l1 l2, l = l1 ++ x :: l2 /\ p x = true /\ Forall (fun y => p y = false) l1.
Proof.
  induction l as [|y l IH]; cbn [find_first].
  - split; [done|]. by intros ([|? ?] & ? & ? & _).
  - destruct (p y) eqn:Hy.
    + split.
      * intros [= <-]. exists [], l. repeat split; [done|constructor].
      * intros ([|z l1] & l2 & Heq & Hx & Hf); simplify_list_eq; [done|].
        inversion Hf. congruence.
    + rewrite IH. split.
      * intros (l1 & l2 & -> & Hx & Hf). exists (y :: l1), l2. repeat split; [done|by constructor].
      * intros ([|z l1] & l2 & Heq & Hx & Hf); simplify_list_eq; [congruence|].
        inversion Hf; subst. eauto 10.
Qed.

Lemma find_first_none p l : find_first p l = None <-> Forall (fun y => p y = false) l.
Proof.
  induction l as [|y l IH]; cbn [find_first]; [by split|].
  destruct (p y) eqn:Hy.
  - split; [done|]. inversion 1. congruence.
  - rewrite IH. split; [by constructor|by inversion 1].
Qed.

(** What RFC 4253 asks of one slot: the first name of the client's list that the
    server has. *)
Definition first_common (client server : list bytes) (x : bytes) : Prop :=
  exists l1 l2, client = l1 ++ x :: l2 /\ x ∈ server /\ Forall (fun y => y ∉ server) l1.

Lemma offers_false names c : offers names c = false <-> c ∉ names.
Proof. rewrite <- offers_spec. destruct (offers names c); split; congruence. Qed.

Lemma pick_ok client server slot x :
  pick client server slot = Ok x <-> first_common client server x.
Proof.
  unfold pick, first_common.
  destruct (find_first (offers server) client) as [y|] eqn:Hf.
  - split.
    + intros [= <-]. apply find_first_some in Hf as (l1 & l2 & -> & Hx & Hn).
      exists l1, l2. rewrite offers_spec in Hx. repeat split; [done|].
      eapply Forall_impl; [|exact Hn]. intros ? ?. by apply offers_false.
    + intros (l1 & l2 & -> & Hx & Hn). f_equal.
      assert (find_first (offers server) (l1 ++ x :: l2) = Some x); [|congruence].
      apply find_first_some. exists l1, l2. rewrite offers_spec. repeat split; [done|].
      eapply Forall_impl; [|exact Hn]. intros ? ?. by apply offers_false.
  - split; [done|]. intros (l1 & l2 & -> & Hx & _).
    rewrite find_first_none, Forall_app, List.Forall_cons_iff in Hf.
    destruct Hf as (_ & Hf & _). rewrite offers_false in Hf. done.
Qed.

Lemma pick_err client server slot :
  pick client server slot = Err (NoCommonAlgorithm slot) <->
  (forall x, x ∈ client -> x ∉ server).
Proof.
  unfold pick. destruct (find_first (offers server) client) as [y|] eqn:Hf.
  - split; [done|]. intros Hd. apply find_first_some in Hf as (l1 & l2 & -> & Hx & _).
    rewrite offers_spec in Hx. exfalso. eapply Hd; [|exact Hx]. apply elem_of_app; right. apply elem_of_cons; by left.
  - split; [|done]. intros _ x Hx. apply find_first_none in Hf.
    rewrite Forall_forall in Hf. apply offers_false, Hf. by apply list_elem_of_In in Hx || exact Hx.
Qed.

Lemma pick_total client server slot :
  (exists x, pick client server slot = Ok x) \/
  pick client server slot = Err (NoCommonAlgorithm slot).
Proof. unfold pick. destruct (find_first _ _); eauto. Qed.


(** Negotiation fails exactly with the slot that has nothing in common. *)
Lemma negotiate_err c s e :
  negotiate c s = Err e -> exists slot, e = NoCommonAlgorithm slot.
Proof.
  unfold negotiate, negotiate_m, run, bind, lift, ret.
  repeat match goal with
  | |- context [match pick ?a ?b ?s with _ => _ end] =>
      destruct (pick_total a b s) as [[? ->]| ->]; cbn [fst]
  end; naive_solver.
Qed.

(** * KEXINIT round trip *)
Section KexInitProps.
Context `{C : Crypto} `{!CryptoOk C}.

Lemma reads_r_take b : reads (r_take (length b)) b b.
Proof.
  induction b as [|x b IH]; [apply reads_ret|]. cbn [length r_take].
  change (x :: b) with ([x] ++ b) at 1.
  eapply reads_bind; [apply reads_u8|]. apply (reads_bind_ret _ (fun c => x :: c)), IH.
Qed.

Lemma kex_offer_ok (is_server : bool) :
  name_list_ok (KEX_ALGORITHMS ++ [if is_server then KEX_STRICT_SERVER else KEX_STRICT_CLIENT]).
Proof.
  unfold name_list_ok, KEX_ALGORITHMS.
  destruct sntrup761_enabled, is_server; (split; [|repeat split; done || (vm_compute; congruence)]);
    repeat (apply List.Forall_cons || apply List.Forall_nil); unfold comma_free;
    apply (bool_decide_unpack _); vm_compute; exact I.
Qed.

Lemma fixed_offers_ok :
  name_list_ok HOSTKEY_ALGORITHMS /\ name_list_ok MACS /\ name_list_ok CIPHERS /\
  name_list_ok COMPRESSIONS /\ name_list_ok [].
Proof.
  unfold name_list_ok. repeat split; try done; try (vm_compute; congruence);
    repeat (apply List.Forall_cons || apply List.Forall_nil); unfold comma_free;
    apply (bool_decide_unpack _); vm_compute; exact I.
Qed.

Lemma len_wire_name_list names : len (wire_name_list names) = 4 + len (join_names names).
Proof. unfold wire_name_list. len_lia. Qed.

(** The bytes of a KEXINIT message. *)
Definition kexinit_wire (cookie : bytes) (kexs ciphers compressions : list bytes) : bytes :=
  [msg.KEXINIT] ++ cookie ++ wire_name_list kexs ++ wire_name_list HOSTKEY_ALGORITHMS ++
  wire_name_list ciphers ++ wire_name_list ciphers ++ wire_name_list MACS ++
  wire_name_list MACS ++ wire_name_list compressions ++ wire_name_list compressions ++
  wire_name_list [] ++ wire_name_list [] ++ [if false then 1 else 0] ++ to_be32 0.

(** What [ours_with] returns. *)
Lemma ours_with_eq (is_server : bool) ciphers compressions (r : Rng) :
  exists cookie r',
    let kexs := KEX_ALGORITHMS ++ [if is_server then KEX_STRICT_SERVER else KEX_STRICT_CLIENT] in
    len cookie = 16 /\
    KexInit.ours_with is_server ciphers compressions r =
      (Ok (mkKexInit (kexinit_wire cookie kexs ciphers compressions) kexs HOSTKEY_ALGORITHMS
             ciphers ciphers compressions compressions false), r').
Proof.
  pose proof (shake128_len (fst (fill_bytes 32 r)) 16 ltac:(lia)) as Hsh.
  exists (shake128 (fst (fill_bytes 32 r)) 16), (snd (fill_bytes 32 r)). split; [exact Hsh|].
  unfold KexInit.ours_with, bind, draw, ret.
  destruct (fill_bytes 32 r) as [seed r1]. cbn [fst snd]. do 2 f_equal.
  unfold to_owned. rewrite !map_id. f_equal.
  unfold Writer.into_bytes, Writer.u8, Writer.u32, Writer.boolean, Writer.raw, Writer.new.
  rewrite !writer_name_list. cbn [wbuf]. rewrite <- !app_assoc. reflexivity.
Qed.

Lemma reads_kexinit p cookie kexs ciphers compressions :
  len cookie = 16 -> name_list_ok kexs -> name_list_ok ciphers -> name_list_ok compressions ->
  reads (KexInit.parse_r p) (kexinit_wire cookie kexs ciphers compressions)
    (mkKexInit p kexs HOSTKEY_ALGORITHMS ciphers ciphers compressions compressions false).
Proof.
  intros Hl Hk Hci Hco. destruct fixed_offers_ok as (Hh & Hm & _ & _ & He).
  unfold kexinit_wire, KexInit.parse_r.
  eapply reads_bind; [apply reads_u8|]. cbv beta. rewrite Z.eqb_refl. cbn [negb].
  unfold r_take16. replace 16%nat with (length cookie) by (unfold len in Hl; lia).
  eapply reads_bind; [apply reads_r_take|].
  do 10 (eapply reads_bind; [by apply reads_name_list|]).
  eapply reads_bind; [apply (reads_boolean false)|].
  exact (reads_bind_ret Reader.u32 (fun _ : Z => mkKexInit p kexs HOSTKEY_ALGORITHMS
    ciphers ciphers compressions compressions false) _ _ (reads_u32 0)).
Qed.

(** Round trip: a KEXINIT built for any cipher and compression offer is parsed back
    by the peer to the same algorithm lists, over the same payload bytes. *)
Lemma parse_ours_with (is_server : bool) ciphers compressions (r : Rng) :
  name_list_ok ciphers -> name_list_ok compressions ->
  exists k r', KexInit.ours_with is_server ciphers compressions r = (Ok k, r') /\
    KexInit.parse (payload k) = Ok k.
Proof.
  intros Hci Hco.
  destruct (ours_with_eq is_server ciphers compressions r) as (cookie & r' & Hl & ->).
  eexists _, _. split; [reflexivity|]. cbn [payload]. unfold KexInit.parse.
  pose proof (kex_offer_ok is_server) as Hk. destruct fixed_offers_ok as (Hh & Hm & _ & _ & He).
  apply reads_run; [by apply reads_kexinit|].
  unfold kexinit_wire. rewrite !len_app, !len_wire_name_list, Hl, len_to_be32.
  destruct Hk as (_&_&_&_&Hk), Hh as (_&_&_&_&Hh), Hci as (_&_&_&_&Hci), Hco as (_&_&_&_&Hco),
    Hm as (_&_&_&_&Hm), He as (_&_&_&_&He).
  change (len [msg.KEXINIT]) with 1. 
  unfold U32_MAX, U64_MAX in *. change (len [0]) with 1. lia.
Qed.
End KexInitProps.

(** * Witnesses *)

Lemma parse_ours_with_witness :
  exists k r', KexInit.ours_with (C := Toy.crypto) true CIPHERS COMPRESSIONS 5 = (Ok k, r') /\
    KexInit.parse (payload k) = Ok k.
Proof.
  apply (@parse_ours_with Toy.crypto Toy.crypto_ok);
    (split_and!; [repeat constructor; vm_compute; intuition congruence|reflexivity|vm_compute; congruence|vm_compute; congruence|vm_compute; congruence]).
Defined.
