(* ===== verification/Cipher.v ===== *)
(** Packet ciphers: [cipher.rs].  [seal_into] appends one sealed packet to a buffer,
    [open] opens the packet at the front of one. *)
From S2P Require Import Prelude Errors Packet Crypto Algo.

Definition TAG_LEN : Z := 16.
Definition CHACHA_BLOCK : Z := 8.
Definition GCM_BLOCK : Z := 16.

Definition aead_padding_len (payload_len block : Z) : Z :=
  let unpadded := 1 + payload_len in
  let pad := block - unpadded mod block in
  if pad <? MIN_PADDING then pad + block else pad.

Inductive Cipher :=
| Cipher_None
| ChaCha20Poly1305 (k2 k1 : bytes)
| Aes256Gcm (key iv : bytes).

(** [gcm_increment]: the trailing eight bytes of the IV, as a big-endian counter. *)
Definition gcm_increment (iv : bytes) : bytes :=
  let counter := wrapping_add64 (be_val (slice 4 12 iv)) 1 in
  ztake 4 iv ++ to_be64 counter.

Definition nonce (seqnr : Z) : bytes := to_be64 seqnr.

(** What [region.truncate(..); region.drain(..1)] leaves of a decrypted region. *)
Definition strip_region (region : bytes) (packet_length padding_length : Z) : bytes :=
  zdrop 1 (ztake (packet_length - padding_length) region).

Section Cipher.
Context `{C : Crypto}.

(** [length_cipher], [payload_cipher] and [poly1305_tag]: a cipher object is its
    keystream; the payload one has been advanced to byte 64. *)
Definition length_cipher (k1 : bytes) (seqnr : Z) (data : bytes) : bytes :=
  xor_bytes data (chacha20_keystream k1 (nonce seqnr) 0 (len data)).

Definition poly_key (k2 : bytes) (seqnr : Z) : bytes := chacha20_keystream k2 (nonce seqnr) 0 32.

Definition payload_cipher (k2 : bytes) (seqnr : Z) (data : bytes) : bytes :=
  xor_bytes data (chacha20_keystream k2 (nonce seqnr) 64 (len data)).

Definition poly1305_tag (key data : bytes) : bytes := poly1305 key data.

(** The padding: SHAKE-128 over two draws, read back over the second. *)
Definition random_padding (pad : Z) (rng : Rng) : bytes * Rng :=
  let '(p1, rng) := fill_bytes pad rng in
  let '(p2, rng) := fill_bytes pad rng in
  (shake128 (p1 ++ p2) pad, rng).

(** The sealed frame of [gcm_seal_into], and the cipher's IV after it. *)
Definition gcm_seal_into (key iv payload : bytes) (rng : Rng) (out : bytes)
  : bytes * Rng * bytes :=
  let pad := aead_padding_len (len payload) GCM_BLOCK in
  let packet_length := as_u32 (1 + len payload + pad) in
  let aad := to_be32 packet_length in
  let '(padding, rng) := random_padding pad rng in
  let region := [as_u8 pad] ++ payload ++ padding in
  let '(ct, tag) := aes256gcm_encrypt key iv aad region in
  (gcm_increment iv, rng, out ++ aad ++ ct ++ tag).

Definition chacha_seal_into (k2 k1 : bytes) (seqnr : Z) (payload : bytes) (rng : Rng) (out : bytes)
  : Rng * bytes :=
  let pad := aead_padding_len (len payload) CHACHA_BLOCK in
  let packet_length := as_u32 (1 + len payload + pad) in
  let len_bytes := length_cipher k1 seqnr (to_be32 packet_length) in
  let '(padding, rng) := random_padding pad rng in
  let region := payload_cipher k2 seqnr ([as_u8 pad] ++ payload ++ padding) in
  let tag := poly1305_tag (poly_key k2 seqnr) (len_bytes ++ region) in
  (rng, out ++ len_bytes ++ region ++ tag).

Definition gcm_open (buf : bytes) : M SshError Cipher (option (bytes * Z)) :=
  let* c := get in
  match c with
  | Aes256Gcm key iv =>
      if len buf <? 4 then ret None
      else
        let packet_length := be_val (slice 0 4 buf) in
        if (packet_length <? GCM_BLOCK) || negb (packet_length mod GCM_BLOCK =? 0)
           || (MAX_PACKET_LENGTH <? packet_length)
        then err (BadPacket "packet_length out of range")
        else
          let total := 4 + packet_length + TAG_LEN in
          if len buf <? total then ret None
          else
            let aad := slice 0 4 buf in
            let tag := slice (4 + packet_length) total buf in
            let* region := ok_or
              (aes256gcm_decrypt key iv aad (slice 4 (4 + packet_length) buf) tag) Integrity in
            modify (fun _ => Aes256Gcm key (gcm_increment iv)) ;;;
            let padding_length := znth region 0 in
            if (padding_length <? MIN_PADDING) || (packet_length <? padding_length + 1)
            then err (BadPacket "invalid padding_length")
            else ret (Some (strip_region region packet_length padding_length, total))
  | _ => panic
  end.

Definition chacha_open (k2 k1 : bytes) (seqnr : Z) (buf : bytes)
  : M SshError Cipher (option (bytes * Z)) :=
  if len buf <? 4 then ret None
  else
    let packet_length := be_val (length_cipher k1 seqnr (slice 0 4 buf)) in
    if (packet_length <? CHACHA_BLOCK) || negb (packet_length mod CHACHA_BLOCK =? 0)
       || (MAX_PACKET_LENGTH <? packet_length)
    then err (BadPacket "packet_length out of range")
    else
      let total := 4 + packet_length + TAG_LEN in
      if len buf <? total then ret None
      else
        let tag := poly1305_tag (poly_key k2 seqnr) (slice 0 (4 + packet_length) buf) in
        let received := slice (4 + packet_length) total buf in
        if negb (beq tag received) then err Integrity
        else
          let region := payload_cipher k2 seqnr (slice 4 (4 + packet_length) buf) in
          let padding_length := znth region 0 in
          if (padding_length <? MIN_PADDING) || (packet_length <? padding_length + 1)
          then err (BadPacket "invalid padding_length")
          else ret (Some (strip_region region packet_length padding_length, total)).
End Cipher.

Module Cipher.
Definition key_len (name : bytes) : result Z :=
  if beq name CIPHER_CHACHA20_POLY1305 then Ok 64
  else if beq name CIPHER_AES256_GCM then Ok 32
  else Err (NoCommonAlgorithm "cipher").

Definition iv_len (name : bytes) : result Z :=
  if beq name CIPHER_CHACHA20_POLY1305 then Ok 0
  else if beq name CIPHER_AES256_GCM then Ok 12
  else Err (NoCommonAlgorithm "cipher").

Definition new (name key iv : bytes) : result Cipher :=
  if beq name CIPHER_CHACHA20_POLY1305 then
    if negb (len key =? 64) then Err (Kex "chacha20-poly1305 needs 64 key bytes")
    else Ok (ChaCha20Poly1305 (slice 0 32 key) (slice 32 64 key))
  else if beq name CIPHER_AES256_GCM then
    if negb (len key =? 32) || negb (len iv =? 12)
    then Err (Kex "aes256-gcm needs 32 key + 12 IV bytes")
    else Ok (Aes256Gcm key iv)
  else Err (NoCommonAlgorithm "cipher").

Section Cipher.
Context `{C : Crypto}.

(** [seal_into]: the cipher, the generator and the buffer after it. *)
Definition seal_into (c : Cipher) (seqnr : Z) (payload : bytes) (rng : Rng) (out : bytes)
  : Cipher * Rng * bytes :=
  match c with
  | Cipher_None => (c, rng, encode_plain_into payload out)
  | Aes256Gcm key iv =>
      let '(iv', rng, out) := gcm_seal_into key iv payload rng out in (Aes256Gcm key iv', rng, out)
  | ChaCha20Poly1305 k2 k1 =>
      let '(rng, out) := chacha_seal_into k2 k1 seqnr payload rng out in (c, rng, out)
  end.

Definition open (seqnr : Z) (buf : bytes) : M SshError Cipher (option (bytes * Z)) :=
  let* c := get in
  match c with
  | Cipher_None => lift (decode_plain buf)
  | Aes256Gcm _ _ => gcm_open buf
  | ChaCha20Poly1305 k2 k1 => chacha_open k2 k1 seqnr buf
  end.
End Cipher.
End Cipher.

(** * Properties *)

(** Keys and IVs of the lengths the constructors check. *)
Definition cipher_ok (c : Cipher) : Prop :=
  match c with
  | Cipher_None => True
  | ChaCha20Poly1305 k2 k1 => len k2 = 32 /\ len k1 = 32
  | Aes256Gcm key iv => len key = 32 /\ len iv = 12
  end.

Lemma aead_padding_len_spec n block :
  0 <= n -> 8 <= block ->
  let pad := aead_padding_len n block in
  (1 + n + pad) mod block = 0 /\ MIN_PADDING <= pad < block + MIN_PADDING /\
  block <= 1 + n + pad.
Proof.
  intros Hn Hb. unfold aead_padding_len, MIN_PADDING.
  pose proof (Z.mod_pos_bound (1 + n) block ltac:(lia)) as Hm.
  assert (Hal : forall k, (1 + n + (block - (1 + n) mod block + k * block)) mod block = 0).
  { intros k. replace (1 + n + (block - (1 + n) mod block + k * block))
      with ((1 + n - (1 + n) mod block) + (1 + k) * block) by lia.
    rewrite Z.mod_add by lia. by rewrite Zminus_mod_idemp_r, Z.sub_diag. }
  pose proof (Hal 0) as H0. pose proof (Hal 1) as H1.
  rewrite Z.mul_0_l, Z.add_0_r in H0. rewrite Z.mul_1_l in H1.
  pose proof (Z.div_mod (1 + n) block ltac:(lia)).
  pose proof (Z.div_pos (1 + n) block ltac:(lia) ltac:(lia)).
  destruct (Z.ltb_spec (block - (1 + n) mod block) 4); repeat split; try done; nia.
Qed.

Lemma cipher_new_ok name key iv c : Cipher.new name key iv = Ok c -> cipher_ok c.
Proof.
  unfold Cipher.new. intros H. repeat case_match; simplify_eq; cbn.
  - match goal with Hn : negb _ = false |- _ => apply negb_false_iff in Hn end.
    rewrite !len_slice; lia.
  - match goal with Hn : _ || _ = false |- _ => apply orb_false_iff in Hn as [] end. lia.
Qed.

(** A key and IV of the lengths [key_len] and [iv_len] ask for are accepted. *)
Lemma cipher_new_total name key iv :
  Cipher.key_len name = Ok (len key) -> Cipher.iv_len name = Ok (len iv) ->
  exists c, Cipher.new name key iv = Ok c /\ c <> Cipher_None.
Proof.
  unfold Cipher.key_len, Cipher.iv_len, Cipher.new.
  destruct (beq name CIPHER_CHACHA20_POLY1305), (beq name CIPHER_AES256_GCM);
    intros [= Hk] [= Hi]; rewrite <- ?Hk, <- ?Hi; cbn; eauto.
Qed.

Lemma len_gcm_increment iv : len iv = 12 -> len (gcm_increment iv) = 12.
Proof. intros H. unfold gcm_increment. rewrite len_app, len_ztake, len_to_be64; lia. Qed.

(** The three parts of a region, as a decoder reads them. *)
Lemma strip_region_spec pad payload padding :
  is_u8 pad -> len padding = pad ->
  znth ([as_u8 pad] ++ payload ++ padding) 0 = pad /\
  strip_region ([as_u8 pad] ++ payload ++ padding) (1 + len payload + pad) pad = payload.
Proof.
  intros Hp Hl. split.
  - unfold znth. cbn. by apply as_u8_id.
  - unfold strip_region. rewrite app_assoc, ztake_app_len by len_lia.
    by apply zdrop_app_len.
Qed.

Section CipherProps.
Context `{C : Crypto} `{!CryptoOk C}.

Lemma random_padding_len pad rng : 0 <= pad -> len (fst (random_padding pad rng)) = pad.
Proof.
  intros H. unfold random_padding.
  destruct (fill_bytes pad rng) as [p1 r1], (fill_bytes pad r1) as [p2 r2]. cbn.
  by apply shake128_len.
Qed.

Lemma length_cipher_invol k1 s d : length_cipher k1 s (length_cipher k1 s d) = d.
Proof.
  unfold length_cipher. pose proof (len_nonneg d).
  rewrite len_xor_bytes, xor_bytes_invol; rewrite ?keystream_len; lia || done.
Qed.

Lemma payload_cipher_invol k2 s d : payload_cipher k2 s (payload_cipher k2 s d) = d.
Proof.
  unfold payload_cipher. pose proof (len_nonneg d).
  rewrite len_xor_bytes, xor_bytes_invol; rewrite ?keystream_len; lia || done.
Qed.

Lemma len_length_cipher k1 s d : len (length_cipher k1 s d) = len d.
Proof. unfold length_cipher. apply len_xor_bytes. rewrite keystream_len; pose proof (len_nonneg d); lia. Qed.

Lemma len_payload_cipher k2 s d : len (payload_cipher k2 s d) = len d.
Proof. unfold payload_cipher. apply len_xor_bytes. rewrite keystream_len; pose proof (len_nonneg d); lia. Qed.

(** The bytes on the wire for one packet, and the cipher after it. *)
Definition sealed (c : Cipher) (seqnr : Z) (payload : bytes) (rng : Rng) : bytes :=
  snd (Cipher.seal_into c seqnr payload rng []).
Definition sealed_cipher (c : Cipher) : Cipher :=
  match c with Aes256Gcm key iv => Aes256Gcm key (gcm_increment iv) | _ => c end.

Lemma sealed_cipher_ok c : cipher_ok c -> cipher_ok (sealed_cipher c).
Proof. destruct c; cbn; [done..|]. intros []. split; [done|]. by apply len_gcm_increment. Qed.

(** [seal_into] appends: what was in the buffer stays in front. *)
Lemma seal_into_out c seqnr payload rng out :
  exists rng', Cipher.seal_into c seqnr payload rng out =
    (sealed_cipher c, rng', out ++ sealed c seqnr payload rng).
Proof.
  destruct c; unfold sealed; cbn [Cipher.seal_into sealed_cipher].
  - eexists. f_equal.
  - unfold chacha_seal_into. destruct (random_padding _ _) as [p r]. cbn. by eexists.
  - unfold gcm_seal_into. destruct (random_padding _ _) as [p r].
    destruct (aes256gcm_encrypt _ _ _ _) as [ct tag]. cbn. by eexists.
Qed.

(** The size of the padded region for a payload of [n] bytes. *)
Definition frame_region (c : Cipher) (n : Z) : Z :=
  match c with
  | Cipher_None => 1 + n + padding_len n BLOCK
  | ChaCha20Poly1305 _ _ => 1 + n + aead_padding_len n CHACHA_BLOCK
  | Aes256Gcm _ _ => 1 + n + aead_padding_len n GCM_BLOCK
  end.

Lemma gcm_open_seal key iv payload rng rest seqnr :
  let c := Aes256Gcm key iv in
  frame_region c (len payload) <= MAX_PACKET_LENGTH ->
  Cipher.open seqnr (sealed c seqnr payload rng ++ rest) c =
    (Ok (Some (payload, len (sealed c seqnr payload rng))), sealed_cipher c).
Proof.
  intros c Hn. cbn [frame_region c] in Hn. pose proof (len_nonneg payload).
  pose proof (aead_padding_len_spec (len payload) GCM_BLOCK ltac:(lia) ltac:(unfold GCM_BLOCK; lia))
    as (Hmod & Hp & Hb).
  unfold sealed. cbn [Cipher.seal_into c]. unfold gcm_seal_into.
  set (pad := aead_padding_len (len payload) GCM_BLOCK) in *.
  pose proof (random_padding_len pad rng) as Hrp. destruct (random_padding pad rng) as [padding r1].
  unfold MIN_PADDING, GCM_BLOCK, MAX_PACKET_LENGTH in *. cbn [fst] in Hrp.
  rewrite (as_u32_id (1 + len payload + pad)) by (unfold is_u32, U32_MAX; lia).
  set (n := 1 + len payload + pad) in *.
  set (region := [as_u8 pad] ++ payload ++ padding).
  assert (Hr : len region = n) by (unfold region; len_simpl; rewrite Hrp; lia).
  pose proof (gcm_ct_len key iv (to_be32 n) region) as Hct.
  pose proof (gcm_tag_len key iv (to_be32 n) region) as Htag.
  destruct (aes256gcm_encrypt key iv (to_be32 n) region) as [ct tag] eqn:He. cbn [fst snd] in *.
  apply gcm_decrypt_encrypt in He. rewrite app_nil_l, <- !app_assoc.
  unfold Cipher.open, gcm_open, bind, get. subst c. cbn iota.
  rewrite !len_app, len_to_be32, Hct, Htag, Hr. unfold TAG_LEN. pose proof (len_nonneg rest).
  rewrite (slice_prefix (to_be32 n)) by len_lia.
  rewrite be_val_to_be32, as_u32_id by (unfold is_u32, U32_MAX; lia).
  destruct (Z.ltb_spec (4 + (n + (16 + len rest))) 4); [lia|].
  unfold GCM_BLOCK. replace ((n <? 16) || negb (n mod 16 =? 0) || (MAX_PACKET_LENGTH <? n)) with false
    by (unfold MAX_PACKET_LENGTH; lia).
  destruct (Z.ltb_spec (4 + (n + (16 + len rest))) (4 + n + 16)); [lia|].
  rewrite (slice_app_mid (to_be32 n) ct (tag ++ rest) 4 (4 + n)) by len_lia.
  rewrite (app_assoc (to_be32 n)), (slice_app_mid (to_be32 n ++ ct) tag rest) by len_lia.
  rewrite He. unfold ok_or, ret, modify.
  destruct (strip_region_spec pad payload padding) as [Hz Hs];
    [unfold is_u8, U8_MAX; lia|apply Hrp; lia|].
  fold region in Hz, Hs. fold n in Hs. rewrite Hz, Hs.
  unfold MIN_PADDING. replace ((pad <? 4) || (n <? pad + 1)) with false by lia.
  do 4 f_equal. lia.
Qed.

Lemma chacha_open_seal k2 k1 payload rng rest seqnr :
  let c := ChaCha20Poly1305 k2 k1 in
  frame_region c (len payload) <= MAX_PACKET_LENGTH ->
  Cipher.open seqnr (sealed c seqnr payload rng ++ rest) c =
    (Ok (Some (payload, len (sealed c seqnr payload rng))), sealed_cipher c).
Proof.
  intros c Hn. cbn [frame_region c] in Hn. pose proof (len_nonneg payload).
  pose proof (aead_padding_len_spec (len payload) CHACHA_BLOCK ltac:(lia)
    ltac:(unfold CHACHA_BLOCK; lia)) as (Hmod & Hp & Hb).
  unfold sealed. cbn [Cipher.seal_into c]. unfold chacha_seal_into.
  set (pad := aead_padding_len (len payload) CHACHA_BLOCK) in *.
  pose proof (random_padding_len pad rng) as Hrp. destruct (random_padding pad rng) as [padding r1].
  unfold MIN_PADDING, CHACHA_BLOCK, MAX_PACKET_LENGTH in *. cbn [fst snd] in *.
  rewrite (as_u32_id (1 + len payload + pad)) by (unfold is_u32, U32_MAX; lia).
  set (n := 1 + len payload + pad) in *.
  set (region := [as_u8 pad] ++ payload ++ padding).
  assert (Hr : len region = n) by (unfold region; len_simpl; rewrite Hrp; lia).
  pose proof (len_length_cipher k1 seqnr (to_be32 n)) as Hlb. rewrite len_to_be32 in Hlb.
  pose proof (len_payload_cipher k2 seqnr region) as Hpr. rewrite Hr in Hpr.
  set (lb := length_cipher k1 seqnr (to_be32 n)) in *.
  set (pr := payload_cipher k2 seqnr region) in *.
  set (tag := poly1305_tag _ _). assert (Htag : len tag = 16) by apply poly1305_len.
  rewrite app_nil_l, <- !app_assoc.
  unfold Cipher.open, bind, get. subst c. cbn iota. unfold chacha_open. cbv zeta.
  rewrite !len_app, Hlb, Hpr, Htag. pose proof (len_nonneg rest).
  rewrite (slice_prefix lb) by len_lia.
  assert (Hd : be_val (length_cipher k1 seqnr lb) = n).
  { unfold lb. rewrite length_cipher_invol, be_val_to_be32.
    apply as_u32_id. unfold is_u32, U32_MAX. lia. }
  rewrite Hd.
  destruct (Z.ltb_spec (4 + (n + (16 + len rest))) 4); [lia|].
  unfold CHACHA_BLOCK, TAG_LEN.
  replace ((n <? 8) || negb (n mod 8 =? 0) || (MAX_PACKET_LENGTH <? n)) with false
    by (unfold MAX_PACKET_LENGTH; lia).
  destruct (Z.ltb_spec (4 + (n + (16 + len rest))) (4 + n + 16)); [lia|].
  rewrite (slice_app_mid lb pr (tag ++ rest) 4 (4 + n)) by lia.
  rewrite (app_assoc lb), (slice_prefix (lb ++ pr)) by (rewrite len_app, Hlb, Hpr; lia).
  rewrite (slice_app_mid (lb ++ pr) tag rest) by (rewrite len_app, Hlb, Hpr, ?Htag; lia).
  change (poly1305_tag (poly_key k2 seqnr) (lb ++ pr)) with tag.
  rewrite beq_refl. cbn [negb]. unfold pr. rewrite payload_cipher_invol.
  destruct (strip_region_spec pad payload padding) as [Hz Hs];
    [unfold is_u8, U8_MAX; lia|apply Hrp; lia|].
  fold region in Hz, Hs. fold n in Hs. rewrite Hz, Hs.
  unfold MIN_PADDING. replace ((pad <? 4) || (n <? pad + 1)) with false by lia.
  unfold ret. do 4 f_equal. lia.
Qed.

Lemma open_sealed c seqnr payload rng rest :
  frame_region c (len payload) <= MAX_PACKET_LENGTH ->
  Cipher.open seqnr (sealed c seqnr payload rng ++ rest) c =
    (Ok (Some (payload, len (sealed c seqnr payload rng))), sealed_cipher c).
Proof.
  intros Hn. destruct c.
  - unfold Cipher.open, bind, get, lift, sealed. cbn [Cipher.seal_into snd].
    by rewrite decode_encode_plain_frame.
  - by apply chacha_open_seal.
  - by apply gcm_open_seal.
Qed.

(** C14. Opening what was sealed under the same key and sequence number gives back the
    payload, consumes exactly the packet, and leaves the receiver's cipher in the state
    the sender's is in, so that the two stay in step for the next packet.  Whatever
    follows in the buffer is not looked at. *)
Theorem open_seal c seqnr payload rng rest out :
  frame_region c (len payload) <= MAX_PACKET_LENGTH ->
  exists rng' frame, Cipher.seal_into c seqnr payload rng out =
      (sealed_cipher c, rng', out ++ frame) /\
    Cipher.open seqnr (frame ++ rest) c =
      (Ok (Some (payload, len frame)), sealed_cipher c).
Proof.
  intros Hn. destruct (seal_into_out c seqnr payload rng out) as [rng' ->].
  exists rng', (sealed c seqnr payload rng). split; [done|]. by apply open_sealed.
Qed.

(** What [open] does to the cipher and how much it consumes, on every branch. *)
Lemma open_wp c seqnr buf :
  wp (Cipher.open seqnr buf)
    (fun o c' => (c' = c \/ c' = sealed_cipher c) /\
       match o with
       | None => c' = c
       | Some (p, n) => MIN_PACKET <= n <= len buf /\ c' = sealed_cipher c /\
                        len p + MIN_PADDING + 5 <= n /\ n <= 4 + MAX_PACKET_LENGTH + TAG_LEN
       end)
    (fun e c' => (c' = c \/ c' = sealed_cipher c)) c.
Proof.
  unfold Cipher.open. wp_step. wp_step. destruct c as [|k2 k1|key iv]; cbn [sealed_cipher].
  - apply wp_lift. destruct (decode_plain buf) as [[[p n]|]|e| |] eqn:Hd.
    + pose proof (decode_plain_bounds _ _ _ Hd). unfold TAG_LEN, MIN_PADDING in *.
      split; [by left|]. repeat split; lia.
    + by split; [left|].
    + by left.
    + destruct (decode_plain_total buf) as [[? ?]|[? ?]]; congruence.
    + destruct (decode_plain_total buf) as [[? ?]|[? ?]]; congruence.
  - unfold chacha_open. cbv zeta. set (n := be_val _). set (reg := payload_cipher _ _ _).
    repeat (apply wp_if; intros); repeat first [apply wp_ret|apply wp_err]; eauto.
    unfold MIN_PACKET, MIN_PADDING, TAG_LEN, CHACHA_BLOCK, MAX_PACKET_LENGTH in *.
    split; [by left|].
    assert (Hr : len reg = n).
    { unfold reg. rewrite len_payload_cipher, len_slice; lia. }
    unfold strip_region.
    rewrite len_zdrop; rewrite len_ztake; repeat split; lia || done.
  - unfold gcm_open. wp_step. wp_step. cbv zeta. set (n := be_val _).
    repeat first [apply wp_ret | apply wp_err | apply wp_if; intros | wp_step]; eauto.
    unfold MIN_PACKET, MIN_PADDING, TAG_LEN, GCM_BLOCK, MAX_PACKET_LENGTH in *.
    split; [by right|].
    match goal with H : aes256gcm_decrypt _ _ _ _ _ = Some _ |- _ => apply gcm_decrypt_len in H end.
    rewrite len_slice in * by lia. unfold strip_region.
    rewrite len_zdrop; rewrite len_ztake; repeat split; lia || done.
Qed.

(** What has been decided about a packet stands, whatever follows it in the buffer. *)
Lemma open_stable c seqnr buf more :
  fst (Cipher.open seqnr buf c) <> Ok None ->
  Cipher.open seqnr (buf ++ more) c = Cipher.open seqnr buf c.
Proof.
  pose proof (len_nonneg more). unfold Cipher.open, bind, get. destruct c as [|k2 k1|key iv]; intros Hd.
  - unfold lift in *. cbn in Hd. by rewrite (decode_plain_stable buf more (decode_plain buf)).
  - unfold chacha_open in *. rewrite len_app. cbn beta iota zeta in Hd |- *.
    destruct (Z.ltb_spec (len buf) 4); [done|].
    destruct (Z.ltb_spec (len buf + len more) 4); [lia|]. rewrite slice_app_l by lia.
    destruct (_ || _) eqn:Hn; [done|]. unfold CHACHA_BLOCK in *. unfold TAG_LEN in *.
    set (n := be_val _) in *. destruct (Z.ltb_spec (len buf) (4 + n + 16)); [done|].
    destruct (Z.ltb_spec (len buf + len more) (4 + n + 16)); [lia|].
    by rewrite !slice_app_l by lia.
  - unfold gcm_open in *. unfold bind, get in *. rewrite len_app. cbn beta iota zeta in Hd |- *.
    destruct (Z.ltb_spec (len buf) 4); [done|].
    destruct (Z.ltb_spec (len buf + len more) 4); [lia|]. rewrite slice_app_l by lia.
    destruct (_ || _) eqn:Hn; [done|]. unfold GCM_BLOCK in *. unfold TAG_LEN in *.
    set (n := be_val _) in *. destruct (Z.ltb_spec (len buf) (4 + n + 16)); [done|].
    destruct (Z.ltb_spec (len buf + len more) (4 + n + 16)); [lia|].
    by rewrite !slice_app_l by lia.
Qed.
End CipherProps.

(** ** Nonces *)

(** The IV after [n] packets. *)
Definition iv_after (iv : bytes) (n : nat) : bytes := Nat.iter n gcm_increment iv.

Lemma iv_after_split iv n :
  len iv = 12 ->
  ztake 4 (iv_after iv n) = ztake 4 iv /\
  be_val (slice 4 12 (iv_after iv n)) mod 2 ^ 64 = (be_val (slice 4 12 iv) + Z.of_nat n) mod 2 ^ 64 /\
  len (iv_after iv n) = 12.
Proof.
  intros Hl. induction n as [|n (IH1 & IH2 & IH3)].
  { rewrite Z.add_0_r. done. }
  unfold iv_after in *. change (Nat.iter (S n) gcm_increment iv) with (gcm_increment (Nat.iter n gcm_increment iv)).
  set (v := Nat.iter n gcm_increment iv) in *. split; [|split].
  - unfold gcm_increment. rewrite ztake_app_len; [done|]. rewrite len_ztake; lia.
  - unfold gcm_increment at 1.
    replace (ztake 4 v ++ to_be64 _) with (ztake 4 v ++ to_be64 (wrapping_add64 (be_val (slice 4 12 v)) 1) ++ [])
      by by rewrite app_nil_r.
    rewrite slice_app_mid by (rewrite ?len_to_be64, len_ztake; lia).
    rewrite be_val_to_be64. unfold wrapping_add64.
    change 18446744073709551616 with (2 ^ 64). rewrite !Z.mod_mod by done.
    rewrite <- Z.add_mod_idemp_l, IH2, Z.add_mod_idemp_l by done. f_equal. lia.
  - by apply len_gcm_increment.
Qed.

(** AES-GCM never reuses a nonce under one key: the IVs of any two of the first
    2^64 packets differ (a key lives for far fewer, see the packet limit of an epoch). *)
Lemma gcm_iv_unique iv i j :
  len iv = 12 -> (i < j)%nat -> Z.of_nat j - Z.of_nat i < 2 ^ 64 ->
  iv_after iv i <> iv_after iv j.
Proof.
  intros Hl Hij Hd He.
  destruct (iv_after_split iv i Hl) as (_ & Hi & _), (iv_after_split iv j Hl) as (_ & Hj & _).
  rewrite <- He, Hi in Hj. set (b := be_val (slice 4 12 iv)) in *.
  assert (Hz : (Z.of_nat j - Z.of_nat i) mod 2 ^ 64 = 0).
  { replace (Z.of_nat j - Z.of_nat i) with ((b + Z.of_nat j) - (b + Z.of_nat i)) by lia.
    rewrite Zminus_mod, <- Hj, Z.sub_diag. done. }
  rewrite Z.mod_small in Hz; lia.
Qed.

(** * Witnesses *)

Lemma open_seal_witness :
  exists rng' frame,
    Cipher.seal_into (C := Toy.crypto) (Aes256Gcm (zeros 32) (zeros 12)) 3 [94; 1; 2] 7 [9] =
      (sealed_cipher (Aes256Gcm (zeros 32) (zeros 12)), rng', [9] ++ frame) /\
    Cipher.open (C := Toy.crypto) 3 (frame ++ [8]) (Aes256Gcm (zeros 32) (zeros 12)) =
      (Ok (Some ([94; 1; 2], len frame)), sealed_cipher (Aes256Gcm (zeros 32) (zeros 12))).
Proof. apply (@open_seal Toy.crypto Toy.crypto_ok). vm_compute. congruence. Defined.

Lemma gcm_iv_unique_witness : iv_after (zeros 12) 0 <> iv_after (zeros 12) 5.
Proof. apply (gcm_iv_unique (zeros 12) 0 5); [reflexivity|lia|reflexivity]. Defined.
