(* ===== verification/Compress.v ===== *)
(** Payload compression: [compress.rs].  [flate2] is a parameter ([Crypto]); what is
    modelled is the loop around it: the working buffer and its capacity, the input
    consumed so far, and the exits. *)
From S2P Require Import Prelude Errors Packet Crypto Algo.

Section Compress.
Context `{C : Crypto}.

Inductive Compressor :=
| Compressor_None
| Compressor_Zlib (c : Deflate).

Inductive Decompressor :=
| Decompressor_None
| Decompressor_Zlib (d : Inflate).

(** [reserve_zeroizing(buf, additional)]: the capacity of the fresh buffer. *)
Definition reserve_zeroizing (buf : bytes) (additional : Z) : Z := len buf + additional.

(** One call of [compress_vec]: the deflate state is the monad's state. *)
Definition deflate_step (input : bytes) (room : Z) : M SshError Deflate (Z * bytes) :=
  fun d => let '(d', r) := compress_vec d input room in (Ok r, d').

Definition inflate_step (input : bytes) (room : Z) : M SshError Inflate (Z * bytes * bool) :=
  fun d => let '(d', r) := decompress_vec d input room in
           (match r with
            | Some x => Ok x
            | None => Err (Compression "malformed compressed payload")
            end, d').

(** [&payload\[consumed..\]] *)
Definition rest_from {S} (consumed : Z) (payload : bytes) : M SshError S bytes :=
  if consumed <=? len payload then ret (zdrop consumed payload) else panic.

Fixpoint compress_loop (fuel : nat) (payload : bytes) (consumed : Z) (out : bytes) (cap : Z)
  : M SshError Deflate bytes :=
  match fuel with
  | O => out_of_fuel
  | S fuel' =>
      let cap := if len out =? cap then reserve_zeroizing out (Z.max cap 128) else cap in
      let* input := rest_from consumed payload in
      let* '(n, o) := deflate_step input (cap - len out) in
      let out := out ++ o in
      let consumed_all := consumed + n =? len payload in
      let no_progress := (n =? 0) && (len o =? 0) in
      if (consumed_all && (len out <? cap)) || no_progress then ret out
      else compress_loop fuel' payload (consumed + n) out cap
  end.

(** The room doubles from at least 64 bytes each time it is filled, and what is left
    to emit fits 64 bits: see [compress_terminates]. *)
Definition compress_fuel : nat := 64.

(** Every round but the last two produces a byte, and there can be [MAX_PACKET_LENGTH]
    of them: see [decompress_terminates]. *)
Definition decompress_fuel : nat := Z.to_nat (MAX_PACKET_LENGTH + 2).

Fixpoint decompress_loop (fuel : nat) (payload : bytes) (consumed : Z) (out : bytes) (cap : Z)
  : M SshError Inflate bytes :=
  match fuel with
  | O => out_of_fuel
  | S fuel' =>
      let cap := if len out =? cap then reserve_zeroizing out (Z.max cap 64) else cap in
      let* input := rest_from consumed payload in
      let* '(n, o, stream_end) := inflate_step input (cap - len out) in
      let out := out ++ o in
      if MAX_PACKET_LENGTH <? len out then err (Compression "decompressed payload too large")
      else
        let consumed_all := consumed + n =? len payload in
        if stream_end || (consumed_all && (len o =? 0)) then ret out
        else decompress_loop fuel' payload (consumed + n) out cap
  end.
End Compress.

Module Compressor.
Section Compressor.
Context `{C : Crypto}.

Definition new (name : bytes) : Compressor :=
  if beq name COMPRESSION_ZLIB_OPENSSH then Compressor_Zlib deflate_new else Compressor_None.

Definition compress (payload : bytes) : M SshError Compressor bytes :=
  fun c => match c with
  | Compressor_None => (Ok payload, c)
  | Compressor_Zlib d =>
      let '(r, d') := compress_loop compress_fuel payload 0 [] (64 + len payload) d in
      (r, Compressor_Zlib d')
  end.
End Compressor.
End Compressor.

Module Decompressor.
Section Decompressor.
Context `{C : Crypto}.

Definition new (name : bytes) : Decompressor :=
  if beq name COMPRESSION_ZLIB_OPENSSH then Decompressor_Zlib inflate_new
  else Decompressor_None.

Definition decompress (payload : bytes) : M SshError Decompressor bytes :=
  fun c => match c with
  | Decompressor_None => (Ok payload, c)
  | Decompressor_Zlib d =>
      let '(r, d') := decompress_loop decompress_fuel payload 0 [] (64 + len payload * 2) d in
      (r, Decompressor_Zlib d')
  end.
End Decompressor.
End Decompressor.

(** * The loops end *)
Section CompressProps.
Context `{C : Crypto} `{!FlateOk C}.

Lemma rest_from_ok {S} consumed payload (s : S) :
  consumed <= len payload -> rest_from consumed payload s = (Ok (zdrop consumed payload), s).
Proof. intros H. unfold rest_from. by replace (consumed <=? len payload) with true by lia. Qed.

(** A state of the loop: the input index is in range, and what has been emitted and
    what is still to come fit 64 bits. *)
Definition compress_inv (pending : Deflate -> bytes -> Z) (payload : bytes) (consumed : Z)
  (out : bytes) (d : Deflate) : Prop :=
  0 <= consumed <= len payload /\ 0 <= pending d (zdrop consumed payload) /\
  pending d (zdrop consumed payload) + len out <= U64_MAX.

Definition compress_law (pending : Deflate -> bytes -> Z) : Prop :=
  (forall d b, 0 <= pending d b) /\
  (forall d b room d' n o, 0 < room -> compress_vec d b room = (d', (n, o)) ->
      0 <= n <= len b /\ len o <= room /\ (len o < room -> n = len b) /\
      (len o = room -> pending d' (zdrop n b) <= pending d b - room)).

(** One round either returns or fills the buffer to its capacity. *)
Lemma compress_round pending fuel payload consumed out cap d :
  compress_law pending -> compress_inv pending payload consumed out d ->
  let cap1 := if len out =? cap then len out + Z.max cap 128 else cap in
  len out < cap1 ->
  (exists r d', compress_loop (S fuel) payload consumed out cap d = (Ok r, d')) \/
  (exists c1 out1 d1, compress_loop (S fuel) payload consumed out cap d =
       compress_loop fuel payload c1 out1 cap1 d1 /\
     len out1 = cap1 /\ compress_inv pending payload c1 out1 d1).
Proof.
  intros [Hp Hstep] (Hc & Hp0 & Hp1) cap1 Hcap.
  remember (compress_loop (S fuel) payload consumed out cap d) as L eqn:HL.
  cbn [compress_loop] in HL. unfold reserve_zeroizing in HL. fold cap1 in HL.
  unfold bind at 1 in HL. rewrite rest_from_ok in HL by lia. unfold bind, deflate_step in HL.
  destruct (compress_vec d (zdrop consumed payload) (cap1 - len out)) as [d' [n o]] eqn:Hd.
  destruct (Hstep _ _ (cap1 - len out) _ _ _ ltac:(lia) Hd) as (Hn & Hol & Hpart & Hfull).
  rewrite len_zdrop in Hn, Hpart by lia. rewrite len_app in HL.
  destruct ((consumed + n =? len payload) && (len out + len o <? cap1) || (n =? 0) && (len o =? 0))
    eqn:Hb; [left; by eexists _, _|right].
  assert (Heq : len o = cap1 - len out) by lia. specialize (Hfull Heq).
  rewrite zdrop_zdrop in Hfull by lia.
  eexists _, _, _. split; [exact HL|]. unfold compress_inv. rewrite len_app.
  repeat split; try lia. apply Hp.
Qed.

Lemma compress_rounds pending fuel payload consumed out cap d :
  compress_law pending -> compress_inv pending payload consumed out d ->
  len out = cap -> 0 < cap -> U64_MAX < cap * 2 ^ Z.of_nat fuel ->
  exists r d', compress_loop fuel payload consumed out cap d = (Ok r, d').
Proof.
  intros HL. revert consumed out cap d.
  induction fuel as [|fuel IH]; intros consumed out cap d Hinv Ho Hcap Hlt.
  { destruct Hinv as (_ & ? & ?). change (2 ^ Z.of_nat 0) with 1 in Hlt. lia. }
  rewrite Nat2Z.inj_succ, Z.pow_succ_r in Hlt by lia.
  assert (0 < 2 ^ Z.of_nat fuel) by (apply Z.pow_pos_nonneg; lia).
  destruct (compress_round pending fuel payload consumed out cap d HL Hinv)
    as [|(c1 & out1 & d1 & -> & Ho1 & Hinv1)]; rewrite ?Ho, ?Z.eqb_refl in *; [lia|done|].
  eapply IH; try done; [lia|nia].
Qed.

Lemma compress_returns c payload :
  exists r c', Compressor.compress payload c = (Ok r, c').
Proof.
  destruct compress_vec_ok as (pending & Hp & Hstep).
  assert (HL : compress_law pending) by (split; [apply Hp|exact Hstep]).
  unfold Compressor.compress. destruct c as [|d]; [by eexists _, _|].
  assert (Hinv : compress_inv pending payload 0 [] d).
  { unfold compress_inv. change (zdrop 0 payload) with payload. change (len []) with 0. pose proof (Hp d payload).
    pose proof (len_nonneg payload). lia. }
  pose proof (len_nonneg payload) as Hl. unfold compress_fuel.
  destruct (compress_round pending 63 payload 0 [] (64 + len payload) d HL Hinv)
    as [(r & d' & ->)|(c1 & out1 & d1 & -> & Ho1 & Hinv1)]; rewrite ?len_nil in *.
  - destruct (Z.eqb_spec 0 (64 + len payload)); lia.
  - by eexists _, _.
  - replace (0 =? 64 + len payload) with false in * by lia.
    destruct (compress_rounds pending 63 payload c1 out1 (64 + len payload) d1 HL Hinv1 Ho1)
      as (r & d' & ->); [lia| |by eexists _, _].
    change (2 ^ Z.of_nat 63) with 9223372036854775808. unfold U64_MAX. lia.
Qed.

(** Compression of one payload always returns: the buffer grows geometrically, so the
    sync flush completes within the rounds of the definition. *)
Lemma compress_terminates c payload :
  exists r c', Compressor.compress payload c = (Ok r, c').
Proof. apply compress_returns. Qed.

Definition decompress_post (o : outcome SshError bytes) : Prop :=
  (exists r, o = Ok r /\ len r <= MAX_PACKET_LENGTH) \/ (exists s, o = Err (Compression s)).

Lemma decompress_rounds fuel payload consumed out cap d :
  0 <= consumed <= len payload -> len out <= cap -> 0 < cap ->
  len out <= MAX_PACKET_LENGTH -> MAX_PACKET_LENGTH + 1 < len out + Z.of_nat fuel ->
  decompress_post (fst (decompress_loop fuel payload consumed out cap d)).
Proof.
  revert consumed out cap d. induction fuel as [|fuel IH]; intros consumed out cap d Hc Ho Hcap Hm Hf;
    [lia|].
  cbn [decompress_loop]. unfold reserve_zeroizing.
  set (cap1 := if len out =? cap then len out + Z.max cap 64 else cap).
  assert (Hcap1 : len out < cap1).
  { unfold cap1. pose proof (len_nonneg out). destruct (Z.eqb_spec (len out) cap); lia. }
  unfold bind at 1. rewrite rest_from_ok by lia. unfold bind, inflate_step.
  destruct (decompress_vec d (zdrop consumed payload) (cap1 - len out)) as [d' [[[n o] fin]|]] eqn:Hd;
    [|right; by eexists].
  destruct (decompress_vec_ok _ _ (cap1 - len out) _ _ _ _ ltac:(lia) Hd) as (Hn & Hol & Hpart).
  rewrite len_zdrop in Hn, Hpart by lia. rewrite len_app.
  destruct (Z.ltb_spec MAX_PACKET_LENGTH (len out + len o)) as [|Hle]; [right; by eexists|].
  destruct (fin || (consumed + n =? len payload) && (len o =? 0)) eqn:Hb.
  { left. eexists. split; [reflexivity|]. by rewrite len_app. }
  apply orb_false_iff in Hb as [-> Hb]. specialize (Hpart eq_refl). pose proof (len_nonneg o).
  pose proof (len_nonneg out). apply IH; rewrite ?len_app; try lia.
Qed.

Lemma decompress_returns d payload :
  decompress_post (fst (Decompressor.decompress payload (Decompressor_Zlib d))).
Proof.
  unfold Decompressor.decompress.
  assert (H : decompress_post (fst (decompress_loop decompress_fuel payload 0 []
    (64 + len payload * 2) d))).
  { pose proof (len_nonneg payload).
    apply decompress_rounds; rewrite ?len_nil; unfold MAX_PACKET_LENGTH, decompress_fuel in *;
      rewrite ?Z2Nat.id; unfold MAX_PACKET_LENGTH; lia. }
  destruct (decompress_loop _ _ _ _ _ d) as [o d']. exact H.
Qed.

(** A decompression bomb is contained: decompressing any payload returns, with an
    error or with at most [MAX_PACKET_LENGTH] bytes. *)
Lemma decompress_terminates d payload :
  decompress_post (fst (Decompressor.decompress payload (Decompressor_Zlib d))).
Proof. apply decompress_returns. Qed.
End CompressProps.

(** * Witnesses *)

Lemma compress_terminates_witness :
  exists r c', Compressor.compress (C := Toy.crypto) [1; 2; 3] (Compressor_Zlib (C := Toy.crypto) (@nil Z)) = (Ok r, c').
Proof. apply (@compress_terminates Toy.crypto Toy.flate_ok). Defined.

Lemma decompress_terminates_witness :
  decompress_post (fst (Decompressor.decompress (C := Toy.crypto) [1; 2; 3] (Decompressor_Zlib (C := Toy.crypto) tt))).
Proof. apply (@decompress_terminates Toy.crypto Toy.flate_ok tt). Defined.
