(* ===== verification/Connection.v ===== *)
(** The connection protocol's wire builders and the per-channel flow control:
    [connection.rs] (RFC 4254). *)
From S2P Require Import Prelude Errors Wire.

Definition DEFAULT_WINDOW : Z := 1024 * 1024.
Definition MAX_PACKET : Z := 32768.
Definition MIN_REMOTE_MAX_PACKET : Z := 256.
Definition CHANNEL_SESSION : bytes := str "session".

(** [open_failure]. *)
Definition ADMINISTRATIVELY_PROHIBITED : Z := 1.
Definition UNKNOWN_CHANNEL_TYPE : Z := 3.

Record PtyInfo := mkPtyInfo {
  pty_term : bytes;
  pty_cols : Z;
  pty_rows : Z;
  pty_width_px : Z;
  pty_height_px : Z;
  pty_modes : bytes
}.
#[export] Instance eta_PtyInfo : Eta PtyInfo := fun r =>
  mkPtyInfo (pty_term r) (pty_cols r) (pty_rows r) (pty_width_px r) (pty_height_px r) (pty_modes r).

Record OutItem := mkOutItem { oi_ext : bool; oi_buf : bytes; oi_sent : Z }.
#[export] Instance eta_OutItem : Eta OutItem := fun r => mkOutItem (oi_ext r) (oi_buf r) (oi_sent r).

Record Channel := mkChannel {
  ch_local_id : Z;
  ch_remote_id : Z;
  ch_local_window : Z;
  ch_remote_window : Z;
  ch_remote_max_packet : Z;
  ch_unacked : Z;
  ch_flushed_out : Z;
  ch_out : list OutItem;
  ch_sent_eof : bool;
  ch_sent_close : bool;
  ch_recv_close : bool;
  ch_exit_status : option Z;
  ch_want_close : bool;
  ch_want_eof : bool;
  ch_pty : option PtyInfo
}.
#[export] Instance eta_Channel : Eta Channel := fun r =>
  mkChannel (ch_local_id r) (ch_remote_id r) (ch_local_window r) (ch_remote_window r)
    (ch_remote_max_packet r) (ch_unacked r) (ch_flushed_out r) (ch_out r) (ch_sent_eof r)
    (ch_sent_close r) (ch_recv_close r) (ch_exit_status r) (ch_want_close r) (ch_want_eof r)
    (ch_pty r).

(** * Message builders *)
Definition channel_open_session (sender_channel : Z) : bytes :=
  Writer.new >>> Writer.u8 msg.CHANNEL_OPEN >>> Writer.string CHANNEL_SESSION
    >>> Writer.u32 sender_channel >>> Writer.u32 DEFAULT_WINDOW >>> Writer.u32 MAX_PACKET
    >>> Writer.into_bytes.

Definition channel_open_confirmation (recipient sender : Z) : bytes :=
  Writer.new >>> Writer.u8 msg.CHANNEL_OPEN_CONFIRMATION >>> Writer.u32 recipient
    >>> Writer.u32 sender >>> Writer.u32 DEFAULT_WINDOW >>> Writer.u32 MAX_PACKET
    >>> Writer.into_bytes.

Definition channel_open_failure (recipient reason : Z) (description : bytes) : bytes :=
  Writer.new >>> Writer.u8 msg.CHANNEL_OPEN_FAILURE >>> Writer.u32 recipient
    >>> Writer.u32 reason >>> Writer.string description >>> Writer.string []
    >>> Writer.into_bytes.

Definition channel_request_exec (recipient : Z) (want_reply : bool) (command : bytes) : bytes :=
  Writer.new >>> Writer.u8 msg.CHANNEL_REQUEST >>> Writer.u32 recipient
    >>> Writer.string (str "exec") >>> Writer.boolean want_reply >>> Writer.string command
    >>> Writer.into_bytes.

Definition channel_request_shell (recipient : Z) (want_reply : bool) : bytes :=
  Writer.new >>> Writer.u8 msg.CHANNEL_REQUEST >>> Writer.u32 recipient
    >>> Writer.string (str "shell") >>> Writer.boolean want_reply >>> Writer.into_bytes.

Definition channel_request_pty (recipient : Z) (want_reply : bool) (pty : PtyInfo) : bytes :=
  let w := Writer.new >>> Writer.u8 msg.CHANNEL_REQUEST >>> Writer.u32 recipient
    >>> Writer.string (str "pty-req") >>> Writer.boolean want_reply
    >>> Writer.string (pty_term pty) >>> Writer.u32 (pty_cols pty) >>> Writer.u32 (pty_rows pty)
    >>> Writer.u32 (pty_width_px pty) >>> Writer.u32 (pty_height_px pty) in
  (if len (pty_modes pty) =? 0 then w >>> Writer.string [0] else w >>> Writer.string (pty_modes pty))
    >>> Writer.into_bytes.

Definition channel_request_window_change (recipient cols rows width_px height_px : Z) : bytes :=
  Writer.new >>> Writer.u8 msg.CHANNEL_REQUEST >>> Writer.u32 recipient
    >>> Writer.string (str "window-change") >>> Writer.boolean false
    >>> Writer.u32 cols >>> Writer.u32 rows >>> Writer.u32 width_px >>> Writer.u32 height_px
    >>> Writer.into_bytes.

Definition channel_request_exit_status (recipient status : Z) : bytes :=
  Writer.new >>> Writer.u8 msg.CHANNEL_REQUEST >>> Writer.u32 recipient
    >>> Writer.string (str "exit-status") >>> Writer.boolean false >>> Writer.u32 status
    >>> Writer.into_bytes.

Definition channel_success (recipient : Z) : bytes :=
  Writer.new >>> Writer.u8 msg.CHANNEL_SUCCESS >>> Writer.u32 recipient >>> Writer.into_bytes.

Definition channel_failure (recipient : Z) : bytes :=
  Writer.new >>> Writer.u8 msg.CHANNEL_FAILURE >>> Writer.u32 recipient >>> Writer.into_bytes.

Definition CHANNEL_DATA_OVERHEAD : Z := 1 + 4 + 4.
Definition CHANNEL_EXTENDED_DATA_OVERHEAD : Z := 1 + 4 + 4 + 4.

Definition channel_data (recipient : Z) (data : bytes) : bytes :=
  Writer.with_capacity (CHANNEL_DATA_OVERHEAD + len data) >>> Writer.u8 msg.CHANNEL_DATA
    >>> Writer.u32 recipient >>> Writer.string data >>> Writer.into_bytes.

Definition channel_extended_data (recipient data_type : Z) (data : bytes) : bytes :=
  Writer.with_capacity (CHANNEL_EXTENDED_DATA_OVERHEAD + len data)
    >>> Writer.u8 msg.CHANNEL_EXTENDED_DATA >>> Writer.u32 recipient >>> Writer.u32 data_type
    >>> Writer.string data >>> Writer.into_bytes.

Definition channel_window_adjust (recipient bytes_to_add : Z) : bytes :=
  Writer.new >>> Writer.u8 msg.CHANNEL_WINDOW_ADJUST >>> Writer.u32 recipient
    >>> Writer.u32 bytes_to_add >>> Writer.into_bytes.

Definition channel_eof (recipient : Z) : bytes :=
  Writer.new >>> Writer.u8 msg.CHANNEL_EOF >>> Writer.u32 recipient >>> Writer.into_bytes.

Definition channel_close (recipient : Z) : bytes :=
  Writer.new >>> Writer.u8 msg.CHANNEL_CLOSE >>> Writer.u32 recipient >>> Writer.into_bytes.

(** * Channels *)

(** The bytes of a queue that have not been sent. *)
Definition item_rest (i : OutItem) : bytes := zdrop (oi_sent i) (oi_buf i).
Definition queued (q : list OutItem) : Z := fold_right (fun i n => len (item_rest i) + n) 0 q.

Module Channel.
Definition new (local_id : Z) : Channel :=
  mkChannel local_id 0 DEFAULT_WINDOW 0 0 0 0 [] false false false None false false None.

Definition set_pty (pty : PtyInfo) (c : Channel) : Channel := c <| ch_pty := Some pty |>.
Definition pty (c : Channel) : option PtyInfo := ch_pty c.

Definition update_pty_size (cols rows width_px height_px : Z) (c : Channel) : bool * Channel :=
  match ch_pty c with
  | Some pty =>
      (true, c <| ch_pty := Some (pty <| pty_cols := cols |> <| pty_rows := rows |>
                 <| pty_width_px := width_px |> <| pty_height_px := height_px |>) |>)
  | None => (false, c)
  end.

Definition request_close (c : Channel) : Channel := c <| ch_want_close := true |>.
Definition close_requested (c : Channel) : bool := ch_want_close c.
Definition request_eof (c : Channel) : Channel := c <| ch_want_eof := true |>.
Definition eof_requested (c : Channel) : bool := ch_want_eof c.

Definition set_remote (remote_id remote_window remote_max_packet : Z) (c : Channel) : Channel :=
  c <| ch_remote_id := remote_id |> <| ch_remote_window := remote_window |>
    <| ch_remote_max_packet := Z.max remote_max_packet 1 |>.

Definition enqueue_stdout (data : bytes) (c : Channel) : Channel :=
  if negb (len data =? 0) then c <| ch_out ::= fun q => q ++ [mkOutItem false data 0] |> else c.

Definition enqueue_stderr (data : bytes) (c : Channel) : Channel :=
  if negb (len data =? 0) then c <| ch_out ::= fun q => q ++ [mkOutItem true data 0] |> else c.

Definition add_remote_window (n : Z) (c : Channel) : Channel :=
  c <| ch_remote_window ::= fun w => saturating_add32 w n |>.

Definition out_is_empty (c : Channel) : bool := len (ch_out c) =? 0.

(** [drain_output(max_chunk, emit)]: the payloads handed to [emit], in order. *)
Fixpoint drain_loop (fuel : nat) (max_chunk : option Z) (emitted : list bytes)
  : M SshError Channel (list bytes) :=
  let* c := get in
  match ch_out c with
  | [] => ret emitted
  | front :: q =>
      match fuel with
      | O => out_of_fuel
      | S fuel' =>
          let limit := Z.min (ch_remote_window c) (ch_remote_max_packet c) in
          let limit := match max_chunk with
                       | Some mc => Z.min limit (Z.max mc 1)
                       | None => limit
                       end in
          if limit =? 0 then ret emitted
          else
            let* left_ := checked U64_MAX (len (oi_buf front) - oi_sent front) in
            let take := Z.min left_ limit in
            let chunk := slice (oi_sent front) (oi_sent front + take) (oi_buf front) in
            let out_msg := if oi_ext front
                           then channel_extended_data (ch_remote_id c) msg.STDERR chunk
                           else channel_data (ch_remote_id c) chunk in
            let front := front <| oi_sent ::= fun s => s + take |> in
            (if oi_sent front =? len (oi_buf front) then ch_out <-! q else ch_out <-! front :: q) ;;;
            let* w := checked U32_MAX (ch_remote_window c - as_u32 take) in
            ch_remote_window <-! w ;;;
            let* f := checked U64_MAX (ch_flushed_out c + take) in
            ch_flushed_out <-! f ;;;
            drain_loop fuel' max_chunk (emitted ++ [out_msg])
      end
  end.

(** Every message carries a byte, so the queued bytes bound the rounds. *)
Definition drain_output (max_chunk : option Z) : M SshError Channel (list bytes) :=
  fun c => drain_loop (Z.to_nat (queued (ch_out c))) max_chunk [] c.

Definition consume_incoming (n : Z) (c : Channel) : bool * Channel :=
  if ch_local_window c <? n then (false, c)
  else (true, c <| ch_local_window ::= fun w => w - n |>).

Definition ack_incoming (n : Z) : M SshError Channel (option Z) :=
  let* c := get in
  let* outstanding := checked U32_MAX (DEFAULT_WINDOW - ch_local_window c) in
  let unacked := Z.min (saturating_add32 (ch_unacked c) n) outstanding in
  ch_unacked <-! unacked ;;;
  if (DEFAULT_WINDOW / 2 <=? unacked) || ((ch_local_window c =? 0) && (0 <? unacked)) then
    ch_unacked <-! 0 ;;;
    let* w := checked U32_MAX (ch_local_window c + unacked) in
    ch_local_window <-! w ;;;
    ret (Some unacked)
  else ret None.

Definition take_flushed_out : M SshError Channel Z :=
  let* n := gets ch_flushed_out in
  ch_flushed_out <-! 0 ;;;
  ret n.
End Channel.

(** * Flow control *)

Definition item_ok (i : OutItem) : Prop := 0 <= oi_sent i < len (oi_buf i).

(** The bookkeeping invariant of a channel: no empty output item, windows in range, and
    what we granted plus what we owe never exceeds the initial window. *)
Definition channel_ok (c : Channel) : Prop :=
  Forall item_ok (ch_out c) /\
  0 <= ch_local_window c /\ 0 <= ch_unacked c /\
  ch_local_window c + ch_unacked c <= DEFAULT_WINDOW /\
  is_u32 (ch_remote_window c) /\ is_u32 (ch_remote_max_packet c) /\
  0 <= ch_flushed_out c.

Lemma new_ok id : channel_ok (Channel.new id).
Proof. repeat split; (constructor || cbn; unfold DEFAULT_WINDOW, U32_MAX; lia). Qed.

Lemma set_remote_ok i w m c :
  is_u32 w -> is_u32 m -> channel_ok c -> channel_ok (Channel.set_remote i w m c).
Proof.
  unfold channel_ok, is_u32, U32_MAX. cbn. intros ? ? (?&?&?&?&?&?&?). repeat split; try done; lia.
Qed.

Lemma enqueue_ok (ext : bool) data c :
  channel_ok c ->
  channel_ok (if ext then Channel.enqueue_stderr data c else Channel.enqueue_stdout data c).
Proof.
  unfold channel_ok, Channel.enqueue_stderr, Channel.enqueue_stdout. intros (Hf & Hr).
  pose proof (len_nonneg data).
  destruct ext, (Z.eqb_spec (len data) 0); cbn; (split; [|exact Hr]); try exact Hf;
    apply Forall_app; (split; [exact Hf|]);
    (constructor; [unfold item_ok; cbn; lia|constructor]).
Qed.

Lemma add_remote_window_ok n c :
  0 <= n -> channel_ok c -> channel_ok (Channel.add_remote_window n c).
Proof.
  unfold channel_ok, is_u32, saturating_add32, U32_MAX. cbn. intros ? (?&?&?&?&?&?&?).
  unfold saturating_add32, U32_MAX. repeat split; try done; lia.
Qed.

Lemma consume_incoming_ok n c :
  0 <= n -> channel_ok c -> channel_ok (snd (Channel.consume_incoming n c)).
Proof.
  unfold channel_ok, Channel.consume_incoming. intros ? (?&?&?&?&?&?&?).
  destruct (Z.ltb_spec (ch_local_window c) n); cbn; split_and!; try done; lia.
Qed.

(** ** Output *)

(** A queue as the stream of its unsent bytes, each with the pipe it belongs to. *)
Definition stream (q : list OutItem) : list (bool * Z) :=
  flat_map (fun i => map (pair (oi_ext i)) (item_rest i)) q.

(** An emitted message, before it is encoded. *)
Definition chunk : Type := bool * bytes.
Definition chunk_stream (l : list chunk) : list (bool * Z) :=
  flat_map (fun '(e, d) => map (pair e) d) l.
Definition chunk_msg (remote_id : Z) (k : chunk) : bytes :=
  let '(e, d) := k in
  if e then channel_extended_data remote_id msg.STDERR d else channel_data remote_id d.
Definition chunk_bytes (l : list chunk) : Z := fold_right (fun '(_, d) n => len d + n) 0 l.

Definition drain_limit (max_chunk : option Z) (c : Channel) : Z :=
  let limit := Z.min (ch_remote_window c) (ch_remote_max_packet c) in
  match max_chunk with Some mc => Z.min limit (Z.max mc 1) | None => limit end.

Definition chunk_fits (max_chunk : option Z) (max_packet : Z) (k : chunk) : Prop :=
  0 < len (snd k) <= max_packet /\
  match max_chunk with Some mc => len (snd k) <= Z.max mc 1 | None => True end.

(** What a drain that starts in [c] and stops in [c'] having emitted [l] did. *)
Record drained (max_chunk : option Z) (c : Channel) (l : list chunk) (c' : Channel) : Prop := {
  dr_stream : stream (ch_out c) = chunk_stream l ++ stream (ch_out c');
  dr_fits : Forall (chunk_fits max_chunk (ch_remote_max_packet c)) l;
  dr_window : ch_remote_window c = ch_remote_window c' + chunk_bytes l;
  dr_flushed : ch_flushed_out c' = ch_flushed_out c + chunk_bytes l;
  dr_stop : ch_out c' = [] \/ ch_remote_window c' = 0 \/ ch_remote_max_packet c = 0;
  dr_ok : channel_ok c';
  dr_rest : c' = c <| ch_out := ch_out c' |> <| ch_remote_window := ch_remote_window c' |>
                   <| ch_flushed_out := ch_flushed_out c' |>
}.

Lemma queued_nonneg q : 0 <= queued q.
Proof.
  unfold queued. induction q as [|i q IH]; cbn [fold_right]; [lia|].
  pose proof (len_nonneg (item_rest i)). lia.
Qed.

(** The item at the front after [take] of its bytes have gone. *)
Lemma item_advance i k q :
  item_ok i -> 0 < k <= len (item_rest i) ->
  let i' := i <| oi_sent ::= fun s => s + k |> in
  let q' := if oi_sent i' =? len (oi_buf i') then q else i' :: q in
  stream (i :: q) =
    map (pair (oi_ext i)) (slice (oi_sent i) (oi_sent i + k) (oi_buf i)) ++ stream q' /\
  queued q' = queued (i :: q) - k /\
  len (slice (oi_sent i) (oi_sent i + k) (oi_buf i)) = k /\
  (Forall item_ok q -> Forall item_ok q').
Proof.
  intros Hi Hk i' q'. unfold item_ok in Hi. unfold item_rest in Hk. rewrite len_zdrop in Hk by lia.
  assert (Hs : item_rest i = slice (oi_sent i) (oi_sent i + k) (oi_buf i) ++ item_rest i').
  { unfold item_rest, slice, i'. cbn. replace (oi_sent i + k - oi_sent i) with k by lia.
    rewrite <- (zdrop_zdrop k) by lia. by rewrite ztake_zdrop. }
  assert (Hl : len (slice (oi_sent i) (oi_sent i + k) (oi_buf i)) = k) by (rewrite len_slice; lia).
  assert (Hd : oi_sent i' = len (oi_buf i') -> item_rest i' = []).
  { intros He. apply len_zero_inv. unfold item_rest, i' in *. cbn in *. rewrite len_zdrop; lia. }
  unfold q'. destruct (Z.eqb_spec (oi_sent i') (len (oi_buf i'))) as [He|He];
    cbn [stream flat_map queued fold_right]; rewrite Hs, map_app, len_app, Hl;
    (split; [|split; [|split; [lia|]]]).
  - rewrite (Hd He). cbn [map]. by rewrite app_nil_r.
  - rewrite (Hd He), len_nil. unfold queued. lia.
  - done.
  - by rewrite <- app_assoc.
  - unfold queued. cbn [fold_right]. lia.
  - intros Hf. constructor; [|done]. unfold item_ok, i' in *. cbn in *. lia.
Qed.

(** One message: what is left to drain shrinks, and the rest of a drain extends it. *)
Lemma drained_cons max_chunk c i q k l c' :
  channel_ok c -> ch_out c = i :: q -> 0 < k <= len (item_rest i) -> k <= drain_limit max_chunk c ->
  let i' := i <| oi_sent ::= fun s => s + k |> in
  let c1 := c <| ch_out := if oi_sent i' =? len (oi_buf i') then q else i' :: q |>
              <| ch_remote_window := ch_remote_window c - k |>
              <| ch_flushed_out := ch_flushed_out c + k |> in
  channel_ok c1 /\
  (drained max_chunk c1 l c' ->
   drained max_chunk c ((oi_ext i, slice (oi_sent i) (oi_sent i + k) (oi_buf i)) :: l) c').
Proof.
  intros Hok Hq Hk Hlim i' c1. pose proof Hok as (Hf & Hr). rewrite Hq in Hf.
  apply List.Forall_cons_iff in Hf as [Hi Hf].
  destruct (item_advance i k q Hi Hk) as (Hs & Hu & Hl & Hf'). fold i' in Hs, Hu, Hf'.
  unfold drain_limit in Hlim.
  split.
  - unfold channel_ok, c1. cbn. unfold is_u32, U32_MAX in *.
    repeat split; [by apply Hf'|destruct max_chunk; lia..].
  - intros [D1 D2 D3 D4 D5 D6 D7].
    change (ch_out c1) with (if oi_sent i' =? len (oi_buf i') then q else i' :: q) in D1.
    change (ch_remote_max_packet c1) with (ch_remote_max_packet c) in D2, D5.
    change (ch_remote_window c1) with (ch_remote_window c - k) in D3.
    change (ch_flushed_out c1) with (ch_flushed_out c + k) in D4.
    split; try done.
    + rewrite Hq, Hs, D1. cbn [chunk_stream flat_map]. by rewrite app_assoc.
    + constructor; [|done]. unfold chunk_fits. cbn [snd]. rewrite Hl.
      destruct max_chunk; split; lia || done.
    + cbn [chunk_bytes fold_right]. rewrite Hl. unfold chunk_bytes in D3. lia.
    + cbn [chunk_bytes fold_right]. rewrite Hl. unfold chunk_bytes in D4. lia.
Qed.

Lemma drain_loop_spec fuel max_chunk emitted c :
  channel_ok c -> queued (ch_out c) <= Z.of_nat fuel ->
  ch_flushed_out c + queued (ch_out c) <= U64_MAX ->
  exists l c', Channel.drain_loop fuel max_chunk emitted c =
      (Ok (emitted ++ map (chunk_msg (ch_remote_id c)) l), c') /\ drained max_chunk c l c'.
Proof.
  revert emitted c. induction fuel as [|fuel IH]; intros emitted c Hok Hf Hu;
    cbn [Channel.drain_loop]; unfold bind at 1, get; destruct (ch_out c) as [|i q] eqn:Hq.
  1, 3: exists [], c; rewrite app_nil_r; split; [done|];
    split; cbn; rewrite ?Hq; auto; try lia; destruct c; cbn in *; by subst.
  - pose proof Hok as (Hall & _). rewrite Hq in Hall. apply List.Forall_cons_iff in Hall as [Hi _].
    change (queued (i :: q)) with (len (item_rest i) + queued q) in Hf.
    pose proof (queued_nonneg q). unfold item_ok in Hi. unfold item_rest in Hf.
    rewrite len_zdrop in Hf by lia. lia.
  - pose proof Hok as (Hall & _ & _ & _ & Hw & Hm & Hfl). rewrite Hq in Hall.
    apply List.Forall_cons_iff in Hall as [Hi _]. pose proof (queued_nonneg q) as Hqn.
    assert (Hlen : len (item_rest i) = len (oi_buf i) - oi_sent i).
    { unfold item_rest, item_ok in *. rewrite len_zdrop; lia. }
    assert (Hqu : queued (i :: q) = len (item_rest i) + queued q) by done. rewrite Hqu in *.
    fold (drain_limit max_chunk c). set (limit := drain_limit max_chunk c).
    assert (Hlim : 0 <= limit).
    { unfold limit, drain_limit. unfold is_u32 in *. destruct max_chunk; lia. }
    destruct (Z.eqb_spec limit 0) as [H0|H0].
    { exists [], c. rewrite app_nil_r. split; [done|].
      split; cbn; auto; try lia; [|by destruct c].
      right. unfold limit, drain_limit in H0. unfold is_u32 in *. destruct max_chunk; lia. }
    unfold checked. set (k := Z.min (len (oi_buf i) - oi_sent i) limit).
    unfold item_ok in Hi. unfold is_u32, U32_MAX, U64_MAX in *.
    assert (Hk : 0 < k <= len (item_rest i)) by (unfold k; lia).
    assert (Hkl : k <= drain_limit max_chunk c) by (unfold k; fold limit; lia).
    assert (Hkw : k <= ch_remote_window c) by (unfold drain_limit in Hkl; destruct max_chunk; lia).
    unfold bind at 1.
    replace ((0 <=? len (oi_buf i) - oi_sent i) && (len (oi_buf i) - oi_sent i <=? 18446744073709551615))
      with true by lia.
    unfold ret at 1. cbv zeta. fold k.
    rewrite (as_u32_id k) by (unfold is_u32, U32_MAX; lia).
    destruct (drained_cons max_chunk c i q k [] c Hok Hq Hk Hkl) as [Hok1 _].
    set (i' := i <| oi_sent ::= fun s => s + k |>) in *.
    set (c1 := set ch_flushed_out _ _) in Hok1.
    assert (Hu1 : queued (ch_out c1) = queued (i :: q) - k).
    { unfold c1. cbn [ch_out set]. by apply (item_advance i k q). }
    rewrite Hqu in Hu1.
    destruct (IH (emitted ++ [if oi_ext i
       then channel_extended_data (ch_remote_id c) msg.STDERR (slice (oi_sent i) (oi_sent i + k) (oi_buf i))
       else channel_data (ch_remote_id c) (slice (oi_sent i) (oi_sent i + k) (oi_buf i))]) c1 Hok1)
      as (l & c' & Heq & Hd); [lia|unfold c1 in *; cbn in *; lia|].
    exists ((oi_ext i, slice (oi_sent i) (oi_sent i + k) (oi_buf i)) :: l), c'.
    split; [|by apply (drained_cons max_chunk c i q k l c' Hok Hq Hk Hkl)].
    cbn [map]. rewrite <- app_assoc in Heq. cbn [app] in Heq. cbn [chunk_msg].
    change (ch_remote_id c1) with (ch_remote_id c) in Heq. rewrite <- Heq.
    replace ((0 <=? ch_remote_window c - k) && (ch_remote_window c - k <=? 4294967295)) with true by lia.
    replace ((0 <=? ch_flushed_out c + k) && (ch_flushed_out c + k <=? 18446744073709551615))
      with true by lia.
    unfold bind, modify, ret, c1. fold i'. by destruct (oi_sent i' =? len (oi_buf i')).
Qed.

Lemma drain_output_ok max_chunk c :
  channel_ok c -> ch_flushed_out c + queued (ch_out c) <= U64_MAX ->
  exists l c', Channel.drain_output max_chunk c = (Ok (map (chunk_msg (ch_remote_id c)) l), c') /\
    drained max_chunk c l c'.
Proof.
  intros Hok Hu. unfold Channel.drain_output.
  apply (drain_loop_spec _ max_chunk [] c Hok); [|done].
  pose proof (queued_nonneg (ch_out c)). lia.
Qed.

(** C30. Draining output always returns; it sends a prefix of the queued bytes, in order and
    without loss (each byte on its own pipe), in messages of at least one byte that fit
    the peer's maximum packet and the chunk cap; it never sends more than the peer's
    window, accounts for exactly what it sent, and stops only when the queue is empty or
    the window (or an unopened channel's packet size) is zero. *)
Theorem drain_output_spec max_chunk c :
  channel_ok c -> ch_flushed_out c + queued (ch_out c) <= U64_MAX ->
  exists l c', Channel.drain_output max_chunk c = (Ok (map (chunk_msg (ch_remote_id c)) l), c') /\
    drained max_chunk c l c'.
Proof. apply drain_output_ok. Qed.

Definition demo_channel : Channel :=
  Channel.enqueue_stderr (str "oops") (Channel.enqueue_stdout (str "hello world")
    (Channel.set_remote 7 9 4 (Channel.new 0))).

Lemma drain_output_spec_witness :
  channel_ok demo_channel /\
  exists l c', Channel.drain_output (Some 3) demo_channel = (Ok (map (chunk_msg 7) l), c') /\
    drained (Some 3) demo_channel l c'.
Proof.
  assert (Hok : channel_ok demo_channel).
  { apply (enqueue_ok true), (enqueue_ok false), set_remote_ok, new_ok;
      unfold is_u32, U32_MAX; lia. }
  split; [exact Hok|]. apply (drain_output_spec (Some 3) demo_channel Hok).
  vm_compute. discriminate.
Defined.

(** ** The receive window *)

Lemma ack_incoming_wp n c :
  0 <= n -> channel_ok c ->
  wp (Channel.ack_incoming n)
    (fun g c' => channel_ok c' /\
       ch_local_window c' = ch_local_window c + default 0 g /\
       ch_unacked c' + default 0 g = Z.min (saturating_add32 (ch_unacked c) n)
                                        (DEFAULT_WINDOW - ch_local_window c) /\
       (ch_local_window c = 0 -> 0 < ch_unacked c + n -> exists k, g = Some k /\ 0 < k) /\
       ch_unacked c' < DEFAULT_WINDOW / 2)
    (fun _ _ => False) c.
Proof.
  intros Hn (H1 & H2 & H3 & H4 & H5 & H6 & H7). unfold channel_ok, Channel.ack_incoming.
  assert (HD : DEFAULT_WINDOW = 1048576) by reflexivity.
  assert (HH : DEFAULT_WINDOW / 2 = 524288) by reflexivity.
  assert (HU : U32_MAX = 4294967295) by reflexivity.
  assert (Hsat : forall x y, saturating_add32 x y = Z.min (x + y) U32_MAX) by reflexivity.
  generalize dependent DEFAULT_WINDOW. intros D H4 HD HH.
  do 3 wp_step. apply wp_checked; [lia|]. cbv beta zeta.
  set (u := Z.min _ _).
  assert (Hu : 0 <= u <= D - ch_local_window c) by (unfold u; rewrite Hsat; lia).
  do 3 wp_step.
  - do 2 wp_step. wp_step. apply wp_checked; [lia|]. cbv beta. do 3 wp_step.
    cbn. split_and!; try done; try lia. intros Hz Hp. exists u. split; [done|].
    unfold u. rewrite Hsat. lia.
  - wp_step. cbn. split_and!; try done; try lia. intros Hz Hp. exfalso.
    unfold u in *. rewrite Hsat in *. lia.
Qed.

(** One side of a channel, with what the peer has sent, what the application has
    acknowledged and what has been granted back, since the channel opened. *)
Record Flow := mkFlow { fl_ch : Channel; fl_received : Z; fl_acked : Z; fl_granted : Z }.

Inductive flow_step : Flow -> Flow -> Prop :=
| flow_receive n s c' : 0 <= n ->
    Channel.consume_incoming n (fl_ch s) = (true, c') ->
    flow_step s (mkFlow c' (fl_received s + n) (fl_acked s) (fl_granted s))
| flow_ack n s g c' : 0 <= n ->
    Channel.ack_incoming n (fl_ch s) = (Ok g, c') ->
    flow_step s (mkFlow c' (fl_received s) (fl_acked s + n) (fl_granted s + default 0 g)).

Definition flow_inv (s : Flow) : Prop :=
  channel_ok (fl_ch s) /\
  ch_local_window (fl_ch s) = DEFAULT_WINDOW + fl_granted s - fl_received s /\
  fl_granted s + ch_unacked (fl_ch s) <= fl_acked s.

Lemma flow_step_inv s s' : flow_step s s' -> flow_inv s -> flow_inv s'.
Proof.
  intros [n s0 c' Hn Hc|n s0 g c' Hn Hc] (Hok & Hw & Hu); unfold flow_inv; cbn.
  - pose proof (consume_incoming_ok n _ Hn Hok) as Hok'. rewrite Hc in Hok'.
    unfold Channel.consume_incoming in Hc. destruct (_ <? _); simplify_eq. cbn in *.
    split; [done|]. lia.
  - pose proof (ack_incoming_wp n _ Hn Hok) as Hwp. unfold wp in Hwp. rewrite Hc in Hwp.
    destruct Hwp as (Hok' & Hw' & Hu' & _). split; [done|].
    unfold saturating_add32 in Hu'. lia.
Qed.

(** C31. Backpressure: whatever the peer sends and the application acknowledges, in any
    order, at most [DEFAULT_WINDOW] bytes are received and not acknowledged, and the
    window advertised is exactly the initial one plus the grants minus the received. *)
Theorem flow_bounded id s :
  steps flow_step (mkFlow (Channel.new id) 0 0 0) s ->
  fl_received s - fl_acked s <= DEFAULT_WINDOW /\
  fl_received s <= DEFAULT_WINDOW + fl_granted s /\
  ch_local_window (fl_ch s) = DEFAULT_WINDOW + fl_granted s - fl_received s.
Proof.
  intros Hs. assert (Hi : flow_inv s).
  { eapply steps_invariant; [apply flow_step_inv|exact Hs|].
    unfold flow_inv. cbn. split; [apply new_ok|]. unfold DEFAULT_WINDOW. lia. }
  destruct Hi as ((_ & H1 & H2 & H3 & _) & Hw & Hu). lia.
Qed.

Lemma flow_bounded_witness :
  exists s, steps flow_step (mkFlow (Channel.new 3) 0 0 0) s /\
    fl_received s = 1048576 /\ fl_granted s = 1 /\ fl_received s - fl_acked s <= DEFAULT_WINDOW.
Proof.
  assert (Hs : exists s, steps flow_step (mkFlow (Channel.new 3) 0 0 0) s /\
    fl_received s = 1048576 /\ fl_granted s = 1).
  { eexists. split.
    - eapply steps_cons; [eapply (flow_receive 1048576); [lia|vm_compute; reflexivity]|].
      eapply steps_cons; [eapply (flow_ack 1); [lia|vm_compute; reflexivity]|]. apply steps_refl.
    - vm_compute. done. }
  destruct Hs as (s & Hs & H1 & H2). exists s. split; [exact Hs|].
  split; [done|]. split; [done|]. apply (flow_bounded 3 s Hs).
Defined.
