(* ===== verification/Auth.v ===== *)
(** User authentication messages and keys: [auth.rs] (RFC 4252). *)
From S2P Require Import Prelude Errors Wire Crypto Kex.

(** [constant_time_eq]: equality of slices, its timing not modelled. *)
Definition constant_time_eq (a b : bytes) : bool := beq a b.

Definition SERVICE_USERAUTH : bytes := str "ssh-userauth".
Definition SERVICE_CONNECTION : bytes := str "ssh-connection".
Definition METHOD_NONE : bytes := str "none".
Definition METHOD_PASSWORD : bytes := str "password".
Definition METHOD_PUBLICKEY : bytes := str "publickey".

(** * Keys *)
Record UserPublicKey `{C : Crypto} := mkUserPublicKey { upk_verifying : VerifyingKey }.
Record UserKeypair `{C : Crypto} := mkUserKeypair { ukp_signing : SigningKey }.

Module UserPublicKey.
Section UserPublicKey.
Context `{C : Crypto}.

Definition parse_blob_r : RM UserPublicKey :=
  let* alg := Reader.utf8 in
  if negb (beq alg HOSTKEY_ED25519) then err (Protocol "unsupported public key algorithm")
  else
    let* key := Reader.string in
    if negb (len key =? 32) then err (Protocol "ed25519 key is not 32 bytes")
    else
      let* verifying := ok_or (verifying_from_bytes key) (Protocol "invalid ed25519 key") in
      ret (mkUserPublicKey C verifying).
Definition parse_blob (blob : bytes) : result UserPublicKey := run parse_blob_r (Reader.new blob).

Definition from_ed25519_bytes (b : bytes) : result UserPublicKey :=
  match verifying_from_bytes b with
  | Some vk => Ok (mkUserPublicKey C vk)
  | None => Err (Protocol "invalid ed25519 key")
  end.

Definition blob (k : UserPublicKey) : bytes :=
  Writer.new >>> Writer.string HOSTKEY_ED25519
    >>> Writer.string (verifying_as_bytes (upk_verifying k)) >>> Writer.into_bytes.

Definition verify_r (k : UserPublicKey) (signed_data : bytes) : RM unit :=
  let* alg := Reader.utf8 in
  if negb (beq alg HOSTKEY_ED25519) then err (Protocol "unsupported signature algorithm")
  else
    let* sig := Reader.string in
    if negb (len sig =? 64) then err (Protocol "signature is not 64 bytes")
    else if ed25519_verify_strict (upk_verifying k) signed_data sig then ret tt
    else err AuthFailed.
Definition verify (k : UserPublicKey) (signed_data sig_blob : bytes) : result unit :=
  run (verify_r k signed_data) (Reader.new sig_blob).
End UserPublicKey.
End UserPublicKey.

Module UserKeypair.
Section UserKeypair.
Context `{C : Crypto}.
Definition from_seed (seed : bytes) : UserKeypair := mkUserKeypair C (signing_from_bytes seed).
Definition generate : M SshError Rng UserKeypair :=
  let* sk := draw signing_generate in ret (mkUserKeypair C sk).
Definition public (k : UserKeypair) : UserPublicKey :=
  mkUserPublicKey C (verifying_key (ukp_signing k)).
Definition sign (k : UserKeypair) (signed_data : bytes) : bytes :=
  let sig := ed25519_sign (ukp_signing k) signed_data in
  Writer.new >>> Writer.string HOSTKEY_ED25519 >>> Writer.string sig >>> Writer.into_bytes.
End UserKeypair.
End UserKeypair.

(** * Message builders *)
Definition publickey_signed_data (session_id user service key_algo key_blob : bytes) : bytes :=
  Writer.new >>> Writer.string session_id >>> Writer.u8 msg.USERAUTH_REQUEST
    >>> Writer.string user >>> Writer.string service >>> Writer.string METHOD_PUBLICKEY
    >>> Writer.boolean true >>> Writer.string key_algo >>> Writer.string key_blob
    >>> Writer.into_bytes.

Definition service_request (service : bytes) : bytes :=
  Writer.new >>> Writer.u8 msg.SERVICE_REQUEST >>> Writer.string service >>> Writer.into_bytes.

Definition service_accept (service : bytes) : bytes :=
  Writer.new >>> Writer.u8 msg.SERVICE_ACCEPT >>> Writer.string service >>> Writer.into_bytes.

Definition userauth_failure (methods : list bytes) (partial : bool) : bytes :=
  Writer.new >>> Writer.u8 msg.USERAUTH_FAILURE >>> Writer.name_list methods
    >>> Writer.boolean partial >>> Writer.into_bytes.

Definition userauth_success : bytes := [msg.USERAUTH_SUCCESS].

Definition userauth_banner (message : bytes) : bytes :=
  Writer.new >>> Writer.u8 msg.USERAUTH_BANNER >>> Writer.string message >>> Writer.string []
    >>> Writer.into_bytes.

Definition userauth_pk_ok (key_algo key_blob : bytes) : bytes :=
  Writer.new >>> Writer.u8 msg.USERAUTH_PK_OK >>> Writer.string key_algo
    >>> Writer.string key_blob >>> Writer.into_bytes.

Definition password_request (user service password : bytes) : bytes :=
  Writer.new >>> Writer.u8 msg.USERAUTH_REQUEST >>> Writer.string user >>> Writer.string service
    >>> Writer.string METHOD_PASSWORD >>> Writer.boolean false >>> Writer.string password
    >>> Writer.into_bytes.

Definition none_request (user service : bytes) : bytes :=
  Writer.new >>> Writer.u8 msg.USERAUTH_REQUEST >>> Writer.string user >>> Writer.string service
    >>> Writer.string METHOD_NONE >>> Writer.into_bytes.

Definition publickey_request (user service key_algo key_blob : bytes) (signature : option bytes)
  : bytes :=
  let w := Writer.new >>> Writer.u8 msg.USERAUTH_REQUEST >>> Writer.string user
    >>> Writer.string service >>> Writer.string METHOD_PUBLICKEY
    >>> Writer.boolean (bool_decide (is_Some signature)) >>> Writer.string key_algo
    >>> Writer.string key_blob in
  (match signature with Some sig => w >>> Writer.string sig | None => w end) >>> Writer.into_bytes.

(** * Requests *)
Inductive Method :=
| Method_None
| Method_Password (password : bytes)
| Method_PublicKey (key_algo key_blob : bytes) (signature : option bytes)
| Method_Unknown (name : bytes).

Record AuthRequest := mkAuthRequest { ar_user : bytes; ar_service : bytes; ar_method : Method }.

Module AuthRequest.
Definition parse_method (method_name : bytes) : RM Method :=
  if beq method_name METHOD_NONE then ret Method_None
  else if beq method_name METHOD_PASSWORD then
    let* _change := Reader.boolean in
    let* password := Reader.utf8 in
    ret (Method_Password password)
  else if beq method_name METHOD_PUBLICKEY then
    let* has_sig := Reader.boolean in
    let* key_algo := Reader.utf8 in
    let* key_blob := Reader.string in
    let* signature := (if (has_sig : bool) then let* s := Reader.string in ret (Some s)
                       else ret None) in
    ret (Method_PublicKey key_algo key_blob signature)
  else ret (Method_Unknown method_name).

Definition parse_r : RM AuthRequest :=
  let* id := Reader.u8 in
  if negb (id =? msg.USERAUTH_REQUEST) then err (Protocol "expected USERAUTH_REQUEST")
  else
    let* user := Reader.utf8 in
    let* service := Reader.utf8 in
    let* method_name := Reader.utf8 in
    let* method := parse_method method_name in
    ret (mkAuthRequest user service method).

Definition parse (payload : bytes) : result AuthRequest := run parse_r (Reader.new payload).
End AuthRequest.

(** * Round trips *)

(** The client's encoding of a request, by method. *)
Definition encode_request (q : AuthRequest) : option bytes :=
  match ar_method q with
  | Method_None => Some (none_request (ar_user q) (ar_service q))
  | Method_Password p => Some (password_request (ar_user q) (ar_service q) p)
  | Method_PublicKey a b s => Some (publickey_request (ar_user q) (ar_service q) a b s)
  | Method_Unknown _ => None
  end.

(** A string field: UTF-8, and short enough for its length prefix. *)
Definition text_ok (b : bytes) : Prop := len b <= U32_MAX /\ utf8_valid b = true.
Definition blob_ok (b : bytes) : Prop := len b <= U32_MAX.

Definition request_ok (q : AuthRequest) : Prop :=
  text_ok (ar_user q) /\ text_ok (ar_service q) /\
  match ar_method q with
  | Method_Password p => text_ok p
  | Method_PublicKey a b s => text_ok a /\ blob_ok b /\ (forall x, s = Some x -> blob_ok x)
  | _ => True
  end.

Lemma reads_text b : text_ok b -> reads Reader.utf8 (wire_string b) b.
Proof. intros []. by apply reads_wire_utf8. Qed.

Lemma text_ok_method : text_ok METHOD_NONE /\ text_ok METHOD_PASSWORD /\ text_ok METHOD_PUBLICKEY.
Proof. repeat split; vm_compute; congruence. Qed.

Lemma request_head (name : bytes) user service tail m :
  text_ok user -> text_ok service -> text_ok name ->
  reads (AuthRequest.parse_method name) tail m ->
  reads AuthRequest.parse_r
    ([msg.USERAUTH_REQUEST] ++ wire_string user ++ wire_string service ++ wire_string name ++ tail)
    (mkAuthRequest user service m).
Proof.
  intros Hu Hs Hn Hm. unfold AuthRequest.parse_r.
  eapply reads_bind; [apply reads_u8|]. rewrite Z.eqb_refl. cbn [negb].
  eapply reads_bind; [by apply reads_text|].
  eapply reads_bind; [by apply reads_text|].
  eapply reads_bind; [by apply reads_text|].
  by apply (reads_bind_ret _ (fun x => mkAuthRequest user service x)).
Qed.

Lemma reads_method_none : reads (AuthRequest.parse_method METHOD_NONE) [] Method_None.
Proof. apply reads_ret. Qed.

Lemma reads_method_password p :
  text_ok p ->
  reads (AuthRequest.parse_method METHOD_PASSWORD) ([if false then 1 else 0] ++ wire_string p)
    (Method_Password p).
Proof.
  intros Hp. unfold AuthRequest.parse_method.
  change (beq METHOD_PASSWORD METHOD_NONE) with false. rewrite beq_refl. cbv iota.
  eapply reads_bind; [apply (reads_boolean false)|].
  apply (reads_bind_ret Reader.utf8 Method_Password), reads_text, Hp.
Qed.

Lemma reads_method_publickey a b s :
  text_ok a -> blob_ok b -> (forall x, s = Some x -> blob_ok x) ->
  reads (AuthRequest.parse_method METHOD_PUBLICKEY)
    ([if bool_decide (is_Some s) then 1 else 0] ++ wire_string a ++ wire_string b ++
     match s with Some x => wire_string x | None => [] end)
    (Method_PublicKey a b s).
Proof.
  intros Ha Hb Hs. unfold AuthRequest.parse_method.
  change (beq METHOD_PUBLICKEY METHOD_NONE) with false.
  change (beq METHOD_PUBLICKEY METHOD_PASSWORD) with false. rewrite beq_refl. cbv iota.
  eapply reads_bind; [apply reads_boolean|].
  eapply reads_bind; [by apply reads_text|].
  eapply reads_bind; [by apply reads_wire_string|].
  apply (reads_bind_ret _ (Method_PublicKey a b)).
  destruct s as [x|].
  - rewrite bool_decide_true by eauto.
    apply (reads_bind_ret Reader.string Some), reads_wire_string, Hs. done.
  - rewrite bool_decide_false by (by intros []). apply reads_ret.
Qed.

Lemma parse_encoded_request q b :
  request_ok q -> encode_request q = Some b -> len b <= U64_MAX -> AuthRequest.parse b = Ok q.
Proof.
  destruct q as [user service m]. unfold request_ok, encode_request, AuthRequest.parse.
  cbn [ar_user ar_service ar_method]. intros (Hu & Hs & Hm) He Hl.
  destruct text_ok_method as (Hn & Hp & Hk). apply reads_run; [|exact Hl].
  destruct m as [|p|a k s|n]; [..|done]; injection He as <-;
    unfold none_request, password_request, publickey_request;
    [|eapply (reads_app_eq _ _ _ _ _ (request_head METHOD_PASSWORD _ _ _ _ Hu Hs Hp
                (reads_method_password p Hm)))
     |destruct Hm as (Ha & Hb & Hx);
      eapply (reads_app_eq _ _ _ _ _ (request_head METHOD_PUBLICKEY _ _ _ _ Hu Hs Hk
                (reads_method_publickey a k s Ha Hb Hx)))].
  - eapply (reads_app_eq _ _ _ _ _ (request_head METHOD_NONE _ _ _ _ Hu Hs Hn reads_method_none)).
  Unshelve.
  all: try (destruct s as [x|]); unfold Writer.into_bytes, Writer.u8, Writer.boolean, Writer.new;
    rewrite !writer_string; cbn [wbuf]; rewrite <- ?app_assoc, ?app_nil_r; reflexivity.
Qed.

(** Round trip: every request the client builds ([none], [password], [publickey] with
    or without a signature) is parsed back by the server to the same user, service,
    method and credentials. *)
Lemma auth_request_roundtrip q b :
  request_ok q -> encode_request q = Some b -> len b <= U64_MAX -> AuthRequest.parse b = Ok q.
Proof. apply parse_encoded_request. Qed.

Definition demo_request : AuthRequest :=
  mkAuthRequest (str "alice") SERVICE_CONNECTION
    (Method_PublicKey HOSTKEY_ED25519 [1; 2; 3] (Some [9; 8; 7; 6])).

Lemma auth_request_roundtrip_witness :
  exists b, encode_request demo_request = Some b /\ AuthRequest.parse b = Ok demo_request.
Proof.
  eexists. split; [reflexivity|].
  apply (auth_request_roundtrip demo_request _); [|reflexivity|vm_compute; congruence].
  unfold request_ok, text_ok, blob_ok. cbn [ar_user ar_service ar_method demo_request].
  split_and!; [vm_compute; congruence|reflexivity|vm_compute; congruence|reflexivity
    |vm_compute; congruence|reflexivity|vm_compute; congruence|].
  intros x [= <-]. vm_compute. congruence.
Defined.

(** * Public-key authentication *)

Lemma publickey_signed_data_eq sid user service algo blob :
  publickey_signed_data sid user service algo blob =
    wire_string sid ++ [msg.USERAUTH_REQUEST] ++ wire_string user ++ wire_string service ++
    wire_string METHOD_PUBLICKEY ++ [1] ++ wire_string algo ++ wire_string blob.
Proof.
  unfold publickey_signed_data, Writer.into_bytes, Writer.u8, Writer.boolean, Writer.new.
  rewrite !writer_string. cbn [wbuf]. rewrite <- !app_assoc. reflexivity.
Qed.

(** What a public-key signature covers: equal signed data means the same session, user,
    service, algorithm and key, so a signature made for one session or user is not one
    for another. *)
Lemma signed_data_binds s1 u1 v1 a1 b1 s2 u2 v2 a2 b2 :
  Forall blob_ok [s1; u1; v1; a1; b1] -> Forall blob_ok [s2; u2; v2; a2; b2] ->
  publickey_signed_data s1 u1 v1 a1 b1 = publickey_signed_data s2 u2 v2 a2 b2 ->
  (s1, u1, v1, a1, b1) = (s2, u2, v2, a2, b2).
Proof.
  rewrite !List.Forall_cons_iff. unfold blob_ok.
  intros (?&?&?&?&?&_) (?&?&?&?&?&_) He. rewrite !publickey_signed_data_eq in He.
  apply wire_string_inj in He as [-> He]; [|done..]. apply app_inj_1 in He as [_ He]; [|done].
  apply wire_string_inj in He as [-> He]; [|done..].
  apply wire_string_inj in He as [-> He]; [|done..].
  apply app_inj_1 in He as [_ He]; [|done]. apply app_inj_1 in He as [_ He]; [|done].
  apply wire_string_inj in He as [-> He]; [|done..].
  rewrite <- (app_nil_r (wire_string b1)), <- (app_nil_r (wire_string b2)) in He.
  apply wire_string_inj in He as [-> _]; done.
Qed.

Lemma signed_data_binds_witness :
  ([1], str "bob", SERVICE_CONNECTION, HOSTKEY_ED25519, [4; 5]) =
  ([1], str "bob", SERVICE_CONNECTION, HOSTKEY_ED25519, [4; 5]).
Proof.
  apply (signed_data_binds [1] (str "bob") SERVICE_CONNECTION HOSTKEY_ED25519 [4; 5]
    [1] (str "bob") SERVICE_CONNECTION HOSTKEY_ED25519 [4; 5]);
    [repeat constructor; vm_compute; congruence..|reflexivity].
Defined.

Section AuthKeys.
Context `{C : Crypto} `{!CryptoOk C}.

Lemma parse_user_blob k :
  UserPublicKey.parse_blob (UserPublicKey.blob (UserKeypair.public k)) = Ok (UserKeypair.public k).
Proof.
  unfold UserPublicKey.blob, UserPublicKey.parse_blob. wire_norm.
  apply reads_run.
  - eapply reads_bind; [by apply reads_wire_utf8|]. apply reads_beq.
    rewrite <- (app_nil_r (wire_string _)).
    eapply reads_bind; [apply reads_wire_string; by rewrite verifying_as_bytes_len|].
    rewrite verifying_as_bytes_len. change (negb (32 =? 32)) with false. cbv iota.
    change (upk_verifying (UserKeypair.public k)) with (verifying_key (ukp_signing k)).
    rewrite verifying_from_as. apply (reads_ret (mkUserPublicKey C _)).
  - len_simpl. by rewrite verifying_as_bytes_len.
Qed.

Lemma verify_user_sign k d :
  UserPublicKey.verify (UserKeypair.public k) d (UserKeypair.sign k d) = Ok tt.
Proof.
  unfold UserKeypair.sign, UserPublicKey.verify. wire_norm.
  apply reads_run.
  - eapply reads_bind; [by apply reads_wire_utf8|]. apply reads_beq.
    rewrite <- (app_nil_r (wire_string _)).
    eapply reads_bind; [apply reads_wire_string; by rewrite ed25519_sign_len|].
    rewrite ed25519_sign_len. change (negb (64 =? 64)) with false. cbv iota.
    change (upk_verifying (UserKeypair.public k)) with (verifying_key (ukp_signing k)).
    rewrite ed25519_verify_sign. apply reads_ret.
  - len_simpl. by rewrite ed25519_sign_len.
Qed.

(** A user key's signature is accepted by the server that parses the key blob of the
    request and verifies over the same data. *)
Lemma user_sign_verify k d :
  exists pk, UserPublicKey.parse_blob (UserPublicKey.blob (UserKeypair.public k)) = Ok pk /\
    UserPublicKey.verify pk d (UserKeypair.sign k d) = Ok tt.
Proof.
  exists (UserKeypair.public k). split; [apply parse_user_blob|apply verify_user_sign].
Qed.
End AuthKeys.
