(* ===== verification/Keystore.v ===== *)
(** Key files: [ssh-io/keystore.rs] and the OpenSSH formats of [hostkey.rs].  The [ssh-key]
    crate and the equality of ed25519 keys are parameters; a file is the text in it, and
    a file system call fails when the environment says so. *)
From S2P Require Import Prelude Errors Wire Text Crypto Kex Auth.

(** * ssh-key *)
Inductive KeyData := Kd_Ed25519 (raw : bytes) | Kd_Other.
Inductive KeypairData := Kp_Ed25519 (seed : bytes) | Kp_Other.

Class SshKey `{C : Crypto} := {
  public_from_openssh : bytes -> option KeyData;
  private_from_openssh : bytes -> option KeypairData;
  private_to_openssh : bytes -> option bytes;
  key_fingerprint : KeyData -> bytes;
  signing_to_bytes : SigningKey -> bytes;
  verifying_eqb : VerifyingKey -> VerifyingKey -> bool
}.

(** A private key that was written is read back; a key is its seed; the encoding is text. *)
Class SshKeyOk `{K : SshKey} : Prop := {
  private_roundtrip seed pem :
    private_to_openssh seed = Some pem -> private_from_openssh pem = Some (Kp_Ed25519 seed);
  private_text seed pem : private_to_openssh seed = Some pem -> utf8_valid pem = true;
  signing_roundtrip k : signing_from_bytes (signing_to_bytes k) = k;
  verifying_eqb_eq a b : verifying_eqb a b = true <-> a = b
}.

(** * Public keys in text *)
Section Parse.
Context `{K : SshKey}.

Definition parse_user_key (line : bytes) : option UserPublicKey :=
  let trimmed := trim line in
  match trimmed with
  | [] => None
  | c :: _ =>
      if c =? 35 then None
      else match public_from_openssh trimmed with
           | Some (Kd_Ed25519 ed) =>
               match UserPublicKey.from_ed25519_bytes ed with Ok k => Some k | _ => None end
           | _ => None
           end
  end.

Definition host_key_from_openssh (key_part : bytes) : option HostPublicKey :=
  match public_from_openssh key_part with
  | Some (Kd_Ed25519 ed) =>
      match HostPublicKey.from_ed25519_bytes ed with Ok k => Some k | _ => None end
  | _ => None
  end.

Definition fingerprint (k : HostPublicKey) : bytes :=
  key_fingerprint (Kd_Ed25519 (verifying_as_bytes (verifying k))).
End Parse.

Module AuthorizedKeys.
Section AuthorizedKeys.
Context `{K : SshKey}.
Definition t : Type := list UserPublicKey.

Fixpoint parse_lines (ls : list bytes) (keys : t) : t :=
  match ls with
  | [] => keys
  | line :: ls' =>
      parse_lines ls' (match parse_user_key line with Some key => keys ++ [key] | None => keys end)
  end.
Definition parse (contents : bytes) : t := parse_lines (lines contents) [].

Definition contains (key : UserPublicKey) (keys : t) : bool :=
  existsb (fun k => verifying_eqb (upk_verifying k) (upk_verifying key)) keys.
Definition is_empty (keys : t) : bool := len keys =? 0.
End AuthorizedKeys.
End AuthorizedKeys.

Module KnownHosts.
Section KnownHosts.
Context `{K : SshKey}.
Definition t : Type := list (bytes * HostPublicKey).

(** The entries of one line. *)
Definition parse_line (line : bytes) : t :=
  let trimmed := trim line in
  match trimmed with
  | [] => []
  | c :: _ =>
      if c =? 35 then []
      else match split_once_blank trimmed with
           | Some (hosts, key_part) =>
               match host_key_from_openssh (trim key_part) with
               | Some key =>
                   List.map (fun host => (host, key))
                     (List.filter (fun h => negb (len h =? 0)) (split_on 44 hosts))
               | None => []
               end
           | None => []
           end
  end.

Fixpoint parse_lines (ls : list bytes) (entries : t) : t :=
  match ls with
  | [] => entries
  | line :: ls' => parse_lines ls' (entries ++ parse_line line)
  end.
Definition parse (contents : bytes) : t := parse_lines (lines contents) [].

Definition is_trusted (host : bytes) (key : HostPublicKey) (entries : t) : bool :=
  existsb (fun '(h, k) => beq h host && verifying_eqb (verifying k) (verifying key)) entries.
Definition is_empty (entries : t) : bool := len entries =? 0.
End KnownHosts.
End KnownHosts.

(** * The host key file *)
Inductive FileError := Fe_NotFound | Fe_InvalidData | Fe_Other.

(** The random generator and the file at the path. *)
Record Store `{C : Crypto} := mkStore { st_rng : Rng; st_file : option bytes }.
#[export] Instance eta_Store `{C : Crypto} : Eta Store := fun s => mkStore C (st_rng s) (st_file s).

Section HostKeyFile.
Context `{K : SshKey}.
Abbreviation FM := (M FileError Store).

Definition from_openssh (pem : bytes) : result HostKey :=
  match private_from_openssh pem with
  | Some (Kp_Ed25519 seed) => Ok (HostKey.from_seed seed)
  | Some Kp_Other => Err (Key "host key is not ssh-ed25519 (or is encrypted)")
  | None => Err (Key "invalid OpenSSH private key")
  end.

Definition to_openssh (k : HostKey) : result bytes :=
  match private_to_openssh (signing_to_bytes (signing k)) with
  | Some pem => Ok pem
  | None => Err (Key "failed to encode host key")
  end.

(** [map_err] to [InvalidData]. *)
Definition invalid_data {A} (o : result A) : FM A :=
  lift (match o with Ok a => Ok a | Err _ => Err Fe_InvalidData | Panic => Panic | OutOfFuel => OutOfFuel end).

(** [read_to_string], which may fail whatever is there. *)
Definition read_to_string (fault : bool) : FM bytes :=
  let* s := get in
  if (fault : bool) then err Fe_Other
  else match st_file s with
       | None => err Fe_NotFound
       | Some text => if utf8_valid text then ret text else err Fe_InvalidData
       end.

(** Created or truncated, then written; a failure may leave a part. *)
Definition write_private (fault : option Z) (text : bytes) : FM unit :=
  match fault with
  | None => st_file <-! Some text
  | Some n => st_file <-! Some (ztake n text) ;;; err Fe_Other
  end.

(** [AuthorizedKeys::load] and [KnownHosts::load]. *)
Definition load_authorized_keys (fault : bool) : FM AuthorizedKeys.t :=
  let* text := read_to_string fault in ret (AuthorizedKeys.parse text).
Definition load_known_hosts (fault : bool) : FM KnownHosts.t :=
  let* text := read_to_string fault in ret (KnownHosts.parse text).

Definition load_host_key (read_fault : bool) : FM HostKey :=
  let* pem := read_to_string read_fault in
  invalid_data (from_openssh pem).

Definition save_host_key (write_fault : option Z) (key : HostKey) : FM unit :=
  let* pem := invalid_data (to_openssh key) in
  write_private write_fault pem.

(** [HostKey::generate] draws from the generator and cannot fail. *)
Definition generate_key : FM HostKey :=
  fun s => let '(sk, r) := signing_generate (st_rng s) in (Ok (mkHostKey sk), s <| st_rng := r |>).

Definition load_or_create_host_key (read_fault : bool) (write_fault : option Z) : FM HostKey :=
  fun s =>
    match read_to_string read_fault s with
    | (Ok pem, s) => invalid_data (from_openssh pem) s
    | (Err Fe_NotFound, s) =>
        (let* key := generate_key in
         save_host_key write_fault key ;;;
         ret key) s
    | (Err e, s) => (Err e, s)
    | (Panic, s) => (Panic, s)
    | (OutOfFuel, s) => (OutOfFuel, s)
    end.
End HostKeyFile.

(** * Who is trusted *)
Section Trust.
Context `{K : SshKey} {O : SshKeyOk}.

(** The line records [key] for [host]. *)
Definition records (line host : bytes) (key : HostPublicKey) : Prop :=
  exists hosts key_part raw,
    List.hd_error (trim line) <> Some 35 /\
    split_once_blank (trim line) = Some (hosts, key_part) /\
    host ∈ split_on 44 hosts /\
    public_from_openssh (trim key_part) = Some (Kd_Ed25519 raw) /\
    verifying_from_bytes raw = Some (verifying key).

Lemma host_key_from_openssh_spec text k :
  host_key_from_openssh text = Some k <->
  exists raw, public_from_openssh text = Some (Kd_Ed25519 raw) /\
              verifying_from_bytes raw = Some (verifying k).
Proof.
  unfold host_key_from_openssh, HostPublicKey.from_ed25519_bytes.
  split.
  - destruct (public_from_openssh text) as [[raw|]|]; try discriminate.
    destruct (verifying_from_bytes raw) as [v|] eqn:E; try discriminate.
    intros [= <-]. by exists raw.
  - intros (raw & -> & ->). by destruct k.
Qed.

Lemma known_parse_lines_in ls entries e :
  e ∈ KnownHosts.parse_lines ls entries <->
  e ∈ entries \/ exists line, line ∈ ls /\ e ∈ KnownHosts.parse_line line.
Proof.
  revert entries. induction ls as [|l ls IH]; intros entries; cbn [KnownHosts.parse_lines].
  - split; [by left|]. intros [?|(? & ?%elem_of_nil & _)]; done.
  - rewrite IH, elem_of_app. setoid_rewrite elem_of_cons. split.
    + intros [[?|?]|(l' & ? & ?)]; [by left|right; by exists l; auto|right; exists l'; auto].
    + intros [?|(l' & [->|?] & ?)]; [by left; left|by left; right|right; by exists l'].
Qed.

Lemma known_parse_line_in line host key :
  (host, key) ∈ KnownHosts.parse_line line <-> host <> [] /\ records line host key.
Proof.
  unfold KnownHosts.parse_line, records.
  destruct (trim line) as [|c t] eqn:E.
  - split; [by intros ?%elem_of_nil|]. intros (_ & ? & ? & ? & _ & H & _). by vm_compute in H.
  - cbn [List.hd_error]. destruct (Z.eqb_spec c 35) as [->|Hc].
    { split; [by intros ?%elem_of_nil|]. intros (_ & ? & ? & ? & ? & _). done. }
    destruct (split_once_blank (c :: t)) as [[hosts kp]|].
    2: { split; [by intros ?%elem_of_nil|]. intros (_ & ? & ? & ? & _ & ? & _). done. }
    pose proof (host_key_from_openssh_spec (trim kp)) as Hk.
    destruct (host_key_from_openssh (trim kp)) as [k|].
    + rewrite list_elem_of_fmap. setoid_rewrite list_elem_of_In. setoid_rewrite filter_In.
      split.
      * intros (h & [= -> ->] & Hin & Hn).
        split; [by intros ->|]. destruct (proj1 (Hk k) eq_refl) as (raw & ? & ?).
        exists hosts, kp, raw. split; [congruence|]. done.
      * intros (Hn & hosts' & kp' & raw & _ & [= <- <-] & Hin & Hp & Hv).
        exists host. assert (Some k = Some key) as [= ->] by (apply Hk; eauto).
        split; [done|]. split; [done|]. destruct host; [done|].
        apply negb_true_iff, Z.eqb_neq. rewrite len_cons. pose proof (len_nonneg host). lia.
    + split; [by intros ?%elem_of_nil|].
      intros (_ & hosts' & kp' & raw & _ & [= <- <-] & _ & Hp & Hv).
      assert (None = Some key) by (apply Hk; eauto). done.
Qed.

(** A key is trusted for a host exactly when some line of the file that is not a comment
    lists that host, literally, among the comma-separated tokens of its first field and
    records that key after it: a key recorded for one host is trusted for no other. *)
Lemma trusted_records contents host key :
  KnownHosts.is_trusted host key (KnownHosts.parse contents) = true <->
  host <> [] /\ exists line, line ∈ lines contents /\ records line host key.
Proof.
  unfold KnownHosts.is_trusted, KnownHosts.parse. rewrite existsb_exists. split.
  - intros ([h k] & Hin & [->%beq_true Hv%verifying_eqb_eq]%andb_true_iff).
    apply list_elem_of_In, known_parse_lines_in in Hin as [?%elem_of_nil|(l & Hl & Hin)]; [done|].
    apply known_parse_line_in in Hin as [Hn Hr]. split; [done|]. exists l. split; [done|].
    by destruct k, key; cbn in Hv; subst.
  - intros (Hn & l & Hl & Hr). exists (host, key). split.
    + apply list_elem_of_In, known_parse_lines_in. right. exists l. split; [done|].
      by apply known_parse_line_in.
    + rewrite beq_refl. by apply verifying_eqb_eq.
Qed.

Lemma keys_parse_lines_in ls keys k :
  k ∈ AuthorizedKeys.parse_lines ls keys <->
  k ∈ keys \/ exists line, line ∈ ls /\ parse_user_key line = Some k.
Proof.
  revert keys. induction ls as [|l ls IH]; intros keys; cbn [AuthorizedKeys.parse_lines].
  - split; [by left|]. intros [?|(? & ?%elem_of_nil & _)]; done.
  - rewrite IH. setoid_rewrite elem_of_cons.
    destruct (parse_user_key l) as [k'|] eqn:E; [rewrite elem_of_app, list_elem_of_singleton|]; split.
    + intros [[?| ->]|(l' & ? & ?)]; [by left|right; by exists l; auto|right; exists l'; auto].
    + intros [?|(l' & [->|?] & ?)]; [by left; left|left; right; congruence|right; by exists l'].
    + intros [?|(l' & ? & ?)]; [by left|right; exists l'; auto].
    + intros [?|(l' & [->|?] & ?)]; [by left|congruence|right; by exists l'].
Qed.

(** The keys that are authorized are those on the lines of the file. *)
Lemma contains_records contents key :
  AuthorizedKeys.contains key (AuthorizedKeys.parse contents) = true <->
  exists line k, line ∈ lines contents /\ parse_user_key line = Some k /\
    upk_verifying k = upk_verifying key.
Proof.
  unfold AuthorizedKeys.contains, AuthorizedKeys.parse. rewrite existsb_exists. split.
  - intros (k & Hin & Hv%verifying_eqb_eq).
    apply list_elem_of_In, keys_parse_lines_in in Hin as [?%elem_of_nil|(l & Hl & Hk)]; [done|].
    by exists l, k.
  - intros (l & k & Hl & Hk & Hv). exists k. split; [|by apply verifying_eqb_eq].
    apply list_elem_of_In, keys_parse_lines_in. right. by exists l.
Qed.

Lemma invalid_data_ok {A} (o : result A) (a : A) (s : Store) :
  o = Ok a -> invalid_data o s = (Ok a, s).
Proof. by intros ->. Qed.

(** A key that was written is what the file then holds. *)
Lemma save_reads wf k s u s' :
  save_host_key wf k s = (Ok u, s') ->
  exists pem, st_file s' = Some pem /\ utf8_valid pem = true /\
              from_openssh pem = Ok (HostKey.from_seed (signing_to_bytes (signing k))).
Proof.
  unfold save_host_key, to_openssh, write_private.
  destruct (private_to_openssh (signing_to_bytes (signing k))) as [pem|] eqn:E; [|done].
  destruct wf; [done|]. intros [= <- <-]. exists pem.
  split; [done|]. split; [by eapply private_text|].
  unfold from_openssh. by rewrite (private_roundtrip _ _ E).
Qed.

Lemma saved_reads wf s k s' :
  (let* key := generate_key in save_host_key wf key ;;; ret key) s = (Ok k, s') ->
  exists pem, st_file s' = Some pem /\ utf8_valid pem = true /\ from_openssh pem = Ok k.
Proof.
  intros (k1 & s1 & _ & ([] & s2 & Hs & [= <- <-])%bind_Ok)%bind_Ok.
  destruct (save_reads _ _ _ _ _ Hs) as (pem & ? & ? & Hk). exists pem. split_and!; [done..|].
  rewrite Hk. unfold HostKey.from_seed. rewrite signing_roundtrip. by destruct k1.
Qed.

(** C34. The server's identity is stable: once the host key has been loaded or created, every
    later load of the file, whether it would create a key or not, gives the same key and
    changes nothing. *)
Theorem host_key_stable rf wf wf' s k s' :
  load_or_create_host_key rf wf s = (Ok k, s') ->
  load_or_create_host_key false wf' s' = (Ok k, s') /\ load_host_key false s' = (Ok k, s').
Proof.
  intros H. unfold load_or_create_host_key in H.
  unfold load_or_create_host_key, load_host_key, bind.
  unfold read_to_string in *. cbn in H |- *.
  destruct rf; [by cbn in H|]. destruct (st_file s) as [pem|] eqn:Ef; cbn in H.
  - destruct (utf8_valid pem) eqn:Eu; cbn in H; [|done].
    assert (s' = s) as -> by (unfold invalid_data, lift in H; congruence).
    by rewrite Ef, Eu.
  - destruct (saved_reads _ _ _ _ H) as (pem & Hf & Hu & Hk).
    rewrite Hf, Hu. cbn. unfold invalid_data. by rewrite Hk.
Qed.
End Trust.

(** * A toy encoding, for the witnesses *)
Module ToyKeys.
Definition seed_of (k : @SigningKey Toy.crypto) : bytes := [k].
(** The 32 bytes of a public key, two letters each. *)
Definition letters (b : bytes) : bytes := List.concat (List.map (fun x => [65 + x / 16; 65 + x mod 16]) b).
Fixpoint of_letters (text : bytes) : bytes :=
  match text with
  | a :: b :: text' => (a - 65) * 16 + (b - 65) :: of_letters text'
  | _ => []
  end.
Definition key_text (k : Z) : bytes := str "key " ++ letters (be_bytes 32 k).
Definition same_key (a b : @VerifyingKey Toy.crypto) : bool := Z.eqb a b.

#[export] Instance ssh_key : SshKey (C := Toy.crypto) := {|
  public_from_openssh text := if beq (ztake 4 text) (str "key ") then Some (Kd_Ed25519 (of_letters (zdrop 4 text))) else None;
  private_from_openssh pem := Some (Kp_Ed25519 pem);
  private_to_openssh seed := if utf8_valid seed then Some seed else None;
  key_fingerprint d := match d with Kd_Ed25519 raw => raw | Kd_Other => [] end;
  signing_to_bytes k := seed_of k;
  verifying_eqb := same_key
|}.

#[export] Instance ssh_key_ok : SshKeyOk (C := Toy.crypto).
Proof.
  constructor; cbn.
  - intros seed pem. by destruct (utf8_valid seed); intros [= ->].
  - intros seed pem. by destruct (utf8_valid seed) eqn:E; intros [= <-].
  - done.
  - intros a b. apply Z.eqb_eq.
Qed.
End ToyKeys.
Import Toy ToyKeys.

(** No file yet; a random generator that gives a key whose encoding is a character. *)
Definition no_file : Store (C := Toy.crypto) := mkStore Toy.crypto (1 : Z) None.

Lemma host_key_stable_witness :
  let k := mkHostKey (C := Toy.crypto) (80 : Z) in
  let s' := mkStore Toy.crypto (2 : Z) (Some [80]) in
  load_or_create_host_key false None no_file = (Ok k, s') /\
  load_or_create_host_key false None s' = (Ok k, s') /\ load_host_key false s' = (Ok k, s').
Proof.
  intros k s'.
  assert (load_or_create_host_key false None no_file = (Ok k, s')) as H by reflexivity.
  split; [done|]. by apply (host_key_stable false None None no_file).
Defined.

(** The key is trusted for both hosts of the line, and for no other. *)
Example trusted_line :
  let key := mkHostPublicKey (C := Toy.crypto) (777 : Z) in
  let file := str "alpha,beta " ++ ToyKeys.key_text 777 ++ [13; 10] in
  let trusted h := KnownHosts.is_trusted (str h) key (KnownHosts.parse file) in
  (trusted "alpha", trusted "beta", trusted "alpha,beta", trusted "gamma") = (true, true, false, false).
Proof. vm_compute. reflexivity. Qed.
