(* ===== verification/Transport.v ===== *)
(** The transport state machine: [transport.rs] (RFC 4253).  One definition per method
    of [impl Transport]; the record has the fields of the struct, without the cached
    [SSH_DEBUG] flag (its branches only print). *)
From S2P Require Import Prelude Errors Wire Packet Version Crypto Kex Algo Cipher Compress.

Inductive Role := Client | Server.
#[export] Instance Role_eq_dec : EqDecision Role.
Proof. solve_decision. Defined.

Inductive Phase := NeedPeerVersion | Handshake | Established.
#[export] Instance Phase_eq_dec : EqDecision Phase.
Proof. solve_decision. Defined.

Definition REKEY_BYTES : Z := 2 ^ 30.
Definition REKEY_PACKETS : Z := 2 ^ 28.
Definition EPOCH_HARD_PACKETS : Z := 2 ^ 31.
Definition DEFAULT_MAX_CONSECUTIVE_PEER_REKEYS : Z := 3.
Definition DEFAULT_CHAFF_LEN : Z := 256.

Record Obfuscation := mkObfuscation {
  max_chunk : option Z;
  max_chaff_per_flush : Z;
  max_chaff_len : Z
}.
Definition Obfuscation_OFF : Obfuscation := mkObfuscation None 0 0.
Definition Obfuscation_INTERACTIVE : Obfuscation := mkObfuscation (Some 256) 2 256.
Definition chaff_enabled (o : Obfuscation) : bool := 0 <? max_chaff_per_flush o.
Definition chaff_len_bound (o : Obfuscation) : Z :=
  if 0 <? max_chaff_len o then max_chaff_len o else DEFAULT_CHAFF_LEN.

(** [KexKind]; the third variant exists with the crate feature [sntrup761]. *)
Inductive KexKind := Kind_Classical | Kind_MlKem | Kind_SnTrup.

Definition KexKind_of `{C : Crypto} (name : bytes) : KexKind :=
  if sntrup761_enabled && beq name KEX_SNTRUP761_X25519 then Kind_SnTrup
  else if beq name KEX_MLKEM768_X25519 then Kind_MlKem
  else Kind_Classical.

Definition KexKind_hash (k : KexKind) : KexHash :=
  match k with Kind_SnTrup => Sha512 | Kind_Classical | Kind_MlKem => Sha256 end.

Definition string_encoded (k : KexKind) : bool :=
  match k with Kind_MlKem | Kind_SnTrup => true | Kind_Classical => false end.

Definition KexKind_shared_secret (k : KexKind) (shared : bytes) : SharedSecret :=
  if string_encoded k then SString shared else Mpint shared.

Section Types.
Context `{C : Crypto}.

Inductive Event :=
| ServerHostKey (k : HostPublicKey)
| Ev_Established
| Packet (payload : bytes)
| Ev_Disconnect (reason : Z) (description : bytes).

Record PendingKeys := mkPendingKeys { p_out : Cipher; p_inn : Cipher }.

Inductive KexEphemeral :=
| Eph_Classical (kp : EcdhKeypair)
| Eph_MlKem (hc : mlkem.HybridClient)
| Eph_SnTrup (hc : sntrup.HybridClient).

Record Transport := mkTransport {
  t_role : Role;
  t_rng : Rng;
  t_phase : Phase;
  t_rx : bytes;
  t_rx_pos : Z;
  t_tx : bytes;
  t_tx_seq : Z;
  t_rx_seq : Z;
  t_cipher_out : Cipher;
  t_cipher_in : Cipher;
  t_comp_out : Compressor;
  t_comp_in : Decompressor;
  t_comp_out_name : bytes;
  t_comp_in_name : bytes;
  t_comp_active : bool;
  t_local_id : bytes;
  t_peer_id : option bytes;
  t_local_kexinit : bytes;
  t_peer_kexinit : option KexInit;
  t_negotiated : option Negotiated;
  t_kex_eph : option KexEphemeral;
  t_pending : option PendingKeys;
  t_sent_newkeys : bool;
  t_recv_newkeys : bool;
  t_skip_guess : bool;
  t_strict_kex : bool;
  t_initial_kex_done : bool;
  t_rekeying : bool;
  t_kexinit_sent : bool;
  t_tx_app_queue : list bytes;
  t_bytes_since_rekey : Z;
  t_tx_packets_since_rekey : Z;
  t_rx_bytes_since_rekey : Z;
  t_rx_packets_since_rekey : Z;
  t_rekey_bytes_limit : Z;
  t_rekey_packets_limit : Z;
  t_consecutive_peer_rekeys : Z;
  t_max_consecutive_peer_rekeys : Z;
  t_session_id : option bytes;
  t_host_key : option HostKey;
  t_events : list Event;
  t_offered_ciphers : option (list bytes);
  t_offered_compression : option (list bytes);
  t_closing : bool;
  t_obfuscation : Obfuscation
}.
End Types.

#[export] Instance eta_Transport `{C : Crypto} : Eta Transport := fun r =>
  mkTransport (t_role r) (t_rng r) (t_phase r) (t_rx r) (t_rx_pos r) (t_tx r) (t_tx_seq r)
    (t_rx_seq r) (t_cipher_out r) (t_cipher_in r) (t_comp_out r) (t_comp_in r)
    (t_comp_out_name r) (t_comp_in_name r) (t_comp_active r) (t_local_id r) (t_peer_id r)
    (t_local_kexinit r) (t_peer_kexinit r) (t_negotiated r) (t_kex_eph r) (t_pending r)
    (t_sent_newkeys r) (t_recv_newkeys r) (t_skip_guess r) (t_strict_kex r)
    (t_initial_kex_done r) (t_rekeying r) (t_kexinit_sent r) (t_tx_app_queue r)
    (t_bytes_since_rekey r) (t_tx_packets_since_rekey r) (t_rx_bytes_since_rekey r)
    (t_rx_packets_since_rekey r) (t_rekey_bytes_limit r) (t_rekey_packets_limit r)
    (t_consecutive_peer_rekeys r) (t_max_consecutive_peer_rekeys r) (t_session_id r)
    (t_host_key r) (t_events r) (t_offered_ciphers r) (t_offered_compression r) (t_closing r)
    (t_obfuscation r).

(** Reduce the updates of a state to the record they build. *)
Ltac t_flat :=
  cbv beta iota delta [set
    t_role t_rng t_phase t_rx t_rx_pos t_tx t_tx_seq t_rx_seq t_cipher_out t_cipher_in
    t_comp_out t_comp_in t_comp_out_name t_comp_in_name t_comp_active t_local_id
    t_peer_id t_local_kexinit t_peer_kexinit t_negotiated t_kex_eph t_pending
    t_sent_newkeys t_recv_newkeys t_skip_guess t_strict_kex t_initial_kex_done t_rekeying
    t_kexinit_sent t_tx_app_queue t_bytes_since_rekey t_tx_packets_since_rekey
    t_rx_bytes_since_rekey t_rx_packets_since_rekey t_rekey_bytes_limit
    t_rekey_packets_limit t_consecutive_peer_rekeys t_max_consecutive_peer_rekeys
    t_session_id t_host_key t_events t_offered_ciphers t_offered_compression t_closing
    t_obfuscation].

Module Transport.
Section Transport.
Context `{C : Crypto}.
Abbreviation TM := (M SshError Transport).

(** Run a computation on the generator of the transport. *)
Definition with_rng {A} (m : M SshError Rng A) : TM A :=
  zoom t_rng (fun r t => t <| t_rng := r |>) m.

(** Read fields of a payload. *)
Definition parse_with {A} (p : RM A) (payload : bytes) : TM A :=
  lift (run p (Reader.new payload)).

Definition push_event (e : Event) : TM unit := t_events <-~ (fun q => q ++ [e]).

(** [activate_compression]. *)
Definition activate_compression : TM unit :=
  t_comp_active <-! true ;;;
  let* t := get in
  t_comp_out <-! Compressor.new (t_comp_out_name t) ;;;
  t_comp_in <-! Decompressor.new (t_comp_in_name t).

Definition seal (body : bytes) : TM unit :=
  modify (fun t =>
    let '(c, rng, tx) :=
      Cipher.seal_into (t_cipher_out t) (t_tx_seq t) body (t_rng t) (t_tx t) in
    t <| t_cipher_out := c |> <| t_rng := rng |> <| t_tx := tx |>).

Definition write_packet (payload : bytes) : TM unit :=
  let* t := get in
  if t_closing t then ret tt
  else
    let* body := (match t_comp_out t with
                  | Compressor_None => ret payload
                  | Compressor_Zlib _ =>
                      zoom t_comp_out (fun c t => t <| t_comp_out := c |>)
                        (Compressor.compress payload)
                  end) in
    seal body ;;;
    let* n := checked U64_MAX (t_tx_packets_since_rekey t + 1) in
    t_tx_packets_since_rekey <-! n ;;;
    t_tx_seq <-! wrapping_add32 (t_tx_seq t) 1 ;;;
    when (EPOCH_HARD_PACKETS <=? n) (t_closing <-! true) ;;;
    when (bool_decide (t_role t = Server) && negb (t_comp_active t)
          && beq (t_comp_out_name t) COMPRESSION_ZLIB_OPENSSH
          && bool_decide (head payload = Some msg.USERAUTH_SUCCESS))
      activate_compression.

(** [send_kexinit]. *)
Definition send_kexinit : TM unit :=
  let* t := get in
  let is_server := bool_decide (t_role t = Server) in
  let ciphers := default default_ciphers (t_offered_ciphers t) in
  let compressions := default default_compressions (t_offered_compression t) in
  let* ki := with_rng (KexInit.ours_with is_server ciphers compressions) in
  write_packet (payload ki) ;;;
  t_local_kexinit <-! payload ki ;;;
  t_kexinit_sent <-! true.

Definition initial (role : Role) (rng : Rng) (host_key : option HostKey)
  (offered_ciphers offered_compression : option (list bytes)) : Transport := {|
  t_role := role;
  t_rng := rng;
  t_phase := NeedPeerVersion;
  t_rx := [];
  t_rx_pos := 0;
  t_tx := local_id_line;
  t_tx_seq := 0;
  t_rx_seq := 0;
  t_cipher_out := Cipher_None;
  t_cipher_in := Cipher_None;
  t_comp_out := Compressor_None;
  t_comp_in := Decompressor_None;
  t_comp_out_name := str "none";
  t_comp_in_name := str "none";
  t_comp_active := false;
  t_local_id := LOCAL_ID;
  t_peer_id := None;
  t_local_kexinit := [];
  t_peer_kexinit := None;
  t_negotiated := None;
  t_kex_eph := None;
  t_pending := None;
  t_sent_newkeys := false;
  t_recv_newkeys := false;
  t_skip_guess := false;
  t_strict_kex := false;
  t_initial_kex_done := false;
  t_rekeying := false;
  t_kexinit_sent := false;
  t_tx_app_queue := [];
  t_bytes_since_rekey := 0;
  t_tx_packets_since_rekey := 0;
  t_rx_bytes_since_rekey := 0;
  t_rx_packets_since_rekey := 0;
  t_rekey_bytes_limit := REKEY_BYTES;
  t_rekey_packets_limit := REKEY_PACKETS;
  t_consecutive_peer_rekeys := 0;
  t_max_consecutive_peer_rekeys := DEFAULT_MAX_CONSECUTIVE_PEER_REKEYS;
  t_session_id := None;
  t_host_key := host_key;
  t_events := [];
  t_offered_ciphers := offered_ciphers;
  t_offered_compression := offered_compression;
  t_closing := false;
  t_obfuscation := Obfuscation_OFF
|}.

(** [start]: the outcome is that of the first [send_kexinit]. *)
Definition start (role : Role) (rng : Rng) (host_key : option HostKey)
  (offered_ciphers offered_compression : option (list bytes)) : outcome SshError unit * Transport :=
  send_kexinit (initial role rng host_key offered_ciphers offered_compression).

Definition new_client (rng : Rng) := start Client rng None None None.
Definition new_client_with_ciphers (rng : Rng) (ciphers : list bytes) :=
  start Client rng None (Some ciphers) None.
Definition new_client_with_compression (rng : Rng) (compression : list bytes) :=
  start Client rng None None (Some compression).
Definition new_server (rng : Rng) (host_key : HostKey) := start Server rng (Some host_key) None None.

Definition is_closing (t : Transport) : bool := t_closing t.
Definition take_output : TM bytes :=
  let* t := get in t_tx <-! [] ;;; ret (t_tx t).
Definition pending_output (t : Transport) : bytes := t_tx t.
Definition clear_output : TM unit := t_tx <-! [].
Definition poll_event : TM (option Event) :=
  let* t := get in
  match t_events t with
  | [] => ret None
  | e :: q => t_events <-! q ;;; ret (Some e)
  end.
Definition is_established (t : Transport) : bool := bool_decide (t_phase t = Established).
Definition session_id (t : Transport) : option bytes := t_session_id t.
Definition negotiated_cipher (t : Transport) : option bytes := n_cipher_c2s <$> t_negotiated t.
Definition negotiated_compression (t : Transport) : option bytes := n_comp_c2s <$> t_negotiated t.
Definition is_compression_active (t : Transport) : bool := t_comp_active t.
Definition obfuscation (t : Transport) : Obfuscation := t_obfuscation t.
Definition set_obfuscation (o : Obfuscation) : TM unit := t_obfuscation <-! o.
Definition is_rekeying (t : Transport) : bool := t_rekeying t.
Definition set_max_consecutive_peer_rekeys (n : Z) : TM unit :=
  t_max_consecutive_peer_rekeys <-! n.
Definition set_rekey_limits (bytes_ packets : Z) : TM unit :=
  t_rekey_bytes_limit <-! bytes_ ;;; t_rekey_packets_limit <-! packets.

Definition begin_rekey_round : TM unit :=
  t_rekeying <-! true ;;;
  t_sent_newkeys <-! false ;;;
  t_recv_newkeys <-! false ;;;
  t_peer_kexinit <-! None ;;;
  t_negotiated <-! None ;;;
  t_kex_eph <-! None ;;;
  t_skip_guess <-! false ;;;
  send_kexinit.

Definition initiate_rekey : TM unit :=
  let* t := get in
  when (is_established t && negb (t_rekeying t)) begin_rekey_round.

Definition send_packet (payload : bytes) : TM unit :=
  let* t := get in
  if negb (is_established t) then err (Protocol "send before transport established")
  else if t_rekeying t then t_tx_app_queue <-~ (fun q => q ++ [payload])
  else
    write_packet payload ;;;
    t_bytes_since_rekey <-~ (fun b => saturating_add64 b (len payload)) ;;;
    let* t := get in
    when ((t_rekey_bytes_limit t <=? t_bytes_since_rekey t)
          || (t_rekey_packets_limit t <=? t_tx_packets_since_rekey t))
      initiate_rekey.

Definition build_chaff : TM bytes :=
  let* t := get in
  let* bound := checked U32_MAX (chaff_len_bound (t_obfuscation t) + 1) in
  let* r := with_rng (draw next_u32) in
  let n := r mod bound in
  let* data := with_rng (draw (fill_bytes n)) in
  ret (Writer.new >>> Writer.u8 msg.IGNORE >>> Writer.string data >>> Writer.into_bytes).

Definition send_chaff : TM unit :=
  let* t := get in
  if negb (is_established t) then ret tt
  else let* m := build_chaff in send_packet m.

Definition send_chaff_burst : TM unit :=
  let* t := get in
  if negb (is_established t) || negb (chaff_enabled (t_obfuscation t)) then ret tt
  else
    let* r := with_rng (draw next_u32) in
    let n := r mod (max_chaff_per_flush (t_obfuscation t) + 1) in
    mfor (replicate (Z.to_nat n) tt) (fun _ => let* m := build_chaff in send_packet m).

Definition disconnect (reason : Z) (description : bytes) : TM unit :=
  let* t := get in
  if t_closing t then ret tt
  else
    let m := Writer.new >>> Writer.u8 msg.DISCONNECT >>> Writer.u32 reason
               >>> Writer.string description >>> Writer.string [] >>> Writer.into_bytes in
    write_packet m ;;;
    t_closing <-! true.

Definition decompress_in (payload : bytes) : TM bytes :=
  let* t := get in
  match t_comp_in t with
  | Decompressor_None => ret payload
  | Decompressor_Zlib _ =>
      zoom t_comp_in (fun c t => t <| t_comp_in := c |>) (Decompressor.decompress payload)
  end.

Definition compact_rx : TM unit :=
  let* t := get in
  if t_rx_pos t =? 0 then ret tt
  else
    (if len (t_rx t) <=? t_rx_pos t then t_rx <-! [] else t_rx <-! zdrop (t_rx_pos t) (t_rx t)) ;;;
    t_rx_pos <-! 0.

(** ** Key exchange *)

Definition kex_kind (t : Transport) : KexKind :=
  match t_negotiated t with
  | Some n => KexKind_of (n_kex n)
  | None => Kind_Classical
  end.

Definition compute_exchange_hash (q_c q_s host_blob : bytes) (shared : SharedSecret)
  (hash : KexHash) : TM bytes :=
  let* t := get in
  let* peer_id := ok_or (t_peer_id t) (Protocol "missing peer id") in
  let* peer_kexinit := ok_or (t_peer_kexinit t) (Protocol "missing peer kexinit") in
  let input :=
    match t_role t with
    | Client => mkExchangeHashInput (t_local_id t) peer_id (t_local_kexinit t)
                  (payload peer_kexinit) host_blob q_c q_s shared
    | Server => mkExchangeHashInput peer_id (t_local_id t) (payload peer_kexinit)
                  (t_local_kexinit t) host_blob q_c q_s shared
    end in
  ret (exchange_hash input hash).

Definition finish_kex (h : bytes) (shared : SharedSecret) (hash : KexHash) : TM unit :=
  let* t := get in
  let sid := default h (t_session_id t) in
  t_session_id <-! Some sid ;;;
  let* n := unwrap (t_negotiated t) in
  let cipher := n_cipher_c2s n in
  let* key_len := lift (Cipher.key_len cipher) in
  let* iv_len := lift (Cipher.iv_len cipher) in
  let keys := derive shared h sid key_len iv_len hash in
  let '(out_key, out_iv, in_key, in_iv) :=
    match t_role t with
    | Client => (enc_c2s keys, iv_c2s keys, enc_s2c keys, iv_s2c keys)
    | Server => (enc_s2c keys, iv_s2c keys, enc_c2s keys, iv_c2s keys)
    end in
  let* out := lift (Cipher.new cipher out_key out_iv) in
  let* inn := lift (Cipher.new cipher in_key in_iv) in
  t_pending <-! Some (mkPendingKeys out inn) ;;;
  let '(out_name, in_name) :=
    match t_role t with
    | Client => (n_comp_c2s n, n_comp_s2c n)
    | Server => (n_comp_s2c n, n_comp_c2s n)
    end in
  t_comp_out_name <-! out_name ;;;
  t_comp_in_name <-! in_name.

Definition maybe_complete_kex : TM unit :=
  let* t := get in
  if negb (t_sent_newkeys t && t_recv_newkeys t) then ret tt
  else
    t_pending <-! None ;;;
    when (negb (t_initial_kex_done t))
      (t_initial_kex_done <-! true ;;;
       t_phase <-! Established ;;;
       push_event Ev_Established) ;;;
    t_rekeying <-! false ;;;
    t_kexinit_sent <-! false ;;;
    t_sent_newkeys <-! false ;;;
    t_recv_newkeys <-! false ;;;
    t_bytes_since_rekey <-! 0 ;;;
    t_tx_packets_since_rekey <-! 0 ;;;
    t_rx_bytes_since_rekey <-! 0 ;;;
    t_rx_packets_since_rekey <-! 0 ;;;
    let* queued := gets t_tx_app_queue in
    t_tx_app_queue <-! [] ;;;
    mfor queued write_packet.

Definition send_newkeys : TM unit :=
  write_packet [msg.NEWKEYS] ;;;
  let* t := get in
  (match t_pending t with
   | Some p =>
       t_cipher_out <-! p_out p ;;;
       t_pending <-! Some (mkPendingKeys Cipher_None (p_inn p))
   | None => ret tt
   end) ;;;
  when (t_comp_active t) (t_comp_out <-! Compressor.new (t_comp_out_name t)) ;;;
  when (t_strict_kex t) (t_tx_seq <-! 0) ;;;
  t_sent_newkeys <-! true ;;;
  maybe_complete_kex.

Definition on_newkeys : TM unit :=
  let* t := get in
  let* p := ok_or (t_pending t) (Protocol "NEWKEYS before key exchange") in
  t_cipher_in <-! p_inn p ;;;
  t_pending <-! Some (mkPendingKeys (p_out p) Cipher_None) ;;;
  when (t_comp_active t) (t_comp_in <-! Decompressor.new (t_comp_in_name t)) ;;;
  when (t_strict_kex t) (t_rx_seq <-! 0) ;;;
  t_recv_newkeys <-! true ;;;
  maybe_complete_kex.

Definition on_ecdh_reply (payload : bytes) : TM unit :=
  let* t := get in
  if t_skip_guess t then t_skip_guess <-! false
  else
    let* '(host_blob, q_s, signature) := parse_with
      (let* _ := Reader.u8 in
       let* host_blob := Reader.string in
       let* q_s := Reader.string in
       let* signature := Reader.string in
       ret (host_blob, q_s, signature)) payload in
    t_kex_eph <-! None ;;;
    let* eph := ok_or (t_kex_eph t) (Protocol "KEX_ECDH_REPLY before INIT") in
    let* '(q_c, shared, kind) :=
      (match eph with
       | Eph_MlKem hc =>
           let* shared := lift (mlkem.agree hc q_s) in ret (mlkem.init hc, shared, Kind_MlKem)
       | Eph_SnTrup hc =>
           let* shared := lift (sntrup.agree hc q_s) in ret (sntrup.init hc, shared, Kind_SnTrup)
       | Eph_Classical kp =>
           let* shared := lift (ecdh_agree kp q_s) in ret (ecdh_public kp, shared, Kind_Classical)
       end) in
    let k := KexKind_shared_secret kind shared in
    let hash := KexKind_hash kind in
    let* h := compute_exchange_hash q_c q_s host_blob k hash in
    let* host_pub := lift (HostPublicKey.parse_blob host_blob) in
    lift (HostPublicKey.verify host_pub h signature) ;;;
    push_event (ServerHostKey host_pub) ;;;
    finish_kex h k hash ;;;
    send_newkeys.

(** The server's answer to a client value, by method: the reply blob and the secret. *)
Definition server_kex (kind : KexKind) (q_c : bytes) : M SshError Rng (bytes * bytes) :=
  match kind with
  | Kind_MlKem => mlkem.server_respond q_c
  | Kind_SnTrup => sntrup.server_respond q_c
  | Kind_Classical =>
      let* server_kp := ecdh_generate in
      let* shared := lift (ecdh_agree server_kp q_c) in
      ret (ecdh_public server_kp, shared)
  end.

Definition on_ecdh_init (payload : bytes) : TM unit :=
  let* t := get in
  if t_skip_guess t then t_skip_guess <-! false
  else
    let* q_c := parse_with (let* _ := Reader.u8 in Reader.string) payload in
    let* host_key := ok_or (t_host_key t) (Protocol "server without host key") in
    let host_blob := HostKey.public_blob host_key in
    let kind := kex_kind t in
    let* '(q_s, shared) := with_rng (server_kex kind q_c) in
    let k := KexKind_shared_secret kind shared in
    let hash := KexKind_hash kind in
    let* h := compute_exchange_hash q_c q_s host_blob k hash in
    let signature := HostKey.sign_exchange_hash host_key h in
    write_packet (Writer.new >>> Writer.u8 msg.KEX_ECDH_REPLY >>> Writer.string host_blob
      >>> Writer.string q_s >>> Writer.string signature >>> Writer.into_bytes) ;;;
    finish_kex h k hash ;;;
    send_newkeys.

(** The ephemeral of the client for this round, and the value it sends. *)
Definition client_ephemeral_for (kind : KexKind) : M SshError Rng (KexEphemeral * bytes) :=
  match kind with
  | Kind_MlKem => let* hc := mlkem.generate in ret (Eph_MlKem hc, mlkem.init hc)
  | Kind_SnTrup => let* hc := sntrup.generate in ret (Eph_SnTrup hc, sntrup.init hc)
  | Kind_Classical => let* kp := ecdh_generate in ret (Eph_Classical kp, ecdh_public kp)
  end.

(** [peer.first() != Some(chosen)]. *)
Definition first_differs (names : list bytes) (chosen : bytes) : bool :=
  match names with
  | x :: _ => negb (beq x chosen)
  | [] => true
  end.

(** What [on_peer_kexinit] does once it has decided to take part in the round. *)
Definition kexinit_round (payload : bytes) : TM unit :=
  let* t := get in
  let* peer := lift (KexInit.parse payload) in
  let* local := lift (KexInit.parse (t_local_kexinit t)) in
  let* negotiated :=
    lift (match t_role t with
          | Client => negotiate local peer
          | Server => negotiate peer local
          end) in
  when (negb (t_initial_kex_done t))
    (t_strict_kex <-! offers (kex peer)
       (match t_role t with Client => KEX_STRICT_SERVER | Server => KEX_STRICT_CLIENT end)) ;;;
  t_skip_guess <-! first_kex_packet_follows peer
      && (first_differs (kex peer) (n_kex negotiated)
          || first_differs (host_key peer) (n_host_key negotiated)) ;;;
  t_negotiated <-! Some negotiated ;;;
  t_peer_kexinit <-! Some peer ;;;
  if bool_decide (t_role t = Client) then
    let* t := get in
    let* '(eph, value) := with_rng (client_ephemeral_for (kex_kind t)) in
    write_packet (Writer.new >>> Writer.u8 msg.KEX_ECDH_INIT >>> Writer.string value
      >>> Writer.into_bytes) ;;;
    t_kex_eph <-! Some eph
  else ret tt.

Definition on_peer_kexinit (payload : bytes) : TM unit :=
  let* t := get in
  if is_established t && negb (t_kexinit_sent t) then
    let* n := checked U32_MAX (t_consecutive_peer_rekeys t + 1) in
    t_consecutive_peer_rekeys <-! n ;;;
    if t_max_consecutive_peer_rekeys t <? n
    then disconnect msg.PROTOCOL_ERROR (str "re-key rate exceeded")
    else begin_rekey_round ;;; kexinit_round payload
  else kexinit_round payload.

(** ** Dispatch *)

Definition handle_packet (payload : bytes) : TM unit :=
  match payload with
  | [] => err (BadPacket "empty payload")
  | msg_id :: _ =>
      let* t := get in
      if t_strict_kex t && negb (is_established t)
         && ((msg_id =? msg.IGNORE) || (msg_id =? msg.DEBUG) || (msg_id =? msg.UNIMPLEMENTED))
      then err (Protocol "unexpected message during strict KEX")
      else if (msg_id =? msg.IGNORE) || (msg_id =? msg.DEBUG) then ret tt
      else if msg_id =? msg.DISCONNECT then
        let* '(reason, r) := on_local (let* _ := Reader.u8 in Reader.u32) (Reader.new payload) in
        let description := match run Reader.utf8 r with Ok s => s | _ => [] end in
        push_event (Ev_Disconnect reason description)
      else if msg_id =? msg.KEXINIT then on_peer_kexinit payload
      else if (msg_id =? msg.KEX_ECDH_INIT) && bool_decide (t_role t = Server)
      then on_ecdh_init payload
      else if (msg_id =? msg.KEX_ECDH_REPLY) && bool_decide (t_role t = Client)
      then on_ecdh_reply payload
      else if msg_id =? msg.NEWKEYS then on_newkeys
      else if is_established t then
        t_consecutive_peer_rekeys <-! 0 ;;;
        push_event (Packet payload)
      else err (Protocol "unexpected message during handshake")
  end.

(** The bytes of [rx] that have not been consumed: [&self.rx\[self.rx_pos..\]]. *)
Definition unread : TM bytes :=
  let* t := get in
  if t_rx_pos t <=? len (t_rx t) then ret (zdrop (t_rx_pos t) (t_rx t)) else panic.

(** One decrypted packet of [drive]: counters, decompression, dispatch, then delayed
    compression and the re-key budget. *)
Definition drive_packet (payload : bytes) (consumed : Z) : TM unit :=
  t_rx_pos <-~ (fun p => p + consumed) ;;;
  t_rx_seq <-~ (fun s => wrapping_add32 s 1) ;;;
  t_rx_bytes_since_rekey <-~ (fun b => saturating_add64 b consumed) ;;;
  let* n := gets t_rx_packets_since_rekey in
  let* n := checked U64_MAX (n + 1) in
  t_rx_packets_since_rekey <-! n ;;;
  if EPOCH_HARD_PACKETS <=? n
  then err (Protocol "peer exceeded per-key-epoch packet limit without re-keying")
  else
    let* payload := decompress_in payload in
    let first := head payload in
    handle_packet payload ;;;
    let* t := get in
    when (bool_decide (t_role t = Client) && negb (t_comp_active t)
          && beq (t_comp_in_name t) COMPRESSION_ZLIB_OPENSSH
          && bool_decide (first = Some msg.USERAUTH_SUCCESS))
      activate_compression ;;;
    let* t := get in
    when (is_established t && ((t_rekey_bytes_limit t <=? t_rx_bytes_since_rekey t)
                               || (t_rekey_packets_limit t <=? t_rx_packets_since_rekey t)))
      initiate_rekey.

Fixpoint drive_loop (fuel : nat) : TM unit :=
  match fuel with
  | O => out_of_fuel
  | S fuel' =>
      let* t := get in
      if t_closing t then ret tt
      else if bool_decide (t_phase t = NeedPeerVersion) then
        let* input := unread in
        let* r := lift (parse_peer_id input (bool_decide (t_role t = Client))) in
        match r with
        | Some (peer, consumed) =>
            t_peer_id <-! Some (raw peer) ;;;
            t_rx_pos <-~ (fun p => p + consumed) ;;;
            t_phase <-! Handshake ;;;
            drive_loop fuel'
        | None => compact_rx
        end
      else
        let* input := unread in
        let* r := zoom t_cipher_in (fun c t => t <| t_cipher_in := c |>)
                    (Cipher.open (t_rx_seq t) input) in
        match r with
        | Some (payload, consumed) => drive_packet payload consumed ;;; drive_loop fuel'
        | None => compact_rx
        end
  end.

(** Every round but the last consumes a byte of [rx], see [drive_loop_wp] of TransportInv. *)
Definition drive : TM unit := fun t => drive_loop (S (length (t_rx t))) t.

Definition on_input (data : bytes) : TM unit :=
  let* t := get in
  if t_closing t then ret tt
  else
    t_rx <-~ (fun rx => rx ++ data) ;;;
    drive.
End Transport.
End Transport.
