(* ===== verification/TransportFrames.v ===== *)
(** What the transport's output methods leave alone: frames of [write_packet],
    [send_packet], [disconnect], [initiate_rekey] and the chaff senders, which the
    session layers above rely on. *)
From S2P Require Import Prelude Errors Wire Packet Version Crypto Kex Algo Cipher Compress.
From S2P Require Import Transport.

Section Frames.
Context `{C : Crypto}.
Implicit Types t : Transport.

(** [write_packet] in any preorder that its seven updates respect. *)
Lemma stays_write_packet (R : Transport -> Transport -> Prop) `{!PreOrder R} p :
  (forall t c, R t (t <| t_comp_out := c |>)) ->
  (forall t c, R t (t <| t_comp_in := c |>)) ->
  (forall t c, R t (t <| t_comp_active := c |>)) ->
  (forall t c r x, R t (t <| t_cipher_out := c |> <| t_rng := r |> <| t_tx := x |>)) ->
  (forall t n, R t (t <| t_tx_packets_since_rekey := n |>)) ->
  (forall t n, R t (t <| t_tx_seq := n |>)) ->
  (forall t, R t (t <| t_closing := true |>)) ->
  stays R (Transport.write_packet p).
Proof.
  intros H1 H2 H3 H4 H5 H6 H7. unfold Transport.write_packet, Transport.activate_compression.
  unfold Transport.seal.
  repeat first
    [ lazymatch goal with
      | |- stays _ (modify _) => refine (stays_modify _ _ _); intros s; solve [auto]
      | |- stays _ (zoom _ _ _) => apply stays_zoom; intros; solve [auto]
      end
    | keeps_step ].
  refine (stays_modify _ _ _). intros s.
  destruct (Cipher.seal_into (t_cipher_out s) (t_tx_seq s) a0 (t_rng s) (t_tx s)) as [[c r] x].
  apply H4.
Qed.
End Frames.

Ltac frame_write := apply stays_write_packet; [typeclasses eauto|..]; intros; solve [stays_leaf].

(** The part of the transport that no output method changes. *)
Definition session_view `{C : Crypto} (t : Transport) :=
  (t_role t, t_phase t, t_rx t, t_events t, t_session_id t, t_obfuscation t).

(** What sending may do to the transport, as the session layers see it: nothing, but for
    the closing flag, which is never taken back. *)
Definition sends `{C : Crypto} (t t' : Transport) : Prop :=
  session_view t' = session_view t /\ (t_closing t = true -> t_closing t' = true).

Section Output.
Context `{C : Crypto}.

#[export] Instance sends_preorder : PreOrder sends.
Proof.
  unfold sends. split; [done|]. intros t1 t2 t3 [A1 A2] [B1 B2]. split; [congruence|auto].
Qed.

Lemma sends_refl t : sends t t.
Proof. reflexivity. Qed.

(** Frames of the methods that send, by unfolding down to [write_packet]. *)
Ltac sends_output :=
  unfold Transport.disconnect, Transport.send_chaff_burst, Transport.send_chaff,
    Transport.build_chaff, Transport.send_packet, Transport.initiate_rekey,
    Transport.begin_rekey_round, Transport.send_kexinit, Transport.with_rng;
  repeat first [frame_write | keeps_step].

Lemma sends_send_packet p : stays sends (Transport.send_packet p).
Proof. sends_output. Qed.
Lemma sends_disconnect r d : stays sends (Transport.disconnect r d).
Proof. sends_output. Qed.
Lemma sends_initiate_rekey : stays sends Transport.initiate_rekey.
Proof. sends_output. Qed.
Lemma sends_send_chaff : stays sends Transport.send_chaff.
Proof. sends_output. Qed.
Lemma sends_send_chaff_burst : stays sends Transport.send_chaff_burst.
Proof. sends_output. Qed.

(** [disconnect] always leaves the connection closing. *)
Lemma disconnect_closes r d t :
  fst (Transport.disconnect r d t) = Ok tt -> t_closing (snd (Transport.disconnect r d t)) = true.
Proof.
  unfold Transport.disconnect, bind at 1 3, get. destruct (t_closing t) eqn:Hc; [done|].
  unfold bind. by destruct (Transport.write_packet _ t) as [[]].
Qed.
End Output.
#[export] Hint Resolve sends_send_packet sends_disconnect sends_initiate_rekey sends_send_chaff
  sends_send_chaff_burst : frame.
