(* ===== verification/TransportBytes.v ===== *)
(** Octets stay octets: when the peer's input is a string of bytes, so is the receive
    buffer and every payload that the transport hands to the session layers, through
    decryption and decompression. *)
From S2P Require Import Prelude Errors Wire Packet Version Crypto Kex Algo Cipher Compress.
From S2P Require Import Transport TransportFrames.

(** [yields P m]: what [m] returns satisfies [P]. *)
Definition yields {E S A} (P : A -> Prop) (m : M E S A) : Prop :=
  forall s a s', m s = (Ok a, s') -> P a.

Lemma yields_bind {E S A B} (P : A -> Prop) (Q : B -> Prop) (m : M E S A) (k : A -> M E S B) :
  yields P m -> (forall a, P a -> yields Q (k a)) -> yields Q (bind m k).
Proof.
  intros Hm Hk s b s'. unfold bind. destruct (m s) as [[a|e| |] s1] eqn:He; try done.
  apply Hk. by eapply Hm.
Qed.

Lemma yields_true {E S A} (m : M E S A) : yields (fun _ => True) m.
Proof. done. Qed.

Lemma stays_bind_yields {E S A B} (R : S -> S -> Prop) `{!PreOrder R} (P : A -> Prop)
  (m : M E S A) (k : A -> M E S B) :
  stays R m -> yields P m -> (forall a, P a -> stays R (k a)) -> stays R (bind m k).
Proof.
  intros Hm Hy Hk s. specialize (Hm s). unfold bind. destruct (m s) as [[a|e| |] s'] eqn:He;
    cbn in *; [|done..]. etransitivity; [exact Hm|]. apply Hk. by eapply Hy.
Qed.

Section Octets.
Context `{C : Crypto} `{!OctetsOk C}.
Implicit Types t : Transport.

Lemma open_yields seqnr b :
  is_bytes b -> yields (fun o => forall p n, o = Some (p, n) -> is_bytes p) (Cipher.open seqnr b).
Proof.
  intros Hb c o c' Ho p n ->. unfold Cipher.open, bind, get in Ho. destruct c as [|k2 k1|key iv].
  - unfold lift in Ho. injection Ho as Ho _. unfold decode_plain in Ho. repeat case_match; simplify_eq.
    auto with ssh.
  - unfold chacha_open, ret, err in Ho. repeat case_match; simplify_eq.
    unfold strip_region, payload_cipher.
    apply is_bytes_zdrop, is_bytes_ztake, is_bytes_xor; [auto with ssh|apply keystream_octets].
  - unfold gcm_open, bind, get, ok_or, ret, err, modify in Ho.
    repeat case_match; simplify_eq. unfold strip_region.
    eauto using is_bytes_zdrop, is_bytes_ztake, gcm_decrypt_octets, is_bytes_slice.
Qed.

Lemma decompress_loop_yields fuel p n out cap :
  is_bytes p -> is_bytes out -> yields is_bytes (decompress_loop fuel p n out cap).
Proof.
  intros Hp. revert n out cap. induction fuel as [|fuel IH]; intros n out cap Ho; cbn [decompress_loop];
    [done|].
  apply (yields_bind is_bytes).
  { intros s a s'. unfold rest_from, ret, panic. case_match; intros; simplify_eq. auto with ssh. }
  intros input Hi. apply (yields_bind (fun r => is_bytes (snd (fst r)))).
  { intros s [[k o] fin] s'. unfold inflate_step.
    destruct (decompress_vec s input _) as [d' [r|]] eqn:Hd; intros; simplify_eq.
    by eapply decompress_octets. }
  intros [[k o] fin] Hk. cbn in Hk.
  assert (Ho' : is_bytes (out ++ o)) by by apply is_bytes_app.
  cbv zeta. case_match; [done|]. case_match; [|by apply IH].
  by intros s a s' [= <- _].
Qed.

Lemma decompress_in_yields p : is_bytes p -> yields is_bytes (Transport.decompress_in p).
Proof.
  intros Hp t a t'. unfold Transport.decompress_in, bind, get.
  destruct (t_comp_in t) as [|d] eqn:Hc; [by intros [= <- _]|].
  unfold zoom. rewrite Hc. unfold Decompressor.decompress.
  destruct (decompress_loop _ _ _ _ _ d) as [o d'] eqn:Hd. intros [= -> _].
  by eapply decompress_loop_yields; [exact Hp| |exact Hd]; constructor.
Qed.

(** * The receive buffer and the events *)
Definition event_octets (e : Event) : Prop := match e with Packet p => is_bytes p | _ => True end.
Definition octets t : Prop := is_bytes (t_rx t) /\ Forall event_octets (t_events t).
Definition octets_kept t t' : Prop := octets t -> octets t'.

#[export] Instance octets_kept_preorder : PreOrder octets_kept.
Proof. unfold octets_kept. split; [by intros ?|]. intros x y z. tauto. Qed.

Lemma octets_push e : event_octets e -> stays octets_kept (Transport.push_event e).
Proof.
  intros He. refine (stays_modify _ _ _). intros t [H1 H2]. split; [exact H1|].
  apply Forall_app. split; [exact H2|by constructor].
Qed.
#[local] Hint Extern 1 (stays octets_kept (Transport.push_event _)) =>
  apply octets_push; exact I : frame.

Ltac octets_leaf := intros; match goal with |- octets_kept ?a _ => exact (fun H : octets a => H) end.
Ltac octets_step :=
  first
    [ lazymatch goal with
      | |- stays _ (modify _) => refine (stays_modify _ _ _); octets_leaf
      | |- stays _ (zoom _ _ _) => apply stays_zoom; octets_leaf
      | |- stays _ (Transport.write_packet _) =>
          apply stays_write_packet; [typeclasses eauto|..]; octets_leaf
      end
    | keeps_step ].
Ltac octets_auto := repeat octets_step.

Lemma octets_send_kexinit : stays octets_kept Transport.send_kexinit.
Proof. unfold Transport.send_kexinit, Transport.with_rng. octets_auto. Qed.
Lemma octets_disconnect r d : stays octets_kept (Transport.disconnect r d).
Proof. unfold Transport.disconnect. octets_auto. Qed.
#[local] Hint Resolve octets_send_kexinit octets_disconnect : frame.

Lemma octets_initiate_rekey : stays octets_kept Transport.initiate_rekey.
Proof. unfold Transport.initiate_rekey, Transport.begin_rekey_round. octets_auto. Qed.
#[local] Hint Resolve octets_initiate_rekey : frame.

Lemma octets_send_newkeys : stays octets_kept Transport.send_newkeys.
Proof. unfold Transport.send_newkeys, Transport.maybe_complete_kex. octets_auto. Qed.

Lemma octets_finish_kex h s k : stays octets_kept (Transport.finish_kex h s k).
Proof. unfold Transport.finish_kex. octets_auto. Qed.
#[local] Hint Resolve octets_send_newkeys octets_finish_kex : frame.

Lemma octets_handle_packet p : is_bytes p -> stays octets_kept (Transport.handle_packet p).
Proof.
  intros Hp. pose proof (octets_push (Packet p) Hp) as Hpush.
  unfold Transport.handle_packet, Transport.on_peer_kexinit, Transport.begin_rekey_round,
    Transport.kexinit_round, Transport.on_ecdh_init, Transport.on_ecdh_reply, Transport.on_newkeys,
    Transport.maybe_complete_kex, Transport.compute_exchange_hash, Transport.parse_with,
    Transport.with_rng.
  octets_auto.
Qed.

Lemma octets_drive_packet p n : is_bytes p -> stays octets_kept (Transport.drive_packet p n).
Proof.
  intros Hp. unfold Transport.drive_packet.
  repeat lazymatch goal with
  | |- stays _ (bind (Transport.decompress_in _) _) => fail
  | |- _ => octets_step
  end.
  apply (stays_bind_yields octets_kept is_bytes); [|by apply decompress_in_yields|].
  { unfold Transport.decompress_in. octets_auto. }
  intros body Hb. cbv zeta. pose proof (octets_handle_packet body Hb).
  unfold Transport.activate_compression. octets_auto.
Qed.

Lemma octets_drive_loop fuel : stays octets_kept (Transport.drive_loop fuel).
Proof.
  induction fuel as [|fuel IH]; cbn [Transport.drive_loop]; [apply stays_fuel; typeclasses eauto|].
  intros t H. unfold bind at 1, get. destruct (t_closing t); [done|].
  assert (Hc : stays octets_kept Transport.compact_rx).
  { intros s [H1 H2]. unfold Transport.compact_rx, bind, get, modify, ret.
    destruct (_ =? 0); [done|]. destruct (_ <=? _); (split; [|exact H2]); cbn;
      [constructor|by apply is_bytes_zdrop]. }
  assert (Hu : forall s, exists o, Transport.unread s = (o, s) /\
    (forall b, o = Ok b -> is_bytes (t_rx s) -> is_bytes b)).
  { intros s. unfold Transport.unread, bind, get, ret, panic. case_match; eexists; (split; [done|]).
    - intros b [= <-]. apply is_bytes_zdrop.
    - done. }
  destruct (Hu t) as (o & Hut & Hb). destruct H as [Hrx Hev].
  case_bool_decide.
  - unfold bind at 1. rewrite Hut. destruct o as [b| | |]; try done.
    revert t Hrx Hev H Hut Hb. intros t Hrx Hev _ _ _.
    enough (Hs : stays octets_kept (let* r := lift (parse_peer_id b (bool_decide (t_role t = Client)))
      in match r with
         | Some (peer, consumed) =>
             t_peer_id <-! Some (raw peer) ;;;
             t_rx_pos <-~ (fun p => p + consumed) ;;;
             t_phase <-! Handshake ;;;
             Transport.drive_loop fuel
         | None => Transport.compact_rx
         end)) by by apply Hs.
    octets_auto.
  - unfold bind at 1. rewrite Hut. destruct o as [b| | |]; try done.
    specialize (Hb b eq_refl Hrx).
    enough (Hs : stays octets_kept
      (let* r := zoom t_cipher_in (fun c t => t <| t_cipher_in := c |>)
                   (Cipher.open (t_rx_seq t) b) in
       match r with
       | Some (payload, consumed) => Transport.drive_packet payload consumed ;;; Transport.drive_loop fuel
       | None => Transport.compact_rx
       end)) by by apply Hs.
    apply (stays_bind_yields octets_kept (fun o => forall p n, o = Some (p, n) -> is_bytes p)).
    + octets_auto.
    + intros s r s' Hr. unfold zoom in Hr.
      destruct (Cipher.open (t_rx_seq t) b (t_cipher_in s)) as [o c] eqn:Ho. simplify_eq.
      by eapply open_yields.
    + intros [[p n]|] Hp; [|done]. apply stays_bind; [typeclasses eauto| |done].
      apply octets_drive_packet. by eapply Hp.
Qed.

Lemma octets_on_input data t :
  is_bytes data -> octets t -> octets (snd (Transport.on_input data t)).
Proof.
  intros Hd [H1 H2]. unfold Transport.on_input, bind at 1, get. destruct (t_closing t); [done|].
  unfold bind, modify, Transport.drive. apply octets_drive_loop. split; [|done]. by apply is_bytes_app.
Qed.
End Octets.
