(* ===== verification/TransportInv.v ===== *)
(** The transport's invariant: every method preserves it and none of them panics,
    whatever bytes the peer sends. *)
From S2P Require Import Prelude Errors Wire Packet Version Crypto Kex Algo Cipher Compress.
From S2P Require Import Transport.

Section Inv.
Context `{C : Crypto} `{!CryptoOk C} `{!FlateOk C}.
Implicit Types t : Transport.

(** The outbound packet counter of the key epoch: it stops at the hard cap. *)
Definition epoch_ok (n : Z) (closing : bool) : Prop :=
  0 <= n <= EPOCH_HARD_PACKETS /\ (n < EPOCH_HARD_PACKETS \/ closing = true).

Definition tx_ok t : Prop := epoch_ok (t_tx_packets_since_rekey t) (t_closing t).

(** The fields that writing a packet does not touch. *)
Definition core t :=
  (t_role t, t_phase t, t_rx t, t_rx_pos t, t_rx_seq t, t_cipher_in t,
   (t_comp_out_name t, t_comp_in_name t, t_local_id t, t_peer_id t, t_local_kexinit t,
    t_peer_kexinit t, t_negotiated t, t_kex_eph t, t_pending t),
   (t_sent_newkeys t, t_recv_newkeys t, t_skip_guess t, t_strict_kex t, t_initial_kex_done t,
    t_rekeying t, t_kexinit_sent t, t_tx_app_queue t, t_bytes_since_rekey t),
   (t_rx_bytes_since_rekey t, t_rx_packets_since_rekey t, t_rekey_bytes_limit t,
    t_rekey_packets_limit t, t_consecutive_peer_rekeys t, t_max_consecutive_peer_rekeys t,
    t_session_id t, t_host_key t, t_events t),
   (t_offered_ciphers t, t_offered_compression t, t_obfuscation t)).

(** What writing packets may change: a cipher never appears or disappears, the counters
    stay in range, and the closing flag is never taken back. *)
Record wrote t t' : Prop := {
  w_core : core t' = core t;
  w_cipher : t_cipher_out t' = Cipher_None <-> t_cipher_out t = Cipher_None;
  w_tx : tx_ok t -> tx_ok t';
  w_closing : t_closing t = true -> t_closing t' = true
}.

Lemma wrote_refl t : wrote t t.
Proof. by constructor. Qed.

Lemma wrote_trans t1 t2 t3 : wrote t1 t2 -> wrote t2 t3 -> wrote t1 t3.
Proof. intros [A1 A2 A3 A4] [B1 B2 B3 B4]. constructor; [congruence|tauto..]. Qed.

Lemma sealed_cipher_None c : sealed_cipher c = Cipher_None <-> c = Cipher_None.
Proof. by destruct c. Qed.

Lemma seal_eq body t :
  exists r', Transport.seal body t =
    (Ok tt, t <| t_cipher_out := sealed_cipher (t_cipher_out t) |> <| t_rng := r' |>
              <| t_tx := t_tx t ++ sealed (t_cipher_out t) (t_tx_seq t) body (t_rng t) |>).
Proof.
  unfold Transport.seal, modify.
  destruct (seal_into_out (t_cipher_out t) (t_tx_seq t) body (t_rng t) (t_tx t)) as [r' ->].
  by exists r'.
Qed.

Abbreviation no_err := (fun (_ : SshError) (_ : Transport) => False).

Lemma activate_compression_wp t :
  wp Transport.activate_compression (fun _ t' => wrote t t') no_err t.
Proof. unfold Transport.activate_compression. do 7 wp_step. constructor; [reflexivity|done..]. Qed.

Lemma write_packet_wp p t :
  tx_ok t -> wp (Transport.write_packet p) (fun _ t' => wrote t t') no_err t.
Proof.
  intros Hok. unfold Transport.write_packet. do 2 wp_step.
  destruct (t_closing t) eqn:Hcl; [wp_step; apply wrote_refl|].
  assert (Hlt : 0 <= t_tx_packets_since_rekey t < EPOCH_HARD_PACKETS).
  { destruct Hok as [? [?|?]]; [lia|congruence]. }
  apply wp_bind.
  apply (wp_mono _ (fun _ t1 => wrote t t1 /\ t_closing t1 = false) _ no_err); [| |done].
  { destruct (t_comp_out t) as [|d] eqn:Hco; [by wp_step|].
    apply wp_zoom. rewrite Hco. destruct (compress_returns (Compressor_Zlib d) p) as (r & c' & Hr).
    unfold wp. rewrite Hr. split; [|done]. by constructor. }
  intros body t1 [W1 Hcl1]. apply wp_bind. unfold wp at 1.
  destruct (seal_eq body t1) as [r' ->]. set (t2 := set t_tx _ _).
  assert (W2 : wrote t t2).
  { eapply wrote_trans; [exact W1|]. constructor; [reflexivity|apply sealed_cipher_None|done..]. }
  assert (Hcl2 : t_closing t2 = false) by exact Hcl1.
  clearbody t2. clear t1 W1 Hcl1 r'.
  apply wp_bind. apply wp_checked; [unfold U64_MAX, EPOCH_HARD_PACKETS in *; lia|]. cbv beta.
  do 4 wp_step. apply wp_bind.
  apply (wp_mono _ (fun _ t3 => wrote t t3) _ no_err); [| |done].
  - assert (W3 : forall t3, core t3 = core t2 -> t_cipher_out t3 = t_cipher_out t2 ->
      t_tx_packets_since_rekey t3 = t_tx_packets_since_rekey t + 1 ->
      (EPOCH_HARD_PACKETS <=? t_tx_packets_since_rekey t + 1) = t_closing t3 -> wrote t t3).
    { intros t3 H1 H2 H3 H4. destruct W2 as [A1 A2 A3 A4].
      constructor; [congruence|by rewrite H2|intros _|congruence].
      unfold tx_ok, epoch_ok. rewrite H3, <- H4. lia. }
    apply wp_when; intros Hcap; [wp_step|]; apply W3; try reflexivity; try exact Hcap.
    by rewrite Hcap.
  - cbv beta. intros ? t3 W3. apply wp_when; intros _; [|exact W3].
    eapply wp_mono; [apply activate_compression_wp| |done].
    intros ? t4 W4. by eapply wrote_trans.
Qed.

Lemma mfor_write_packet_wp l t :
  tx_ok t -> wp (mfor l Transport.write_packet) (fun _ t' => wrote t t') no_err t.
Proof.
  intros Hok. apply (wp_mfor (fun t' => wrote t t')); [|apply wrote_refl].
  intros p t1 H1. eapply wp_mono; [apply write_packet_wp; by apply H1| |done].
  intros ? t2 H2. by eapply wrote_trans.
Qed.

(** * The invariant

    [F] is what is known of the receive buffer and its cursor: no handler touches them,
    so the lemmas hold for any [F]; [drive] takes the bounds, or equality with a given
    buffer. *)
Context (F : bytes -> Z -> Prop).

(** Before the connection is up: our NEWKEYS follows the key derivation at once, so a
    staged key pair has its outbound half in use and its inbound half real. *)
Definition handshake_ok t : Prop :=
  t_phase t <> Established ->
  t_recv_newkeys t = false /\
  forall p, t_pending t = Some p -> t_sent_newkeys t = true /\ p_inn p <> Cipher_None.

(** Between the derivation and our NEWKEYS, inside one handler. *)
Definition derived_ok t : Prop :=
  (t_phase t <> Established -> t_recv_newkeys t = false) /\
  exists p, t_pending t = Some p /\ p_out p <> Cipher_None /\ p_inn p <> Cipher_None.

Record tinv_gen (hs : Transport -> Prop) t : Prop := {
  ti_rx : F (t_rx t) (t_rx_pos t);
  ti_tx : tx_ok t;
  ti_rxn : 0 <= t_rx_packets_since_rekey t < EPOCH_HARD_PACKETS;
  ti_neg : is_Some (t_peer_kexinit t) -> is_Some (t_negotiated t);
  ti_peer : 0 <= t_consecutive_peer_rekeys t /\
            0 <= t_max_consecutive_peer_rekeys t < U32_MAX /\
            (t_consecutive_peer_rekeys t <= t_max_consecutive_peer_rekeys t \/
             t_closing t = true);
  ti_done : t_phase t = Established <-> t_initial_kex_done t = true;
  ti_out : t_phase t = Established \/ t_sent_newkeys t = true -> t_cipher_out t <> Cipher_None;
  ti_sid : t_phase t = Established \/ is_Some (t_pending t) -> is_Some (t_session_id t);
  ti_rekey : t_rekeying t = true -> t_phase t = Established /\ t_kexinit_sent t = true;
  ti_sent : t_phase t = Established -> t_kexinit_sent t = true -> t_rekeying t = true;
  ti_queue : t_rekeying t = false -> t_tx_app_queue t = [];
  ti_obf : 0 <= max_chaff_len (t_obfuscation t) <= U16_MAX /\
           0 <= max_chaff_per_flush (t_obfuscation t) <= U8_MAX;
  ti_hs : hs t
}.

Abbreviation tinv := (tinv_gen handshake_ok).

Lemma tinv_gen_wrote (hs : Transport -> Prop) t t' :
  (hs t -> hs t') -> wrote t t' -> tinv_gen hs t -> tinv_gen hs t'.
Proof.
  intros Hh W [R T N G P D O S K Q U B H].
  pose proof (w_core _ _ W) as E. unfold core in E. injection E. clear E. intros.
  destruct W as [_ Wc Wt Wcl].
  constructor; try (repeat match goal with H : _ t' = _ t |- _ => rewrite H end; assumption).
  - by apply Wt.
  - repeat match goal with H : _ t' = _ t |- _ => rewrite H end.
    destruct P as (? & ? & [?|?]); split_and!; auto; lia.
  - rewrite Wc. repeat match goal with H : _ t' = _ t |- _ => rewrite H end. done.
  - by apply Hh.
Qed.

Lemma handshake_ok_wrote t t' : wrote t t' -> handshake_ok t -> handshake_ok t'.
Proof.
  intros W. pose proof (w_core _ _ W) as E. unfold core in E. injection E. clear E. intros.
  unfold handshake_ok in *. repeat match goal with H : _ t' = _ t |- _ => rewrite H end. done.
Qed.

Lemma tinv_wrote t t' : wrote t t' -> tinv t -> tinv t'.
Proof. intros W. apply tinv_gen_wrote; [by apply handshake_ok_wrote|done]. Qed.

Lemma write_packet_tinv p t :
  tinv t -> wp (Transport.write_packet p) (fun _ => tinv) no_err t.
Proof.
  intros H. eapply wp_mono; [apply write_packet_wp, H| |done].
  intros ? t' W. exact (tinv_wrote _ _ W H).
Qed.

(** ** Sub-parsers never panic *)

Lemma total_parse_kexinit p : total_reader (KexInit.parse_r p).
Proof. unfold KexInit.parse_r, r_take16, r_take. total. Qed.

Lemma total_parse_hostkey : total_reader HostPublicKey.parse_blob_r.
Proof. unfold HostPublicKey.parse_blob_r. total. Qed.

Lemma total_verify k h : total_reader (HostPublicKey.verify_r k h).
Proof. unfold HostPublicKey.verify_r. total. Qed.

(** A pure result inside a handler. *)
Lemma wp_lift_total {A} (o : result A) (Q : A -> Transport -> Prop) t :
  ((exists x, o = Ok x) \/ (exists e, o = Err e)) ->
  (forall x, o = Ok x -> Q x t) -> wp (lift o) Q (fun _ _ => True) t.
Proof. intros [[x ->]|[e ->]] H; apply wp_lift; auto. Qed.

Lemma wp_parse_with {A} (p : RM A) payload (Q : A -> Transport -> Prop) t :
  total_reader p -> (forall x, Q x t) -> wp (Transport.parse_with p payload) Q (fun _ _ => True) t.
Proof. intros Hp H. apply wp_lift_total; [by apply total_run|auto]. Qed.

Lemma wp_with_rng {A} (m : M SshError Rng A) (Q : A -> Transport -> Prop) X t :
  wp m (fun a r => Q a (t <| t_rng := r |>)) (fun e r => X e (t <| t_rng := r |>)) (t_rng t) ->
  wp (Transport.with_rng m) Q X t.
Proof. exact (wp_zoom t_rng (fun r t => t <| t_rng := r |>) m Q X t). Qed.

(** ** Methods *)

Lemma send_kexinit_wp t :
  tx_ok t ->
  wp Transport.send_kexinit
    (fun _ t' => wrote (t <| t_local_kexinit := t_local_kexinit t' |> <| t_kexinit_sent := true |>) t')
    no_err t.
Proof.
  intros Hok. unfold Transport.send_kexinit. do 2 wp_step. apply wp_bind, wp_with_rng.
  destruct (ours_with_eq (bool_decide (t_role t = Server)) (default default_ciphers (t_offered_ciphers t))
    (default default_compressions (t_offered_compression t)) (t_rng t)) as (cookie & r' & _ & Heq).
  unfold wp at 1. rewrite Heq. cbv beta zeta. cbn [payload].
  apply wp_bind. eapply wp_mono; [apply write_packet_wp; exact Hok| |done].
  intros ? t1 W1. do 3 wp_step. destruct W1 as [E Wc Wt Wcl].
  constructor; [|exact Wc|exact Wt|exact Wcl].
  unfold core in *. cbn in *. injection E. clear E. intros.
  repeat match goal with H : _ t1 = _ |- _ => rewrite H; clear H end. reflexivity.
Qed.

(** A state with some fields set: the obligations reduce to the fields. *)
Ltac tinv_set H :=
  let R := fresh in pose proof H as R; destruct R;
  constructor; unfold tx_ok, handshake_ok, derived_ok in *; cbn in *; auto.

Lemma begin_rekey_round_wp t :
  tinv t -> t_phase t = Established ->
  wp Transport.begin_rekey_round
    (fun _ t' => tinv t' /\ t_phase t' = Established) no_err t.
Proof.
  intros H Hp. unfold Transport.begin_rekey_round. do 14 wp_step.
  set (t0 := set t_skip_guess _ _).
  eapply wp_mono; [apply (send_kexinit_wp t0); exact (ti_tx _ _ H)| |done].
  cbv beta. intros ? t1 W. split.
  - eapply tinv_wrote; [exact W|]. unfold t0. clear W t0. tinv_set H; try congruence.
    + by intros [].
  - pose proof (w_core _ _ W) as E. unfold core, t0 in E. cbn in E. injection E. congruence.
Qed.

Lemma initiate_rekey_wp t : tinv t -> wp Transport.initiate_rekey (fun _ => tinv) no_err t.
Proof.
  intros H. unfold Transport.initiate_rekey. do 3 wp_step; [|done].
  assert (Hp : t_phase t = Established).
  { unfold Transport.is_established in *. case_bool_decide; done. }
  eapply wp_mono; [by apply begin_rekey_round_wp| |done]. by intros ? t' [].
Qed.

Lemma send_packet_wp p t :
  tinv t -> wp (Transport.send_packet p) (fun _ => tinv) (fun _ => tinv) t.
Proof.
  intros H. unfold Transport.send_packet. do 2 wp_step.
  apply wp_if; intros He; [by wp_step|]. destruct (t_rekeying t) eqn:Hr.
  - wp_step. tinv_set H. congruence.
  - apply wp_bind. eapply wp_mono; [by apply write_packet_tinv| |done]. cbv beta.
    intros ? t1 H1. do 4 wp_step. apply wp_when; intros _.
    + eapply wp_mono; [apply initiate_rekey_wp; tinv_set H1| |done]. done.
    + tinv_set H1.
Qed.

Lemma build_chaff_wp t :
  tinv t -> wp Transport.build_chaff (fun _ t' => tinv t') (fun _ _ => False) t.
Proof.
  intros H. unfold Transport.build_chaff. do 3 wp_step.
  destruct (ti_obf _ _ H) as [Ho _]. apply wp_checked.
  { unfold chaff_len_bound, DEFAULT_CHAFF_LEN, U16_MAX, U32_MAX in *. case_match; lia. }
  cbv beta. apply wp_bind, wp_with_rng. unfold wp at 1, draw.
  destruct (next_u32 _) as [r r1]. apply wp_bind, wp_with_rng. unfold wp at 1.
  destruct (fill_bytes _ _) as [d r2]. wp_step. tinv_set H.
Qed.

Lemma chaff_once_wp t :
  tinv t ->
  wp (let* m := Transport.build_chaff in Transport.send_packet m) (fun _ => tinv) (fun _ => tinv) t.
Proof.
  intros H. apply wp_bind. eapply wp_mono; [by apply build_chaff_wp| |done].
  cbv beta. intros m t1 H1. by apply send_packet_wp.
Qed.

Lemma send_chaff_wp t : tinv t -> wp Transport.send_chaff (fun _ => tinv) (fun _ => tinv) t.
Proof.
  intros H. unfold Transport.send_chaff. do 2 wp_step. apply wp_if; intros; [done|].
  by apply chaff_once_wp.
Qed.

Lemma send_chaff_burst_wp t :
  tinv t -> wp Transport.send_chaff_burst (fun _ => tinv) (fun _ => tinv) t.
Proof.
  intros H. unfold Transport.send_chaff_burst. do 2 wp_step. apply wp_if; intros; [done|].
  apply wp_bind, wp_with_rng. unfold wp at 1, draw. destruct (next_u32 _) as [r r1].
  apply wp_mfor; [intros; by apply chaff_once_wp|]. tinv_set H.
Qed.

Lemma disconnect_wp reason d t : tinv t -> wp (Transport.disconnect reason d) (fun _ => tinv) no_err t.
Proof.
  intros H. unfold Transport.disconnect. do 2 wp_step. apply wp_if; intros; [done|].
  apply wp_bind. eapply wp_mono; [by apply write_packet_tinv| |done]. cbv beta.
  intros ? t1 H1. wp_step. pose proof (ti_tx _ _ H1) as [? _]. tinv_set H1.
  - split; [done|by right].
  - destruct ti_peer0 as (? & ? & _). auto.
Qed.

Lemma decompress_in_wp p t :
  tinv t -> wp (Transport.decompress_in p)
    (fun _ t' => tinv t' /\ t_closing t' = t_closing t) (fun _ _ => True) t.
Proof.
  intros H. unfold Transport.decompress_in. do 2 wp_step.
  destruct (t_comp_in t) as [|d] eqn:Hd; [done|].
  apply wp_zoom. rewrite Hd. pose proof (decompress_returns d p) as Ht.
  unfold wp. destruct (Decompressor.decompress p (Decompressor_Zlib d)) as [[r|e| |] c'];
    destruct Ht as [(? & Ht & _)|(? & Ht)]; cbn in Ht; try done.
  split; [tinv_set H|done].
Qed.

(** ** The end of a key exchange *)

Lemma cipher_new_not_None name key iv c : Cipher.new name key iv = Ok c -> c <> Cipher_None.
Proof. unfold Cipher.new. intros H. repeat case_match; by simplify_eq. Qed.

Lemma cipher_new_or name key iv :
  (exists c, Cipher.new name key iv = Ok c) \/ (exists e, Cipher.new name key iv = Err e).
Proof. unfold Cipher.new. repeat case_match; eauto. Qed.

Lemma finish_kex_wp h k hash t :
  tinv t -> is_Some (t_negotiated t) ->
  wp (Transport.finish_kex h k hash) (fun _ => tinv_gen derived_ok) (fun _ _ => True) t.
Proof.
  intros H [n Hn]. unfold Transport.finish_kex. do 5 wp_step. apply wp_unwrap. exists n.
  split; [exact Hn|].
  apply wp_bind, wp_lift_total.
  { unfold Cipher.key_len. repeat case_match; eauto. }
  intros kl _. apply wp_bind, wp_lift_total.
  { unfold Cipher.iv_len. repeat case_match; eauto. }
  intros il _. cbv zeta.
  set (keys := match t_role t with Client => _ | Server => _ end).
  destruct keys as [[[ok oi] ik] ii].
  apply wp_bind, wp_lift_total; [apply cipher_new_or|]. intros out Hout.
  apply wp_bind, wp_lift_total; [apply cipher_new_or|]. intros inn Hinn.
  apply cipher_new_not_None in Hout, Hinn. do 2 wp_step.
  set (names := match t_role t with Client => _ | Server => _ end).
  destruct names as [on inm]. do 3 wp_step.
  tinv_set H. split; [|by eexists].
  intros Hp. by apply ti_hs0.
Qed.

(** What the flags must say when a NEWKEYS has just been sent or received. *)
Definition completing_ok t : Prop :=
  is_Some (t_session_id t) /\
  (t_phase t <> Established ->
   (t_recv_newkeys t = true -> t_sent_newkeys t = true) /\
   forall p, t_pending t = Some p ->
     t_recv_newkeys t = true \/ (t_sent_newkeys t = true /\ p_inn p <> Cipher_None)).

Lemma maybe_complete_kex_wp t :
  tinv_gen completing_ok t -> wp Transport.maybe_complete_kex (fun _ => tinv) no_err t.
Proof.
  intros H. unfold Transport.maybe_complete_kex. do 2 wp_step. apply wp_if; intros Hb.
  - wp_step. destruct H. constructor; auto. intros Hp. destruct ti_hs0 as [_ Hc].
    destruct (Hc Hp) as [Hc1 Hc2]. apply negb_true_iff, andb_false_iff in Hb.
    assert (Hr : t_recv_newkeys t = false).
    { destruct (t_recv_newkeys t), (t_sent_newkeys t), Hb; auto. symmetry. auto. }
    split; [done|]. intros p Hpp. destruct (Hc2 p Hpp); [congruence|done].
  - apply negb_false_iff, andb_true_iff in Hb as [Hs Hr].
    do 2 wp_step. apply wp_bind.
    apply (wp_mono _ (fun _ t1 => t_phase t1 = Established /\ t_initial_kex_done t1 = true /\
      t_cipher_out t1 = t_cipher_out t /\ t_rx t1 = t_rx t /\ t_rx_pos t1 = t_rx_pos t /\
      t_peer_kexinit t1 = t_peer_kexinit t /\ t_negotiated t1 = t_negotiated t /\
      t_closing t1 = t_closing t /\ t_pending t1 = None /\
      t_consecutive_peer_rekeys t1 = t_consecutive_peer_rekeys t /\
      t_max_consecutive_peer_rekeys t1 = t_max_consecutive_peer_rekeys t /\
      t_session_id t1 = t_session_id t /\ t_obfuscation t1 = t_obfuscation t) _ no_err);
      [| |done].
    { destruct (t_initial_kex_done t) eqn:Hd.
      - cbn [negb when]. wp_step. cbn. pose proof (proj2 (ti_done _ _ H) Hd). split_and!; auto.
      - cbn [negb when]. unfold Transport.push_event. do 5 wp_step. cbn. split_and!; auto. }
    cbv beta. intros ? t1 (E1&E2&E3&E4&E5&E6&E7&E8&E9&E10&E11&E12&E13).
    do 20 wp_step.
    set (t2 := set t_tx_app_queue _ _).
    assert (H2 : tinv t2).
    { unfold t2. destruct H, ti_hs0 as [Hsid _].
      constructor; unfold tx_ok, handshake_ok in *; cbn in *;
        rewrite ?E1, ?E2, ?E3, ?E4, ?E5, ?E6, ?E7, ?E8, ?E9, ?E10, ?E11, ?E12, ?E13; auto;
        try done; unfold epoch_ok, EPOCH_HARD_PACKETS; lia. }
    eapply wp_mono; [apply mfor_write_packet_wp, (ti_tx _ _ H2)| |done].
    intros ? t3 W. exact (tinv_wrote _ _ W H2).
Qed.

Lemma send_newkeys_wp t :
  tinv_gen derived_ok t -> wp Transport.send_newkeys (fun _ => tinv) no_err t.
Proof.
  intros H. unfold Transport.send_newkeys. apply wp_bind.
  eapply wp_mono; [apply write_packet_wp, (ti_tx _ _ H)| |done].
  cbv beta. intros ? t1 W.
  assert (H1 : tinv_gen derived_ok t1).
  { eapply tinv_gen_wrote; [|exact W|exact H]. pose proof (w_core _ _ W) as E.
    unfold core in E. injection E. clear E. intros. unfold derived_ok in *.
    repeat match goal with H : _ t1 = _ t |- _ => rewrite H end. done. }
  clear t H W. do 2 wp_step. pose proof (ti_hs _ _ H1) as (Hr & p & Hp & Ho & Hi). rewrite Hp.
  apply wp_bind. do 3 wp_step. apply wp_bind.
  set (R := fun t2 => exists co sq, t2 = t1 <| t_cipher_out := p_out p |>
     <| t_pending := Some (mkPendingKeys Cipher_None (p_inn p)) |> <| t_comp_out := co |>
     <| t_tx_seq := sq |>).
  apply (wp_mono _ (fun _ => R) _ no_err); [| |done].
  { apply wp_when; intros _.
    - wp_step. exists (Compressor.new (t_comp_out_name t1)), (t_tx_seq t1). reflexivity.
    - exists (t_comp_out t1), (t_tx_seq t1). destruct t1; reflexivity. }
  intros ? t2 (co & sq & ->). apply wp_bind. apply (wp_mono _ (fun _ => R) _ no_err); [| |done].
  { apply wp_when; intros _; [wp_step; exists co, 0|exists co, sq]; reflexivity. }
  clear co sq. intros ? t2 (co & sq & ->). do 2 wp_step.
  apply maybe_complete_kex_wp.
  assert (Hsid : is_Some (t_session_id t1)) by (apply (ti_sid _ _ H1); right; by rewrite Hp).
  tinv_set H1. split; [done|]. intros Hph. split; [done|]. intros q [= <-]. by right.
Qed.

Lemma on_newkeys_wp t :
  tinv t -> wp Transport.on_newkeys (fun _ => tinv) (fun _ _ => True) t.
Proof.
  intros H. unfold Transport.on_newkeys. do 4 wp_step; [|done]. rename a into p. rename H0 into Hp.
  do 4 wp_step. apply wp_bind.
  set (R := fun t2 => exists ci sq, t2 = t <| t_cipher_in := p_inn p |>
     <| t_pending := Some (mkPendingKeys (p_out p) Cipher_None) |> <| t_comp_in := ci |>
     <| t_rx_seq := sq |>).
  apply (wp_mono _ (fun _ => R) _ no_err); [| |done].
  { apply wp_when; intros _.
    - wp_step. exists (Decompressor.new (t_comp_in_name t)), (t_rx_seq t). reflexivity.
    - exists (t_comp_in t), (t_rx_seq t). destruct t; reflexivity. }
  intros ? t2 (co & sq & ->). apply wp_bind. apply (wp_mono _ (fun _ => R) _ no_err); [| |done].
  { apply wp_when; intros _; [wp_step; exists co, 0|exists co, sq]; reflexivity. }
  clear co sq. intros ? t2 (co & sq & ->). do 2 wp_step.
  eapply wp_mono; [apply maybe_complete_kex_wp|done|done].
  assert (Hsid : is_Some (t_session_id t)) by (apply (ti_sid _ _ H); right; by rewrite Hp).
  tinv_set H. split; [done|]. intros Hph. split; [|by left].
  intros _. by destruct (ti_hs0 Hph) as [_ Hx]; destruct (Hx p Hp).
Qed.

(** ** Key-exchange handlers *)

Lemma total_ecdh_agree kp b :
  (exists x, ecdh_agree kp b = Ok x) \/ (exists e, ecdh_agree kp b = Err e).
Proof. unfold ecdh_agree. repeat case_match; eauto. Qed.

Lemma total_mlkem_agree hc b :
  (exists x, mlkem.agree hc b = Ok x) \/ (exists e, mlkem.agree hc b = Err e).
Proof.
  unfold mlkem.agree. repeat case_match; eauto.
  destruct (total_ecdh_agree (mlkem.x25519 hc) (zdrop MLKEM_CT_LEN b)) as [[? ->]|[? ->]]; cbn; eauto.
Qed.

Lemma total_sntrup_agree hc b :
  (exists x, sntrup.agree hc b = Ok x) \/ (exists e, sntrup.agree hc b = Err e).
Proof.
  unfold sntrup.agree. repeat case_match; eauto.
  destruct (total_ecdh_agree (sntrup.x25519 hc) (zdrop SNTRUP_CT_LEN b)) as [[? ->]|[? ->]]; cbn; eauto.
Qed.

Lemma wp_lift_rng {A} (o : result A) (Q : A -> Rng -> Prop) r :
  ((exists x, o = Ok x) \/ (exists e, o = Err e)) -> (forall x, Q x r) ->
  wp (lift o) Q (fun _ _ => True) r.
Proof. intros [[x ->]|[e ->]] H; apply wp_lift; auto. Qed.

Lemma wp_draw {A} (f : Rng -> A * Rng) (Q : A -> Rng -> Prop) X r :
  (forall a r', Q a r') -> wp (draw f) Q X r.
Proof. intros H. unfold wp, draw. destruct (f r). apply H. Qed.

Lemma ecdh_generate_wp (Q : EcdhKeypair -> Rng -> Prop) X r :
  (forall kp r', fresh_pair kp -> Q kp r') -> wp ecdh_generate Q X r.
Proof.
  intros H. destruct (ecdh_generate_fresh r) as (kp & r' & Heq & Hf). unfold wp. rewrite Heq. auto.
Qed.

Lemma server_kex_wp kind q r :
  wp (Transport.server_kex kind q) (fun _ _ => True) (fun _ _ => True) r.
Proof.
  destruct kind; cbn [Transport.server_kex].
  - apply wp_bind, ecdh_generate_wp. intros kp r' _.
    apply wp_bind, wp_lift_rng; [apply total_ecdh_agree|done].
  - unfold mlkem.server_respond. apply wp_if; intros _; [done|].
    do 2 wp_step; [|done]. apply wp_bind, wp_draw. intros m r1.
    destruct (mlkem_encapsulate _ _) as [ct kpq]. apply wp_bind, ecdh_generate_wp. intros kp r2 _.
    apply wp_bind, wp_lift_rng; [apply total_ecdh_agree|done].
  - unfold sntrup.server_respond. apply wp_if; intros _; [done|].
    do 2 wp_step; [|done]. apply wp_bind, wp_draw. intros m r1.
    destruct (sntrup_encapsulate _ _) as [ct kpq]. apply wp_bind, ecdh_generate_wp. intros kp r2 _.
    apply wp_bind, wp_lift_rng; [apply total_ecdh_agree|done].
Qed.

Lemma client_ephemeral_wp kind r :
  wp (Transport.client_ephemeral_for kind) (fun _ _ => True) (fun _ _ => False) r.
Proof.
  destruct kind; cbn [Transport.client_ephemeral_for]; apply wp_bind.
  - by apply ecdh_generate_wp.
  - unfold mlkem.generate. apply wp_bind, wp_draw. intros s r1. apply wp_bind.
    by apply ecdh_generate_wp.
  - unfold sntrup.generate. apply wp_bind, wp_draw. intros s r1.
    destruct (sntrup_from_seed s). apply wp_bind. by apply ecdh_generate_wp.
Qed.

Lemma compute_exchange_hash_wp qc qs hb k hash t :
  wp (Transport.compute_exchange_hash qc qs hb k hash)
    (fun _ t' => t' = t /\ is_Some (t_peer_kexinit t)) (fun _ _ => True) t.
Proof.
  unfold Transport.compute_exchange_hash. do 4 wp_step; [|done]. do 2 wp_step; [|done].
  wp_step. split; [done|by eexists].
Qed.

Lemma negotiate_total c s :
  (exists n, negotiate c s = Ok n) \/ (exists e, negotiate c s = Err e).
Proof.
  unfold negotiate, negotiate_m, run, bind, lift, ret.
  repeat match goal with
  | |- context [match pick ?a ?b ?s with _ => _ end] =>
      destruct (pick_total a b s) as [[? ->]| ->]; cbn [fst]; eauto
  end.
Qed.

Lemma kexinit_round_wp p t :
  tinv t -> wp (Transport.kexinit_round p) (fun _ => tinv) (fun _ _ => True) t.
Proof.
  intros H. unfold Transport.kexinit_round. do 2 wp_step.
  apply wp_bind, wp_lift_total; [apply (total_run (KexInit.parse_r _)), total_parse_kexinit|]. intros peer _.
  apply wp_bind, wp_lift_total; [apply (total_run (KexInit.parse_r _)), total_parse_kexinit|]. intros local _.
  apply wp_bind, wp_lift_total; [destruct (t_role t); apply negotiate_total|]. intros n _.
  apply wp_bind. apply (wp_mono _ (fun _ => tinv) _ (fun _ _ => True)); [| |done].
  { apply wp_when; intros _; [wp_step; tinv_set H|exact H]. }
  cbv beta. clear H. intros ? t0 H. do 6 wp_step.
  match goal with |- wp _ _ _ ?s => set (t1 := s) end.
  assert (H1 : tinv t1) by (unfold t1; tinv_set H; eauto).
  clearbody t1. apply wp_if; intros _; [|exact H1].
  do 2 wp_step. apply wp_bind, wp_with_rng.
  eapply wp_mono; [apply client_ephemeral_wp| |done]. cbv beta. intros [eph v] r _.
  apply wp_bind. eapply wp_mono; [apply write_packet_tinv; tinv_set H1| |done].
  cbv beta. intros ? t2 H2. wp_step. tinv_set H2.
Qed.

Lemma on_peer_kexinit_wp p t :
  tinv t -> t_closing t = false ->
  wp (Transport.on_peer_kexinit p) (fun _ => tinv) (fun _ _ => True) t.
Proof.
  intros H Hcl. unfold Transport.on_peer_kexinit. do 2 wp_step.
  apply wp_if; intros Hb; [|by apply kexinit_round_wp].
  apply andb_true_iff in Hb as [He _]. unfold Transport.is_established in He.
  apply bool_decide_eq_true in He.
  destruct (ti_peer _ _ H) as (Hp1 & Hp2 & [Hp3|Hp3]); [|congruence].
  apply wp_bind, wp_checked; [lia|]. cbv beta. do 2 wp_step.
  apply wp_if; intros Hn.
  - eapply wp_mono with (Q := fun _ => tinv) (X := no_err); [|done|done].
    unfold Transport.disconnect. do 2 wp_step.
    apply wp_if; intros Hc; [cbn in Hc; congruence|].
    apply wp_bind. eapply wp_mono; [apply write_packet_wp; exact (ti_tx _ _ H)| |done].
    cbv beta. intros ? t1 W. wp_step. pose proof (w_core _ _ W) as E. unfold core in E. cbn in E.
    injection E. clear E. intros. pose proof (w_tx _ _ W (ti_tx _ _ H)) as [? _].
    destruct W as [_ Wc _ _]. cbn in Wc. destruct H.
    constructor; unfold tx_ok, handshake_ok in *; cbn;
      repeat match goal with H : _ t1 = _ |- _ => rewrite H in * ; clear H end; auto.
    + split; [done|by right].
    + split_and!; auto; lia.
    + by rewrite Wc.
  - apply wp_bind.
    eapply wp_mono; [apply begin_rekey_round_wp; [|exact He]| |done].
    + tinv_set H. split_and!; auto; lia.
    + cbv beta. intros ? t1 [H1 _]. by apply kexinit_round_wp.
Qed.

Lemma write_finish_wp m h k hash t :
  tinv t -> is_Some (t_peer_kexinit t) ->
  wp (Transport.write_packet m ;;; Transport.finish_kex h k hash ;;; Transport.send_newkeys)
    (fun _ => tinv) (fun _ _ => True) t.
Proof.
  intros H Hpk. apply wp_bind.
  eapply wp_mono; [apply write_packet_wp, (ti_tx _ _ H)| |done]. cbv beta. intros ? t1 W.
  assert (Hn : is_Some (t_negotiated t1)).
  { pose proof (w_core _ _ W) as E. unfold core in E. injection E. clear E. intros.
    repeat match goal with H : _ t1 = _ |- _ => rewrite H; clear H end. by apply (ti_neg _ _ H). }
  apply wp_bind. eapply wp_mono; [apply finish_kex_wp; [exact (tinv_wrote _ _ W H)|exact Hn]| |done].
  cbv beta. intros ? t2 H2. eapply wp_mono; [by apply send_newkeys_wp|done|done].
Qed.

Lemma on_ecdh_init_wp p t :
  tinv t -> wp (Transport.on_ecdh_init p) (fun _ => tinv) (fun _ _ => True) t.
Proof.
  intros H. unfold Transport.on_ecdh_init. do 2 wp_step.
  apply wp_if; intros _; [wp_step; tinv_set H|].
  apply wp_bind. eapply wp_parse_with; [total|]. intros qc. do 2 wp_step; [|done].
  apply wp_bind, wp_with_rng. eapply wp_mono; [apply server_kex_wp| |done].
  cbv beta. intros [qs shared] r _. apply wp_bind.
  eapply wp_mono; [apply compute_exchange_hash_wp| |done]. cbv beta. intros h ? [-> Hpk].
  apply write_finish_wp; [tinv_set H|exact Hpk].
Qed.

Lemma on_ecdh_reply_wp p t :
  tinv t -> wp (Transport.on_ecdh_reply p) (fun _ => tinv) (fun _ _ => True) t.
Proof.
  intros H. unfold Transport.on_ecdh_reply. do 2 wp_step.
  apply wp_if; intros _; [wp_step; tinv_set H|].
  apply wp_bind. eapply wp_parse_with; [total|]. intros [[hb qs] sig]. do 4 wp_step; [|done].
  set (t1 := set t_kex_eph _ t). assert (H1 : tinv t1) by (unfold t1; tinv_set H).
  clearbody t1. apply wp_bind.
  apply (wp_mono _ (fun _ t2 => t2 = t1) _ (fun _ _ => True)); [| |done].
  { destruct a; apply wp_bind, wp_lift_total;
      (apply total_ecdh_agree || apply total_mlkem_agree || apply total_sntrup_agree || done). }
  cbv beta. intros [[qc shared] kind] ? ->. apply wp_bind.
  eapply wp_mono; [apply compute_exchange_hash_wp| |done]. cbv beta. intros h ? [-> Hpk].
  apply wp_bind, wp_lift_total; [apply (total_run HostPublicKey.parse_blob_r), total_parse_hostkey|]. intros hp _.
  apply wp_bind, wp_lift_total; [apply (total_run (HostPublicKey.verify_r _ _)), total_verify|]. intros _ _.
  unfold Transport.push_event. do 2 wp_step. apply wp_bind.
  eapply wp_mono; [apply finish_kex_wp; [tinv_set H1|apply (ti_neg _ _ H1), Hpk]| |done].
  cbv beta. intros ? t2 H2. eapply wp_mono; [by apply send_newkeys_wp|done|done].
Qed.

(** ** Dispatch *)

Lemma handle_packet_wp p t :
  tinv t -> t_closing t = false ->
  wp (Transport.handle_packet p) (fun _ => tinv) (fun _ _ => True) t.
Proof.
  intros H Hcl. unfold Transport.handle_packet. destruct p as [|id p]; [done|]. do 2 wp_step.
  apply wp_if; intros _; [done|]. apply wp_if; intros _; [done|]. apply wp_if; intros _.
  { apply wp_bind, wp_on_local. eapply wp_mono; [|intros ? ?|intros ? ? ?; exact I].
    - assert (Ht : total_reader (let* _ := Reader.u8 in Reader.u32)) by total. apply Ht.
    - intros _. unfold Transport.push_event. wp_step. tinv_set H. }
  apply wp_if; intros _; [by apply on_peer_kexinit_wp|].
  apply wp_if; intros _; [by apply on_ecdh_init_wp|].
  apply wp_if; intros _; [by apply on_ecdh_reply_wp|].
  apply wp_if; intros _; [by apply on_newkeys_wp|].
  apply wp_if; intros _; [|done].
  unfold Transport.push_event. do 3 wp_step. tinv_set H.
  destruct ti_peer0 as (? & ? & _). split_and!; auto; lia.
Qed.

Lemma activate_compression_tinv t :
  tinv t -> wp Transport.activate_compression (fun _ => tinv) no_err t.
Proof.
  intros H. eapply wp_mono; [apply activate_compression_wp| |done].
  intros ? t' W. exact (tinv_wrote _ _ W H).
Qed.

(** A packet, after its bytes have been taken off the buffer. *)
Definition advanced (consumed : Z) t : Transport := t <| t_rx_pos ::= fun p => p + consumed |>.

Lemma drive_packet_wp p consumed t :
  tinv (advanced consumed t) -> t_closing t = false ->
  wp (Transport.drive_packet p consumed) (fun _ => tinv) (fun _ _ => True) t.
Proof.
  intros H Hcl. unfold Transport.drive_packet. do 2 wp_step.
  fold (advanced consumed t). assert (Hcl1 : t_closing (advanced consumed t) = false) by exact Hcl.
  generalize dependent (advanced consumed t). clear t Hcl. intros t H Hcl.
  pose proof (ti_rxn _ _ H) as Hn. do 7 wp_step.
  apply wp_checked; [cbn; unfold EPOCH_HARD_PACKETS, U64_MAX in *; lia|]. cbv beta.
  do 2 wp_step. apply wp_if; intros He; [done|]. cbn in He.
  apply wp_bind. set (t1 := set t_rx_packets_since_rekey _ _).
  assert (H1 : tinv t1) by (unfold t1; tinv_set H; lia).
  assert (Hcl1 : t_closing t1 = false) by exact Hcl. clearbody t1. clear t H Hcl Hn He.
  apply (wp_mono _ (fun _ t2 => tinv t2 /\ t_closing t2 = false) _ (fun _ _ => True)); [| |done].
  { eapply wp_mono; [by apply decompress_in_wp|by intros ? t2 [? ->]|done]. }
  cbv beta. intros body t2 [H2 Hcl2]. apply wp_bind.
  eapply wp_mono; [by apply handle_packet_wp| |done]. cbv beta. intros ? t3 H3.
  do 3 wp_step. apply (wp_mono _ (fun _ => tinv) _ no_err); [| |done].
  { apply wp_when; intros _; [by apply activate_compression_tinv|done]. }
  cbv beta. intros ? t4 H4. do 2 wp_step.
  apply wp_when; intros _; [|done]. eapply wp_mono; [by apply initiate_rekey_wp|done|done].
Qed.
End Inv.

(** * Input *)

Definition rx_bounds (rx : bytes) (pos : Z) : Prop := 0 <= pos <= len rx.
Abbreviation tinv := (tinv_gen rx_bounds handshake_ok).
Abbreviation tinv_at rx pos := (tinv_gen (fun r p => r = rx /\ p = pos) handshake_ok).

Section Drive.
Context `{C : Crypto} `{!CryptoOk C} `{!FlateOk C}.
Implicit Types t : Transport.
Abbreviation no_err := (fun (_ : SshError) (_ : Transport) => False).

Lemma tinv_frame (F G : bytes -> Z -> Prop) t :
  G (t_rx t) (t_rx_pos t) -> tinv_gen F handshake_ok t -> tinv_gen G handshake_ok t.
Proof. intros HG []. by constructor. Qed.

Ltac tinv_set H :=
  let R := fresh in pose proof H as R; destruct R;
  constructor; unfold tx_ok, handshake_ok, derived_ok in *; cbn in *; auto.

Lemma compact_rx_wp t : tinv t -> wp Transport.compact_rx (fun _ => tinv) no_err t.
Proof.
  intros H. unfold Transport.compact_rx. do 2 wp_step.
  apply wp_if; intros; [done|]. apply wp_bind. pose proof (ti_rx _ _ _ H) as Hr. unfold rx_bounds in Hr.
  apply wp_if; intros; do 2 wp_step; tinv_set H.
  - unfold rx_bounds. len_lia.
  - unfold rx_bounds. rewrite len_zdrop by lia. lia.
Qed.


(** How many bytes are left to process. *)
Definition backlog t : Z := len (t_rx t) - t_rx_pos t.

Lemma unread_wp (Q : bytes -> Transport -> Prop) X t :
  tinv t -> Q (zdrop (t_rx_pos t) (t_rx t)) t -> wp Transport.unread Q X t.
Proof.
  intros H HQ. pose proof (ti_rx _ _ _ H) as Hr. unfold rx_bounds in Hr.
  unfold Transport.unread. do 2 wp_step.
  by replace (t_rx_pos t <=? len (t_rx t)) with true by lia.
Qed.

Lemma drive_loop_wp fuel t :
  tinv t -> backlog t < Z.of_nat fuel ->
  wp (Transport.drive_loop fuel) (fun _ => tinv) (fun _ _ => True) t.
Proof.
  revert t. induction fuel as [|fuel IH]; intros t H Hf.
  { pose proof (ti_rx _ _ _ H) as Hr. unfold rx_bounds, backlog in *. lia. }
  pose proof (ti_rx _ _ _ H) as Hr. unfold rx_bounds in Hr.
  cbn [Transport.drive_loop]. do 2 wp_step. destruct (t_closing t) eqn:Hcl; [done|].
  apply wp_if; intros Hph.
  - apply bool_decide_eq_true in Hph. apply wp_bind, unread_wp; [done|].
    set (input := zdrop _ _). apply wp_bind; apply wp_lift_total.
    { destruct (parse_peer_id_returns input (bool_decide (t_role t = Client))) as [[? ?]|[? ?]]; eauto. }
    intros [[peer consumed]|] Hp; [|eapply wp_mono; [by apply compact_rx_wp|done|done]].
    destruct (parse_peer_id_bounds _ _ _ _ Hp) as (Hc & _).
    unfold input in Hc. rewrite len_zdrop in Hc by lia. do 6 wp_step. apply IH.
    + tinv_set H; rewrite ?Hph in *.
      * unfold rx_bounds. lia.
      * split; [done|]. intros Hd. by apply ti_done0 in Hd.
      * intros [|]; [done|]. auto.
      * intros [|]; [done|]. auto.
      * intros Hr'. by destruct (ti_rekey0 Hr').
      * done.
      * intros _. by apply ti_hs0.
    + unfold backlog in *. cbn. lia.
  - apply wp_bind, unread_wp; [done|]. set (input := zdrop _ _).
    apply wp_bind, wp_zoom.
    eapply wp_mono; [apply open_wp| |done]. cbv beta.
    intros [[p consumed]|] c' [Hc1 Hc2].
    + destruct Hc2 as (Hb & -> & _). unfold MIN_PACKET, input in Hb. rewrite len_zdrop in Hb by lia.
      apply wp_bind.
      eapply wp_mono; [apply (drive_packet_wp (fun r p => r = t_rx t /\ p = t_rx_pos t + consumed))| |done].
      * tinv_set H.
      * done.
      * cbv beta. intros ? t1 H1. pose proof (ti_rx _ _ _ H1) as [E1 E2].
        apply IH; [eapply tinv_frame; [|exact H1]|]; unfold rx_bounds, backlog in *; rewrite E1, E2; lia.
    + subst c'. eapply wp_mono; [apply compact_rx_wp|done|done]. by destruct t.
Qed.

Lemma on_input_wp data t :
  tinv t -> wp (Transport.on_input data) (fun _ => tinv) (fun _ _ => True) t.
Proof.
  intros H. unfold Transport.on_input. do 2 wp_step. destruct (t_closing t); [done|].
  do 2 wp_step. unfold Transport.drive.
  match goal with |- wp _ _ _ ?s => set (t1 := s) end.
  assert (H1 : tinv t1).
  { unfold t1. pose proof (ti_rx _ _ _ H) as Hr. unfold rx_bounds in Hr. tinv_set H.
    unfold rx_bounds. len_lia. }
  pose proof (ti_rx _ _ _ H1) as Hr. unfold rx_bounds in Hr.
  exact (drive_loop_wp (S (length (t_rx t1))) t1 H1 ltac:(unfold backlog, len in *; lia)).
Qed.

Lemma start_tinv role rng hk oc ocomp :
  exists t, Transport.start role rng hk oc ocomp = (Ok tt, t) /\ tinv t.
Proof.
  assert (H0 : forall k, tinv ((Transport.initial role rng hk oc ocomp)
    <| t_local_kexinit := k |> <| t_kexinit_sent := true |>)).
  { intros k. constructor; unfold tx_ok, handshake_ok, epoch_ok, rx_bounds; cbn; try done.
    all: try (unfold EPOCH_HARD_PACKETS, DEFAULT_MAX_CONSECUTIVE_PEER_REKEYS, U32_MAX, U16_MAX,
      U8_MAX; lia).
    - by intros [|].
    - intros [|[? ?]]; done. }
  pose proof (send_kexinit_wp (Transport.initial role rng hk oc ocomp)) as Hw.
  unfold wp in Hw. specialize (Hw (ti_tx _ _ _ (H0 []))).
  unfold Transport.start. destruct (Transport.send_kexinit _) as [[[]|e| |] t]; try done.
  exists t. split; [done|]. by eapply (tinv_wrote rx_bounds); [exact Hw|].
Qed.
End Drive.
