(* ===== verification/TransportSteps.v ===== *)
(** The interface of the transport as a step relation, the states its calls can reach,
    and the invariant of [TransportInv] over them. *)
From S2P Require Import Prelude Errors Wire Packet Version Crypto Kex Algo Cipher Compress.
From S2P Require Import Transport TransportInv.

(** * The interface as a step relation *)
Inductive t_op :=
| Op_input (data : bytes)
| Op_send (payload : bytes)
| Op_disconnect (reason : Z) (description : bytes)
| Op_take_output
| Op_clear_output
| Op_poll_event
| Op_rekey
| Op_chaff
| Op_chaff_burst
| Op_set_obfuscation (o : Obfuscation)
| Op_set_rekey_limits (b p : Z).

(** The arguments that are typed in the source: [u8] and [u16] policy fields. *)
Definition op_ok (o : t_op) : Prop :=
  match o with
  | Op_set_obfuscation o =>
      0 <= max_chaff_len o <= U16_MAX /\ 0 <= max_chaff_per_flush o <= U8_MAX
  | _ => True
  end.

Section Steps.
Context `{C : Crypto}.
Implicit Types t : Transport.

Definition discard {A} (m : M SshError Transport A) : M SshError Transport unit :=
  let* _ := m in ret tt.

Definition t_run (o : t_op) : M SshError Transport unit :=
  match o with
  | Op_input data => Transport.on_input data
  | Op_send p => Transport.send_packet p
  | Op_disconnect r d => Transport.disconnect r d
  | Op_take_output => discard Transport.take_output
  | Op_clear_output => Transport.clear_output
  | Op_poll_event => discard Transport.poll_event
  | Op_rekey => Transport.initiate_rekey
  | Op_chaff => Transport.send_chaff
  | Op_chaff_burst => Transport.send_chaff_burst
  | Op_set_obfuscation o => Transport.set_obfuscation o
  | Op_set_rekey_limits b p => Transport.set_rekey_limits b p
  end.

(** A call that returned without an error. *)
Definition tstep t t' : Prop := exists o, op_ok o /\ t_run o t = (Ok tt, t').

Definition treachable t : Prop :=
  exists role rng hk oc ocomp t0,
    Transport.start role rng hk oc ocomp = (Ok tt, t0) /\ steps tstep t0 t.

Context `{!CryptoOk C} `{!FlateOk C}.

Lemma t_run_wp o t : op_ok o -> tinv t -> wp (t_run o) (fun _ => tinv) (fun _ _ => True) t.
Proof.
  intros Ho H. destruct o; cbn [t_run].
  - by apply on_input_wp.
  - eapply wp_mono; [by apply send_packet_wp|done|done].
  - eapply wp_mono; [by apply disconnect_wp|done|done].
  - unfold discard, Transport.take_output. wp_steps. destruct H. by constructor.
  - unfold Transport.clear_output. wp_steps. destruct H. by constructor.
  - unfold discard, Transport.poll_event. do 3 wp_step. destruct (t_events t); wp_steps; [done|].
    destruct H. by constructor.
  - eapply wp_mono; [by apply initiate_rekey_wp|done|done].
  - eapply wp_mono; [by apply send_chaff_wp|done|done].
  - eapply wp_mono; [by apply send_chaff_burst_wp|done|done].
  - unfold Transport.set_obfuscation. wp_steps. destruct H. by constructor.
  - unfold Transport.set_rekey_limits. wp_steps. destruct H. by constructor.
Qed.

Lemma treachable_tinv t : treachable t -> tinv t.
Proof.
  intros (role & rng & hk & oc & ocomp & t0 & Hs & Hst).
  destruct (start_tinv role rng hk oc ocomp) as (t1 & Hs1 & H1).
  assert (t1 = t0) as -> by congruence.
  eapply steps_invariant; [|exact Hst|exact H1].
  intros s s' (o & Ho & Hr) H. pose proof (t_run_wp o s Ho H) as Hw. unfold wp in Hw.
  by rewrite Hr in Hw.
Qed.

Definition returns {A} (o : result A) : Prop :=
  match o with Ok _ | Err _ => True | Panic | OutOfFuel => False end.
End Steps.
