(* ===== verification/TransportDemo.v ===== *)
(** An executed handshake over the toy algorithms of [Crypto.Toy]: a client and a server
    run to the established state, and an attack on the server; the states are recorded
    values, and the kernel replays the handlers against them. *)
From S2P Require Import Prelude Errors Wire Packet Version Crypto Kex Algo Cipher Compress.
From S2P Require Import Transport TransportInv TransportSteps.

(** * A handshake, executed *)
Module Demo.
Import Toy.
Definition run_on (m : M SshError Transport unit) (t : Transport) : Transport := snd (m t).
Definition feed (data : bytes) (t : Transport) : Transport := run_on (Transport.on_input data) t.
Definition flushed (t : Transport) : Transport := run_on Transport.clear_output t.

(** Identification and KEXINIT, then KEX_ECDH_INIT, the reply, and NEWKEYS: each state is
    the value of the step that its comment-free defining term runs. *)
Definition cl0 : Transport := Eval vm_compute in snd (Transport.new_client 5).
Definition sv0 : Transport := Eval vm_compute in
  snd (Transport.new_server 9 (HostKey.from_seed [1; 2; 3])).
Definition sv1 : Transport := Eval vm_compute in feed (t_tx cl0) (flushed sv0).
Definition cl1 : Transport := Eval vm_compute in feed (t_tx sv0) (flushed cl0).
Definition sv2 : Transport := Eval vm_compute in feed (t_tx cl1) (flushed sv1).
Definition cl2 : Transport := Eval vm_compute in feed (t_tx sv2) (flushed cl1).
Definition sv3 : Transport := Eval vm_compute in feed (t_tx cl2) (flushed sv2).

(** The attack: a client that has the keys runs an uncounted exchange, starts a re-key
    before its NEWKEYS, and then sends NEWKEYS twice. *)
Definition at1 : Transport := Eval vm_compute in
  match run (Transport.client_ephemeral_for Kind_MlKem) (t_rng cl2) with
  | Ok (eph, v) =>
      run_on (Transport.write_packet (Writer.new >>> Writer.u8 msg.KEX_ECDH_INIT
                >>> Writer.string v >>> Writer.into_bytes))
        ((flushed cl2) <| t_kex_eph := Some eph |>)
  | _ => cl2
  end.
Definition sv4 : Transport := Eval vm_compute in feed (t_tx at1) (flushed sv3).
Definition at2 : Transport := Eval vm_compute in
  run_on (Transport.write_packet (t_local_kexinit cl2)) (flushed at1).
Definition at3 : Transport := Eval vm_compute in feed (t_tx sv4) at2.
Definition at4 : Transport := Eval vm_compute in run_on (Transport.write_packet [msg.NEWKEYS]) at3.
Definition sv5 : Transport := Eval vm_compute in feed (t_tx at4) (flushed sv4).
Definition sv5' : Transport := Eval vm_compute in flushed sv5.
Definition injected : bytes := [msg.CHANNEL_DATA; 1; 2; 3].
Definition sv6 : Transport := Eval vm_compute in feed (encode_plain_into injected []) sv5'.
End Demo.

Section Feed.
Context `{C : Crypto}.
Lemma treachable_run o t t' :
  treachable t -> op_ok o -> t_run o t = (Ok tt, t') -> treachable t'.
Proof.
  intros (role & rng & hk & oc & ocomp & t0 & Hs & Hst) Ho Hr.
  exists role, rng, hk, oc, ocomp, t0. split; [exact Hs|].
  apply (steps_snoc _ _ t); [exact Hst|]. exists o. split; [exact Ho|]. by rewrite Hr.
Qed.

Lemma treachable_feed data t t' :
  treachable t -> Transport.on_input data (snd (Transport.clear_output t)) = (Ok tt, t') ->
  treachable t'.
Proof.
  intros Ht Hr.
  apply (treachable_run (Op_input data) (snd (Transport.clear_output t))); [|exact I|exact Hr].
  by apply (treachable_run Op_clear_output t).
Qed.
End Feed.

(** An execution, replayed by the kernel against its recorded result. *)
Ltac ran t := vm_cast_no_check (@eq_refl (outcome SshError unit * Transport) (Ok tt, t)).

Lemma demo_server_start :
  Transport.start (C := Toy.crypto) Server 9 (Some (HostKey.from_seed [1; 2; 3])) None None
  = (Ok tt, Demo.sv0).
Proof. ran Demo.sv0. Qed.

Lemma demo_server_reachable : treachable (C := Toy.crypto) Demo.sv0.
Proof.
  exists Server, 9, (Some (HostKey.from_seed (C := Toy.crypto) [1; 2; 3])), None, None, Demo.sv0.
  split; [exact demo_server_start|apply steps_refl].
Qed.

Lemma demo_established : treachable (C := Toy.crypto) Demo.sv3.
Proof.
  apply (treachable_feed (t_tx Demo.cl2) Demo.sv2); [|ran Demo.sv3].
  apply (treachable_feed (t_tx Demo.cl1) Demo.sv1); [|ran Demo.sv2].
  apply (treachable_feed (t_tx Demo.cl0) Demo.sv0); [|ran Demo.sv1].
  apply demo_server_reachable.
Qed.

Lemma demo_attacked : treachable (C := Toy.crypto) Demo.sv5'.
Proof.
  apply (treachable_run Op_clear_output Demo.sv5); [|exact I|ran Demo.sv5'].
  apply (treachable_feed (t_tx Demo.at4) Demo.sv4); [|ran Demo.sv5].
  apply (treachable_feed (t_tx Demo.at1) Demo.sv3); [|ran Demo.sv4].
  apply demo_established.
Qed.
