(* ===== verification/TransportProps.v ===== *)
(** What the transport guarantees in its reachable states: no panic, encryption once
    established, the handshake filter and the re-key flood guard. *)
From S2P Require Import Prelude Errors Wire Packet Version Crypto Kex Algo Cipher Compress.
From S2P Require Import Transport TransportInv TransportSteps TransportDemo.

Section Props.
Context `{C : Crypto}.
Implicit Types t : Transport.
Context `{!CryptoOk C} `{!FlateOk C}.


(** C10. Once the connection is up it has a session identifier and what it sends is
    encrypted, in every reachable state and through every re-key; packets wait in the
    queue only during a re-key, and no key epoch sends more than 2^31 packets. *)
Theorem established_sends_encrypted t :
  treachable t ->
  (t_phase t = Established -> t_cipher_out t <> Cipher_None /\ is_Some (t_session_id t)) /\
  (t_rekeying t = false -> t_tx_app_queue t = []) /\
  (t_rekeying t = true -> t_phase t = Established) /\
  t_tx_packets_since_rekey t <= EPOCH_HARD_PACKETS /\
  (t_tx_packets_since_rekey t = EPOCH_HARD_PACKETS -> t_closing t = true).
Proof.
  intros Ht. destruct (treachable_tinv t Ht). unfold tx_ok, epoch_ok in *.
  split; [intros Hp; split; auto|]. split; [done|].
  split; [intros Hr; by apply ti_rekey|]. split; [lia|].
  intros Hn. destruct ti_tx as (? & [?|?]); [lia|done].
Qed.

(** * The handshake filter *)

(** The messages a role handles before the connection is up. *)
Definition handshake_message (role : Role) (id : Z) : bool :=
  (id =? msg.DISCONNECT) || (id =? msg.KEXINIT) || (id =? msg.NEWKEYS)
  || (id =? match role with Server => msg.KEX_ECDH_INIT | Client => msg.KEX_ECDH_REPLY end).

(** C36. Before the connection is up, a message that is not part of the handshake is an
    error and changes nothing: no application packet is ever surfaced early, and in strict
    mode not even IGNORE, DEBUG or UNIMPLEMENTED pass (outside it the first two are
    dropped). *)
Theorem handshake_filter t id p :
  t_phase t <> Established -> handshake_message (t_role t) id = false ->
  Transport.handle_packet (id :: p) t =
    (if (id =? msg.IGNORE) || (id =? msg.DEBUG)
     then if t_strict_kex t then Err (Protocol "unexpected message during strict KEX") else Ok tt
     else if (id =? msg.UNIMPLEMENTED) && t_strict_kex t
          then Err (Protocol "unexpected message during strict KEX")
          else Err (Protocol "unexpected message during handshake"), t).
Proof.
  intros Hph Hm. unfold handshake_message in Hm.
  apply orb_false_iff in Hm as [Hm H30]. apply orb_false_iff in Hm as [Hm H21].
  apply orb_false_iff in Hm as [H1 H20].
  unfold Transport.handle_packet, bind, get, Transport.is_established.
  rewrite bool_decide_false by done. rewrite H1, H20, H21. cbn [negb].
  destruct (t_strict_kex t), (id =? msg.IGNORE), (id =? msg.DEBUG), (id =? msg.UNIMPLEMENTED),
    (t_role t); cbn; rewrite ?H30; try done.
  all: destruct (id =? msg.KEX_ECDH_INIT), (id =? msg.KEX_ECDH_REPLY); done.
Qed.

(** * The re-key flood guard *)

(** A peer that starts one re-key too many with no application traffic in between is
    disconnected instead of served: the counter has reached the maximum, nothing of its
    KEXINIT is processed, and the connection closes. *)
Lemma rekey_flood_guard t p :
  tinv t -> t_phase t = Established -> t_kexinit_sent t = false -> t_closing t = false ->
  t_consecutive_peer_rekeys t = t_max_consecutive_peer_rekeys t ->
  exists t', Transport.on_peer_kexinit p t = (Ok tt, t') /\ t_closing t' = true /\
    t_peer_kexinit t' = t_peer_kexinit t /\ t_negotiated t' = t_negotiated t /\
    t_rekeying t' = t_rekeying t.
Proof.
  intros H Hp Hk Hcl He. destruct (ti_peer _ _ _ H) as (H1 & H2 & _).
  assert (Hw : wp (Transport.on_peer_kexinit p) (fun _ t' => t_closing t' = true /\
    t_peer_kexinit t' = t_peer_kexinit t /\ t_negotiated t' = t_negotiated t /\
    t_rekeying t' = t_rekeying t) (fun _ _ => False) t).
  { unfold Transport.on_peer_kexinit. do 2 wp_step. apply wp_if; intros Hb.
    2:{ unfold Transport.is_established in Hb. rewrite bool_decide_true, Hk in Hb; done. }
    apply wp_bind, wp_checked; [lia|]. cbv beta. do 2 wp_step.
    apply wp_if; intros Hn; [|lia]. unfold Transport.disconnect. do 2 wp_step.
    apply wp_if; intros Hc; [cbn in Hc; congruence|].
    apply wp_bind. eapply wp_mono; [apply write_packet_wp; exact (ti_tx _ _ _ H)| |done].
    cbv beta. intros ? t1 W. wp_step. pose proof (w_core _ _ W) as E. unfold core in E. cbn in E.
    injection E. clear E. intros. cbn. auto. }
  unfold wp in Hw. destruct (Transport.on_peer_kexinit p t) as [[[]|e| |] t']; try done.
  exists t'. by destruct Hw as (? & ? & ? & ?).
Qed.
End Props.

(** * Witnesses *)


Lemma established_sends_encrypted_witness :
  t_cipher_out Demo.sv3 <> Cipher_None /\ is_Some (t_session_id Demo.sv3).
Proof.
  apply (@established_sends_encrypted Toy.crypto Toy.crypto_ok Toy.flate_ok Demo.sv3 demo_established).
  reflexivity.
Defined.

Lemma handshake_filter_witness :
  Transport.handle_packet (C := Toy.crypto) (msg.CHANNEL_DATA :: [1]) Demo.sv1 =
    (Err (Protocol "unexpected message during handshake"), Demo.sv1).
Proof. apply (@handshake_filter Toy.crypto Demo.sv1 msg.CHANNEL_DATA [1]); [discriminate|reflexivity]. Defined.

Lemma rekey_flood_guard_witness :
  let t := Demo.sv3 <| t_max_consecutive_peer_rekeys := 0 |> in
  exists t', Transport.on_peer_kexinit (C := Toy.crypto) [] t = (Ok tt, t') /\ t_closing t' = true /\
    t_peer_kexinit t' = t_peer_kexinit t /\ t_negotiated t' = t_negotiated t /\
    t_rekeying t' = t_rekeying t.
Proof.
  apply (@rekey_flood_guard Toy.crypto Toy.flate_ok); try reflexivity.
  destruct (@treachable_tinv Toy.crypto Toy.crypto_ok Toy.flate_ok _ demo_established). constructor; try done.
  split; [done|]. split; [vm_compute; intuition congruence|]. left. vm_compute. congruence.
Defined.
