(* ===== verification/TransportStream.v ===== *)
(** The transport as a transducer of a byte stream: what its packet loop does depends on
    the bytes that it has not consumed and not on how they reached its buffer, so the bytes
    of a connection may be cut anywhere between two calls of [on_input]. *)
From S2P Require Import Prelude Errors Wire Packet Version Crypto Kex Algo Cipher Compress.
From S2P Require Import Transport TransportInv TransportSteps TransportDemo.

(** * The rest of the state does not see the buffer *)
Section Blind.
Context `{C : Crypto}.
Implicit Types t : Transport.

Definition put (rx : bytes) (pos : Z) t : Transport := t <| t_rx := rx |> <| t_rx_pos := pos |>.

(** [m] neither reads nor writes the buffer and its cursor. *)
Definition blind {A} (m : M SshError Transport A) : Prop :=
  forall rx pos t, m (put rx pos t) = (fst (m t), put rx pos (snd (m t))).

Lemma blind_bind {A B} (m : M SshError Transport A) (k : A -> M SshError Transport B) :
  blind m -> (forall a, blind (k a)) -> blind (bind m k).
Proof.
  intros Hm Hk rx pos t. unfold bind. rewrite Hm. destruct (m t) as [[a|e| |] t']; cbn [fst snd]; [|done..].
  apply Hk.
Qed.
Lemma blind_get {B} (k : Transport -> M SshError Transport B) :
  (forall rx pos t, k (put rx pos t) = k t) -> (forall t, blind (k t)) -> blind (bind get k).
Proof. intros He Hk rx pos t. unfold bind, get. rewrite He. apply Hk. Qed.
Lemma blind_gets {B} (f : Transport -> B) :
  (forall rx pos t, f (put rx pos t) = f t) -> blind (gets f).
Proof. intros He rx pos t. unfold gets. by rewrite He. Qed.
Lemma blind_modify f : (forall rx pos t, f (put rx pos t) = put rx pos (f t)) -> blind (modify f).
Proof. intros He rx pos t. unfold modify. by rewrite He. Qed.
Lemma blind_ret {A} (a : A) : blind (ret a).
Proof. done. Qed.
Lemma blind_err {A} e : blind (err (A := A) e).
Proof. done. Qed.
Lemma blind_lift {A} (o : outcome SshError A) : blind (lift o).
Proof. done. Qed.
Lemma blind_ok_or {A} (o : option A) e : blind (ok_or o e).
Proof. by destruct o. Qed.
Lemma blind_unwrap {A} (o : option A) : blind (unwrap o).
Proof. by destruct o. Qed.
Lemma blind_checked hi x : blind (checked hi x).
Proof. unfold checked. by destruct (_ && _). Qed.
Lemma blind_when b m : blind m -> blind (when b m).
Proof. by destruct b. Qed.
Lemma blind_zoom {T A} (g : Transport -> T) p (m : M SshError T A) :
  (forall rx pos t, g (put rx pos t) = g t) ->
  (forall rx pos x t, p x (put rx pos t) = put rx pos (p x t)) -> blind (zoom g p m).
Proof. intros Hg Hp rx pos t. unfold zoom. rewrite Hg. destruct (m (g t)). cbn. by rewrite Hp. Qed.
Lemma blind_on_local {T A} (m : M SshError T A) (x : T) : blind (on_local m x).
Proof. intros rx pos t. unfold on_local. by destruct (m x) as [[]]. Qed.
Lemma blind_mfor {A} (l : list A) (k : A -> M SshError Transport unit) :
  (forall x, blind (k x)) -> blind (mfor l k).
Proof. intros Hk. induction l as [|x l IH]; [done|]. by apply blind_bind. Qed.
End Blind.

Create HintDb blind.
Ltac blind_step :=
  cbv beta zeta;
  lazymatch goal with
  | |- blind (bind get _) => apply blind_get; [reflexivity|intros ?]
  | |- blind (bind _ _) => apply blind_bind; [|intros ?]
  | |- blind (gets _) => apply blind_gets; reflexivity
  | |- blind (modify _) => apply blind_modify; reflexivity
  | |- blind (ret _) => apply blind_ret
  | |- blind (err _) => apply blind_err
  | |- blind (lift _) => apply blind_lift
  | |- blind (ok_or _ _) => apply blind_ok_or
  | |- blind (unwrap _) => apply blind_unwrap
  | |- blind (checked _ _) => apply blind_checked
  | |- blind (when _ _) => apply blind_when
  | |- blind (zoom _ _ _) => apply blind_zoom; reflexivity
  | |- blind (on_local _ _) => apply blind_on_local
  | |- blind (mfor _ _) => apply blind_mfor; intros ?
  | |- blind (if ?b then _ else _) => destruct b
  | |- blind (match ?x with _ => _ end) => destruct x
  | |- _ => solve [auto with blind]
  end.
Ltac blind_auto := repeat blind_step.

Section Handlers.
Context `{C : Crypto} `{!CryptoOk C}.
Implicit Types t : Transport.

Lemma blind_seal body : blind (Transport.seal body).
Proof.
  apply blind_modify. intros rx pos t. cbn [t_cipher_out t_tx_seq t_rng t_tx put set].
  change (t_cipher_out (put rx pos t)) with (t_cipher_out t). change (t_tx_seq (put rx pos t)) with (t_tx_seq t).
  change (t_rng (put rx pos t)) with (t_rng t). change (t_tx (put rx pos t)) with (t_tx t).
  by destruct (Cipher.seal_into _ _ _ _ _) as [[c r] x].
Qed.
#[local] Hint Resolve blind_seal : blind.

Lemma blind_write_packet p : blind (Transport.write_packet p).
Proof. unfold Transport.write_packet, Transport.activate_compression. blind_auto. Qed.
#[local] Hint Resolve blind_write_packet : blind.

Lemma blind_send_kexinit : blind Transport.send_kexinit.
Proof. unfold Transport.send_kexinit, Transport.with_rng. blind_auto. Qed.
#[local] Hint Resolve blind_send_kexinit : blind.

Lemma blind_initiate_rekey : blind Transport.initiate_rekey.
Proof. unfold Transport.initiate_rekey, Transport.begin_rekey_round. blind_auto. Qed.

Lemma blind_send_newkeys : blind Transport.send_newkeys.
Proof. unfold Transport.send_newkeys, Transport.maybe_complete_kex, Transport.push_event. blind_auto. Qed.

Lemma blind_finish_kex h s k : blind (Transport.finish_kex h s k).
Proof. unfold Transport.finish_kex. blind_auto. Qed.
#[local] Hint Resolve blind_initiate_rekey blind_send_newkeys blind_finish_kex : blind.

Lemma blind_handle_packet p : blind (Transport.handle_packet p).
Proof.
  unfold Transport.handle_packet, Transport.on_peer_kexinit, Transport.begin_rekey_round,
    Transport.kexinit_round, Transport.on_ecdh_init, Transport.on_ecdh_reply, Transport.on_newkeys,
    Transport.maybe_complete_kex, Transport.compute_exchange_hash, Transport.parse_with,
    Transport.disconnect, Transport.push_event, Transport.with_rng.
  blind_auto.
Qed.
#[local] Hint Resolve blind_handle_packet : blind.

(** The cursor moves past the packet, and that is all that a packet does to the buffer. *)
Lemma drive_packet_put p n rx pos t :
  Transport.drive_packet p n (put rx pos t) =
    (fst (Transport.drive_packet p n (put [] 0 t)),
     put rx (pos + n) (snd (Transport.drive_packet p n (put [] 0 t)))).
Proof.
  assert (Hb : exists k, blind k /\ forall s, Transport.drive_packet p n s =
    k (s <| t_rx_pos := t_rx_pos s + n |>)).
  { eexists. split; [|intros s; unfold Transport.drive_packet, bind at 1, modify at 1; reflexivity].
    unfold Transport.decompress_in, Transport.activate_compression. blind_auto. }
  destruct Hb as (k & Hk & E). rewrite !E.
  change (k (put rx (pos + n) t) = (fst (k (put [] (0 + n) t)), put rx (pos + n) (snd (k (put [] (0 + n) t))))).
  by rewrite (Hk rx), (Hk []).
Qed.

(** * The packet loop as a function of the bytes that are left

    It gives the state without its buffer and the bytes that it has not consumed. *)
Fixpoint feed (fuel : nat) (w : bytes) t : outcome SshError unit * (Transport * bytes) :=
  match fuel with
  | O => (OutOfFuel, (t, w))
  | S fuel' =>
      if t_closing t then (Ok tt, (t, w))
      else if bool_decide (t_phase t = NeedPeerVersion) then
        match parse_peer_id w (bool_decide (t_role t = Client)) with
        | Ok (Some (peer, n)) =>
            feed fuel' (zdrop n w) (t <| t_peer_id := Some (raw peer) |> <| t_phase := Handshake |>)
        | Ok None => (Ok tt, (t, w))
        | Err e => (Err e, (t, w))
        | Panic => (Panic, (t, w))
        | OutOfFuel => (OutOfFuel, (t, w))
        end
      else
        let '(o, c) := Cipher.open (t_rx_seq t) w (t_cipher_in t) in
        let t := t <| t_cipher_in := c |> in
        match o with
        | Ok (Some (p, n)) =>
            let '(o, t) := Transport.drive_packet p n t in
            match o with
            | Ok _ => feed fuel' (zdrop n w) (put [] 0 t)
            | _ => (o, (put [] 0 t, zdrop n w))
            end
        | Ok None => (Ok tt, (t, w))
        | Err e => (Err e, (t, w))
        | Panic => (Panic, (t, w))
        | OutOfFuel => (OutOfFuel, (t, w))
        end
  end.

(** What a state has left to read. *)
Definition left_over t (w : bytes) : Prop :=
  0 <= t_rx_pos t <= len (t_rx t) /\ zdrop (t_rx_pos t) (t_rx t) = w.
Definition core t : Transport := put [] 0 t.

Lemma left_over_drop t w n pos rx :
  left_over t w -> 0 <= n <= len w -> pos = t_rx_pos t + n -> rx = t_rx t ->
  forall t', t_rx t' = rx -> t_rx_pos t' = pos -> left_over t' (zdrop n w).
Proof.
  intros [Hb Hw] Hn -> -> t' E1 E2. unfold left_over. rewrite E1, E2.
  assert (Hl : len w = len (t_rx t) - t_rx_pos t) by (rewrite <- Hw, len_zdrop; lia).
  split; [lia|]. by rewrite <- Hw, zdrop_zdrop by lia.
Qed.

Lemma compact_left t w : left_over t w -> Transport.compact_rx t = (Ok tt, put w 0 (core t)).
Proof.
  intros [Hb Hw]. unfold Transport.compact_rx, bind, get.
  destruct (Z.eqb_spec (t_rx_pos t) 0) as [Hz|Hz].
  - rewrite Hz, zdrop_0 in Hw. subst w. unfold ret. rewrite <- Hz. unfold put, core. by destruct t.
  - unfold modify. destruct (Z.leb_spec (len (t_rx t)) (t_rx_pos t)).
    + assert (w = []) as ->; [|by unfold put, core; destruct t].
      apply len_zero_inv. rewrite <- Hw, len_zdrop; lia.
    + rewrite Hw. unfold put, core. by destruct t.
Qed.

Lemma drive_loop_feed fuel w t :
  left_over t w ->
  let '(o, (t', w')) := feed fuel w (core t) in
  exists s, Transport.drive_loop fuel t = (o, s) /\ core s = core t' /\
    (o <> Ok tt \/ t_closing t' = true \/ s = put w' 0 (core t')).
Proof.
  revert w t. induction fuel as [|fuel IH]; intros w t Hl; cbn [feed Transport.drive_loop].
  { exists t. split; [done|]. split; [done|]. by left. }
  change (t_closing (core t)) with (t_closing t). unfold bind at 1, get.
  destruct (t_closing t) eqn:Hcl. { exists t. split; [done|]. split; [done|]. right. by left. }
  change (t_phase (core t)) with (t_phase t). change (t_role (core t)) with (t_role t).
  assert (Hu : Transport.unread t = (Ok w, t)).
  { destruct Hl as [Hb Hw]. unfold Transport.unread, bind, get, ret.
    replace (t_rx_pos t <=? len (t_rx t)) with true by lia. by rewrite Hw. }
  case_bool_decide as Hph.
  - unfold bind at 1. rewrite Hu. unfold bind at 1, lift.
    destruct (parse_peer_id w (bool_decide (t_role t = Client))) as [[[peer n]|]|e| |] eqn:Hp.
    + destruct (parse_peer_id_bounds _ _ _ _ Hp) as (Hn & _).
      specialize (IH (zdrop n w) (t <| t_peer_id := Some (raw peer) |> <| t_rx_pos := t_rx_pos t + n |>
        <| t_phase := Handshake |>)).
      exact (IH ltac:(eapply (left_over_drop t); [exact Hl|lia|reflexivity..])).
    + rewrite (compact_left t w Hl). eexists. split; [done|]. split; [done|]. by do 2 right.
    + eexists. split; [done|]. split; [done|]. by left.
    + eexists. split; [done|]. split; [done|]. by left.
    + eexists. split; [done|]. split; [done|]. by left.
  - unfold bind at 1. rewrite Hu. unfold bind at 1, zoom.
    change (t_rx_seq (core t)) with (t_rx_seq t). change (t_cipher_in (core t)) with (t_cipher_in t).
    pose proof (open_wp (t_cipher_in t) (t_rx_seq t) w) as Hw. unfold wp in Hw.
    destruct (Cipher.open (t_rx_seq t) w (t_cipher_in t)) as [[[[p n]|]|e| |] c] eqn:Ho; try done.
    + destruct Hw as (_ & Hn & _). unfold MIN_PACKET in Hn.
      set (t1 := set t_cipher_in _ t). assert (Hl1 : left_over t1 w) by exact Hl.
      change (set t_cipher_in (fun _ => c) (core t)) with (put [] 0 t1).
      assert (Ed : Transport.drive_packet p n t1 =
        (fst (Transport.drive_packet p n (put [] 0 t1)),
         put (t_rx t1) (t_rx_pos t1 + n) (snd (Transport.drive_packet p n (put [] 0 t1)))))
        by by rewrite <- drive_packet_put.
      unfold bind at 1. rewrite Ed.
      destruct (Transport.drive_packet p n (put [] 0 t1)) as [[[]|e| |] t2]; cbn [fst snd].
      * apply (IH (zdrop n w) (put (t_rx t1) (t_rx_pos t1 + n) t2)).
        eapply (left_over_drop t1); [exact Hl1|lia|reflexivity..].
      * eexists. split; [done|]. split; [done|]. by left.
      * eexists. split; [done|]. split; [done|]. by left.
      * eexists. split; [done|]. split; [done|]. by left.
    + destruct Hw as [_ ->]. rewrite (compact_left _ w) by exact Hl. eexists. split; [done|]. split; [done|]. by do 2 right.
    + eexists. split; [done|]. split; [done|]. by left.
Qed.

(** * Cutting the stream *)

(** The same outcome, but for the text of a bad identification. *)
Definition alike (o o' : outcome SshError unit) : Prop :=
  o = o' \/ exists s s', o = Err (BadVersion s) /\ o' = Err (BadVersion s').

(** More rounds do not change a result. *)
Lemma feed_more fuel k w t o r :
  feed fuel w t = (o, r) -> o <> OutOfFuel -> feed (fuel + k) w t = (o, r).
Proof.
  revert w t. induction fuel as [|fuel IH]; intros w t; cbn [Nat.add feed]; [by intros [= <- <-]|].
  intros Hr Ho. repeat case_match; simplify_eq; try done; by apply IH.
Qed.

Lemma feed_enough fuel fuel' w t o r o' r' :
  feed fuel w t = (o, r) -> o <> OutOfFuel -> feed fuel' w t = (o', r') -> o' <> OutOfFuel ->
  o = o' /\ r = r'.
Proof.
  intros H1 H2 H3 H4. apply (feed_more _ fuel') in H1; [|done]. apply (feed_more _ fuel) in H3; [|done].
  rewrite Nat.add_comm in H3. rewrite H1 in H3. by injection H3.
Qed.

(** The first part of the input, then the second. *)
Lemma feed_then more fuel w t o t1 w1 :
  feed fuel w t = (o, (t1, w1)) -> o <> OutOfFuel ->
  (o = Ok tt /\ t_closing t1 = false /\
   forall k o' r, feed k (w1 ++ more) t1 = (o', r) -> o' <> OutOfFuel -> feed (fuel + k) (w ++ more) t = (o', r)) \/
  ((o = Ok tt -> t_closing t1 = true) /\
   exists o' w', feed fuel (w ++ more) t = (o', (t1, w')) /\ alike o' o).
Proof.
  revert w t. induction fuel as [|fuel IH]; intros w t; cbn [feed]; [by intros [= <- _ _]|].
  destruct (t_closing t) eqn:Hcl.
  { intros [= <- <- <-] _. right. split; [done|]. eexists _, _. split; [done|by left]. }
  case_bool_decide as Hph.
  - destruct (parse_peer_id w (bool_decide (t_role t = Client))) as [[[peer n]|]|e| |] eqn:Hp.
    + rewrite (parse_peer_id_stable w more _ _ _ Hp).
      destruct (parse_peer_id_bounds _ _ _ _ Hp) as (Hn & _). rewrite zdrop_app_l by lia.
      intros Hf Ho. cbn [Nat.add feed]. rewrite Hcl, bool_decide_true, (parse_peer_id_stable w more _ _ _ Hp) by done.
      rewrite zdrop_app_l by lia. by apply IH.
    + intros [= <- <- <-] _. left. do 2 (split; [done|]). intros k o' r Hk Ho.
      rewrite Nat.add_comm. apply (feed_more k (S fuel)); [exact Hk|exact Ho].
    + intros [= <- <- <-] _. right. split; [done|].
      destruct (parse_peer_id_error _ more _ _ Hp) as (s1 & s2 & -> & ->).
      eexists _, _. split; [done|]. right. by eexists _, _.
    + by destruct (parse_peer_id_returns w (bool_decide (t_role t = Client))) as [[? ?]|[? ?]]; congruence.
    + by destruct (parse_peer_id_returns w (bool_decide (t_role t = Client))) as [[? ?]|[? ?]]; congruence.
  - pose proof (open_wp (t_cipher_in t) (t_rx_seq t) w) as Hw. unfold wp in Hw.
    pose proof (open_stable (t_cipher_in t) (t_rx_seq t) w more) as Hs.
    destruct (Cipher.open (t_rx_seq t) w (t_cipher_in t)) as [[[[p n]|]|e| |] c] eqn:Ho; try done.
    + destruct Hw as (_ & Hn & _). unfold MIN_PACKET in Hn. rewrite Hs by done.
      rewrite zdrop_app_l by lia.
      destruct (Transport.drive_packet p n _) as [[[]|e| |] t2] eqn:Hd.
      * intros Hf Hne. cbn [Nat.add feed].
        rewrite Hcl, bool_decide_false, (Hs ltac:(done)), Hd, zdrop_app_l by (done || lia). by apply IH.
      * intros [= <- <- <-] _. right. split; [done|]. eexists _, _. split; [done|by left].
      * intros [= <- <- <-] _. right. split; [done|]. eexists _, _. split; [done|by left].
      * by intros [= <- _ _].
    + destruct Hw as [_ ->]. intros [= <- <- <-] _.
      assert (E : t <| t_cipher_in := t_cipher_in t |> = t) by by destruct t. rewrite E.
      left. do 2 (split; [done|]). intros k o' r Hk Hne.
      rewrite Nat.add_comm. apply (feed_more k (S fuel)); [exact Hk|exact Hne].
    + intros [= <- <- <-] _. right. split; [done|]. rewrite Hs by done. eexists _, _. split; [done|by left].
Qed.

#[export] Instance alike_equivalence : Equivalence alike.
Proof.
  unfold alike. split.
  - intros o. by left.
  - intros o o' [->|(s & s' & -> & ->)]; [by left|]. right. by eexists _, _.
  - intros o1 o2 o3 [->|(s & s' & -> & ->)]; [done|].
    intros [<-|(s2 & s3 & E & ->)]; right; by eexists _, _.
Qed.

(** Two runs that take the same course: the same result, and the same state but for bytes
    that nobody will read, because the connection is closing or has failed. *)
Definition same_course (r r' : outcome SshError unit * Transport) : Prop :=
  alike (fst r) (fst r') /\ core (snd r) = core (snd r') /\
  (fst r = Ok tt -> t_closing (snd r) = false -> r = r').

Lemma closing_core t t' : core t = core t' -> t_closing t = t_closing t'.
Proof. intros E. change (t_closing (core t) = t_closing (core t')). by rewrite E. Qed.

Lemma same_course_trans r1 r2 r3 : same_course r1 r2 -> same_course r2 r3 -> same_course r1 r3.
Proof.
  intros (A1 & A2 & A3) (B1 & B2 & B3). split; [by rewrite A1|]. split; [congruence|].
  intros Ho Hc. specialize (A3 Ho Hc). subst r2. by apply B3.
Qed.

Lemma on_input_feed data t w :
  left_over t w -> t_closing t = false ->
  let '(o, (t', w')) := feed (S (length (t_rx t ++ data))) (w ++ data) (core t) in
  exists s, Transport.on_input data t = (o, s) /\ core s = core t' /\
    (o <> Ok tt \/ t_closing t' = true \/ s = put w' 0 (core t')).
Proof.
  intros [Hb Hw] Hc. unfold Transport.on_input, bind at 1, get. rewrite Hc.
  unfold bind, modify, Transport.drive. set (t1 := set t_rx _ t).
  apply (drive_loop_feed _ (w ++ data) t1). split.
  - change (t_rx_pos t1) with (t_rx_pos t). change (t_rx t1) with (t_rx t ++ data).
    rewrite len_app. pose proof (len_nonneg data). lia.
  - change (zdrop (t_rx_pos t) (t_rx t ++ data) = w ++ data). by rewrite zdrop_app_l, Hw by lia.
Qed.

Lemma on_input_closing data t : t_closing t = true -> Transport.on_input data t = (Ok tt, t).
Proof. intros Hc. unfold Transport.on_input, bind, get. by rewrite Hc. Qed.

Lemma feed_core fuel w t o t' w' : core t = t -> feed fuel w t = (o, (t', w')) -> core t' = t'.
Proof.
  revert w t. induction fuel as [|fuel IH]; intros w t Ht; cbn [feed]; [by intros [= _ <- _]|].
  assert (Hs : forall f : Transport -> Transport, (forall s, core (f (core s)) = f (core s)) -> core (f t) = f t).
  { intros f Hf. rewrite <- Ht. apply Hf. }
  destruct (t_closing t); [by intros [= _ <- _]|]. case_bool_decide.
  - repeat case_match; intros Hr; simplify_eq; try done. eapply IH; [|exact Hr].
    apply (Hs (fun s => s <| t_peer_id := _ |> <| t_phase := _ |>)). done.
  - destruct (Cipher.open _ _ _) as [o1 c].
    assert (Hc : core (t <| t_cipher_in := c |>) = t <| t_cipher_in := c |>)
      by by apply (Hs (fun s => s <| t_cipher_in := c |>)).
    repeat case_match; intros Hr; simplify_eq; try done. by eapply IH; [|exact Hr].
Qed.

Context `{!FlateOk C}.

Lemma on_input_returns data t o s :
  tinv t -> Transport.on_input data t = (o, s) -> o <> OutOfFuel /\ (o = Ok tt -> tinv s).
Proof. intros Ht E. pose proof (on_input_wp data t Ht) as Hw. unfold wp in Hw. rewrite E in Hw. by destruct o as [[]| | |]. Qed.

Lemma on_input_two a b t :
  tinv t ->
  same_course (Transport.on_input (a ++ b) t) ((Transport.on_input a ;;; Transport.on_input b) t).
Proof.
  intros Ht. destruct (t_closing t) eqn:Hc.
  { unfold bind. rewrite !on_input_closing by done. split; [by left|done]. }
  set (w := zdrop (t_rx_pos t) (t_rx t)). assert (Hl : left_over t w) by (split; [apply (ti_rx _ _ _ Ht)|done]).
  pose proof (on_input_feed a t w Hl Hc) as Ha. pose proof (on_input_feed (a ++ b) t w Hl Hc) as Hab.
  destruct (feed _ (w ++ a) _) as [oa [ta wa]] eqn:Fa. destruct Ha as (sa & Ea & Ka & Ra).
  destruct (feed _ (w ++ a ++ b) _) as [oab [tab wab]] eqn:Fab. destruct Hab as (sab & Eab & Kab & Rab).
  pose proof (on_input_returns _ _ _ _ Ht Ea) as [Na Ta]. pose proof (on_input_returns _ _ _ _ Ht Eab) as [Nab _].
  pose proof (feed_core _ _ (core t) _ _ _ eq_refl Fa) as Qa. rewrite Qa in Ka.
  unfold bind. rewrite Ea, Eab. rewrite (app_assoc w a b) in Fab.
  destruct (feed_then b _ _ _ _ _ _ Fa Na) as [(-> & Hca & Hk)|(Hoa & o' & w' & F' & Hal)].
  - destruct Ra as [?|[?|Ra]]; [done|congruence|]. rewrite Qa in Ra.
    assert (Hca' : t_closing sa = false) by by rewrite Ra.
    pose proof (on_input_feed b sa wa ltac:(rewrite Ra; split; [pose proof (len_nonneg wa); cbn; lia|by rewrite zdrop_0]) Hca') as Hb.
    rewrite Ka in Hb. destruct (feed _ (wa ++ b) ta) as [ob [tb wb]] eqn:Fb. destruct Hb as (sb & Eb & Kb & Rb).
    pose proof (on_input_returns _ _ _ _ (Ta eq_refl) Eb) as [Nb _].
    specialize (Hk _ _ _ Fb Nb). destruct (feed_enough _ _ _ _ _ _ _ _ Fab Nab Hk Nb) as [-> [= -> ->]].
    rewrite Eb. split; [by left|]. cbn [fst snd]. split; [congruence|]. intros -> Hc'. f_equal.
    pose proof (closing_core _ _ Kab) as Hcc. cbn in Hcc. rewrite Hc' in Hcc. clear Ra.
    destruct Rab as [?|[?| ->]]; [done|cbn in *; congruence|]. destruct Rb as [?|[?| ->]]; [done|cbn in *; congruence|done].
  - assert (No' : o' <> OutOfFuel) by (destruct Hal as [->|(? & ? & -> & _)]; done).
    destruct (feed_enough _ _ _ _ _ _ _ _ Fab Nab F' No') as [-> [= -> ->]].
    assert (Hcs : t_closing sa = t_closing ta) by (apply closing_core; congruence).
    assert (Er : (match (oa, sa) with
        | (Ok _, s') => Transport.on_input b s' | (Err e, s') => (Err e, s')
        | (Panic, s') => (Panic, s') | (OutOfFuel, s') => (OutOfFuel, s') end) = (oa, sa)).
    { destruct oa as [[]| | |]; [|done..]. apply on_input_closing. rewrite Hcs. by apply Hoa. }
    rewrite Er. split; [exact Hal|]. cbn [fst snd]. split; [congruence|]. intros -> Hc'.
    pose proof (closing_core _ _ Kab) as Hcc. destruct Hal as [<-|(? & ? & ? & _)]; [|done].
    specialize (Hoa eq_refl). cbn in Hcc. congruence.
Qed.

Lemma same_course_refl r : same_course r r.
Proof. split; [by left|done]. Qed.

Lemma on_input_pieces p ps t :
  tinv t -> same_course (Transport.on_input (List.concat (p :: ps)) t) (mfor (p :: ps) Transport.on_input t).
Proof.
  revert p t. induction ps as [|q ps IH]; intros p t Ht; cbn [mfor].
  - cbn [List.concat]. rewrite app_nil_r. unfold bind, ret.
    destruct (Transport.on_input p t) as [[[]| | |] s]; apply same_course_refl.
  - change (List.concat (p :: q :: ps)) with (p ++ List.concat (q :: ps)).
    eapply same_course_trans; [by apply on_input_two|].
    unfold bind at 1 2. destruct (Transport.on_input p t) as [[[]| | |] s] eqn:E; try apply same_course_refl.
    apply IH. exact (proj2 (on_input_returns _ _ _ _ Ht E) eq_refl).
Qed.

(** C9. The bytes of a connection may be cut anywhere: in every reachable state, handing
    the transport some bytes in one call or in any number of pieces gives the same result,
    but for the text of a bad identification, and the same state, which after an error or
    once the connection is closing may differ in the bytes that nobody will read. *)
Theorem cut_anywhere p ps t :
  treachable t -> same_course (Transport.on_input (List.concat (p :: ps)) t) (mfor (p :: ps) Transport.on_input t).
Proof. intros Ht. by apply on_input_pieces, treachable_tinv. Qed.
End Handlers.

(** The bytes of the client's first flight, one by one. *)
Lemma cut_anywhere_witness :
  mfor (List.map (fun b => [b]) (t_tx Demo.cl0)) (Transport.on_input (C := Toy.crypto)) Demo.sv0 =
  Transport.on_input (C := Toy.crypto) (t_tx Demo.cl0) Demo.sv0.
Proof.
  destruct (@cut_anywhere Toy.crypto Toy.crypto_ok Toy.flate_ok [znth (t_tx Demo.cl0) 0]
    (List.map (fun b => [b]) (zdrop 1 (t_tx Demo.cl0))) Demo.sv0 demo_server_reachable) as (_ & _ & H).
  symmetry. exact (H ltac:(vm_compute; reflexivity) ltac:(vm_compute; reflexivity)).
Defined.
