(* ===== verification/TransportDuplex.v ===== *)
(** Two ends of a connection: packets are delivered in order and without loss, and the
    two sides of a key exchange derive the same keys. *)
From S2P Require Import Prelude Errors Wire Packet Version Crypto Kex Algo Cipher Compress.
From S2P Require Import Transport TransportInv.
From S2P Require Import TransportSteps TransportDemo.

Section Duplex.
Context `{C : Crypto} `{!CryptoOk C}.
Implicit Types t a b : Transport.

(** * Delivery *)

(** A payload that the peer's transport hands to its application. *)
Definition app_payload (receiver : Role) (p : bytes) : bool :=
  match p with
  | [] => false
  | id :: _ =>
      negb ((id =? msg.IGNORE) || (id =? msg.DEBUG) || (id =? msg.DISCONNECT)
            || (id =? msg.KEXINIT) || (id =? msg.NEWKEYS)
            || (id =? match receiver with
                      | Server => msg.KEX_ECDH_INIT | Client => msg.KEX_ECDH_REPLY end))
  end.

(** [wire_of c seq ps w]: the bytes of the packets [ps] sealed one after the other, from
    cipher [c] and sequence number [seq]; the padding is whatever a generator gave. *)
Inductive wire_of : Cipher -> Z -> list bytes -> bytes -> Cipher -> Z -> Prop :=
| wire_nil c seq : wire_of c seq [] [] c seq
| wire_cons c seq p rng ps w c' seq' :
    wire_of (sealed_cipher c) (wrapping_add32 seq 1) ps w c' seq' ->
    wire_of c seq (p :: ps) (sealed c seq p rng ++ w) c' seq'.

Lemma wire_snoc c seq ps w c' seq' p rng :
  wire_of c seq ps w c' seq' ->
  wire_of c seq (ps ++ [p]) (w ++ sealed c' seq' p rng) (sealed_cipher c') (wrapping_add32 seq' 1).
Proof.
  induction 1; cbn [app].
  - rewrite <- (app_nil_r (sealed _ _ _ _)). constructor. constructor.
  - rewrite <- app_assoc. by constructor.
Qed.

(** Sending [ps] one after the other. *)
Definition send_all (ps : list bytes) : M SshError Transport unit := mfor ps Transport.send_packet.

(** The sender is up, idle, uncompressed, and below its limits for [ps]. *)
Record can_send (ps : list bytes) a : Prop := {
  cs_up : t_phase a = Established;
  cs_idle : t_rekeying a = false;
  cs_open : t_closing a = false;
  cs_comp : t_comp_out a = Compressor_None;
  cs_name : t_comp_out_name a <> COMPRESSION_ZLIB_OPENSSH;
  cs_packets : 0 <= t_tx_packets_since_rekey a /\
    t_tx_packets_since_rekey a + len ps < Z.min (t_rekey_packets_limit a) EPOCH_HARD_PACKETS;
  cs_bytes : t_bytes_since_rekey a + sum_len ps < Z.min (t_rekey_bytes_limit a) U64_MAX
}.

(** One send: the state after it, in full. *)
Lemma send_packet_eq p ps a :
  can_send (p :: ps) a ->
  exists r', let a' := a <| t_cipher_out := sealed_cipher (t_cipher_out a) |> <| t_rng := r' |>
        <| t_tx := t_tx a ++ sealed (t_cipher_out a) (t_tx_seq a) p (t_rng a) |>
        <| t_tx_packets_since_rekey := t_tx_packets_since_rekey a + 1 |>
        <| t_tx_seq := wrapping_add32 (t_tx_seq a) 1 |>
        <| t_bytes_since_rekey := saturating_add64 (t_bytes_since_rekey a) (len p) |> in
    Transport.send_packet p a = (Ok tt, a') /\ can_send ps a'.
Proof.
  intros [H1 H2 H3 H4 H5 H6 H7].
  destruct (seal_eq p a) as [r' Hs]. exists r'. cbv zeta.
  rewrite len_cons in H6. rewrite sum_len_cons in H7.
  unfold EPOCH_HARD_PACKETS, U64_MAX in *.
  pose proof (len_nonneg ps). pose proof (len_nonneg p).
  pose proof (sum_len_nonneg ps).
  assert (Hsat : saturating_add64 (t_bytes_since_rekey a) (len p) = t_bytes_since_rekey a + len p).
  { unfold saturating_add64, U64_MAX. lia. }
  split.
  - unfold Transport.send_packet, Transport.is_established, Transport.write_packet.
    unfold bind at 1, get. rewrite bool_decide_true by done. cbn [negb]. rewrite H2.
    unfold bind at 1. unfold bind at 1. rewrite H3. unfold bind at 1. rewrite H4. unfold ret at 1.
    unfold bind at 1. rewrite Hs. unfold bind at 1, checked, U64_MAX.
    replace ((0 <=? t_tx_packets_since_rekey a + 1) &&
             (t_tx_packets_since_rekey a + 1 <=? 18446744073709551615)) with true by lia.
    unfold ret at 1, bind at 1, modify at 1, bind at 1, modify at 1, bind at 1.
    unfold EPOCH_HARD_PACKETS.
    replace (2 ^ 31 <=? t_tx_packets_since_rekey a + 1) with false by lia. cbn [when].
    unfold ret at 1.
    replace (beq (t_comp_out_name a) COMPRESSION_ZLIB_OPENSSH) with false by (symmetry; by apply beq_false).
    rewrite andb_false_r. cbn [andb when]. unfold ret at 1, bind at 1, modify, bind, get.
    match goal with |- when ?c _ _ = _ => replace c with false end; [unfold when, ret; t_flat; reflexivity|].
    cbn. rewrite Hsat. lia.
  - constructor; cbn; try done; unfold EPOCH_HARD_PACKETS, U64_MAX; rewrite ?Hsat; lia.
Qed.

Lemma send_all_wire ps a :
  can_send ps a ->
  exists a' w, send_all ps a = (Ok tt, a') /\ t_tx a' = t_tx a ++ w /\
    wire_of (t_cipher_out a) (t_tx_seq a) ps w (t_cipher_out a') (t_tx_seq a').
Proof.
  revert a. induction ps as [|p ps IH]; intros a Ha.
  { exists a, []. rewrite app_nil_r. split; [done|]. split; [done|]. constructor. }
  destruct (send_packet_eq p ps a Ha) as (r' & Hs & Ha1). cbv zeta in *.
  unfold send_all. cbn [mfor]. unfold bind. rewrite Hs.
  destruct (IH _ Ha1) as (a' & w & H1 & H2 & H3). cbn in H2, H3.
  exists a'. eexists. split; [exact H1|]. rewrite H2, <- app_assoc. split; [done|]. by constructor.
Qed.

(** The receiver is up, uncompressed, below its limits, and in step with the sender. *)
Record can_receive (w : bytes) (n : Z) b : Prop := {
  cr_up : t_phase b = Established;
  cr_open : t_closing b = false;
  cr_comp : t_comp_in b = Decompressor_None;
  cr_name : t_comp_in_name b <> COMPRESSION_ZLIB_OPENSSH;
  cr_packets : 0 <= t_rx_packets_since_rekey b /\
    t_rx_packets_since_rekey b + n < Z.min (t_rekey_packets_limit b) EPOCH_HARD_PACKETS;
  cr_bytes : t_rx_bytes_since_rekey b + len w < Z.min (t_rekey_bytes_limit b) U64_MAX
}.

Lemma handle_app_packet p t :
  app_payload (t_role t) p = true -> t_phase t = Established ->
  Transport.handle_packet p t =
    (Ok tt, t <| t_consecutive_peer_rekeys := 0 |> <| t_events := t_events t ++ [Packet p] |>).
Proof.
  intros Hp Hph. destruct p as [|id p]; [done|]. unfold app_payload in Hp.
  apply negb_true_iff in Hp. repeat (apply orb_false_iff in Hp as [Hp ?]).
  unfold Transport.handle_packet, bind at 1, get, Transport.is_established.
  rewrite bool_decide_true by done. cbn [negb]. rewrite andb_false_r. cbn [andb].
  repeat match goal with H : (id =? _) = false |- _ => rewrite H; clear H end. cbn [orb andb].
  destruct (t_role t); cbn [bool_decide_eq_true];
    repeat match goal with H : (id =? _) = false |- _ => rewrite H; clear H end;
    rewrite ?andb_false_r, ?andb_false_l; unfold Transport.push_event, bind, modify, ret;
    cbn; try (t_flat; reflexivity).
Qed.

(** The counters of [drive_packet], before the packet is dispatched. *)
Definition counted (n : Z) t : Transport :=
  t <| t_rx_pos := t_rx_pos t + n |> <| t_rx_seq := wrapping_add32 (t_rx_seq t) 1 |>
    <| t_rx_bytes_since_rekey := saturating_add64 (t_rx_bytes_since_rekey t) n |>
    <| t_rx_packets_since_rekey := t_rx_packets_since_rekey t + 1 |>.

(** A packet on an uncompressed connection, once it has been counted. *)
Lemma drive_packet_counted p n t :
  t_comp_in t = Decompressor_None -> 0 <= t_rx_packets_since_rekey t + 1 < EPOCH_HARD_PACKETS ->
  Transport.drive_packet p n t =
    (Transport.handle_packet p ;;;
     let* t := get in
     when (bool_decide (t_role t = Client) && negb (t_comp_active t)
           && beq (t_comp_in_name t) COMPRESSION_ZLIB_OPENSSH
           && bool_decide (head p = Some msg.USERAUTH_SUCCESS)) Transport.activate_compression ;;;
     let* t := get in
     when (Transport.is_established t && ((t_rekey_bytes_limit t <=? t_rx_bytes_since_rekey t)
                                          || (t_rekey_packets_limit t <=? t_rx_packets_since_rekey t)))
       Transport.initiate_rekey) (counted n t).
Proof.
  intros Hc Hn. unfold EPOCH_HARD_PACKETS in *.
  unfold Transport.drive_packet, bind at 1, modify at 1, bind at 1, modify at 1, bind at 1,
    modify at 1, bind at 1, gets, bind at 1, checked, U64_MAX.
  match goal with |- context [t_rx_packets_since_rekey ?s] =>
    change (t_rx_packets_since_rekey s) with (t_rx_packets_since_rekey t) end.
  replace ((0 <=? t_rx_packets_since_rekey t + 1) &&
           (t_rx_packets_since_rekey t + 1 <=? 18446744073709551615)) with true by lia.
  unfold ret at 1, bind at 1, modify at 1, EPOCH_HARD_PACKETS.
  replace (2 ^ 31 <=? t_rx_packets_since_rekey t + 1) with false by lia.
  match goal with |- _ ?s = _ => replace s with (counted n t) by (unfold counted; t_flat; reflexivity) end.
  unfold bind at 1, Transport.decompress_in, bind at 1, get.
  change (t_comp_in (counted n t)) with (t_comp_in t). by rewrite Hc.
Qed.

Lemma drive_packet_app p n w k t :
  can_receive w (1 + k) t -> 0 <= k -> n <= len w ->
  app_payload (t_role t) p = true ->
  Transport.drive_packet p n t =
    (Ok tt, (counted n t) <| t_consecutive_peer_rekeys := 0 |>
                        <| t_events := t_events t ++ [Packet p] |>).
Proof.
  intros [H1 H2 H3 H4 H5 H6] Hk Hn Hp. unfold EPOCH_HARD_PACKETS, U64_MAX in *.
  rewrite drive_packet_counted by (unfold EPOCH_HARD_PACKETS; done || lia).
  unfold bind at 1. rewrite (handle_app_packet p (counted n t) Hp H1). set (t2 := set t_events _ _).
  assert (E : t_comp_in_name t2 = t_comp_in_name t /\ t_phase t2 = Established /\
    t_rx_bytes_since_rekey t2 = saturating_add64 (t_rx_bytes_since_rekey t) n /\
    t_rx_packets_since_rekey t2 = t_rx_packets_since_rekey t + 1 /\
    t_rekey_bytes_limit t2 = t_rekey_bytes_limit t /\
    t_rekey_packets_limit t2 = t_rekey_packets_limit t)
    by (split_and!; reflexivity || exact H1).
  clearbody t2. destruct E as (E1 & E2 & E3 & E4 & E5 & E6).
  unfold bind at 1, get, bind at 1. rewrite E1.
  replace (beq (t_comp_in_name t) COMPRESSION_ZLIB_OPENSSH) with false by (symmetry; by apply beq_false).
  rewrite andb_false_r. cbn [andb when]. unfold ret at 1, bind, Transport.is_established.
  rewrite E3, E4, E5, E6. unfold saturating_add64, U64_MAX.
  match goal with |- when ?c _ _ = _ => replace c with false by lia end. done.
Qed.

(** One packet at the cursor: consumed, and surfaced as an event. *)
Lemma drive_one fuel c seq p rng w k b :
  can_receive (sealed c seq p rng ++ w) (1 + k) b -> 0 <= k ->
  t_cipher_in b = c -> t_rx_seq b = seq -> app_payload (t_role b) p = true ->
  frame_region c (len p) <= MAX_PACKET_LENGTH ->
  0 <= t_rx_pos b <= len (t_rx b) -> zdrop (t_rx_pos b) (t_rx b) = sealed c seq p rng ++ w ->
  let n := len (sealed c seq p rng) in
  let b' := (counted n (b <| t_cipher_in := sealed_cipher c |>)) <| t_consecutive_peer_rekeys := 0 |>
              <| t_events := t_events b ++ [Packet p] |> in
  Transport.drive_loop (S fuel) b = Transport.drive_loop fuel b' /\ can_receive w k b'.
Proof.
  intros Hr Hk Hc Hseq Hp Hfr Hrx Hw n b'. pose proof Hr as [H1 H2 H3 H4 H5 H6].
  rewrite len_app in H6. fold n in H6. pose proof (len_nonneg w).
  assert (Hn : 0 <= n) by apply len_nonneg.
  split.
  2:{ unfold EPOCH_HARD_PACKETS, U64_MAX in *. constructor; cbn; unfold saturating_add64,
        EPOCH_HARD_PACKETS, U64_MAX; try done; lia. }
  cbn [Transport.drive_loop]. unfold bind at 1, get. rewrite H2.
  rewrite bool_decide_false by congruence. unfold bind at 1, Transport.unread, bind at 1, get.
  replace (t_rx_pos b <=? len (t_rx b)) with true by lia. unfold ret at 1. rewrite Hw.
  unfold bind at 1, zoom. rewrite Hc, Hseq, (open_sealed c seq p rng w Hfr). fold n.
  unfold bind at 1. set (b0 := set t_cipher_in _ b).
  assert (Hr0 : can_receive (sealed c seq p rng ++ w) (1 + k) b0) by (destruct Hr; by constructor).
  rewrite (drive_packet_app p n _ k b0 Hr0 Hk) by (rewrite ?len_app; fold n; lia || done).
  reflexivity.
Qed.

(** Every packet of a wire, in turn. *)
Lemma drive_all ps c seq w c' seq' b fuel :
  wire_of c seq ps w c' seq' ->
  can_receive w (len ps) b -> t_cipher_in b = c -> t_rx_seq b = seq ->
  Forall (fun p => app_payload (t_role b) p = true /\ frame_region c (len p) <= MAX_PACKET_LENGTH) ps ->
  0 <= t_rx_pos b <= len (t_rx b) -> zdrop (t_rx_pos b) (t_rx b) = w ->
  exists b', Transport.drive_loop (length ps + S fuel) b = (Ok tt, b') /\
    t_events b' = t_events b ++ map Packet ps /\ t_cipher_in b' = c' /\ t_rx_seq b' = seq' /\
    t_rx b' = [] /\ t_rx_pos b' = 0 /\ t_phase b' = Established /\ t_closing b' = false.
Proof.
  intros Hw. revert b. induction Hw as [c seq|c seq p rng ps w c' seq' Hw IH];
    intros b Hr Hc Hs Hps Hrx Hz.
  - cbn [length Nat.add Transport.drive_loop]. destruct Hr as [H1 H2 H3 H4 H5 H6].
    unfold bind at 1, get. rewrite H2, bool_decide_false by congruence.
    unfold bind at 1, Transport.unread, bind at 1, get.
    replace (t_rx_pos b <=? len (t_rx b)) with true by lia. unfold ret at 1. rewrite Hz.
    unfold bind at 1, zoom.
    assert (Ho : Cipher.open (t_rx_seq b) [] (t_cipher_in b) = (Ok None, t_cipher_in b)).
    { by destruct (t_cipher_in b). }
    rewrite Ho. set (b0 := set t_cipher_in _ b). unfold Transport.compact_rx, bind at 1, get.
    assert (Hlen : len (t_rx b) = t_rx_pos b).
    { assert (Hl : len (zdrop (t_rx_pos b) (t_rx b)) = 0) by by rewrite Hz.
      rewrite len_zdrop in Hl by lia. lia. }
    change (t_rx_pos b0) with (t_rx_pos b). change (t_rx b0) with (t_rx b).
    destruct (Z.eqb_spec (t_rx_pos b) 0) as [Hz0|Hz0].
    + exists b0. split; [done|]. cbn. rewrite app_nil_r. split_and!; try done.
      apply len_zero_inv. lia.
    + replace (len (t_rx b) <=? t_rx_pos b) with true by lia.
      eexists. split; [reflexivity|]. cbn. rewrite app_nil_r. split_and!; done.
  - apply List.Forall_cons_iff in Hps as [[Hp Hf] Hps].
    rewrite len_cons in Hr. cbn [length Nat.add].
    destruct (drive_one (length ps + S fuel) c seq p rng w (len ps) b Hr (len_nonneg _) Hc Hs Hp Hf
      Hrx Hz) as [-> Hr1]. set (n := len (sealed c seq p rng)) in *.
    assert (Hn : 0 <= n <= len (t_rx b) - t_rx_pos b).
    { assert (Hl : len (zdrop (t_rx_pos b) (t_rx b)) = n + len w) by by rewrite Hz, len_app.
      rewrite len_zdrop in Hl by lia. pose proof (len_nonneg w). split; [apply len_nonneg|lia]. }
    destruct (IH _ Hr1) as (b' & H1 & H2 & H3).
    + done.
    + cbn. by rewrite Hs.
    + eapply Forall_impl; [|exact Hps]. cbn. intros q [? Hq]. split; [done|]. by destruct c.
    + cbn. lia.
    + cbn. rewrite <- zdrop_zdrop by lia. rewrite Hz. by apply zdrop_app_len.
    + exists b'. split; [exact H1|]. split; [|exact H3]. rewrite H2. cbn. by rewrite <- app_assoc.
Qed.

Lemma sealed_pos c seq p rng :
  frame_region c (len p) <= MAX_PACKET_LENGTH -> (0 < length (sealed c seq p rng))%nat.
Proof.
  intros Hf. pose proof (open_wp c seq (sealed c seq p rng ++ [])) as Hw. unfold wp in Hw.
  rewrite (open_sealed c seq p rng [] Hf) in Hw. destruct Hw as (_ & Hb & _).
  unfold MIN_PACKET, len in Hb. rewrite app_nil_r in Hb. lia.
Qed.

Lemma wire_length c seq ps w c' seq' :
  wire_of c seq ps w c' seq' ->
  Forall (fun p => frame_region c (len p) <= MAX_PACKET_LENGTH) ps -> (length ps <= length w)%nat.
Proof.
  induction 1 as [|c seq p rng ps w c' seq' _ IH]; intros Hps; [done|].
  apply List.Forall_cons_iff in Hps as [Hp Hps]. rewrite length_app. cbn [length].
  pose proof (sealed_pos c seq p rng Hp). assert (length ps <= length w)%nat; [|lia].
  apply IH. eapply Forall_impl; [|exact Hps]. intros q Hq. by destruct c.
Qed.

(** C1. In-order, lossless delivery: when two established ends are in step (the receiver's
    cipher and sequence number are the sender's) and below their re-key limits, every
    packet the sender queues reaches the receiver's application, in order, each exactly
    once and unchanged; nothing is left in the buffer and the ends are in step again. *)
Theorem delivery ps a b :
  can_send ps a -> t_tx a = [] ->
  t_cipher_in b = t_cipher_out a -> t_rx_seq b = t_tx_seq a -> t_rx b = [] -> t_rx_pos b = 0 ->
  Forall (fun p => app_payload (t_role b) p = true /\
                   frame_region (t_cipher_out a) (len p) <= MAX_PACKET_LENGTH) ps ->
  exists a', send_all ps a = (Ok tt, a') /\
    (can_receive (t_tx a') (len ps) b ->
     exists b', Transport.on_input (t_tx a') b = (Ok tt, b') /\
       t_events b' = t_events b ++ map Packet ps /\
       t_cipher_in b' = t_cipher_out a' /\ t_rx_seq b' = t_tx_seq a' /\ t_rx b' = []).
Proof.
  intros Ha Htx Hc Hs Hrx Hpos Hps. destruct (send_all_wire ps a Ha) as (a' & w & H1 & H2 & H3).
  exists a'. split; [done|]. rewrite Htx in H2. cbn [app] in H2. rewrite H2. intros Hr.
  unfold Transport.on_input, bind at 1, get. rewrite (cr_open _ _ _ Hr).
  unfold bind, modify, Transport.drive.
  set (b1 := set t_rx _ b). assert (E : t_rx b1 = w) by (unfold b1; cbn; by rewrite Hrx).
  assert (Hfuel : exists f, S (length (t_rx b1)) = (length ps + S f)%nat).
  { rewrite E. assert (length ps <= length w)%nat; [|exists (length w - length ps)%nat; lia].
    eapply wire_length; [exact H3|]. eapply Forall_impl; [|exact Hps]. by intros q []. }
  destruct Hfuel as [f ->].
  destruct (drive_all ps (t_cipher_out a) (t_tx_seq a) w _ _ b1 f H3) as (b' & G1 & G2 & G3 & G4 & G5 & _).
  - destruct Hr. by constructor.
  - done.
  - done.
  - exact Hps.
  - rewrite E. cbn. rewrite Hpos. pose proof (len_nonneg w). lia.
  - rewrite E. cbn. by rewrite Hpos.
  - exists b'. split; [exact G1|]. auto.
Qed.

(** * Agreement on keys *)

Definition ecdh_init_msg (v : bytes) : bytes :=
  Writer.new >>> Writer.u8 msg.KEX_ECDH_INIT >>> Writer.string v >>> Writer.into_bytes.

Definition ecdh_reply_msg (host_blob q_s signature : bytes) : bytes :=
  Writer.new >>> Writer.u8 msg.KEX_ECDH_REPLY >>> Writer.string host_blob
    >>> Writer.string q_s >>> Writer.string signature >>> Writer.into_bytes.

Lemma parse_ecdh_init v :
  len v <= U32_MAX ->
  run (let* _ := Reader.u8 in Reader.string) (Reader.new (ecdh_init_msg v)) = Ok v.
Proof.
  intros Hv. unfold ecdh_init_msg, Writer.into_bytes, Writer.u8, Writer.new.
  rewrite writer_string. cbn [wbuf app]. apply reads_run.
  - change (msg.KEX_ECDH_INIT :: wire_string v) with ([msg.KEX_ECDH_INIT] ++ wire_string v).
    eapply reads_bind; [apply reads_u8|]. by apply reads_wire_string.
  - len_simpl. unfold U32_MAX, U64_MAX in *. lia.
Qed.

Lemma parse_ecdh_reply hb qs sg :
  len hb <= U32_MAX -> len qs <= U32_MAX -> len sg <= U32_MAX ->
  run (let* _ := Reader.u8 in
       let* host_blob := Reader.string in
       let* q_s := Reader.string in
       let* signature := Reader.string in
       ret (host_blob, q_s, signature)) (Reader.new (ecdh_reply_msg hb qs sg)) = Ok (hb, qs, sg).
Proof.
  intros Ha Hb Hc. unfold ecdh_reply_msg, Writer.into_bytes, Writer.u8, Writer.new.
  rewrite !writer_string. cbn [wbuf app]. apply reads_run.
  - rewrite <- !app_assoc.
    change (msg.KEX_ECDH_REPLY :: wire_string hb ++ wire_string qs ++ wire_string sg)
      with ([msg.KEX_ECDH_REPLY] ++ wire_string hb ++ wire_string qs ++ wire_string sg).
    eapply reads_bind; [apply reads_u8|].
    eapply reads_bind; [by apply reads_wire_string|].
    eapply reads_bind; [by apply reads_wire_string|].
    by apply (reads_bind_ret Reader.string (fun x => (hb, qs, x))), reads_wire_string.
  - len_simpl. unfold U32_MAX, U64_MAX in *. lia.
Qed.

(** An ephemeral of the client, as [client_ephemeral_for] makes it, and what it sends. *)
Definition eph_ok (kind : KexKind) (eph : KexEphemeral) (v : bytes) : Prop :=
  match kind, eph with
  | Kind_Classical, Eph_Classical kp => fresh_pair kp /\ v = ecdh_public kp
  | Kind_MlKem, Eph_MlKem hc => mlkem_client_ok hc /\ v = mlkem.init hc
  | Kind_SnTrup, Eph_SnTrup hc => sntrup_client_ok hc /\ v = sntrup.init hc
  | _, _ => False
  end.

Lemma client_ephemeral_ok kind r :
  exists eph v r', Transport.client_ephemeral_for kind r = (Ok (eph, v), r') /\ eph_ok kind eph v.
Proof.
  destruct kind; cbn [Transport.client_ephemeral_for]; unfold bind.
  - destruct (ecdh_generate_fresh r) as (kp & r' & -> & Hf). by eexists _, _, _.
  - destruct (mlkem_generate_ok r) as (hc & r' & -> & Hf). by eexists _, _, _.
  - destruct (sntrup_generate_ok r) as (hc & r' & -> & Hf). by eexists _, _, _.
Qed.

(** The client's side of [on_ecdh_reply]: the value it sent, the secret, the method. *)
Definition client_agree (eph : KexEphemeral) (q_s : bytes) : result (bytes * bytes * KexKind) :=
  match eph with
  | Eph_MlKem hc => omap_ok (fun s => (mlkem.init hc, s, Kind_MlKem)) (mlkem.agree hc q_s)
  | Eph_SnTrup hc => omap_ok (fun s => (sntrup.init hc, s, Kind_SnTrup)) (sntrup.agree hc q_s)
  | Eph_Classical kp =>
      omap_ok (fun s => (ecdh_public kp, s, Kind_Classical)) (ecdh_agree kp q_s)
  end.

Lemma secret_agree kind eph v q_s shared r r' :
  eph_ok kind eph v -> Transport.server_kex kind v r = (Ok (q_s, shared), r') ->
  client_agree eph q_s = Ok (v, shared, kind).
Proof.
  intros He Hs. destruct kind, eph as [kp|hc|hc]; try done; destruct He as [He ->];
    cbn [Transport.server_kex] in Hs; cbn [client_agree].
  - unfold bind at 1 in Hs. destruct (ecdh_generate_fresh r) as (sk & r1 & Hg & Hf).
    rewrite Hg in Hs. rewrite (ecdh_agree_sym sk kp) in Hs by done. unfold bind, lift in Hs.
    destruct (ecdh_agree kp (ecdh_public sk)) as [x| | |] eqn:Hx; try done.
    injection Hs as <- <- <-. by rewrite Hx.
  - by destruct (mlkem_agree_lemma _ _ _ _ _ He Hs) as [-> _].
  - by destruct (sntrup_hybrid_agree _ _ _ _ _ He Hs) as [-> _].
Qed.

(** The two transcripts of one round agree: each end knows the other's identification
    and KEXINIT as the other sent them, and both negotiated [n]. *)
Record mirrored (ts tc : Transport) (hk : HostKey) (n : Negotiated) : Prop := {
  mi_server : t_role ts = Server;
  mi_client : t_role tc = Client;
  mi_hostkey : t_host_key ts = Some hk;
  mi_skip_s : t_skip_guess ts = false;
  mi_skip_c : t_skip_guess tc = false;
  mi_neg_s : t_negotiated ts = Some n;
  mi_neg_c : t_negotiated tc = Some n;
  mi_id_s : t_peer_id ts = Some (t_local_id tc);
  mi_id_c : t_peer_id tc = Some (t_local_id ts);
  mi_init_s : payload <$> t_peer_kexinit ts = Some (t_local_kexinit tc);
  mi_init_c : payload <$> t_peer_kexinit tc = Some (t_local_kexinit ts);
  mi_sid : t_session_id ts = t_session_id tc
}.

Definition transcript (ts tc : Transport) (host_blob v q_s : bytes) (k : SharedSecret)
  : ExchangeHashInput :=
  mkExchangeHashInput (t_local_id tc) (t_local_id ts) (t_local_kexinit tc) (t_local_kexinit ts)
    host_blob v q_s k.

Lemma len_public_blob k : len (HostKey.public_blob k) = 51.
Proof.
  unfold HostKey.public_blob, public_blob_of, Writer.into_bytes, Writer.new.
  rewrite !writer_string. cbn [wbuf app]. len_simpl. by rewrite verifying_as_bytes_len.
Qed.

Lemma len_sign_exchange_hash k h : len (HostKey.sign_exchange_hash k h) = 83.
Proof.
  unfold HostKey.sign_exchange_hash, Writer.into_bytes, Writer.new.
  rewrite !writer_string. cbn [wbuf app]. len_simpl. by rewrite ed25519_sign_len.
Qed.

Lemma server_round ts tc hk n v q_s shared r' :
  mirrored ts tc hk n -> len v <= U32_MAX ->
  Transport.server_kex (KexKind_of (n_kex n)) v (t_rng ts) = (Ok (q_s, shared), r') ->
  let kind := KexKind_of (n_kex n) in
  let k := KexKind_shared_secret kind shared in
  let blob := HostKey.public_blob hk in
  let h := exchange_hash (transcript ts tc blob v q_s k) (KexKind_hash kind) in
  Transport.on_ecdh_init (ecdh_init_msg v) ts =
    (Transport.write_packet (ecdh_reply_msg blob q_s (HostKey.sign_exchange_hash hk h)) ;;;
     Transport.finish_kex h k (KexKind_hash kind) ;;;
     Transport.send_newkeys) (ts <| t_rng := r' |>).
Proof.
  intros [] Hv Hk kind k blob h. unfold Transport.on_ecdh_init, bind at 1, get. rewrite mi_skip_s0.
  unfold bind at 1, Transport.parse_with, lift. rewrite parse_ecdh_init by done.
  unfold bind at 1. rewrite mi_hostkey0. cbn [ok_or]. unfold ret at 1.
  unfold bind at 1, Transport.with_rng, zoom, Transport.kex_kind. rewrite mi_neg_s0, Hk.
  unfold bind at 1, Transport.compute_exchange_hash, bind at 1, get, bind at 1.
  change (t_peer_id ts <| t_rng := r' |>) with (t_peer_id ts). rewrite mi_id_s0. cbn [ok_or].
  unfold ret at 1, bind at 1.
  change (t_peer_kexinit ts <| t_rng := r' |>) with (t_peer_kexinit ts).
  destruct (t_peer_kexinit ts) as [ki|] eqn:Hki; [|done]. cbn in mi_init_s0.
  injection mi_init_s0 as Hpl. cbn [ok_or]. unfold ret at 1.
  change (t_role ts <| t_rng := r' |>) with (t_role ts). rewrite mi_server0. unfold ret at 1.
  unfold h, transcript. rewrite Hpl. reflexivity.
Qed.

Lemma client_round ts tc hk n v eph q_s shared r' :
  mirrored ts tc hk n -> len q_s <= U32_MAX -> t_kex_eph tc = Some eph ->
  eph_ok (KexKind_of (n_kex n)) eph v ->
  Transport.server_kex (KexKind_of (n_kex n)) v (t_rng ts) = (Ok (q_s, shared), r') ->
  let kind := KexKind_of (n_kex n) in
  let k := KexKind_shared_secret kind shared in
  let blob := HostKey.public_blob hk in
  let h := exchange_hash (transcript ts tc blob v q_s k) (KexKind_hash kind) in
  Transport.on_ecdh_reply (ecdh_reply_msg blob q_s (HostKey.sign_exchange_hash hk h)) tc =
    (Transport.finish_kex h k (KexKind_hash kind) ;;; Transport.send_newkeys)
      (tc <| t_kex_eph := None |>
          <| t_events := t_events tc ++ [ServerHostKey (HostKey.public hk)] |>).
Proof.
  intros [] Hq Heph Hok Hk kind k blob h.
  pose proof (secret_agree _ _ _ _ _ _ _ Hok Hk) as Ha.
  unfold Transport.on_ecdh_reply, bind at 1, get. rewrite mi_skip_c0.
  unfold bind at 1, Transport.parse_with, lift at 1. unfold blob.
  rewrite parse_ecdh_reply by
    (rewrite ?len_public_blob, ?len_sign_exchange_hash; done).
  unfold bind at 1, modify at 1, bind at 1. rewrite Heph. cbn [ok_or]. unfold ret at 1.
  set (tc1 := set t_kex_eph _ tc).
  assert (Hm : (match eph with
     | Eph_MlKem hc => let* shared := lift (mlkem.agree hc q_s) in ret (mlkem.init hc, shared, Kind_MlKem)
     | Eph_SnTrup hc => let* shared := lift (sntrup.agree hc q_s) in ret (sntrup.init hc, shared, Kind_SnTrup)
     | Eph_Classical kp => let* shared := lift (ecdh_agree kp q_s) in ret (ecdh_public kp, shared, Kind_Classical)
     end : M SshError Transport _) tc1 = (Ok (v, shared, kind), tc1)).
  { unfold client_agree in Ha. destruct eph; unfold bind, lift, ret;
      match type of Ha with omap_ok _ ?o = _ => destruct o end; try done;
      cbn in Ha; injection Ha as -> -> ->; done. }
  unfold bind at 1. rewrite Hm.
  unfold bind at 1, Transport.compute_exchange_hash, bind at 1, get, bind at 1.
  change (t_peer_id tc1) with (t_peer_id tc). rewrite mi_id_c0. cbn [ok_or].
  unfold ret at 1, bind at 1.
  change (t_peer_kexinit tc1) with (t_peer_kexinit tc).
  destruct (t_peer_kexinit tc) as [ki|] eqn:Hki; [|done]. cbn in mi_init_c0.
  injection mi_init_c0 as Hpl. cbn [ok_or]. unfold ret at 1.
  change (t_role tc1) with (t_role tc). rewrite mi_client0. unfold ret at 1.
  change (t_local_id tc1) with (t_local_id tc). change (t_local_kexinit tc1) with (t_local_kexinit tc).
  rewrite Hpl. fold kind k. fold blob.
  change (exchange_hash _ _) with h at 1.
  unfold bind at 1, lift at 1. unfold blob at 1. rewrite parse_public_blob.
  unfold bind at 1, lift at 1. rewrite verify_sign_lemma.
  unfold bind at 1, Transport.push_event, modify at 1. reflexivity.
Qed.

(** The two ciphers that a round stages, from the client's point of view. *)
Definition round_keys (n : Negotiated) (h sid : bytes) (k : SharedSecret) (hash : KexHash)
  (c2s s2c : Cipher) : Prop :=
  exists kl il, Cipher.key_len (n_cipher_c2s n) = Ok kl /\ Cipher.iv_len (n_cipher_c2s n) = Ok il /\
    let keys := derive k h sid kl il hash in
    Cipher.new (n_cipher_c2s n) (enc_c2s keys) (iv_c2s keys) = Ok c2s /\
    Cipher.new (n_cipher_c2s n) (enc_s2c keys) (iv_s2c keys) = Ok s2c.

Lemma round_keys_exist n h sid k hash kl :
  Cipher.key_len (n_cipher_c2s n) = Ok kl ->
  exists c2s s2c, round_keys n h sid k hash c2s s2c.
Proof.
  intros Hk.
  assert (exists il, Cipher.iv_len (n_cipher_c2s n) = Ok il /\ 0 <= il /\ 0 <= kl) as (il & Hi & Hi0 & Hk0).
  { unfold Cipher.key_len, Cipher.iv_len in *. repeat case_match; simplify_eq; eexists; repeat split; lia. }
  set (keys := derive k h sid kl il hash).
  destruct (cipher_new_total (n_cipher_c2s n) (enc_c2s keys) (iv_c2s keys)) as (c2s & Hc & _).
  { rewrite Hk. unfold keys, derive. cbn. by rewrite len_derive_key. }
  { rewrite Hi. unfold keys, derive. cbn. by rewrite len_derive_key. }
  destruct (cipher_new_total (n_cipher_c2s n) (enc_s2c keys) (iv_s2c keys)) as (s2c & Hs & _).
  { rewrite Hk. unfold keys, derive. cbn. by rewrite len_derive_key. }
  { rewrite Hi. unfold keys, derive. cbn. by rewrite len_derive_key. }
  exists c2s, s2c, kl, il. auto.
Qed.

Lemma finish_kex_stages n h k hash c2s s2c t :
  t_negotiated t = Some n ->
  round_keys n h (default h (t_session_id t)) k hash c2s s2c ->
  exists t', Transport.finish_kex h k hash t = (Ok tt, t') /\
    t_session_id t' = Some (default h (t_session_id t)) /\
    t_pending t' = Some (match t_role t with
                         | Client => mkPendingKeys c2s s2c
                         | Server => mkPendingKeys s2c c2s
                         end).
Proof.
  intros Hn (kl & il & Hk & Hi & Hc & Hs). unfold Transport.finish_kex, bind at 1, get.
  unfold bind at 1, modify at 1, bind at 1. rewrite Hn. cbn [unwrap]. unfold ret at 1.
  unfold bind at 1, lift at 1. rewrite Hk. unfold bind at 1, lift at 1. rewrite Hi.
  cbv zeta in Hc, Hs |- *. set (keys := derive _ _ _ _ _ _) in *.
  destruct (t_role t); unfold bind at 1, lift at 1; rewrite ?Hc, ?Hs;
    unfold bind at 1, lift at 1; rewrite ?Hc, ?Hs;
    unfold bind, modify; (eexists; split; [reflexivity|done]).
Qed.

(** C5. Both ends of a key exchange derive the same keys.  When the two transcripts
    mirror each other, the server answers the client's value with a reply that the client
    accepts (its host key signature included); both then run [finish_kex] on the same
    hash and secret, which stages at each end the two ciphers of the round, crossed: what
    one end will send with is what the other will receive with. *)
Theorem kex_agreement ts tc hk n v eph q_s shared r' kl :
  mirrored ts tc hk n -> t_kex_eph tc = Some eph -> eph_ok (KexKind_of (n_kex n)) eph v ->
  len v <= U32_MAX -> len q_s <= U32_MAX -> Cipher.key_len (n_cipher_c2s n) = Ok kl ->
  Transport.server_kex (KexKind_of (n_kex n)) v (t_rng ts) = (Ok (q_s, shared), r') ->
  exists blob sig h k hash c2s s2c tc1,
    Transport.on_ecdh_init (ecdh_init_msg v) ts =
      (Transport.write_packet (ecdh_reply_msg blob q_s sig) ;;;
       Transport.finish_kex h k hash ;;; Transport.send_newkeys) (ts <| t_rng := r' |>) /\
    Transport.on_ecdh_reply (ecdh_reply_msg blob q_s sig) tc =
      (Transport.finish_kex h k hash ;;; Transport.send_newkeys) tc1 /\
    t_events tc1 = t_events tc ++ [ServerHostKey (HostKey.public hk)] /\
    (forall t, t_negotiated t = Some n -> t_session_id t = t_session_id tc ->
       exists t', Transport.finish_kex h k hash t = (Ok tt, t') /\
         t_session_id t' = Some (default h (t_session_id tc)) /\
         t_pending t' = Some (match t_role t with
                              | Client => mkPendingKeys c2s s2c
                              | Server => mkPendingKeys s2c c2s
                              end)).
Proof.
  intros Hm He Ho Hv Hq Hkl Hk.
  set (kind := KexKind_of (n_kex n)) in *. set (k := KexKind_shared_secret kind shared).
  set (blob := HostKey.public_blob hk).
  set (h := exchange_hash (transcript ts tc blob v q_s k) (KexKind_hash kind)).
  destruct (round_keys_exist n h (default h (t_session_id tc)) k (KexKind_hash kind) kl Hkl)
    as (c2s & s2c & Hr).
  exists blob, (HostKey.sign_exchange_hash hk h), h, k, (KexKind_hash kind), c2s, s2c.
  eexists. split; [by apply server_round|]. split; [by eapply client_round|]. split; [done|].
  intros t Hn Hs. rewrite <- Hs. apply (finish_kex_stages n); [done|]. by rewrite Hs.
Qed.
End Duplex.

(** * Witnesses *)

Lemma delivery_witness :
  exists a' b', send_all (C := Toy.crypto) [[94; 1; 2]; [98; 3]] (Demo.flushed Demo.cl2) = (Ok tt, a') /\
    Transport.on_input (C := Toy.crypto) (t_tx a') Demo.sv3 = (Ok tt, b') /\
    t_events b' = t_events Demo.sv3 ++ map Packet [[94; 1; 2]; [98; 3]].
Proof.
  destruct (@delivery Toy.crypto Toy.crypto_ok [[94; 1; 2]; [98; 3]] (Demo.flushed Demo.cl2) Demo.sv3)
    as (a' & Hs & Hr); try reflexivity.
  - constructor; try reflexivity; vm_compute; intuition congruence.
  - repeat constructor; vm_compute; congruence.
  - destruct Hr as (b' & Hi & He & _); [|by exists a', b'].
    replace a' with (snd (send_all (C := Toy.crypto) [[94; 1; 2]; [98; 3]] (Demo.flushed Demo.cl2)))
      by (by rewrite Hs).
    constructor; try reflexivity; vm_compute; intuition congruence.
Defined.

(** The value that the client of the demo sends, and the server's answer. *)
Definition demo_value : bytes := Eval vm_compute in
  match t_kex_eph Demo.cl1 with Some (Eph_MlKem hc) => mlkem.init hc | _ => [] end.
Definition demo_answer : (bytes * bytes) * Rng (Crypto := Toy.crypto) := Eval vm_compute in
  match Transport.server_kex (C := Toy.crypto) Kind_MlKem demo_value (t_rng Demo.sv1) with
  | (Ok x, r) => (x, r)
  | (_, r) => (([], []), r)
  end.

Lemma kex_agreement_witness :
  let '((q_s, _), r') := demo_answer in
  exists blob sig h k hash (c2s s2c : Cipher) (tc1 : Transport (C := Toy.crypto)),
    Transport.on_ecdh_init (C := Toy.crypto) (ecdh_init_msg demo_value) Demo.sv1 =
      (Transport.write_packet (ecdh_reply_msg blob q_s sig) ;;;
       Transport.finish_kex h k hash ;;; Transport.send_newkeys) (Demo.sv1 <| t_rng := r' |>) /\
    Transport.on_ecdh_reply (C := Toy.crypto) (ecdh_reply_msg blob q_s sig) Demo.cl1 =
      (Transport.finish_kex h k hash ;;; Transport.send_newkeys) tc1 /\
    exists t', Transport.finish_kex (C := Toy.crypto) h k hash Demo.sv1 = (Ok tt, t') /\
      t_pending t' = Some (mkPendingKeys s2c c2s).
Proof.
  edestruct (@kex_agreement Toy.crypto Toy.crypto_ok Demo.sv1 Demo.cl1
    (HostKey.from_seed (C := Toy.crypto) [1; 2; 3])
    (default (mkNegotiated [] [] [] [] [] []) (t_negotiated Demo.sv1)) demo_value
    (default (Eph_Classical (mkEcdhKeypair (C := Toy.crypto) 0 [])) (t_kex_eph Demo.cl1))
    (fst (fst demo_answer)) (snd (fst demo_answer)) (snd demo_answer)) as (blob & sig & h & k & hash & c2s & s2c & tc1 & H1 & H2 & _ & H3).
  - constructor; reflexivity.
  - reflexivity.
  - split; [split; reflexivity|reflexivity].
  - vm_compute; congruence.
  - vm_compute; congruence.
  - reflexivity.
  - vm_cast_no_check (@eq_refl (result (bytes * bytes) * Z) (Ok (fst demo_answer), snd demo_answer)).
  - destruct (H3 Demo.sv1 eq_refl eq_refl) as (t' & H4 & _ & H5).
    exists blob, sig, h, k, hash, c2s, s2c, tc1. split; [exact H1|]. split; [exact H2|].
    exists t'. by split.
Defined.
