(* ===== verification/Rounds.v ===== *)
(** One round of a key exchange, message by message, for any cipher: what writing, reading
    and dispatching one packet does to the transport, and two ends over a connection.  The
    first exchange ([Handshake]) and every later one ([Rekey]) are made of these. *)
From S2P Require Import Prelude Errors Wire Packet Version Crypto Kex Algo Cipher Compress.
From S2P Require Import Transport TransportInv TransportSteps TransportDemo TransportStream TransportDuplex.

(** [handle_packet] on a message of a known number. *)
Ltac dispatch :=
  unfold Transport.handle_packet, bind, get;
  repeat match goal with
  | |- context [?a =? ?b] =>
      let r := eval vm_compute in (a =? b) in
      first [constr_eq r true | constr_eq r false]; change (a =? b) with r
  end; cbn [orb andb].

Section Rounds.
Context `{C : Crypto} `{!CryptoOk C}.
Implicit Types t : Transport.

(** * One packet *)

Definition small (p : bytes) : Prop := len p <= 1000000.

Lemma small_region p c : small p -> frame_region c (len p) <= MAX_PACKET_LENGTH.
Proof.
  intros Hp. unfold small, MAX_PACKET_LENGTH in *. pose proof (len_nonneg p).
  destruct c; cbn [frame_region].
  - pose proof (padding_len_spec (len p) BLOCK ltac:(done)). unfold MIN_PADDING, BLOCK in *. lia.
  - pose proof (aead_padding_len_spec (len p) CHACHA_BLOCK ltac:(done) ltac:(unfold CHACHA_BLOCK; lia)).
    unfold MIN_PADDING, CHACHA_BLOCK in *. lia.
  - pose proof (aead_padding_len_spec (len p) GCM_BLOCK ltac:(done) ltac:(unfold GCM_BLOCK; lia)).
    unfold MIN_PADDING, GCM_BLOCK in *. lia.
Qed.

(** A packet has been written. *)
Definition wrote_packet (p : bytes) t : Transport :=
  t <| t_cipher_out := sealed_cipher (t_cipher_out t) |> <| t_rng := t_rng (snd (Transport.seal p t)) |>
    <| t_tx := t_tx t ++ sealed (t_cipher_out t) (t_tx_seq t) p (t_rng t) |>
    <| t_tx_packets_since_rekey := t_tx_packets_since_rekey t + 1 |> <| t_tx_seq := wrapping_add32 (t_tx_seq t) 1 |>.

Definition below_cap (n : Z) : Prop := 0 <= n /\ n + 1 < EPOCH_HARD_PACKETS.

Lemma write_packet_wrote p t :
  t_closing t = false -> t_comp_out t = Compressor_None -> below_cap (t_tx_packets_since_rekey t) ->
  head p <> Some msg.USERAUTH_SUCCESS -> Transport.write_packet p t = (Ok tt, wrote_packet p t).
Proof.
  unfold below_cap, EPOCH_HARD_PACKETS. intros H1 H2 [H3 H4] H5. unfold wrote_packet. destruct (seal_eq p t) as [r Hs].
  unfold Transport.write_packet, bind at 1, get. rewrite H1. unfold bind at 1. rewrite H2. unfold ret at 1, bind at 1.
  rewrite Hs. unfold bind at 1, checked, U64_MAX.
  match goal with |- context [if ?c then _ else _] => replace c with true by (cbn; lia) end.
  unfold ret at 1, bind at 1, modify at 1, bind at 1, modify at 1, bind at 1, EPOCH_HARD_PACKETS.
  match goal with |- context [when ?c _ _] => replace c with false by (cbn; lia) end.
  unfold when at 1, ret at 1. rewrite (bool_decide_false (head p = Some _)), andb_false_r by done. reflexivity.
Qed.

(** A packet of [n] bytes has been read: its counters, in a state without its buffer. *)
Definition seen (n : Z) t : Transport :=
  t <| t_rx_seq := wrapping_add32 (t_rx_seq t) 1 |>
    <| t_rx_bytes_since_rekey := saturating_add64 (t_rx_bytes_since_rekey t) n |>
    <| t_rx_packets_since_rekey := t_rx_packets_since_rekey t + 1 |>.
(** And its cipher has moved on. *)
Definition opened (n : Z) t : Transport := seen n (t <| t_cipher_in := sealed_cipher (t_cipher_in t) |>).

(** No re-key is due, or one is under way. *)
Definition settled t : Prop :=
  t_phase t <> Established \/ t_rekeying t = true \/
  t_rx_bytes_since_rekey t < t_rekey_bytes_limit t /\ t_rx_packets_since_rekey t < t_rekey_packets_limit t.

Lemma drive_packet_settled p n t t2 :
  t_comp_in t = Decompressor_None -> below_cap (t_rx_packets_since_rekey t) -> head p <> Some msg.USERAUTH_SUCCESS ->
  Transport.handle_packet p (counted n t) = (Ok tt, t2) -> settled t2 ->
  Transport.drive_packet p n t = (Ok tt, t2).
Proof.
  unfold below_cap, EPOCH_HARD_PACKETS. intros H1 H2 H3 H4 H5.
  rewrite drive_packet_counted by (unfold EPOCH_HARD_PACKETS; done || lia).
  unfold bind at 1. rewrite H4. unfold bind at 1, get, bind at 1.
  rewrite (bool_decide_false (head p = Some _)), andb_false_r by done.
  unfold when at 1, ret at 1, bind, Transport.is_established.
  destruct H5 as [H5|[H5|H5]].
  - by rewrite bool_decide_false.
  - unfold when. destruct (bool_decide _ && _); [|done]. unfold Transport.initiate_rekey, bind, get.
    by rewrite H5, andb_false_r.
  - match goal with |- when ?c _ _ = _ => replace c with false by lia end. done.
Qed.

(** * The packet loop, one packet at a time *)

Lemma core_of t : t_rx t = [] -> t_rx_pos t = 0 -> core t = t.
Proof. destruct t. cbn. by intros -> ->. Qed.


Lemma feed_packet k p rng w t t2 :
  core t = t -> t_closing t = false -> t_phase t <> NeedPeerVersion -> t_comp_in t = Decompressor_None ->
  below_cap (t_rx_packets_since_rekey t) -> frame_region (t_cipher_in t) (len p) <= MAX_PACKET_LENGTH ->
  head p <> Some msg.USERAUTH_SUCCESS ->
  Transport.handle_packet p (opened (len (sealed (t_cipher_in t) (t_rx_seq t) p rng)) t) = (Ok tt, t2) -> settled t2 ->
  feed (S k) (sealed (t_cipher_in t) (t_rx_seq t) p rng ++ w) t = feed k w t2 /\ core t2 = t2.
Proof.
  intros Ht Hc Hp Hco Hn Hf Hh Hd Hu. set (n := len (sealed _ _ _ _)) in *. unfold opened in Hd.
  assert (Hk : core t2 = t2).
  { pose proof (blind_handle_packet p [] 0 (seen n (t <| t_cipher_in := sealed_cipher (t_cipher_in t) |>))) as Hb.
    assert (E : put [] 0 (seen n (t <| t_cipher_in := sealed_cipher (t_cipher_in t) |>)) =
      seen n (t <| t_cipher_in := sealed_cipher (t_cipher_in t) |>)) by (rewrite <- Ht at 2; done).
    rewrite E, Hd in Hb. injection Hb as Hb. exact (eq_sym Hb). }
  split; [|exact Hk]. cbn [feed]. rewrite Hc, bool_decide_false, open_sealed by done. fold n.
  set (t1 := t <| t_cipher_in := sealed_cipher (t_cipher_in t) |>) in *. unfold n at 2. rewrite zdrop_app_len by done.
  rewrite (drive_packet_settled p n t1 (put [] n t2)); [|done..| |].
  - change (put [] 0 (put [] n t2)) with (core t2). by rewrite Hk.
  - assert (E1 : counted n t1 = put [] n (seen n t1)) by (unfold t1; rewrite <- Ht; reflexivity).
    by rewrite E1, (blind_handle_packet p), Hd.
  - exact Hu.
Qed.

Lemma feed_end k t :
  t_closing t = false -> t_phase t <> NeedPeerVersion -> feed (S k) [] t = (Ok tt, (t, [])).
Proof.
  intros Hc Hp. cbn [feed]. rewrite Hc, bool_decide_false by done.
  assert (Ho : Cipher.open (t_rx_seq t) [] (t_cipher_in t) = (Ok None, t_cipher_in t)) by by destruct (t_cipher_in t).
  rewrite Ho. do 2 f_equal. by destruct t.
Qed.

(** A run of the packet loop over all of the input is what the pieces of the input do. *)
Lemma fed_pieces `{!FlateOk C} k ps t t' :
  tinv t -> core t = t -> t_closing t = false -> List.concat ps <> [] \/ t_phase t <> NeedPeerVersion ->
  feed k (List.concat ps) t = (Ok tt, (t', [])) -> core t' = t' -> t_closing t' = false ->
  mfor ps Transport.on_input t = (Ok tt, t') /\ tinv t'.
Proof.
  intros Ht Hk Hc Hne Hf Hk' Hc'. destruct ps as [|p ps].
  { destruct Hne as [?|Hph]; [done|]. destruct k as [|k]; [done|]. cbn [List.concat] in Hf.
    rewrite feed_end in Hf by done. by injection Hf as <-. }
  assert (Ho : Transport.on_input (List.concat (p :: ps)) t = (Ok tt, t')).
  { pose proof (on_input_feed (List.concat (p :: ps)) t []) as Hi. rewrite Hk, app_nil_l in Hi.
    assert (Hl : left_over t []).
    { assert (t_rx t = [] /\ t_rx_pos t = 0) as [E1 E2] by (rewrite <- Hk; done).
      unfold left_over. rewrite E1, E2. split; [rewrite (len_nil (A := Z)); lia|done]. }
    specialize (Hi Hl Hc). destruct (feed (S _) _ t) as [o [t1 w1]] eqn:E. destruct Hi as (s & Es & _ & Hs).
    pose proof (on_input_returns _ _ _ _ Ht Es) as [Hn _].
    destruct (feed_enough _ _ _ _ _ _ _ _ E Hn Hf ltac:(done)) as [-> [= -> ->]].
    rewrite Es. f_equal. destruct Hs as [?|[?| ->]]; [done|congruence|]. exact Hk'. }
  split; [|by apply (on_input_returns _ _ _ _ Ht Ho)].
  destruct (on_input_pieces p ps t Ht) as (_ & _ & H). rewrite Ho in H. by rewrite <- H.
Qed.

(** * The messages of a round *)

(** What a KEXINIT of the peer needs to be an honest one. *)
Record kexinit_from (peer : Role) (ki : KexInit) : Prop := {
  kf_parse : KexInit.parse (payload ki) = Ok ki;
  kf_id : head (payload ki) = Some msg.KEXINIT;
  kf_guess : first_kex_packet_follows ki = false;
  kf_strict : offers (kex ki) (match peer with Server => KEX_STRICT_SERVER | Client => KEX_STRICT_CLIENT end) = true
}.


(** Both offers are known. *)
Definition met (ki : KexInit) (n : Negotiated) t : Transport :=
  t <| t_skip_guess := false |> <| t_negotiated := Some n |> <| t_peer_kexinit := Some ki |>.
Definition strict_settled t : Transport := if t_initial_kex_done t then t else t <| t_strict_kex := true |>.

Lemma handle_init p t :
  head p = Some msg.KEX_ECDH_INIT -> t_role t = Server ->
  Transport.handle_packet p t = Transport.on_ecdh_init p t.
Proof.
  intros Hh Hr. destruct p as [|x p]; [done|]. injection Hh as ->. dispatch.
  by rewrite andb_false_r, bool_decide_true.
Qed.

Lemma handle_reply p t :
  head p = Some msg.KEX_ECDH_REPLY -> t_role t = Client ->
  Transport.handle_packet p t = Transport.on_ecdh_reply p t.
Proof.
  intros Hh Hr. destruct p as [|x p]; [done|]. injection Hh as ->. dispatch.
  by rewrite andb_false_r, bool_decide_true.
Qed.

Lemma ecdh_init_head w : head (ecdh_init_msg w) = Some msg.KEX_ECDH_INIT /\ len (ecdh_init_msg w) = 5 + len w.
Proof.
  unfold ecdh_init_msg, Writer.into_bytes, Writer.u8, Writer.new. rewrite writer_string. cbn [wbuf app].
  split; [done|]. len_lia.
Qed.

Lemma ecdh_reply_head hb q sg :
  head (ecdh_reply_msg hb q sg) = Some msg.KEX_ECDH_REPLY /\
  len (ecdh_reply_msg hb q sg) = 13 + len hb + len q + len sg.
Proof.
  unfold ecdh_reply_msg, Writer.into_bytes, Writer.u8, Writer.new. rewrite !writer_string. cbn [wbuf app].
  split; [done|]. len_lia.
Qed.

Definition other (r : Role) : Role := match r with Client => Server | Server => Client end.

Lemma round_meets ki ki' n t :
  kexinit_from (other (t_role t)) ki -> KexInit.parse (t_local_kexinit t) = Ok ki' ->
  match t_role t with Client => negotiate ki' ki | Server => negotiate ki ki' end = Ok n ->
  Transport.kexinit_round (payload ki) t =
    match t_role t with
    | Server => (Ok tt, met ki n (strict_settled t))
    | Client =>
        (let* '(eph, v) := Transport.with_rng (Transport.client_ephemeral_for (KexKind_of (n_kex n))) in
         Transport.write_packet (ecdh_init_msg v) ;;; t_kex_eph <-! Some eph) (met ki n (strict_settled t))
    end.
Proof.
  intros [H1 H2 H3 H4] Hl Hn. unfold Transport.kexinit_round, bind at 1, get.
  unfold bind at 1, lift at 1. rewrite H1. unfold bind at 1, lift at 1. rewrite Hl.
  unfold bind at 1, lift at 1. rewrite Hn. unfold strict_settled.
  assert (Hs : offers (kex ki) match t_role t with Client => KEX_STRICT_SERVER | Server => KEX_STRICT_CLIENT end = true)
    by by destruct (t_role t).
  rewrite Hs, H3. cbn [andb]. unfold bind at 1.
  destruct (t_initial_kex_done t), (t_role t); cbn [negb when]; unfold ret at 1, modify at 1; reflexivity.
Qed.
(** The keys are staged. *)
Definition staged (sid : bytes) (out inn : Cipher) (n : Negotiated) t : Transport :=
  t <| t_session_id := Some sid |> <| t_pending := Some (mkPendingKeys out inn) |>
    <| t_comp_out_name := match t_role t with Client => n_comp_c2s n | Server => n_comp_s2c n end |>
    <| t_comp_in_name := match t_role t with Client => n_comp_s2c n | Server => n_comp_c2s n end |>.

Lemma finish_kex_staged n h k hash c2s s2c t :
  t_negotiated t = Some n -> round_keys n h (default h (t_session_id t)) k hash c2s s2c ->
  Transport.finish_kex h k hash t =
    (Ok tt, staged (default h (t_session_id t)) (match t_role t with Client => c2s | Server => s2c end)
              (match t_role t with Client => s2c | Server => c2s end) n t).
Proof.
  intros Hn (kl & il & Hk & Hi & Hc & Hs). unfold Transport.finish_kex, bind at 1, get.
  unfold bind at 1, modify at 1, bind at 1. rewrite Hn. cbn [unwrap]. unfold ret at 1.
  unfold bind at 1, lift at 1. rewrite Hk. unfold bind at 1, lift at 1. rewrite Hi.
  cbv zeta in Hc, Hs |- *. set (keys := derive _ _ _ _ _ _) in *. unfold staged.
  destruct (t_role t); unfold bind at 1, lift at 1; rewrite ?Hc, ?Hs;
    unfold bind at 1, lift at 1; rewrite ?Hc, ?Hs; unfold bind, modify; by t_flat.
Qed.

(** Our NEWKEYS is out, that of the peer is not in. *)
Definition newkeys_sent (out inn : Cipher) t : Transport :=
  t <| t_cipher_out := out |> <| t_pending := Some (mkPendingKeys Cipher_None inn) |>
    <| t_tx_seq := if t_strict_kex t then 0 else t_tx_seq t |> <| t_sent_newkeys := true |>.

Lemma send_newkeys_sent out inn t u :
  Transport.write_packet [msg.NEWKEYS] t = (Ok tt, u) -> t_pending u = Some (mkPendingKeys out inn) ->
  t_comp_active u = false -> t_recv_newkeys u = false ->
  Transport.send_newkeys t = (Ok tt, newkeys_sent out inn u).
Proof.
  intros Hw H1 H2 H3. unfold Transport.send_newkeys, bind at 1. rewrite Hw. unfold newkeys_sent.
  unfold bind at 1, get. rewrite H1, H2. cbn [p_out p_inn when].
  unfold bind at 1, bind at 1, modify at 1, modify at 1, bind at 1, ret at 1.
  assert (Hm : forall t', t_recv_newkeys t' = false -> (t_sent_newkeys <-! true ;;; Transport.maybe_complete_kex) t' =
    (Ok tt, t' <| t_sent_newkeys := true |>)).
  { intros t' H. unfold Transport.maybe_complete_kex, bind, get, modify.
    match goal with |- context [t_recv_newkeys ?s] => change (t_recv_newkeys s) with (t_recv_newkeys t') end.
    by rewrite H, andb_false_r. }
  unfold bind at 1. destruct (t_strict_kex u); cbn [when]; [unfold modify at 1|unfold ret at 1]; rewrite Hm by exact H3;
    [done|by t_flat].
Qed.

(** The peer's NEWKEYS is in. *)
Definition newkeys_read (out inn : Cipher) t : Transport :=
  t <| t_cipher_in := inn |> <| t_pending := Some (mkPendingKeys out Cipher_None) |>
    <| t_rx_seq := if t_strict_kex t then 0 else t_rx_seq t |> <| t_recv_newkeys := true |>.

Lemma handle_newkeys_read out inn t :
  t_pending t = Some (mkPendingKeys out inn) -> t_comp_active t = false ->
  Transport.handle_packet [msg.NEWKEYS] t = Transport.maybe_complete_kex (newkeys_read out inn t).
Proof.
  intros H1 H2. assert (E : Transport.handle_packet [msg.NEWKEYS] t = Transport.on_newkeys t).
  { dispatch. by rewrite andb_false_r. }
  rewrite E. unfold Transport.on_newkeys, bind at 1, get. rewrite H1. cbn [ok_or p_out p_inn].
  rewrite H2. cbn [when]. unfold newkeys_read. destruct (t_strict_kex t); cbn [when]; unfold bind, ret, modify; cbn [p_out p_inn];
    [done|by t_flat].
Qed.

(** * Lengths on the wire *)

Lemma len_sealed_le c seq p rng : len (sealed c seq p rng) <= len p + 64.
Proof.
  pose proof (len_nonneg p). destruct c; unfold sealed; cbn [Cipher.seal_into snd].
  - change (encode_plain_into p []) with (plain_frame p). rewrite len_plain_frame.
    pose proof (padding_len_spec (len p) BLOCK ltac:(done)). unfold MIN_PADDING, BLOCK in *. lia.
  - pose proof (aead_padding_len_spec (len p) CHACHA_BLOCK ltac:(done) ltac:(unfold CHACHA_BLOCK; lia)) as (_ & Hp & _).
    unfold chacha_seal_into. set (pad := aead_padding_len _ _) in *.
    pose proof (random_padding_len pad rng) as Hr. destruct (random_padding pad rng) as [padding r].
    unfold MIN_PADDING, CHACHA_BLOCK in *. cbn [fst snd] in *. specialize (Hr ltac:(lia)).
    rewrite app_nil_l, !len_app, len_length_cipher, len_payload_cipher, poly1305_len, !len_app, Hr, len_to_be32.
    change (len [_]) with 1. lia.
  - pose proof (aead_padding_len_spec (len p) GCM_BLOCK ltac:(done) ltac:(unfold GCM_BLOCK; lia)) as (_ & Hp & _).
    unfold gcm_seal_into. set (pad := aead_padding_len _ _) in *.
    pose proof (random_padding_len pad rng) as Hr. destruct (random_padding pad rng) as [padding r].
    unfold MIN_PADDING, GCM_BLOCK in *. cbn [fst snd] in *. specialize (Hr ltac:(lia)).
    match goal with |- context [aes256gcm_encrypt ?k ?iv ?h ?g] =>
      pose proof (gcm_ct_len k iv h g) as Hct; pose proof (gcm_tag_len k iv h g) as Htag;
      destruct (aes256gcm_encrypt k iv h g) as [ct tag] end. cbn [fst snd] in *.
    rewrite app_nil_l, !len_app, Hct, Htag, !len_app, Hr, len_to_be32. change (len [_]) with 1. lia.
Qed.

Lemma round_keys_real n h sid k hash c2s s2c :
  round_keys n h sid k hash c2s s2c -> c2s <> Cipher_None /\ s2c <> Cipher_None.
Proof.
  intros (kl & il & _ & _ & H1 & H2). split; eapply cipher_new_not_None; [exact H1|exact H2].
Qed.

(** The values that the parties send fit. *)
Lemma exchange_sizes eph v q_s shared r r' :
  eph_ok Kind_MlKem eph v -> Transport.server_kex Kind_MlKem v r = (Ok (q_s, shared), r') ->
  len v <= 10000 /\ len q_s <= 10000.
Proof.
  intros He Hs. destruct eph as [|hc|]; try done. destruct He as [He ->].
  destruct (mlkem_agree_lemma _ _ _ _ _ He Hs) as (_ & -> & ->). split; by vm_compute.
Qed.

(** Honest X25519 pairs are never refused: the product of two secrets drawn from the generator
    has a contribution of both. *)
Definition agreeable : Prop := forall r r',
  x25519_was_contributory (x25519_dh (fst (x25519_random r)) (x25519_public (fst (x25519_random r')))) = true.

Lemma agreeable_kex eph v r1 r1' r2 :
  agreeable -> Transport.client_ephemeral_for Kind_MlKem r1 = (Ok (eph, v), r1') ->
  exists q_s shared r2', Transport.server_kex Kind_MlKem v r2 = (Ok (q_s, shared), r2').
Proof.
  intros Ha. cbn [Transport.client_ephemeral_for Transport.server_kex].
  unfold mlkem.generate, ecdh_generate, bind, draw, ret.
  destruct (fill_bytes 64 r1) as [seed ra]. destruct (x25519_random ra) as [a rb] eqn:Era. intros [= <- <- <-].
  cbn [mlkem.init ecdh_public ek_public].
  assert (Hl : len (mlkem_encapsulation_key (mlkem_from_seed seed) ++ x25519_public a) = mlkem.CLIENT_INIT_LEN)
    by by rewrite len_app, mlkem_ek_len, x25519_public_len.
  unfold mlkem.server_respond. rewrite Hl, Z.eqb_refl. cbn [negb].
  rewrite ztake_app_len by by rewrite mlkem_ek_len. rewrite zdrop_app_len by by rewrite mlkem_ek_len.
  destruct (mlkem_ek_valid (mlkem_from_seed seed)) as [ek ->].
  unfold bind at 1. cbn [ok_or ret]. unfold bind at 1, draw. destruct (fill_bytes 32 r2) as [m rc].
  destruct (mlkem_encapsulate ek m) as [ct kpq]. unfold ecdh_generate, draw, bind, ret, lift.
  destruct (x25519_random rc) as [b rd] eqn:Erb. pose proof (Ha rc ra) as Hc. rewrite Era, Erb in Hc. cbn [fst] in Hc.
  unfold ecdh_agree, ecdh_public. cbn [ek_secret ek_public]. rewrite x25519_public_len, Hc. by eexists _, _, _.
Qed.

(** * The offers *)

Definition hello (is_server : bool) (cookie : bytes) (ciphers compressions : list bytes) : KexInit :=
  let kexs := KEX_ALGORITHMS ++ [if is_server then KEX_STRICT_SERVER else KEX_STRICT_CLIENT] in
  mkKexInit (kexinit_wire cookie kexs ciphers compressions) kexs HOSTKEY_ALGORITHMS
    ciphers ciphers compressions compressions false.

(** The names a client may offer: it can put them into a KEXINIT, and they fit a packet. *)
Record offer_ok (ciphers compressions : list bytes) : Prop := {
  oo_ciphers : name_list_ok ciphers;
  oo_compressions : name_list_ok compressions;
  oo_size : len (join_names ciphers) + len (join_names compressions) <= 400000
}.

Lemma hello_from (is_server : bool) cookie ciphers compressions :
  len cookie = 16 -> offer_ok ciphers compressions ->
  kexinit_from (if is_server then Server else Client) (hello is_server cookie ciphers compressions) /\
  small (payload (hello is_server cookie ciphers compressions)).
Proof.
  intros Hc [Ho1 Ho2 Ho3]. set (kexs := KEX_ALGORITHMS ++ [if is_server then KEX_STRICT_SERVER else KEX_STRICT_CLIENT]).
  assert (Hk : name_list_ok kexs) by apply kex_offer_ok.
  assert (Hkl : len (join_names kexs) <= 200 /\ len (join_names HOSTKEY_ALGORITHMS) <= 20 /\
    len (join_names MACS) <= 20 /\ len (join_names []) = 0).
  { unfold kexs, KEX_ALGORITHMS. split; [|by vm_compute].
    destruct sntrup761_enabled, is_server; vm_compute; congruence. }
  assert (Hlen : small (kexinit_wire cookie kexs ciphers compressions)).
  { unfold small, kexinit_wire. rewrite !len_app, !len_wire_name_list, Hc, len_to_be32.
    change (len [msg.KEXINIT]) with 1. change (len [0]) with 1. lia. }
  split; [|exact Hlen]. constructor; [|done|done|].
  - unfold hello. fold kexs. cbn [payload]. unfold KexInit.parse. apply reads_run.
    + by apply reads_kexinit.
    + unfold small, U64_MAX in *. lia.
  - unfold hello. cbn [kex]. apply offers_spec. apply elem_of_app. right. by destruct is_server; left.
Qed.

Lemma hellos_agree cookie cookie' ciphers compressions x z :
  x ∈ ciphers -> x ∈ CIPHERS -> z ∈ compressions -> z ∈ COMPRESSIONS ->
  exists n kl, negotiate (hello false cookie ciphers compressions)
                 (hello true cookie' default_ciphers default_compressions) = Ok n /\
    KexKind_of (n_kex n) = Kind_MlKem /\ Cipher.key_len (n_cipher_c2s n) = Ok kl.
Proof.
  intros Hx1 Hx2 Hz1 Hz2.
  assert (Hp : forall l l' y slot, y ∈ l -> y ∈ l' -> exists a, pick l l' slot = Ok a /\ a ∈ l').
  { intros l l' y slot H1 H2. destruct (pick_total l l' slot) as [[a Ha]|Ha].
    - exists a. split; [exact Ha|]. by apply pick_ok in Ha as (? & ? & _ & ? & _).
    - exfalso. eapply pick_err; [exact Ha|exact H1|exact H2]. }
  destruct (Hp _ _ _ "cipher c2s" Hx1 Hx2) as (c & Hc & Hcin). destruct (Hp _ _ _ "cipher s2c" Hx1 Hx2) as (c' & Hc' & _).
  destruct (Hp _ _ _ "compression c2s" Hz1 Hz2) as (d & Hd & _). destruct (Hp _ _ _ "compression s2c" Hz1 Hz2) as (d' & Hd' & _).
  assert (Hkey : exists kl, Cipher.key_len c = Ok kl).
  { unfold CIPHERS in Hcin. apply elem_of_cons in Hcin as [->|Hcin]; [by eexists|].
    apply elem_of_cons in Hcin as [->|Hcin]; [by eexists|]. by apply not_elem_of_nil in Hcin. }
  destruct Hkey as [kl Hkl].
  exists (mkNegotiated KEX_MLKEM768_X25519 HOSTKEY_ED25519 c c' d d'), kl. split_and!.
  - unfold negotiate, negotiate_m, run, hello, default_ciphers, default_compressions.
    cbn [kex host_key cipher_c2s cipher_s2c comp_c2s comp_s2c].
    unfold bind, lift. rewrite Hc, Hc', Hd, Hd'.
    replace (pick _ _ "kex") with (Ok (E := SshError) KEX_MLKEM768_X25519); [done|].
    unfold KEX_ALGORITHMS. destruct sntrup761_enabled; reflexivity.
  - unfold KexKind_of. cbn [n_kex]. replace (beq KEX_MLKEM768_X25519 KEX_SNTRUP761_X25519) with false by reflexivity.
    by rewrite andb_false_r.
  - exact Hkl.
Qed.
End Rounds.

(** * Two ends and a connection *)

(** Two ends over a connection: at each turn one of them hands over what it has to send,
    and the other is given it in the pieces that [cut] makes of it. *)
Fixpoint play `{C : Crypto} (cut : bytes -> list bytes) (turns : list Role) (c s : Transport)
  : outcome SshError unit * (Transport * Transport) :=
  match turns with
  | [] => (Ok tt, (c, s))
  | Client :: turns' =>
      let '(o, s') := mfor (cut (Transport.pending_output c)) Transport.on_input s in
      let c' := snd (Transport.clear_output c) in
      match o with Ok _ => play cut turns' c' s' | _ => (o, (c', s')) end
  | Server :: turns' =>
      let '(o, c') := mfor (cut (Transport.pending_output s)) Transport.on_input c in
      let s' := snd (Transport.clear_output s) in
      match o with Ok _ => play cut turns' c' s' | _ => (o, (c', s')) end
  end.

Section Play.
Context `{C : Crypto} `{!CryptoOk C} `{!FlateOk C}.
Implicit Types t : Transport.

Definition emptied t : Transport := t <| t_tx := [] |>.

Lemma tinv_emptied t : tinv t -> tinv (emptied t).
Proof. intros []. by constructor. Qed.

Lemma play_step (cut : bytes -> list bytes) k t t' w :
  (forall w, List.concat (cut w) = w) -> tinv t -> core t = t -> t_closing t = false -> w <> [] \/ t_phase t <> NeedPeerVersion ->
  feed k w t = (Ok tt, (t', [])) /\ core t' = t' -> t_closing t' = false ->
  mfor (cut w) Transport.on_input t = (Ok tt, t') /\ tinv t'.
Proof.
  intros Hcut Ht Hk Hc Hw [Hf Hk'] Hc'.
  apply (fed_pieces k); rewrite ?Hcut; done.
Qed.

End Play.

(** * Two ends in step *)

(** An end at rest: established, no round under way, everything sent and read. *)
Record quiet `{C : Crypto} (t : Transport) : Prop := {
  qt_phase : t_phase t = Established;
  qt_open : t_closing t = false;
  qt_idle : t_rekeying t = false /\ t_kexinit_sent t = false /\ t_tx_app_queue t = [];
  qt_done : t_initial_kex_done t = true;
  qt_comp_out : t_comp_out t = Compressor_None;
  qt_comp_in : t_comp_in t = Decompressor_None;
  qt_inactive : t_comp_active t = false;
  qt_core : core t = t;
  qt_sent : t_tx t = [];
  qt_limits : 0 < t_rekey_bytes_limit t /\ 0 < t_rekey_packets_limit t;
  qt_inv : tinv t
}.

(** The names that the client offers: the server knows one of each. *)
Record offer_meets (ciphers compressions : list bytes) : Prop := {
  om_offer : offer_ok ciphers compressions;
  om_cipher : exists x, x ∈ ciphers /\ x ∈ CIPHERS;
  om_compression : exists z, z ∈ compressions /\ z ∈ COMPRESSIONS
}.

(** A client and a server, in step both ways. *)
Record linked `{C : Crypto} (hk : HostKey) (c s : Transport) : Prop := {
  lk_client : quiet c /\ t_role c = Client;
  lk_server : quiet s /\ t_role s = Server /\ t_host_key s = Some hk;
  lk_ids : t_peer_id s = Some (t_local_id c) /\ t_peer_id c = Some (t_local_id s);
  lk_session : is_Some (t_session_id c) /\ t_session_id s = t_session_id c;
  lk_strict : t_strict_kex c = t_strict_kex s;
  lk_up : t_cipher_in s = t_cipher_out c /\ t_rx_seq s = t_tx_seq c /\ t_cipher_out c <> Cipher_None;
  lk_down : t_cipher_in c = t_cipher_out s /\ t_rx_seq c = t_tx_seq s /\ t_cipher_out s <> Cipher_None;
  lk_offers : offer_meets (default default_ciphers (t_offered_ciphers c)) (default default_compressions (t_offered_compression c)) /\
              t_offered_ciphers s = None /\ t_offered_compression s = None
}.

(** The counters of the old keys leave room for one more round. *)
Definition roomy `{C : Crypto} (t : Transport) : Prop :=
  t_tx_packets_since_rekey t + 8 < EPOCH_HARD_PACKETS /\ t_rx_packets_since_rekey t + 8 < EPOCH_HARD_PACKETS /\
  t_consecutive_peer_rekeys t < t_max_consecutive_peer_rekeys t.
