(* ===== verification/Handshake.v ===== *)
(** Two honest ends complete the handshake: from their identification lines to the state
    in which application packets are delivered, whatever the cuts of the byte streams. *)
From S2P Require Import Prelude Errors Wire Packet Version Crypto Kex Algo Cipher Compress.
From S2P Require Import Transport TransportInv TransportSteps TransportDemo TransportStream TransportDuplex.
From S2P Require Import Rounds.

Section Handshake.
Context `{C : Crypto} `{!CryptoOk C}.
Implicit Types t : Transport.

(** * Messages in the clear *)

(** Writing in the clear. *)
Definition wrote_plain (p : bytes) t : Transport :=
  t <| t_tx := t_tx t ++ plain_frame p |> <| t_tx_packets_since_rekey := t_tx_packets_since_rekey t + 1 |>
    <| t_tx_seq := wrapping_add32 (t_tx_seq t) 1 |>.

Lemma write_plain p t :
  t_closing t = false -> t_comp_out t = Compressor_None -> t_cipher_out t = Cipher_None ->
  0 <= t_tx_packets_since_rekey t <= 3 -> head p <> Some msg.USERAUTH_SUCCESS ->
  Transport.write_packet p t = (Ok tt, wrote_plain p t).
Proof.
  intros H1 H2 H3 H4 H5. rewrite write_packet_wrote by (done || (unfold below_cap, EPOCH_HARD_PACKETS; lia)).
  unfold wrote_packet, wrote_plain, Transport.seal, sealed, modify. rewrite H3. cbn [Cipher.seal_into sealed_cipher snd fst].
  f_equal. destruct t. cbn in *. by subst.
Qed.

(** * One message at a time *)

Lemma feed_version k w t :
  t_closing t = false -> t_phase t = NeedPeerVersion ->
  feed (S k) (local_id_line ++ w) t = feed k w (t <| t_peer_id := Some LOCAL_ID |> <| t_phase := Transport.Handshake |>).
Proof.
  intros Hc Hp. cbn [feed]. rewrite Hc, bool_decide_true, parse_local_id_line by done.
  by rewrite zdrop_app_len.
Qed.

Lemma feed_plain k p w t t2 :
  core t = t -> t_closing t = false -> t_phase t <> NeedPeerVersion -> t_cipher_in t = Cipher_None ->
  t_comp_in t = Decompressor_None -> 0 <= t_rx_packets_since_rekey t <= 3 -> small p ->
  head p <> Some msg.USERAUTH_SUCCESS ->
  Transport.handle_packet p (seen (len (plain_frame p)) t) = (Ok tt, t2) -> settled t2 ->
  feed (S k) (plain_frame p ++ w) t = feed k w t2 /\ core t2 = t2.
Proof.
  intros Ht Hc Hp Hci Hco Hn Hs Hh Hd Hu.
  assert (Ew : plain_frame p = sealed (t_cipher_in t) (t_rx_seq t) p (t_rng t)) by by rewrite Hci.
  rewrite Ew in *. apply feed_packet; try done.
  - unfold below_cap, EPOCH_HARD_PACKETS. lia.
  - by apply small_region.
  - unfold opened. assert (E : t <| t_cipher_in := sealed_cipher (t_cipher_in t) |> = t) by (rewrite Hci; cbn; rewrite <- Hci; by destruct t).
    by rewrite E.
Qed.

(** * Key exchange messages *)

(** [Rounds.met], for the first exchange of two strict ends. *)
Definition met (ki : KexInit) (n : Negotiated) t : Transport := Rounds.met ki n (t <| t_strict_kex := true |>).

Lemma handle_kexinit ki t :
  head (payload ki) = Some msg.KEXINIT -> t_phase t <> Established ->
  Transport.handle_packet (payload ki) t = Transport.kexinit_round (payload ki) t.
Proof.
  intros Hh Hp. destruct (payload ki) as [|x p]; [done|]. injection Hh as ->. dispatch.
  rewrite andb_false_r. cbv iota.
  unfold Transport.on_peer_kexinit, bind at 1, get, Transport.is_established.
  by rewrite bool_decide_false.
Qed.

Lemma server_meets ki ki' n t :
  t_role t = Server -> t_initial_kex_done t = false -> kexinit_from Client ki ->
  KexInit.parse (t_local_kexinit t) = Ok ki' -> negotiate ki ki' = Ok n ->
  Transport.kexinit_round (payload ki) t = (Ok tt, met ki n t).
Proof.
  intros Hr Hi Hf Hl Hn. rewrite (round_meets ki ki' n) by (rewrite ?Hr; done). unfold strict_settled. by rewrite Hr, Hi.
Qed.

Lemma client_meets ki ki' n eph v r' t :
  t_role t = Client -> t_initial_kex_done t = false -> kexinit_from Server ki ->
  KexInit.parse (t_local_kexinit t) = Ok ki' -> negotiate ki' ki = Ok n ->
  t_closing t = false -> t_comp_out t = Compressor_None -> t_cipher_out t = Cipher_None ->
  0 <= t_tx_packets_since_rekey t <= 3 ->
  Transport.client_ephemeral_for (KexKind_of (n_kex n)) (t_rng t) = (Ok (eph, v), r') ->
  Transport.kexinit_round (payload ki) t =
    (Ok tt, (wrote_plain (ecdh_init_msg v) ((met ki n t) <| t_rng := r' |>)) <| t_kex_eph := Some eph |>).
Proof.
  intros Hr Hi Hf Hl Hn Hc Hco Hci Htx He. rewrite (round_meets ki ki' n) by (rewrite ?Hr; done).
  unfold strict_settled. rewrite Hr, Hi. fold (met ki n t). unfold bind at 1, Transport.with_rng, zoom.
  change (t_rng (met ki n t)) with (t_rng t). rewrite He. unfold bind at 1. rewrite write_plain; [done..|].
  intros E. apply (f_equal (fun o => default 0 o)) in E. by rewrite (proj1 (ecdh_init_head v)) in E.
Qed.

(** Our NEWKEYS is out, that of the peer is not in. *)
Definition switched (out inn : Cipher) t : Transport :=
  (wrote_plain [msg.NEWKEYS] t) <| t_cipher_out := out |> <| t_pending := Some (mkPendingKeys Cipher_None inn) |>
    <| t_tx_seq := 0 |> <| t_sent_newkeys := true |>.

Lemma send_newkeys_switched out inn t :
  t_pending t = Some (mkPendingKeys out inn) -> t_closing t = false -> t_comp_out t = Compressor_None ->
  t_cipher_out t = Cipher_None -> 0 <= t_tx_packets_since_rekey t <= 3 -> t_comp_active t = false ->
  t_strict_kex t = true -> t_recv_newkeys t = false ->
  Transport.send_newkeys t = (Ok tt, switched out inn t).
Proof.
  intros H1 H2 H3 H4 H5 H6 H7 H8.
  rewrite (send_newkeys_sent out inn t (wrote_plain [msg.NEWKEYS] t)) by (done || by apply write_plain).
  unfold newkeys_sent, switched. change (t_strict_kex (wrote_plain [msg.NEWKEYS] t)) with (t_strict_kex t). by rewrite H7.
Qed.

(** The round is complete. *)
Definition finished t : Transport :=
  t <| t_pending := None |> <| t_initial_kex_done := true |> <| t_phase := Established |>
    <| t_events ::= (fun q => q ++ [Ev_Established]) |> <| t_rekeying := false |>
    <| t_kexinit_sent := false |> <| t_sent_newkeys := false |> <| t_recv_newkeys := false |>
    <| t_bytes_since_rekey := 0 |> <| t_tx_packets_since_rekey := 0 |> <| t_rx_bytes_since_rekey := 0 |>
    <| t_rx_packets_since_rekey := 0 |> <| t_tx_app_queue := [] |>.

Lemma maybe_complete_finished t :
  t_sent_newkeys t = true -> t_recv_newkeys t = true -> t_initial_kex_done t = false -> t_tx_app_queue t = [] ->
  Transport.maybe_complete_kex t = (Ok tt, finished t).
Proof.
  intros H1 H2 H3 H4. unfold Transport.maybe_complete_kex, bind at 1, get. rewrite H1, H2, H3. cbn [andb negb when].
  unfold bind, modify, Transport.push_event, modify, gets.
  match goal with |- context [mfor (t_tx_app_queue ?s)] => change (t_tx_app_queue s) with (t_tx_app_queue t) end.
  rewrite H4. reflexivity.
Qed.

(** The peer's NEWKEYS completes the handshake. *)
Definition completed (inn : Cipher) (out : Cipher) t : Transport :=
  finished (t <| t_cipher_in := inn |> <| t_pending := Some (mkPendingKeys out Cipher_None) |>
              <| t_rx_seq := 0 |> <| t_recv_newkeys := true |>).

Lemma handle_newkeys out inn t :
  t_pending t = Some (mkPendingKeys out inn) -> t_comp_active t = false -> t_strict_kex t = true ->
  t_sent_newkeys t = true -> t_initial_kex_done t = false -> t_tx_app_queue t = [] ->
  Transport.handle_packet [msg.NEWKEYS] t = (Ok tt, completed inn out t).
Proof.
  intros H1 H2 H3 H4 H5 H6. rewrite (handle_newkeys_read out inn) by done. unfold completed.
  rewrite maybe_complete_finished by done. unfold newkeys_read. by rewrite H3.
Qed.

(** * The first flight *)

Definition started (role : Role) (rng : Rng) (hk : option HostKey) (oc ocomp : option (list bytes)) (ki : KexInit)
  : Transport :=
  (wrote_plain (payload ki) (Transport.initial role rng hk oc ocomp))
    <| t_local_kexinit := payload ki |> <| t_kexinit_sent := true |>.

Lemma start_started role rng hk oc ocomp :
  exists cookie r', len cookie = 16 /\ Transport.start role rng hk oc ocomp =
    (Ok tt, started role r' hk oc ocomp (hello (bool_decide (role = Server)) cookie
              (default default_ciphers oc) (default default_compressions ocomp))).
Proof.
  destruct (ours_with_eq (bool_decide (role = Server)) (default default_ciphers oc)
    (default default_compressions ocomp) rng) as (cookie & r' & Hl & He).
  exists cookie, r'. split; [done|]. unfold Transport.start, Transport.send_kexinit, bind at 1, get.
  cbn [Transport.initial t_role t_offered_ciphers t_offered_compression].
  unfold bind at 1, Transport.with_rng, zoom. cbn [t_rng Transport.initial]. rewrite He.
  unfold bind at 1. cbn [payload]. rewrite write_plain by (done || (cbn; lia)). reflexivity.
Qed.

End Handshake.

Lemma plain_frame_nonempty p w : plain_frame p ++ w <> [].
Proof.
  intros E%(f_equal len). rewrite len_app, len_plain_frame, len_nil in E. pose proof (len_nonneg w).
  pose proof (len_nonneg p). pose proof (padding_len_spec (len p) BLOCK (len_nonneg _)). unfold MIN_PADDING in *. lia.
Qed.

(** * The five deliveries *)
Section Run.
Context `{C : Crypto} `{!CryptoOk C}.
Implicit Types t : Transport.
Context (rc rs rc' rs' : Rng) (hk : HostKey) (oc ocomp : option (list bytes)) (ki_c ki_s : KexInit) (n : Negotiated).
Context (eph : KexEphemeral) (v q_s shared : bytes) (kl : Z).
Hypotheses (Fc : kexinit_from Client ki_c) (Fs : kexinit_from Server ki_s)
  (Sc : small (payload ki_c)) (Ss : small (payload ki_s)) (Hn : negotiate ki_c ki_s = Ok n)
  (He : Transport.client_ephemeral_for (KexKind_of (n_kex n)) rc = (Ok (eph, v), rc'))
  (Hs : Transport.server_kex (KexKind_of (n_kex n)) v rs = (Ok (q_s, shared), rs'))
  (Hkl : Cipher.key_len (n_cipher_c2s n) = Ok kl).

Definition introduced t : Transport := t <| t_peer_id := Some LOCAL_ID |> <| t_phase := Transport.Handshake |>.
Definition frame_len (p : bytes) : Z := len (plain_frame p).

Definition s0 : Transport := started Server rs (Some hk) None None ki_s.
Definition c0 : Transport := started Client rc None oc ocomp ki_c.
Definition s1 : Transport := met ki_c n (seen (frame_len (payload ki_c)) (introduced s0)).
Definition c1 : Transport :=
  (wrote_plain (ecdh_init_msg v)
     ((met ki_s n (seen (frame_len (payload ki_s)) (introduced (emptied c0)))) <| t_rng := rc' |>))
    <| t_kex_eph := Some eph |>.

Lemma first_to_server : feed 3 (Transport.pending_output c0) s0 = (Ok tt, (s1, [])) /\ core s1 = s1.
Proof.
  change (Transport.pending_output c0) with (local_id_line ++ plain_frame (payload ki_c)).
  rewrite feed_version by done. fold (introduced s0). rewrite <- (app_nil_r (plain_frame _)).
  destruct (feed_plain 1 (payload ki_c) [] (introduced s0) s1) as [E Hc];
    [by apply core_of|reflexivity|discriminate|reflexivity|reflexivity|change (0 <= 0 <= 3); lia|exact Sc|by rewrite (kf_id _ _ Fc)|..].
  - rewrite handle_kexinit by (apply Fc || discriminate).
    apply (server_meets ki_c ki_s); [reflexivity|reflexivity|exact Fc|apply Fs|exact Hn].
  - by left.
  - split; [|exact Hc]. rewrite E. by apply feed_end.
Qed.

Lemma first_to_client : feed 3 (Transport.pending_output s1) (emptied c0) = (Ok tt, (c1, [])) /\ core c1 = c1.
Proof.
  change (Transport.pending_output s1) with (local_id_line ++ plain_frame (payload ki_s)).
  rewrite feed_version by done. fold (introduced (emptied c0)). rewrite <- (app_nil_r (plain_frame _)).
  destruct (feed_plain 1 (payload ki_s) [] (introduced (emptied c0)) c1) as [E Hc];
    [by apply core_of|reflexivity|discriminate|reflexivity|reflexivity|change (0 <= 0 <= 3); lia|exact Ss|by rewrite (kf_id _ _ Fs)|..].
  - rewrite handle_kexinit by (apply Fs || discriminate).
    apply (client_meets ki_s ki_c);
      [reflexivity|reflexivity|exact Fs|apply Fc|exact Hn|reflexivity|reflexivity|reflexivity|change (0 <= 1 <= 3); lia|exact He].
  - by left.
  - split; [|exact Hc]. rewrite E. by apply feed_end.
Qed.

(** What the exchange settles. *)
Definition kind : KexKind := KexKind_of (n_kex n).
Definition secret : SharedSecret := KexKind_shared_secret kind shared.
Definition blob : bytes := HostKey.public_blob hk.
Definition session : bytes :=
  exchange_hash (mkExchangeHashInput LOCAL_ID LOCAL_ID (payload ki_c) (payload ki_s) blob v q_s secret) (KexKind_hash kind).
Definition reply : bytes := ecdh_reply_msg blob q_s (HostKey.sign_exchange_hash hk session).
Context (c2s s2c : Cipher) (Hk : round_keys n session session secret (KexKind_hash kind) c2s s2c).
Hypotheses (Hv : len v <= 10000) (Hq : len q_s <= 10000) (Ho : eph_ok (KexKind_of (n_kex n)) eph v).

Definition answering : Transport := (seen (frame_len (ecdh_init_msg v)) (emptied s1)) <| t_rng := rs' |>.
Definition s2 : Transport := switched s2c c2s (staged session s2c c2s n (wrote_plain reply answering)).
Definition convinced : Transport :=
  (seen (frame_len reply) (emptied c1)) <| t_kex_eph := None |> <| t_events := [ServerHostKey (HostKey.public hk)] |>.
Definition c2a : Transport := switched c2s s2c (staged session c2s s2c n convinced).
Definition c2 : Transport := completed s2c Cipher_None (seen (frame_len [msg.NEWKEYS]) c2a).
Definition s3 : Transport := completed c2s Cipher_None (seen (frame_len [msg.NEWKEYS]) (emptied s2)).

Lemma mirrored_run a b : mirrored (seen a (emptied s1)) (seen b (emptied c1)) hk n.
Proof. constructor; reflexivity. Qed.

Lemma reply_head : head reply = Some msg.KEX_ECDH_REPLY.
Proof. apply ecdh_reply_head. Qed.

Lemma small_reply : small reply.
Proof.
  unfold small, reply. rewrite (proj2 (ecdh_reply_head _ _ _)). unfold blob.
  rewrite len_public_blob, len_sign_exchange_hash. lia.
Qed.

Lemma second_to_server : feed 2 (Transport.pending_output c1) (emptied s1) = (Ok tt, (s2, [])) /\ core s2 = s2.
Proof.
  change (Transport.pending_output c1) with (plain_frame (ecdh_init_msg v)). rewrite <- (app_nil_r (plain_frame _)).
  destruct (ecdh_init_head v) as [Hh Hl].
  destruct (feed_plain 1 (ecdh_init_msg v) [] (emptied s1) s2) as [E Hc];
    [by apply core_of|reflexivity|discriminate|reflexivity|reflexivity|change (0 <= 1 <= 3); lia
    |unfold small; lia|by rewrite Hh|..].
  - rewrite handle_init by (exact Hh || reflexivity). fold (frame_len (ecdh_init_msg v)).
    rewrite (server_round _ _ hk n v q_s shared rs' (mirrored_run (frame_len (ecdh_init_msg v)) 0))
      by (exact Hs || (unfold U32_MAX; lia)).
    fold kind. fold blob. fold secret. match goal with |- context [exchange_hash ?x ?y] => change (exchange_hash x y) with session end.
    fold reply. fold answering. unfold bind at 1.
    rewrite write_plain; [|reflexivity|reflexivity|reflexivity|change (0 <= 1 <= 3); lia
      |by rewrite reply_head].
    unfold bind at 1. rewrite (finish_kex_staged n session secret _ c2s s2c); [|reflexivity|exact Hk].
    apply send_newkeys_switched; try reflexivity; change (0 <= 2 <= 3); lia.
  - left. discriminate.
  - split; [|exact Hc]. rewrite E. by apply feed_end.
Qed.

Lemma second_to_client : feed 3 (Transport.pending_output s2) (emptied c1) = (Ok tt, (c2, [])) /\ core c2 = c2.
Proof.
  change (Transport.pending_output s2) with (plain_frame reply ++ plain_frame [msg.NEWKEYS]).
  destruct (feed_plain 2 reply (plain_frame [msg.NEWKEYS]) (emptied c1) c2a) as [E Hc];
    [by apply core_of|reflexivity|discriminate|reflexivity|reflexivity|change (0 <= 1 <= 3); lia
    |exact small_reply|by rewrite reply_head|..].
  - rewrite handle_reply by (exact reply_head || reflexivity). fold (frame_len reply).
    assert (Er : Transport.on_ecdh_reply reply (seen (frame_len reply) (emptied c1)) =
      (Transport.finish_kex session secret (KexKind_hash kind) ;;; Transport.send_newkeys) convinced).
    { refine (client_round (seen 0 (emptied s1)) (seen (frame_len reply) (emptied c1)) hk n v eph q_s shared rs'
        (mirrored_run 0 (frame_len reply)) _ eq_refl Ho Hs). unfold U32_MAX. lia. }
    rewrite Er.
    unfold bind at 1. rewrite (finish_kex_staged n session secret _ c2s s2c); [|reflexivity|exact Hk].
    apply send_newkeys_switched; try reflexivity; change (0 <= 2 <= 3); lia.
  - left. discriminate.
  - rewrite E. rewrite <- (app_nil_r (plain_frame [_])).
    destruct (feed_plain 1 [msg.NEWKEYS] [] c2a c2) as [E2 Hc2];
      [exact Hc|reflexivity|discriminate|reflexivity|reflexivity|change (0 <= 2 <= 3); lia|unfold small; by vm_compute|discriminate|..].
    + apply handle_newkeys; reflexivity.
    + right. right. split; reflexivity.
    + split; [|exact Hc2]. rewrite E2. by apply feed_end.
Qed.

Lemma third_to_server : feed 2 (Transport.pending_output c2) (emptied s2) = (Ok tt, (s3, [])) /\ core s3 = s3.
Proof.
  change (Transport.pending_output c2) with (plain_frame [msg.NEWKEYS]). rewrite <- (app_nil_r (plain_frame _)).
  destruct (feed_plain 1 [msg.NEWKEYS] [] (emptied s2) s3) as [E Hc];
    [by apply core_of|reflexivity|discriminate|reflexivity|reflexivity|change (0 <= 2 <= 3); lia|unfold small; by vm_compute|discriminate|..].
  - apply handle_newkeys; reflexivity.
  - right. right. split; reflexivity.
  - split; [|exact Hc]. rewrite E. by apply feed_end.
Qed.

Lemma run_play `{!FlateOk C} (cut : bytes -> list bytes) :
  (forall w, List.concat (cut w) = w) -> tinv c0 -> tinv s0 ->
  play cut [Client; Server; Client; Server; Client] c0 s0 = (Ok tt, (emptied c2, s3)) /\ tinv (emptied c2) /\ tinv s3.
Proof.
  intros Hcut Tc Ts. cbn [play].
  assert (N : forall p, plain_frame p <> []).
  { intros p E. apply (plain_frame_nonempty p []). by rewrite app_nil_r. }
  destruct (play_step cut 3 s0 s1 (Transport.pending_output c0) Hcut Ts) as [-> T1];
    [by apply core_of|reflexivity|by left|exact first_to_server|reflexivity|].
  change (snd (Transport.clear_output c0)) with (emptied c0).
  destruct (play_step cut 3 (emptied c0) c1 (Transport.pending_output s1) Hcut (tinv_emptied _ Tc)) as [-> T2];
    [by apply core_of|reflexivity|by left|exact first_to_client|reflexivity|].
  change (snd (Transport.clear_output s1)) with (emptied s1).
  destruct (play_step cut 2 (emptied s1) s2 (Transport.pending_output c1) Hcut (tinv_emptied _ T1)) as [-> T3];
    [by apply core_of|reflexivity|left; apply N|exact second_to_server|reflexivity|].
  change (snd (Transport.clear_output c1)) with (emptied c1).
  destruct (play_step cut 3 (emptied c1) c2 (Transport.pending_output s2) Hcut (tinv_emptied _ T2)) as [-> T4];
    [by apply core_of|reflexivity|left; apply plain_frame_nonempty|exact second_to_client|reflexivity|].
  change (snd (Transport.clear_output s2)) with (emptied s2).
  destruct (play_step cut 2 (emptied s2) s3 (Transport.pending_output c2) Hcut (tinv_emptied _ T3)) as [-> T5];
    [by apply core_of|reflexivity|left; apply N|exact third_to_server|reflexivity|].
  split; [reflexivity|]. split; [exact (tinv_emptied _ T4)|exact T5].
Qed.
End Run.

(** What [a] sends reaches [b]'s application: the hypotheses of the delivery theorem, with
    the counters of a fresh key. *)
Record in_step `{C : Crypto} (a b : Transport) : Prop := {
  is_up : t_phase a = Established /\ t_phase b = Established;
  is_open : t_closing a = false /\ t_closing b = false;
  is_idle : t_rekeying a = false /\ t_tx a = [] /\ t_rx b = [] /\ t_rx_pos b = 0;
  is_keyed : t_cipher_out a <> Cipher_None /\ t_cipher_in b = t_cipher_out a /\ t_rx_seq b = t_tx_seq a;
  is_plain : t_comp_out a = Compressor_None /\ t_comp_in b = Decompressor_None;
  is_fresh : t_tx_packets_since_rekey a = 0 /\ t_bytes_since_rekey a = 0 /\
             t_rx_packets_since_rekey b = 0 /\ t_rx_bytes_since_rekey b = 0;
  is_limits : t_rekey_packets_limit a = REKEY_PACKETS /\ t_rekey_bytes_limit a = REKEY_BYTES /\
              t_rekey_packets_limit b = REKEY_PACKETS /\ t_rekey_bytes_limit b = REKEY_BYTES
}.

Section Whole.
Context `{C : Crypto} `{!CryptoOk C} `{!FlateOk C}.

(** The ends as the handshake leaves them. *)
Record introduced_to (hk : HostKey) (c s : Transport) : Prop := {
  it_up : in_step c s;
  it_down : in_step s c;
  it_linked : linked hk c s;
  it_fresh : (t_consecutive_peer_rekeys c = 0 /\ t_consecutive_peer_rekeys s = 0) /\
             t_max_consecutive_peer_rekeys c = DEFAULT_MAX_CONSECUTIVE_PEER_REKEYS /\
             t_max_consecutive_peer_rekeys s = DEFAULT_MAX_CONSECUTIVE_PEER_REKEYS;
  it_events : t_events c = [ServerHostKey (HostKey.public hk); Ev_Established] /\ t_events s = [Ev_Established]
}.

Lemma introduced_roomy hk c s : introduced_to hk c s -> roomy c /\ roomy s.
Proof.
  intros [U D _ [[F1 F2] [F3 F4]] _]. destruct (is_fresh _ _ U) as (U1 & _ & U2 & _), (is_fresh _ _ D) as (D1 & _ & D2 & _).
  unfold roomy. rewrite U1, U2, D1, D2, F1, F2, F3, F4. by vm_compute.
Qed.

Lemma run_introduced rc rs r r' hk oc ocomp ki_c ki_s n eph v q_s shared c2s s2c :
  let c' := emptied (c2 rc r hk oc ocomp ki_c ki_s n eph v q_s shared c2s s2c) in
  let s' := s3 rs r' hk ki_c ki_s n v q_s shared c2s s2c in
  offer_meets (default default_ciphers oc) (default default_compressions ocomp) ->
  c2s <> Cipher_None -> s2c <> Cipher_None -> tinv c' -> tinv s' -> introduced_to hk c' s'.
Proof.
  intros c' s' Ho Nc Ns Tc Ts. constructor; [by constructor|by constructor| |by split_and!|by split_and!].
  assert (L : forall t : Transport, t_rekey_bytes_limit t = REKEY_BYTES -> t_rekey_packets_limit t = REKEY_PACKETS ->
    0 < t_rekey_bytes_limit t /\ 0 < t_rekey_packets_limit t) by by intros t -> ->.
  assert (Qc : quiet c').
  { constructor; [reflexivity|reflexivity|split; [|split]; reflexivity|reflexivity..| |reflexivity| |exact Tc].
    - apply core_of; reflexivity.
    - apply L; reflexivity. }
  assert (Qs : quiet s').
  { constructor; [reflexivity|reflexivity|split; [|split]; reflexivity|reflexivity..| |reflexivity| |exact Ts].
    - apply core_of; reflexivity.
    - apply L; reflexivity. }
  constructor.
  - split; [exact Qc|reflexivity].
  - split; [exact Qs|split; reflexivity].
  - split; reflexivity.
  - split; [eexists; reflexivity|reflexivity].
  - reflexivity.
  - split; [reflexivity|split; [reflexivity|exact Nc]].
  - split; [reflexivity|split; [reflexivity|exact Ns]].
  - split; [exact Ho|split; reflexivity].
Qed.

Lemma handshake_done (cut : bytes -> list bytes) rng_c rng_s hk oc ocomp c s x z :
  (forall w, List.concat (cut w) = w) -> agreeable ->
  Transport.start Client rng_c None oc ocomp = (Ok tt, c) ->
  Transport.new_server rng_s hk = (Ok tt, s) ->
  offer_ok (default default_ciphers oc) (default default_compressions ocomp) ->
  x ∈ default default_ciphers oc -> x ∈ CIPHERS ->
  z ∈ default default_compressions ocomp -> z ∈ COMPRESSIONS ->
  exists c' s', play cut [Client; Server; Client; Server; Client] c s = (Ok tt, (c', s')) /\ introduced_to hk c' s'.
Proof.
  intros Hcut Ha Hcs Hss Ho Hx1 Hx2 Hz1 Hz2.
  destruct (client_ephemeral_ok Kind_MlKem (t_rng c)) as (eph & v & r & He & _).
  destruct (agreeable_kex eph v (t_rng c) r (t_rng s) Ha He) as (q_s & shared & r' & Hs).
  destruct (start_tinv Client rng_c None oc ocomp) as (c0' & Hc0 & Tc). rewrite Hcs in Hc0. injection Hc0 as <-.
  destruct (start_tinv Server rng_s (Some hk) None None) as (s0' & Hs0 & Ts).
  unfold Transport.new_server in Hss. rewrite Hss in Hs0. injection Hs0 as <-.
  destruct (start_started Client rng_c None oc ocomp) as (cookie & rc & Hlc & Ec). rewrite Hcs in Ec. injection Ec as ->.
  destruct (start_started Server rng_s (Some hk) None None) as (cookie' & rs & Hls & Es). rewrite Hss in Es. injection Es as ->.
  change (bool_decide (Client = Server)) with false in *. change (bool_decide (Server = Server)) with true in *.
  set (ki_c := hello false cookie _ _) in *. set (ki_s := hello true cookie' _ _) in *.
  destruct (hello_from false cookie _ _ Hlc Ho) as [Fc Sc].
  destruct (hello_from true cookie' default_ciphers default_compressions Hls) as [Fs Ss].
  { destruct fixed_offers_ok as (_ & _ & H1 & H2 & _). constructor; [done|done|by vm_compute]. }
  fold ki_c in Fc, Sc. fold ki_s in Fs, Ss.
  destruct (hellos_agree cookie cookie' _ _ x z Hx1 Hx2 Hz1 Hz2) as (n & kl & Hn & Hkind & Hkl).
  fold ki_c in Hn. fold ki_s in Hn.
  change (t_rng (started Client rc None oc ocomp ki_c)) with rc in He.
  change (t_rng (started Server rs (Some hk) None None ki_s)) with rs in Hs.
  assert (Hok : eph_ok Kind_MlKem eph v).
  { destruct (client_ephemeral_ok Kind_MlKem rc) as (e1 & v1 & r1 & E1 & Hok). rewrite He in E1. by injection E1 as -> -> ->. }
  destruct (exchange_sizes _ _ _ _ _ _ Hok Hs) as [Hv Hq]. rewrite <- Hkind in He, Hs, Hok.
  destruct (round_keys_exist n (session hk ki_c ki_s n v q_s shared) (session hk ki_c ki_s n v q_s shared)
    (secret n shared) (KexKind_hash (kind n)) kl Hkl) as (c2s & s2c & Hk).
  destruct (round_keys_real _ _ _ _ _ _ _ Hk) as [Nc Ns].
  destruct (run_play rc rs r r' hk oc ocomp ki_c ki_s n eph v q_s shared Fc Fs Sc Ss Hn He Hs c2s s2c Hk Hv Hq Hok cut Hcut Tc Ts)
    as (Hp & T1 & T2).
  eexists _, _. split; [exact Hp|]. apply run_introduced; [|exact Nc|exact Ns|exact T1|exact T2].
  split; [exact Ho|by exists x|by exists z].
Qed.

(** C3. An honest handshake completes.  A client and a server that have a cipher and a
    compression in common are both, unless X25519 refuses honest values, established once the client has spoken three times and the server twice, however the
    streams between them are cut: with the same session id, each with the cipher and the
    sequence number that the other expects, the server's host key shown to the client, and
    nothing left unread or unsent. *)
Theorem handshake_completes (cut : bytes -> list bytes) rng_c rng_s hk oc ocomp c s x z :
  (forall w, List.concat (cut w) = w) -> agreeable ->
  Transport.start Client rng_c None oc ocomp = (Ok tt, c) ->
  Transport.new_server rng_s hk = (Ok tt, s) ->
  offer_ok (default default_ciphers oc) (default default_compressions ocomp) ->
  x ∈ default default_ciphers oc -> x ∈ CIPHERS ->
  z ∈ default default_compressions ocomp -> z ∈ COMPRESSIONS ->
  exists c' s', play cut [Client; Server; Client; Server; Client] c s = (Ok tt, (c', s')) /\
    linked hk c' s' /\ in_step c' s' /\ in_step s' c' /\ is_Some (t_session_id c') /\ t_session_id c' = t_session_id s' /\
    t_events c' = [ServerHostKey (HostKey.public hk); Ev_Established] /\ t_events s' = [Ev_Established].
Proof.
  intros. destruct (handshake_done cut rng_c rng_s hk oc ocomp c s x z) as (c' & s' & Hp & [I1 I2 L _ [E1 E2]]);
    [assumption..|].
  exists c', s'. destruct (lk_session _ _ _ L) as [L1 L2]. by split_and!.
Qed.
End Whole.

(** The two ends of [Demo], over a connection that delivers byte by byte. *)
Definition bytewise (w : bytes) : list bytes := List.map (fun b => [b]) w.

Lemma bytewise_cuts w : List.concat (bytewise w) = w.
Proof. unfold bytewise. induction w as [|b w IH]; [done|]. cbn. by rewrite IH. Qed.

Lemma toy_agreeable : agreeable (C := Toy.crypto).
Proof. intros r r'. apply Toy.odd_contributory. Qed.

Lemma handshake_completes_witness :
  exists c' s', play (C := Toy.crypto) bytewise [Client; Server; Client; Server; Client] Demo.cl0 Demo.sv0
      = (Ok tt, (c', s')) /\ in_step c' s' /\ in_step s' c'.
Proof.
  destruct (@handshake_completes Toy.crypto Toy.crypto_ok Toy.flate_ok bytewise 5 9
    (HostKey.from_seed (C := Toy.crypto) [1; 2; 3]) None None Demo.cl0 Demo.sv0 CIPHER_AES256_GCM COMPRESSION_NONE) as (c' & s' & H & _ & H1 & H2 & _).
  - exact bytewise_cuts.
  - exact toy_agreeable.
  - ran Demo.cl0.
  - exact demo_server_start.
  - destruct fixed_offers_ok as (_ & _ & F1 & F2 & _). constructor; [exact F1|exact F2|by vm_compute].
  - right. by left.
  - right. by left.
  - by left.
  - by left.
  - exists c', s'. exact (conj H (conj H1 H2)).
Defined.

(** The two ends of [Demo] after the handshake. *)
Lemma demo_introduced :
  exists c' s', introduced_to (C := Toy.crypto) (HostKey.from_seed (C := Toy.crypto) [1; 2; 3]) c' s'.
Proof.
  destruct (@handshake_done Toy.crypto Toy.crypto_ok Toy.flate_ok bytewise 5 9
    (HostKey.from_seed (C := Toy.crypto) [1; 2; 3]) None None Demo.cl0 Demo.sv0 CIPHER_AES256_GCM COMPRESSION_NONE)
    as (c' & s' & _ & H).
  - exact bytewise_cuts.
  - exact toy_agreeable.
  - ran Demo.cl0.
  - exact demo_server_start.
  - destruct fixed_offers_ok as (_ & _ & F1 & F2 & _). constructor; [exact F1|exact F2|by vm_compute].
  - right. by left.
  - right. by left.
  - by left.
  - by left.
  - by exists c', s'.
Qed.
