(* ===== verification/RekeyRound.v ===== *)
(** The messages of a re-key between two established ends: opening the round from either
    side, the exchange, and its end, at which the packets that were queued go out under the
    new keys. *)
From S2P Require Import Prelude Errors Wire Packet Version Crypto Kex Algo Cipher Compress.
From S2P Require Import Transport TransportInv TransportSteps TransportDemo TransportStream TransportDuplex.
From S2P Require Import Rounds.

Section Steps.
Context `{C : Crypto} `{!CryptoOk C}.
Implicit Types t : Transport.

(** * Several packets *)

(** A list of payloads that may wait for the end of the round: packets of the application,
    not too many for the new keys of the receiver. *)
Record may_wait (ps : list bytes) (receiver : Transport) : Prop := {
  mw_app : Forall (fun p => app_payload (t_role receiver) p = true /\ head p <> Some msg.USERAUTH_SUCCESS /\ small p) ps;
  mw_packets : len ps + 1 < Z.min (t_rekey_packets_limit receiver) EPOCH_HARD_PACKETS;
  mw_bytes : sum_len ps + 64 * len ps < Z.min (t_rekey_bytes_limit receiver) U64_MAX
}.

(** Writing them one after the other. *)
Definition wrote_all (ps : list bytes) t : Transport := fold_left (fun t p => wrote_packet p t) ps t.

Lemma write_all ps t :
  t_closing t = false -> t_comp_out t = Compressor_None -> 0 <= t_tx_packets_since_rekey t ->
  t_tx_packets_since_rekey t + len ps < EPOCH_HARD_PACKETS -> Forall (fun p => head p <> Some msg.USERAUTH_SUCCESS) ps ->
  mfor ps Transport.write_packet t = (Ok tt, wrote_all ps t).
Proof.
  revert t. induction ps as [|p ps IH]; intros t H1 H2 H3 H4 H5; [done|].
  apply List.Forall_cons_iff in H5 as [Hp Hps]. rewrite len_cons in H4. pose proof (len_nonneg ps).
  cbn [mfor]. unfold bind. rewrite write_packet_wrote by (done || (unfold below_cap, EPOCH_HARD_PACKETS in *; lia)).
  apply IH; try done; cbn; lia.
Qed.

(** Only the cipher, the generator, the output and two counters have changed. *)
Lemma wrote_all_wire ps t :
  exists w r, wire_of (t_cipher_out t) (t_tx_seq t) ps w (t_cipher_out (wrote_all ps t)) (t_tx_seq (wrote_all ps t)) /\
    wrote_all ps t = t <| t_cipher_out := t_cipher_out (wrote_all ps t) |> <| t_rng := r |> <| t_tx := t_tx t ++ w |>
      <| t_tx_packets_since_rekey := t_tx_packets_since_rekey t + len ps |> <| t_tx_seq := t_tx_seq (wrote_all ps t) |>.
Proof.
  revert t. induction ps as [|p ps IH]; intros t.
  - exists [], (t_rng t). split; [constructor|]. cbn [wrote_all fold_left]. rewrite app_nil_r, Z.add_0_r. by destruct t.
  - destruct (IH (wrote_packet p t)) as (w & r & Hw & E). change (wrote_all (p :: ps) t) with (wrote_all ps (wrote_packet p t)).
    exists (sealed (t_cipher_out t) (t_tx_seq t) p (t_rng t) ++ w), r. split; [constructor; exact Hw|].
    rewrite E at 1. rewrite len_cons, app_assoc. unfold wrote_packet at 2 3 4 5 6.
    replace (t_tx_packets_since_rekey t + (1 + len ps)) with (t_tx_packets_since_rekey t + 1 + len ps) by lia.
    by t_flat.
Qed.

(** Reading them. *)
Definition read_all (ps : list bytes) (k : Cipher) (q n m : Z) t : Transport :=
  t <| t_cipher_in := k |> <| t_rx_seq := q |> <| t_rx_bytes_since_rekey := n |>
    <| t_rx_packets_since_rekey := t_rx_packets_since_rekey t + len ps |>
    <| t_consecutive_peer_rekeys := m |> <| t_events := t_events t ++ map Packet ps |>.

Lemma feed_all ps c seq w c' seq' k rest t :
  wire_of c seq ps w c' seq' -> t_cipher_in t = c -> t_rx_seq t = seq ->
  core t = t -> t_closing t = false -> t_phase t = Established -> t_comp_in t = Decompressor_None ->
  0 <= t_rx_packets_since_rekey t -> 0 <= t_rx_bytes_since_rekey t ->
  t_rx_packets_since_rekey t + len ps + 1 < Z.min (t_rekey_packets_limit t) EPOCH_HARD_PACKETS ->
  t_rx_bytes_since_rekey t + (sum_len ps + 64 * len ps) < Z.min (t_rekey_bytes_limit t) U64_MAX ->
  Forall (fun p => app_payload (t_role t) p = true /\ head p <> Some msg.USERAUTH_SUCCESS /\ small p) ps ->
  exists n m, 0 <= n /\ (m = 0 \/ m = t_consecutive_peer_rekeys t) /\
    feed (length ps + k) (w ++ rest) t = feed k rest (read_all ps c' seq' n m t).
Proof.
  intros Hw. revert t. induction Hw as [c seq|c seq p rng ps w c' seq' Hw IH]; intros t Hc Hs Ht Ho Hp Hco H1 H2 H3 H4 Hps.
  - exists (t_rx_bytes_since_rekey t), (t_consecutive_peer_rekeys t). split; [done|]. split; [by right|].
    cbn [length Nat.add app map]. f_equal. unfold read_all. rewrite app_nil_r, Z.add_0_r, <- Hc, <- Hs. by destruct t.
  - apply List.Forall_cons_iff in Hps as [(Ha & Hh & Hsm) Hps]. rewrite len_cons in H3, H4. rewrite sum_len_cons in H4.
    pose proof (len_nonneg ps). pose proof (len_nonneg p). pose proof (sum_len_nonneg ps).
    cbn [length Nat.add]. rewrite <- app_assoc. subst c seq.
    set (n := len (sealed (t_cipher_in t) (t_rx_seq t) p rng)).
    assert (Hn : 0 <= n <= len p + 64) by (split; [apply len_nonneg|apply len_sealed_le]).
    set (t2 := (opened n t) <| t_consecutive_peer_rekeys := 0 |> <| t_events := t_events t ++ [Packet p] |>).
    assert (Esat : t_rx_bytes_since_rekey t2 = t_rx_bytes_since_rekey t + n).
    { change (saturating_add64 (t_rx_bytes_since_rekey t) n = t_rx_bytes_since_rekey t + n). unfold saturating_add64. lia. }
    destruct (feed_packet (length ps + k) p rng (w ++ rest) t t2) as [-> Hcore]; try done.
    + congruence.
    + unfold below_cap. lia.
    + by apply small_region.
    + exact (handle_app_packet p (opened n t) Ha Hp).
    + right. right. rewrite Esat. change (t_rx_packets_since_rekey t2) with (t_rx_packets_since_rekey t + 1).
      change (t_rekey_bytes_limit t2) with (t_rekey_bytes_limit t).
      change (t_rekey_packets_limit t2) with (t_rekey_packets_limit t). lia.
    + destruct (IH t2) as (n' & m & Hn' & Hm & ->); try done.
      * change (t_rx_packets_since_rekey t2) with (t_rx_packets_since_rekey t + 1). lia.
      * lia.
      * change (t_rx_packets_since_rekey t2) with (t_rx_packets_since_rekey t + 1).
        change (t_rekey_packets_limit t2) with (t_rekey_packets_limit t). lia.
      * rewrite Esat. change (t_rekey_bytes_limit t2) with (t_rekey_bytes_limit t). lia.
      * exists n', m. split; [done|]. split; [left; by destruct Hm|]. f_equal. unfold read_all. rewrite len_cons.
        change (t_rx_packets_since_rekey t2) with (t_rx_packets_since_rekey t + 1).
        replace (t_rx_packets_since_rekey t + (1 + len ps)) with (t_rx_packets_since_rekey t + 1 + len ps) by lia.
        change (t_events t2) with (t_events t ++ [Packet p]). rewrite <- app_assoc. unfold t2, opened, seen. by t_flat.
Qed.

(** * Opening the round *)

Definition rekey_reset t : Transport :=
  t <| t_rekeying := true |> <| t_sent_newkeys := false |> <| t_recv_newkeys := false |> <| t_peer_kexinit := None |>
    <| t_negotiated := None |> <| t_kex_eph := None |> <| t_skip_guess := false |>.
Definition begun (ki : KexInit) (r : Rng) t : Transport :=
  (wrote_packet (payload ki) ((rekey_reset t) <| t_rng := r |>)) <| t_local_kexinit := payload ki |> <| t_kexinit_sent := true |>.
Definition own_hello (cookie : bytes) t : KexInit :=
  hello (bool_decide (t_role t = Server)) cookie (default default_ciphers (t_offered_ciphers t))
    (default default_compressions (t_offered_compression t)).

Lemma begin_rekey_begun t :
  t_closing t = false -> t_comp_out t = Compressor_None -> below_cap (t_tx_packets_since_rekey t) ->
  exists cookie r, len cookie = 16 /\ Transport.begin_rekey_round t = (Ok tt, begun (own_hello cookie t) r t).
Proof.
  intros H1 H2 H3. unfold Transport.begin_rekey_round, bind, modify. fold (rekey_reset t).
  destruct (ours_with_eq (bool_decide (t_role t = Server)) (default default_ciphers (t_offered_ciphers t))
    (default default_compressions (t_offered_compression t)) (t_rng t)) as (cookie & r & Hl & He).
  exists cookie, r. split; [done|]. unfold Transport.send_kexinit, bind at 1, get.
  unfold bind at 1, Transport.with_rng, zoom.
  change (t_role (rekey_reset t)) with (t_role t). change (t_offered_ciphers (rekey_reset t)) with (t_offered_ciphers t).
  change (t_offered_compression (rekey_reset t)) with (t_offered_compression t).
  change (t_rng (rekey_reset t)) with (t_rng t). rewrite He. unfold bind at 1. cbn [payload].
  rewrite write_packet_wrote; [reflexivity|exact H1|exact H2|exact H3|done].
Qed.

(** The application's packets wait. *)
Lemma send_all_waits ps t :
  t_phase t = Established -> t_rekeying t = true ->
  send_all ps t = (Ok tt, t <| t_tx_app_queue := t_tx_app_queue t ++ ps |>).
Proof.
  revert t. induction ps as [|p ps IH]; intros t Hp Hr.
  - cbn. rewrite app_nil_r. by destruct t.
  - unfold send_all in *. cbn [mfor]. unfold bind at 1, Transport.send_packet at 1, bind at 1, get, Transport.is_established.
    rewrite bool_decide_true by done. rewrite Hr. cbn [negb]. unfold modify.
    rewrite IH by done. cbn [t_tx_app_queue set]. by rewrite <- app_assoc.
Qed.

(** A KEXINIT that answers ours, and one that opens the round. *)
Lemma handle_kexinit_answer ki t :
  head (payload ki) = Some msg.KEXINIT -> t_kexinit_sent t = true ->
  Transport.handle_packet (payload ki) t = Transport.kexinit_round (payload ki) t.
Proof.
  intros Hh Hs. destruct (payload ki) as [|x p]; [done|]. injection Hh as ->. dispatch. rewrite andb_false_r. cbv iota.
  unfold Transport.on_peer_kexinit, bind at 1, get. by rewrite Hs, andb_false_r.
Qed.

Definition asked t : Transport := t <| t_consecutive_peer_rekeys := t_consecutive_peer_rekeys t + 1 |>.
Lemma handle_kexinit_opens ki t :
  head (payload ki) = Some msg.KEXINIT -> t_phase t = Established -> t_kexinit_sent t = false ->
  0 <= t_consecutive_peer_rekeys t < Z.min (t_max_consecutive_peer_rekeys t) U32_MAX ->
  Transport.handle_packet (payload ki) t =
    (Transport.begin_rekey_round ;;; Transport.kexinit_round (payload ki)) (asked t).
Proof.
  intros Hh Hp Hs Hm. destruct (payload ki) as [|x p]; [done|]. injection Hh as ->. dispatch. rewrite andb_false_r. cbv iota.
  unfold Transport.on_peer_kexinit, bind at 1, get, Transport.is_established. rewrite Hs, bool_decide_true by done. cbn [andb negb].
  unfold bind at 1, checked. replace (_ && _) with true by lia. unfold ret at 1, bind at 1, modify at 1.
  by replace (t_max_consecutive_peer_rekeys t <? _) with false by lia.
Qed.

(** What no round changes. *)
Record fixed t t' : Prop := {
  fx_role : t_role t' = t_role t;
  fx_phase : t_phase t' = t_phase t;
  fx_closing : t_closing t' = t_closing t;
  fx_done : t_initial_kex_done t' = t_initial_kex_done t;
  fx_comp_out : t_comp_out t' = t_comp_out t;
  fx_comp_in : t_comp_in t' = t_comp_in t;
  fx_comp_active : t_comp_active t' = t_comp_active t;
  fx_local_id : t_local_id t' = t_local_id t;
  fx_peer_id : t_peer_id t' = t_peer_id t;
  fx_host_key : t_host_key t' = t_host_key t;
  fx_strict : t_strict_kex t' = t_strict_kex t;
  fx_bytes_limit : t_rekey_bytes_limit t' = t_rekey_bytes_limit t;
  fx_packets_limit : t_rekey_packets_limit t' = t_rekey_packets_limit t;
  fx_max_rekeys : t_max_consecutive_peer_rekeys t' = t_max_consecutive_peer_rekeys t;
  fx_ciphers : t_offered_ciphers t' = t_offered_ciphers t;
  fx_compression : t_offered_compression t' = t_offered_compression t
}.

(** * Closing it *)

Definition renewed t : Transport :=
  t <| t_pending := None |> <| t_rekeying := false |> <| t_kexinit_sent := false |> <| t_sent_newkeys := false |>
    <| t_recv_newkeys := false |> <| t_bytes_since_rekey := 0 |> <| t_tx_packets_since_rekey := 0 |>
    <| t_rx_bytes_since_rekey := 0 |> <| t_rx_packets_since_rekey := 0 |> <| t_tx_app_queue := [] |>.

Lemma maybe_complete_renewed t :
  t_sent_newkeys t = true -> t_recv_newkeys t = true -> t_initial_kex_done t = true ->
  Transport.maybe_complete_kex t = mfor (t_tx_app_queue t) Transport.write_packet (renewed t).
Proof.
  intros H1 H2 H3. unfold Transport.maybe_complete_kex, bind at 1, get. rewrite H1, H2, H3. cbn [andb negb when].
  reflexivity.
Qed.

(** The peer's NEWKEYS comes last: the round is over and the queue goes out. *)
Definition rekeyed (out inn : Cipher) t : Transport :=
  wrote_all (t_tx_app_queue t) (renewed (newkeys_read out inn t)).
Lemma rekeyed_wire out inn t :
  exists w r k q, wire_of (t_cipher_out t) (t_tx_seq t) (t_tx_app_queue t) w k q /\
    rekeyed out inn t = (renewed (newkeys_read out inn t)) <| t_cipher_out := k |> <| t_rng := r |> <| t_tx := t_tx t ++ w |>
      <| t_tx_packets_since_rekey := len (t_tx_app_queue t) |> <| t_tx_seq := q |>.
Proof.
  destruct (wrote_all_wire (t_tx_app_queue t) (renewed (newkeys_read out inn t))) as (w & r & Hw & E).
  exists w, r, (t_cipher_out (rekeyed out inn t)), (t_tx_seq (rekeyed out inn t)). split; [exact Hw|exact E].
Qed.

(** The same, for a NEWKEYS that has just been read. *)
Definition closed (out inn : Cipher) (l : Z) t : Transport := rekeyed out inn (opened l t).
Lemma closed_sent out inn l t :
  exists w, t_tx (closed out inn l t) = t_tx t ++ w /\
    wire_of (t_cipher_out t) (t_tx_seq t) (t_tx_app_queue t) w (t_cipher_out (closed out inn l t)) (t_tx_seq (closed out inn l t)).
Proof.
  destruct (rekeyed_wire out inn (opened l t)) as (w & r & k & q & Hw & E). exists w. unfold closed. rewrite E.
  by split.
Qed.
Lemma closed_fixed out inn l t : fixed t (closed out inn l t).
Proof. unfold closed. destruct (rekeyed_wire out inn (opened l t)) as (w & r & k & q & _ & ->). by constructor. Qed.
Lemma closed_now out inn l t :
  t_cipher_in (closed out inn l t) = inn /\
  t_rx_seq (closed out inn l t) = (if t_strict_kex t then 0 else wrapping_add32 (t_rx_seq t) 1) /\
  t_consecutive_peer_rekeys (closed out inn l t) = t_consecutive_peer_rekeys t /\
  t_events (closed out inn l t) = t_events t /\
  t_session_id (closed out inn l t) = t_session_id t.
Proof. unfold closed. destruct (rekeyed_wire out inn (opened l t)) as (w & r & k & q & _ & ->). repeat split. Qed.
Lemma closed_idle out inn l t :
  t_rekeying (closed out inn l t) = false /\
  t_kexinit_sent (closed out inn l t) = false /\
  t_tx_app_queue (closed out inn l t) = [] /\
  t_rx_packets_since_rekey (closed out inn l t) = 0 /\
  t_rx_bytes_since_rekey (closed out inn l t) = 0 /\
  t_tx_packets_since_rekey (closed out inn l t) = len (t_tx_app_queue t).
Proof. unfold closed. destruct (rekeyed_wire out inn (opened l t)) as (w & r & k & q & _ & ->). repeat split. Qed.
Lemma rekeyed_settled out inn t :
  0 < t_rekey_bytes_limit t /\ 0 < t_rekey_packets_limit t -> settled (rekeyed out inn t).
Proof. intros Hl. destruct (rekeyed_wire out inn t) as (w & r & k & q & _ & ->). right. right. exact Hl. Qed.

Lemma handle_newkeys_last out inn t :
  t_pending t = Some (mkPendingKeys out inn) -> t_comp_active t = false -> t_sent_newkeys t = true ->
  t_initial_kex_done t = true -> t_closing t = false -> t_comp_out t = Compressor_None ->
  len (t_tx_app_queue t) < EPOCH_HARD_PACKETS -> Forall (fun p => head p <> Some msg.USERAUTH_SUCCESS) (t_tx_app_queue t) ->
  Transport.handle_packet [msg.NEWKEYS] t = (Ok tt, rekeyed out inn t).
Proof.
  intros H1 H2 H3 H4 H5 H6 H7 H8. rewrite (handle_newkeys_read out inn) by done.
  rewrite maybe_complete_renewed by done. by apply write_all.
Qed.

Lemma emptied_reads t : t_cipher_in (emptied t) = t_cipher_in t /\ t_rx_seq (emptied t) = t_rx_seq t.
Proof. done. Qed.

Lemma emptied_core t : core t = t -> core (emptied t) = emptied t.
Proof. intros E. exact (f_equal emptied E). Qed.
Lemma emptied_keeps t :
  t_pending (emptied t) = t_pending t /\ t_sent_newkeys (emptied t) = t_sent_newkeys t /\
  t_rx_packets_since_rekey (emptied t) = t_rx_packets_since_rekey t /\ t_tx_app_queue (emptied t) = t_tx_app_queue t.
Proof. done. Qed.
Lemma emptied_idle t :
  t_rx_packets_since_rekey (emptied t) = t_rx_packets_since_rekey t /\
  t_rx_bytes_since_rekey (emptied t) = t_rx_bytes_since_rekey t /\
  t_consecutive_peer_rekeys (emptied t) = t_consecutive_peer_rekeys t.
Proof. done. Qed.
Lemma emptied_fixed t : fixed t (emptied t).
Proof. by constructor. Qed.
Lemma fixed_trans t1 t2 t3 : fixed t1 t2 -> fixed t2 t3 -> fixed t1 t3.
Proof. intros [] []. constructor; congruence. Qed.

(** [feed_packet], for a frame that is known by a name. *)
Lemma feed_frame f k p rng w t t2 :
  f = sealed (t_cipher_in t) (t_rx_seq t) p rng ->
  core t = t -> t_closing t = false -> t_phase t <> NeedPeerVersion -> t_comp_in t = Decompressor_None ->
  below_cap (t_rx_packets_since_rekey t) -> frame_region (t_cipher_in t) (len p) <= MAX_PACKET_LENGTH ->
  head p <> Some msg.USERAUTH_SUCCESS ->
  Transport.handle_packet p (opened (len f) t) = (Ok tt, t2) -> settled t2 ->
  feed (S k) (f ++ w) t = feed k w t2 /\ core t2 = t2.
Proof. intros ->. apply feed_packet. Qed.

(** The same from [emptied t], in terms of [t]. *)
Lemma closed_now_emptied out inn l t :
  t_cipher_in (closed out inn l (emptied t)) = inn /\
  t_rx_seq (closed out inn l (emptied t)) = (if t_strict_kex t then 0 else wrapping_add32 (t_rx_seq t) 1) /\
  t_consecutive_peer_rekeys (closed out inn l (emptied t)) = t_consecutive_peer_rekeys t /\
  t_events (closed out inn l (emptied t)) = t_events t /\
  t_session_id (closed out inn l (emptied t)) = t_session_id t.
Proof. exact (closed_now out inn l (emptied t)). Qed.
Lemma closed_idle_emptied out inn l t :
  t_rekeying (closed out inn l (emptied t)) = false /\
  t_kexinit_sent (closed out inn l (emptied t)) = false /\
  t_tx_app_queue (closed out inn l (emptied t)) = [] /\
  t_rx_packets_since_rekey (closed out inn l (emptied t)) = 0 /\
  t_rx_bytes_since_rekey (closed out inn l (emptied t)) = 0 /\
  t_tx_packets_since_rekey (closed out inn l (emptied t)) = len (t_tx_app_queue t).
Proof. exact (closed_idle out inn l (emptied t)). Qed.
Lemma closed_sent_emptied out inn l t :
  exists w, t_tx (closed out inn l (emptied t)) = w /\
    wire_of (t_cipher_out t) (t_tx_seq t) (t_tx_app_queue t) w (t_cipher_out (closed out inn l (emptied t)))
      (t_tx_seq (closed out inn l (emptied t))).
Proof. exact (closed_sent out inn l (emptied t)). Qed.

(** The peer's NEWKEYS arrives, with [w] behind it. *)
Lemma feed_newkeys nk fuel g w out inn t :
  nk = sealed (t_cipher_in t) (t_rx_seq t) [msg.NEWKEYS] g ->
  core t = t -> t_closing t = false -> t_phase t = Established -> t_initial_kex_done t = true ->
  t_comp_in t = Decompressor_None -> t_comp_out t = Compressor_None -> t_comp_active t = false ->
  t_pending t = Some (mkPendingKeys out inn) -> t_sent_newkeys t = true -> below_cap (t_rx_packets_since_rekey t) ->
  0 < t_rekey_bytes_limit t /\ 0 < t_rekey_packets_limit t ->
  len (t_tx_app_queue t) < EPOCH_HARD_PACKETS -> Forall (fun p => head p <> Some msg.USERAUTH_SUCCESS) (t_tx_app_queue t) ->
  feed (S fuel) (nk ++ w) t = feed fuel w (closed out inn (len nk) t) /\
  core (closed out inn (len nk) t) = closed out inn (len nk) t.
Proof.
  intros -> Ht Hc Hp Hi Hci Hco Ha Hk Hs Hr Hl Hq Hps.
  apply feed_packet; [exact Ht|exact Hc|congruence|exact Hci|exact Hr|by apply small_region|discriminate| |].
  - by apply handle_newkeys_last.
  - by apply rekeyed_settled.
Qed.

(** What waited at the other end arrives; [t0] is the receiver before the round. *)
Lemma feed_waiting ps t0 t q0 w k q :
  wire_of (t_cipher_in t) q0 ps w k q -> t_rx_seq t = q0 -> core t = t -> fixed t0 t ->
  t_closing t0 = false -> t_phase t0 = Established -> t_comp_in t0 = Decompressor_None ->
  t_rx_packets_since_rekey t = 0 -> t_rx_bytes_since_rekey t = 0 -> may_wait ps t0 ->
  exists x m, 0 <= x /\ (m = 0 \/ m = t_consecutive_peer_rekeys t) /\
    feed (length ps + 1) w t = (Ok tt, (read_all ps k q x m t, [])) /\ core (read_all ps k q x m t) = read_all ps k q x m t.
Proof.
  intros Hw Hq Hc Fc L1 L2 L3 R1 R2 [P1 P2 P3]. unfold EPOCH_HARD_PACKETS in *. rewrite <- (app_nil_r w).
  destruct (feed_all ps (t_cipher_in t) q0 w k q 1 [] t Hw eq_refl Hq Hc) as (x & m & Hx & Hm & ->);
    rewrite ?(fx_closing _ _ Fc), ?(fx_phase _ _ Fc), ?(fx_comp_in _ _ Fc), ?R1, ?R2, ?(fx_packets_limit _ _ Fc),
      ?(fx_bytes_limit _ _ Fc), ?(fx_role _ _ Fc); try (assumption || lia).
  exists x, m. split; [done|]. split; [done|]. split; [|exact (f_equal (read_all ps k q x m) Hc)].
  apply feed_end; [exact (eq_trans (fx_closing _ _ Fc) L1)|].
  assert (E : t_phase t <> NeedPeerVersion) by (rewrite (fx_phase _ _ Fc), L2; done). exact E.
Qed.
End Steps.

(** The keys of a key exchange: an honest client value, the server's answer to it, and the
    exchange hash over both and the host key. *)
Definition agreed_keys `{C : Crypto} (hk : HostKey) (sid : option bytes) (c2s s2c : Cipher) : Prop :=
  exists n id_c id_s i_c i_s eph v q_s shared r r',
    let kind := KexKind_of (n_kex n) in
    let k := KexKind_shared_secret kind shared in
    let h := exchange_hash (mkExchangeHashInput id_c id_s i_c i_s (HostKey.public_blob hk) v q_s k) (KexKind_hash kind) in
    eph_ok kind eph v /\ Transport.server_kex kind v r = (Ok (q_s, shared), r') /\
    round_keys n h (default h sid) k (KexKind_hash kind) c2s s2c.

(** What a round comes to, from [c] and [s], with [pc] waiting at the client and [ps] at the server:
    the session goes on under keys of a new exchange, and the packets have arrived. *)
Record renewal `{C : Crypto} (hk : HostKey) (pc ps : list bytes) (c s c' s' : Transport) : Prop := {
  rn_linked : linked hk c' s';
  rn_session : t_session_id c' = t_session_id c;
  rn_keys : exists c2s s2c, agreed_keys hk (t_session_id c) c2s s2c /\
    t_cipher_out c' = Nat.iter (length pc) sealed_cipher c2s /\ t_cipher_out s' = Nat.iter (length ps) sealed_cipher s2c;
  rn_client : t_events c' = t_events c ++ ServerHostKey (HostKey.public hk) :: map Packet ps;
  rn_server : t_events s' = t_events s ++ map Packet pc
}.

(** * From the client's value to the end *)

(** An established end without compression, with room for [k] more packets under its keys. *)
Record sound `{C : Crypto} (k : Z) (t : Transport) : Prop := {
  so_phase : t_phase t = Established;
  so_open : t_closing t = false;
  so_done : t_initial_kex_done t = true;
  so_comp_out : t_comp_out t = Compressor_None;
  so_comp_in : t_comp_in t = Decompressor_None;
  so_inactive : t_comp_active t = false;
  so_core : core t = t;
  so_tx : 0 <= t_tx_packets_since_rekey t /\ t_tx_packets_since_rekey t + k < EPOCH_HARD_PACKETS;
  so_rx : 0 <= t_rx_packets_since_rekey t /\ t_rx_packets_since_rekey t + k < EPOCH_HARD_PACKETS;
  so_limits : 0 < t_rekey_bytes_limit t /\ 0 < t_rekey_packets_limit t
}.
(** Such an end in the middle of a round. *)
Record live `{C : Crypto} (t : Transport) : Prop := {
  lv_sound : sound 3 t;
  lv_rekeying : t_rekeying t = true;
  lv_unread : t_recv_newkeys t = false
}.

Section AtRest.
Context `{C : Crypto} `{!CryptoOk C} `{!FlateOk C}.
Implicit Types t : Transport.

Lemma below_cap_tx k t : 1 <= k -> sound k t -> below_cap (t_tx_packets_since_rekey t).
Proof. intros Hk Hs. destruct (so_tx _ _ Hs). unfold below_cap. lia. Qed.
Lemma below_cap_rx k t : 1 <= k -> sound k t -> below_cap (t_rx_packets_since_rekey t).
Proof. intros Hk Hs. destruct (so_rx _ _ Hs). unfold below_cap. lia. Qed.

Lemma established_past t : t_phase t = Established -> t_phase t <> NeedPeerVersion.
Proof. by intros ->. Qed.

(** New keys are staged and our NEWKEYS goes out. *)
Definition switched_to (out inn : Cipher) (sid : bytes) (n : Negotiated) t : Transport :=
  newkeys_sent out inn (wrote_packet [msg.NEWKEYS] (staged sid out inn n t)).

Lemma switched_tx out inn sid n t : t_tx (switched_to out inn sid n t) =
  t_tx t ++ sealed (t_cipher_out t) (t_tx_seq t) [msg.NEWKEYS] (t_rng (staged sid out inn n t)).
Proof. reflexivity. Qed.

Lemma wrote_sent p t :
  t_tx (wrote_packet p t) = t_tx t ++ sealed (t_cipher_out t) (t_tx_seq t) p (t_rng t) /\
  t_cipher_out (wrote_packet p t) = sealed_cipher (t_cipher_out t) /\ t_tx_seq (wrote_packet p t) = wrapping_add32 (t_tx_seq t) 1.
Proof. done. Qed.

Lemma finish_switched n h k hash c2s s2c out inn sid t :
  t_negotiated t = Some n -> default h (t_session_id t) = sid -> round_keys n h sid k hash c2s s2c ->
  t_closing t = false -> t_comp_out t = Compressor_None -> below_cap (t_tx_packets_since_rekey t) ->
  t_comp_active t = false -> t_recv_newkeys t = false ->
  t_role t = Client /\ out = c2s /\ inn = s2c \/ t_role t = Server /\ out = s2c /\ inn = c2s ->
  (Transport.finish_kex h k hash ;;; Transport.send_newkeys) t = (Ok tt, switched_to out inn sid n t).
Proof.
  intros Hn <- Hk Hc Hco Hb Ha Hr Hrole. unfold bind. rewrite (finish_kex_staged n h k hash c2s s2c t Hn Hk).
  assert (E : (match t_role t with Client => c2s | Server => s2c end) = out /\
              (match t_role t with Client => s2c | Server => c2s end) = inn) by by destruct Hrole as [(-> & -> & ->)|(-> & -> & ->)].
  destruct E as [-> ->]. unfold switched_to. set (u := staged (default h (t_session_id t)) out inn n t).
  apply send_newkeys_sent; [|reflexivity|exact Ha|exact Hr]. apply write_packet_wrote; [exact Hc|exact Hco|exact Hb|done].
Qed.

Lemma wire_iter k q ps w k' q' : wire_of k q ps w k' q' -> k' = Nat.iter (length ps) sealed_cipher k.
Proof.
  induction 1 as [|k q p r ps w k' q' _ IH]; [done|]. rewrite IH. cbn [length].
  by rewrite Nat.iter_succ_r.
Qed.
Lemma iter_real m k : k <> Cipher_None -> Nat.iter m sealed_cipher k <> Cipher_None.
Proof. intros Hk. induction m as [|m IH]; [done|]. cbn. by rewrite sealed_cipher_None. Qed.

Lemma play_three (cut : bytes -> list bytes) a b a1 b1 a2 :
  mfor (cut (t_tx b)) Transport.on_input a = (Ok tt, a1) ->
  mfor (cut (t_tx a1)) Transport.on_input (emptied b) = (Ok tt, b1) ->
  mfor (cut (t_tx b1)) Transport.on_input (emptied a1) = (Ok tt, a2) ->
  play cut [Server; Client; Server] a b = (Ok tt, (a2, emptied b1)).
Proof.
  intros E1 E2 E3. cbn [play]. unfold Transport.pending_output. rewrite E1.
  change (snd (Transport.clear_output b)) with (emptied b). rewrite E2.
  change (snd (Transport.clear_output a1)) with (emptied a1). by rewrite E3.
Qed.

Lemma read_all_frame ps k q x m t :
  t_tx (read_all ps k q x m t) = t_tx t /\ t_closing (read_all ps k q x m t) = t_closing t.
Proof. done. Qed.
Lemma emptied_closing t : t_closing (emptied t) = t_closing t.
Proof. done. Qed.
Lemma emptied_past t : t_phase t = Established -> t_phase (emptied t) <> NeedPeerVersion.
Proof. apply (established_past t). Qed.

(** The three deliveries, for ends that are named. *)
Lemma deliver_three cut k1 k2 k3 a b a1 b1 a2 :
  (forall w, List.concat (cut w) = w) ->
  (tinv a /\ core a = a /\ t_closing a = false /\ t_phase a <> NeedPeerVersion) ->
  (tinv b /\ core b = b /\ t_closing b = false /\ t_phase b = Established) ->
  t_closing a1 = false /\ t_phase a1 = Established -> t_closing b1 = false -> t_closing a2 = false ->
  feed k1 (t_tx b) a = (Ok tt, (a1, [])) /\ core a1 = a1 ->
  feed k2 (t_tx a1) (emptied b) = (Ok tt, (b1, [])) /\ core b1 = b1 ->
  feed k3 (t_tx b1) (emptied a1) = (Ok tt, (a2, [])) /\ core a2 = a2 ->
  play cut [Server; Client; Server] a b = (Ok tt, (a2, emptied b1)) /\ tinv b1 /\ tinv a2.
Proof.
  intros Hcut (Ta & Ka & Ca & Pa) (Tb & Kb & Cb & Pb) [Ca1 Pa1] Cb1 Ca2 F1 F2 F3.
  destruct (play_step cut k1 a a1 (t_tx b) Hcut Ta Ka Ca (or_intror Pa) F1 Ca1) as [E1 T1].
  destruct (play_step cut k2 (emptied b) b1 (t_tx a1) Hcut (tinv_emptied _ Tb) (emptied_core _ Kb)
    (eq_trans (emptied_closing b) Cb) (or_intror (emptied_past b Pb)) F2 Cb1) as [E2 T2].
  destruct (play_step cut k3 (emptied a1) a2 (t_tx b1) Hcut (tinv_emptied _ T1) (emptied_core _ (proj2 F1))
    (eq_trans (emptied_closing a1) Ca1) (or_intror (emptied_past a1 Pa1)) F3 Ca2) as [E3 T3].
  split; [exact (play_three cut a b a1 b1 a2 E1 E2 E3)|]. split; [exact T2|exact T3].
Qed.

(** An end after the last delivery to it. *)
Lemma quiet_read ps k q x m t0 t :
  fixed t0 t -> live t0 -> t_rekeying t = false -> t_kexinit_sent t = false -> t_tx_app_queue t = [] ->
  tinv (read_all ps k q x m t) -> core (read_all ps k q x m t) = read_all ps k q x m t ->
  quiet (emptied (read_all ps k q x m t)).
Proof.
  intros Ft [[L1 L2 L5 L6 L7 L8 L9 L10 L11 L12] _ _] I1 I2 I3 Ht Hc. constructor.
  - exact (eq_trans (fx_phase _ _ Ft) L1).
  - exact (eq_trans (fx_closing _ _ Ft) L2).
  - done.
  - exact (eq_trans (fx_done _ _ Ft) L5).
  - exact (eq_trans (fx_comp_out _ _ Ft) L6).
  - exact (eq_trans (fx_comp_in _ _ Ft) L7).
  - exact (eq_trans (fx_comp_active _ _ Ft) L8).
  - exact (f_equal emptied Hc).
  - done.
  - rewrite <- (fx_bytes_limit _ _ Ft), <- (fx_packets_limit _ _ Ft) in L12. exact L12.
  - by apply tinv_emptied.
Qed.

Lemma agreed_keys_real hk sid c2s s2c : agreed_keys hk sid c2s s2c -> c2s <> Cipher_None /\ s2c <> Cipher_None.
Proof. intros (n & ? & ? & ? & ? & ? & ? & ? & ? & ? & ? & _ & _ & H). by apply (round_keys_real _ _ _ _ _ _ _ H). Qed.

(** The two ends [a] and [b] after NEWKEYS, before the packets that waited are read. *)
Lemma renewal_of hk sid c2s s2c pc ps c s a b w w' q q' x m x' m' :
  live c -> live s -> fixed c a -> fixed s b ->
  t_role c = Client /\ t_role s = Server /\ t_host_key s = Some hk ->
  t_peer_id s = Some (t_local_id c) /\ t_peer_id c = Some (t_local_id s) -> t_strict_kex c = t_strict_kex s ->
  offer_meets (default default_ciphers (t_offered_ciphers c)) (default default_compressions (t_offered_compression c)) /\
    t_offered_ciphers s = None /\ t_offered_compression s = None ->
  agreed_keys hk (Some sid) c2s s2c ->
  t_session_id c = Some sid /\ t_session_id a = Some sid /\ t_session_id b = Some sid ->
  wire_of c2s q pc w (t_cipher_out a) (t_tx_seq a) -> wire_of s2c q' ps w' (t_cipher_out b) (t_tx_seq b) ->
  t_rekeying a = false /\ t_kexinit_sent a = false /\ t_tx_app_queue a = [] ->
  t_rekeying b = false /\ t_kexinit_sent b = false /\ t_tx_app_queue b = [] ->
  t_events a = t_events c ++ [ServerHostKey (HostKey.public hk)] -> t_events b = t_events s ->
  let c' := read_all ps (t_cipher_out b) (t_tx_seq b) x' m' (emptied a) in
  let b' := read_all pc (t_cipher_out a) (t_tx_seq a) x m b in
  tinv c' -> core c' = c' -> tinv b' -> core b' = b' ->
  renewal hk pc ps c s c' (emptied b').
Proof.
  intros Lc Ls Fa Fb (R1 & R2 & R3) (I1 & I2) Hst (O1 & O2 & O3) Hr (D1 & D2 & D3) Wa Wb (A1 & A2 & A3) (B1 & B2 & B3) Va Vb c' b'
    T1 K1 T2 K2.
  destruct (agreed_keys_real _ _ _ _ Hr) as [N1 N2].
  pose proof (wire_iter _ _ _ _ _ _ Wa) as Ia. pose proof (wire_iter _ _ _ _ _ _ Wb) as Ib.
  constructor.
  - constructor.
    + split; [exact (quiet_read ps _ _ _ _ c (emptied a) (fixed_trans _ _ _ Fa (emptied_fixed a)) Lc A1 A2 A3 T1 K1)|].
      exact (eq_trans (fx_role _ _ Fa) R1).
    + split; [exact (quiet_read pc _ _ _ _ s b Fb Ls B1 B2 B3 T2 K2)|].
      split; [exact (eq_trans (fx_role _ _ Fb) R2)|exact (eq_trans (fx_host_key _ _ Fb) R3)].
    + rewrite <- (fx_peer_id _ _ Fb), <- (fx_local_id _ _ Fa) in I1. rewrite <- (fx_peer_id _ _ Fa), <- (fx_local_id _ _ Fb) in I2.
      split; [exact I1|exact I2].
    + split; [exists sid; exact D2|exact (eq_trans D3 (eq_sym D2))].
    + rewrite <- (fx_strict _ _ Fa), <- (fx_strict _ _ Fb) in Hst. exact Hst.
    + split; [reflexivity|]. split; [reflexivity|]. change (t_cipher_out a <> Cipher_None). rewrite Ia. by apply iter_real.
    + split; [reflexivity|]. split; [reflexivity|]. change (t_cipher_out b <> Cipher_None). rewrite Ib. by apply iter_real.
    + rewrite <- (fx_ciphers _ _ Fa), <- (fx_compression _ _ Fa) in O1. rewrite <- (fx_ciphers _ _ Fb) in O2.
      rewrite <- (fx_compression _ _ Fb) in O3. split; [exact O1|]. split; [exact O2|exact O3].
  - exact (eq_trans D2 (eq_sym D1)).
  - exists c2s, s2c. rewrite D1. split; [exact Hr|]. split; [exact Ia|exact Ib].
  - change (t_events c') with (t_events a ++ map Packet ps). by rewrite Va, <- app_assoc.
  - change (t_events (emptied b')) with (t_events b ++ map Packet pc). by rewrite Vb.
Qed.
End AtRest.

Section Round.
Context `{C : Crypto} `{!CryptoOk C} `{!FlateOk C}.
Implicit Types t : Transport.
Context (hk : HostKey) (n : Negotiated) (eph : KexEphemeral) (v q_s shared : bytes) (rs' : Rng) (c s : Transport) (g : Rng).

(** The client's value is under way, and nothing else. *)
Record midway : Prop := {
  my_mirror : mirrored s c hk n;
  my_eph : t_kex_eph c = Some eph;
  my_client : live c;
  my_server : live s;
  my_strict : t_strict_kex c = t_strict_kex s;
  my_empty : t_tx s = [];
  my_to_client : t_cipher_in c = t_cipher_out s /\ t_rx_seq c = t_tx_seq s;
  my_to_server : t_cipher_out c = sealed_cipher (t_cipher_in s) /\ t_tx_seq c = wrapping_add32 (t_rx_seq s) 1;
  my_queues : may_wait (t_tx_app_queue c) s /\ may_wait (t_tx_app_queue s) c
}.
Hypotheses (My : midway)
  (Hs : Transport.server_kex (KexKind_of (n_kex n)) v (t_rng s) = (Ok (q_s, shared), rs'))
  (Hv : len v <= 10000) (Hq : len q_s <= 10000) (Ho : eph_ok (KexKind_of (n_kex n)) eph v).

Definition kind : KexKind := KexKind_of (n_kex n).
Definition secret : SharedSecret := KexKind_shared_secret kind shared.
Definition blob : bytes := HostKey.public_blob hk.
Definition hash : bytes := exchange_hash (transcript s c blob v q_s secret) (KexKind_hash kind).
Definition sid : bytes := default hash (t_session_id s).
Definition reply : bytes := ecdh_reply_msg blob q_s (HostKey.sign_exchange_hash hk hash).
Context (c2s s2c : Cipher) (Hk : round_keys n hash sid secret (KexKind_hash kind) c2s s2c).

Definition value_frame : bytes := sealed (t_cipher_in s) (t_rx_seq s) (ecdh_init_msg v) g.

Definition answering : Transport := (opened (len value_frame) s) <| t_rng := rs' |>.
Definition sA : Transport := staged sid s2c c2s n (wrote_packet reply answering).
Definition sB : Transport := newkeys_sent s2c c2s (wrote_packet [msg.NEWKEYS] sA).

Lemma round_reply_head : head reply = Some msg.KEX_ECDH_REPLY.
Proof. apply ecdh_reply_head. Qed.
Lemma small_round_reply : small reply.
Proof.
  unfold small, reply. rewrite (proj2 (ecdh_reply_head _ _ _)). unfold blob.
  rewrite len_public_blob, len_sign_exchange_hash. lia.
Qed.

Lemma mirrored_now a b : mirrored (opened a s) (opened b (emptied c)) hk n.
Proof. destruct (my_mirror My). by constructor. Qed.

Lemma value_to_server : feed 2 value_frame s = (Ok tt, (sB, [])) /\ core sB = sB.
Proof.
  destruct (my_server My) as [[L1 L2 L5 L6 L7 L8 L9 L10 L11 L12] L3 L4]. destruct (ecdh_init_head v) as [Hh Hl].
  assert (Hx : forall x, below_cap x <-> 0 <= x /\ x + 1 < EPOCH_HARD_PACKETS) by done.
  rewrite <- (app_nil_r value_frame).
  destruct (feed_packet 1 (ecdh_init_msg v) g [] s sB) as [E Hc]; try done; try congruence.
  - apply Hx. lia.
  - apply small_region. unfold small. lia.
  - fold value_frame. rewrite handle_init; [|exact Hh|exact (mi_server _ _ _ _ (my_mirror My))].
    rewrite (server_round _ _ hk n v q_s shared rs' (mirrored_now (len value_frame) 0)) by (exact Hs || (unfold U32_MAX; lia)).
    fold kind. fold blob. fold secret. match goal with |- context [exchange_hash ?x ?y] => change (exchange_hash x y) with hash end.
    fold reply. fold answering. unfold bind at 1. rewrite write_packet_wrote.
    2-5: first [exact L2|exact L6|apply Hx; change (t_tx_packets_since_rekey answering) with (t_tx_packets_since_rekey s); lia
               |by rewrite round_reply_head].
    unfold bind at 1. rewrite (finish_kex_staged n hash secret _ c2s s2c);
      [|exact (mi_neg_s _ _ _ _ (my_mirror My))|exact Hk].
    change (t_role (wrote_packet reply answering)) with (t_role s). rewrite (mi_server _ _ _ _ (my_mirror My)).
    apply (send_newkeys_sent s2c c2s sA); [|reflexivity|exact L8|exact L4].
    apply write_packet_wrote; [exact L2|exact L6| |done].
    apply Hx. change (t_tx_packets_since_rekey sA) with (t_tx_packets_since_rekey s + 1). lia.
  - right. left. exact L3.
  - split; [|exact Hc]. fold value_frame in E. rewrite E. apply feed_end; [exact L2|]. change (t_phase sB) with (t_phase s). by rewrite L1.
Qed.

(** What is known of the state after it. *)
Lemma sB_fixed : fixed s sB.
Proof. by constructor. Qed.
Lemma sB_now :
  t_cipher_in sB = sealed_cipher (t_cipher_in s) /\
  t_rx_seq sB = wrapping_add32 (t_rx_seq s) 1 /\
  t_rx_packets_since_rekey sB = t_rx_packets_since_rekey s + 1 /\
  t_tx_app_queue sB = t_tx_app_queue s /\
  t_consecutive_peer_rekeys sB = t_consecutive_peer_rekeys s /\
  t_events sB = t_events s.
Proof. repeat split. Qed.
Lemma sB_keys :
  t_pending sB = Some (mkPendingKeys Cipher_None c2s) /\
  t_sent_newkeys sB = true /\
  t_cipher_out sB = s2c /\
  t_session_id sB = Some sid.
Proof. repeat split. Qed.
Lemma sB_seq : t_tx_seq sB = if t_strict_kex s then 0 else wrapping_add32 (wrapping_add32 (t_tx_seq s) 1) 1.
Proof. reflexivity. Qed.

(** The server's answer. *)
Definition reply_frame : bytes := sealed (t_cipher_in c) (t_rx_seq c) reply (t_rng answering).
Definition server_newkeys : bytes :=
  sealed (sealed_cipher (t_cipher_in c)) (wrapping_add32 (t_rx_seq c) 1) [msg.NEWKEYS] (t_rng sA).
Lemma sent_sB : t_tx sB = reply_frame ++ server_newkeys.
Proof.
  destruct (my_to_client My) as [E1 E2]. unfold reply_frame, server_newkeys. rewrite E1, E2.
  assert (E3 : t_tx answering = []) by exact (my_empty My). assert (E4 : t_cipher_out answering = t_cipher_out s) by reflexivity.
  assert (E5 : t_tx_seq answering = t_tx_seq s) by reflexivity.
  pose proof (switched_tx s2c c2s sid n (wrote_packet reply answering)) as E. fold sA in E.
  destruct (wrote_sent reply answering) as (W1 & W2 & W3). rewrite W1, W2, W3, E3, E4, E5, app_nil_l in E. exact E.
Qed.

Definition convinced : Transport :=
  (opened (len reply_frame) (emptied c)) <| t_kex_eph := None |> <| t_events := t_events c ++ [ServerHostKey (HostKey.public hk)] |>.
Definition cA : Transport := switched_to c2s s2c sid n convinced.
Definition cB : Transport := closed Cipher_None s2c (len server_newkeys) cA.

Lemma cA_fixed : fixed c cA.
Proof. by constructor. Qed.
Lemma cA_now :
  t_cipher_in cA = sealed_cipher (t_cipher_in c) /\
  t_rx_seq cA = wrapping_add32 (t_rx_seq c) 1 /\
  t_rx_packets_since_rekey cA = t_rx_packets_since_rekey c + 1 /\
  t_tx_app_queue cA = t_tx_app_queue c /\
  t_consecutive_peer_rekeys cA = t_consecutive_peer_rekeys c /\
  t_events cA = t_events c ++ [ServerHostKey (HostKey.public hk)].
Proof. repeat split. Qed.
Lemma cA_keys :
  t_pending cA = Some (mkPendingKeys Cipher_None s2c) /\
  t_sent_newkeys cA = true /\
  t_cipher_out cA = c2s /\
  t_session_id cA = Some sid.
Proof. repeat split. Qed.
Lemma cA_seq : t_tx_seq cA = if t_strict_kex c then 0 else wrapping_add32 (t_tx_seq c) 1.
Proof. reflexivity. Qed.
Lemma cA_tx : t_tx cA = sealed (t_cipher_out c) (t_tx_seq c) [msg.NEWKEYS] (t_rng (staged sid c2s s2c n convinced)).
Proof.
  assert (E1 : t_tx convinced = []) by reflexivity. assert (E2 : t_cipher_out convinced = t_cipher_out c) by reflexivity.
  assert (E3 : t_tx_seq convinced = t_tx_seq c) by reflexivity.
  unfold cA. rewrite switched_tx, E1, E2, E3. exact (app_nil_l _).
Qed.

Lemma transcript_now a b k :
  transcript (opened a s) (opened b (emptied c)) blob v q_s k = transcript s c blob v q_s k.
Proof. reflexivity. Qed.

Lemma reply_read :
  Transport.on_ecdh_reply reply (opened (len reply_frame) (emptied c)) =
  (Transport.finish_kex hash secret (KexKind_hash kind) ;;; Transport.send_newkeys) convinced.
Proof.
  assert (Hl : len q_s <= U32_MAX) by (unfold U32_MAX; lia).
  pose proof (client_round (opened 0 s) (opened (len reply_frame) (emptied c)) hk n v eph q_s shared rs'
    (mirrored_now 0 (len reply_frame)) Hl (my_eph My) Ho Hs) as E.
  cbv zeta in E. fold blob in E. fold kind in E. fold secret in E. rewrite transcript_now in E. exact E.
Qed.

Lemma reply_switched :
  (Transport.finish_kex hash secret (KexKind_hash kind) ;;; Transport.send_newkeys) convinced = (Ok tt, cA).
Proof.
  destruct (my_client My) as [[L1 L2 L5 L6 L7 L8 L9 L10 L11 L12] L3 L4].
  apply (finish_switched n hash secret (KexKind_hash kind) c2s s2c c2s s2c sid convinced).
  - exact (mi_neg_c _ _ _ _ (my_mirror My)).
  - unfold sid. rewrite (mi_sid _ _ _ _ (my_mirror My)). reflexivity.
  - exact Hk.
  - exact L2.
  - exact L6.
  - exact (below_cap_tx 3 c ltac:(done) (lv_sound _ (my_client My))).
  - exact L8.
  - exact L4.
  - left. exact (conj (mi_client _ _ _ _ (my_mirror My)) (conj eq_refl eq_refl)).
Qed.

Lemma reply_handled : Transport.handle_packet reply (opened (len reply_frame) (emptied c)) = (Ok tt, cA).
Proof.
  rewrite handle_reply; [|exact round_reply_head|exact (mi_client _ _ _ _ (my_mirror My))].
  exact (eq_trans reply_read reply_switched).
Qed.

Lemma reply_frame_at : reply_frame = sealed (t_cipher_in (emptied c)) (t_rx_seq (emptied c)) reply (t_rng answering).
Proof. unfold reply_frame. destruct (emptied_reads c) as [-> ->]. reflexivity. Qed.
Lemma server_newkeys_at : server_newkeys = sealed (t_cipher_in cA) (t_rx_seq cA) [msg.NEWKEYS] (t_rng sA).
Proof. unfold server_newkeys. destruct cA_now as (-> & -> & _). reflexivity. Qed.

Lemma cA_settled : settled cA.
Proof. right. left. exact (lv_rekeying _ (my_client My)). Qed.
Lemma emptied_like t : t_closing (emptied t) = t_closing t /\ t_phase (emptied t) = t_phase t /\ t_comp_in (emptied t) = t_comp_in t /\
  t_rx_packets_since_rekey (emptied t) = t_rx_packets_since_rekey t.
Proof. done. Qed.

Lemma reply_taken w :
  feed 3 (reply_frame ++ w) (emptied c) = feed 2 w cA /\ core cA = cA.
Proof.
  destruct (my_client My) as [[L1 L2 L5 L6 L7 L8 L9 L10 L11 L12] L3 _].
  assert (Hh : head reply <> Some msg.USERAUTH_SUCCESS) by by rewrite round_reply_head.
  pose proof reply_frame_at as Hf. pose proof reply_handled as Hd. pose proof cA_settled as Hset.
  destruct (emptied_like c) as (E1 & E2 & E3 & E4). pose proof (emptied_core c L9) as Ec.
  revert Hf Hd Hset. generalize cA as u. generalize reply_frame as f. intros f u Hf Hd Hset.
  apply (feed_frame f 2 reply (t_rng answering) w (emptied c) u Hf Ec (eq_trans E1 L2)).
  - exact (established_past _ (eq_trans E2 L1)).
  - exact (eq_trans E3 L7).
  - rewrite E4. exact (below_cap_rx 3 c ltac:(done) (lv_sound _ (my_client My))).
  - exact (small_region _ _ small_round_reply).
  - exact Hh.
  - exact Hd.
  - exact Hset.
Qed.

Lemma newkeys_taken : feed 2 (server_newkeys ++ []) cA = feed 1 [] cB /\ core cB = cB.
Proof.
  destruct (my_client My) as [[L1 L2 L5 L6 L7 L8 L9 L10 L11 L12] L3 L4]. destruct (my_queues My) as [[Q1 Q2 Q3] _].
  destruct cA_now as (N1 & N2 & N3 & N4 & _ & _). destruct cA_keys as (K1 & K2 & _ & _).
  assert (Hlen : len (t_tx_app_queue cA) < EPOCH_HARD_PACKETS) by (rewrite N4; lia).
  assert (Hheads : Forall (fun p => head p <> Some msg.USERAUTH_SUCCESS) (t_tx_app_queue cA)).
  { rewrite N4. eapply Forall_impl; [|exact Q1]. by intros p (_ & ? & _). }
  assert (Hr : below_cap (t_rx_packets_since_rekey cA)) by (rewrite N3; unfold below_cap; lia).
  assert (Hl : 0 < t_rekey_bytes_limit cA /\ 0 < t_rekey_packets_limit cA).
  { by rewrite (fx_bytes_limit _ _ cA_fixed), (fx_packets_limit _ _ cA_fixed). }
  exact (feed_newkeys server_newkeys 1 (t_rng sA) [] Cipher_None s2c cA server_newkeys_at (proj2 (reply_taken []))
    (eq_trans (fx_closing _ _ cA_fixed) L2) (eq_trans (fx_phase _ _ cA_fixed) L1) (eq_trans (fx_done _ _ cA_fixed) L5)
    (eq_trans (fx_comp_in _ _ cA_fixed) L7) (eq_trans (fx_comp_out _ _ cA_fixed) L6) (eq_trans (fx_comp_active _ _ cA_fixed) L8)
    K1 K2 Hr Hl Hlen Hheads).
Qed.

Lemma reply_to_client : feed 3 (t_tx sB) (emptied c) = (Ok tt, (cB, [])) /\ core cB = cB.
Proof.
  destruct (my_client My) as [[L1 L2 _ _ _ _ _ _ _ _] _ _]. pose proof (fixed_trans _ _ _ cA_fixed (closed_fixed _ _ _ _) : fixed c cB) as Ef.
  split; [|exact (proj2 newkeys_taken)]. rewrite sent_sB, <- (app_nil_r server_newkeys).
  rewrite (proj1 (reply_taken _)), (proj1 newkeys_taken).
  exact (feed_end 0 cB (eq_trans (fx_closing _ _ Ef) L2) (established_past _ (eq_trans (fx_phase _ _ Ef) L1))).
Qed.

#[local] Opaque sB cA.

(** The client's NEWKEYS, and what waited. *)
Definition client_newkeys : bytes :=
  sealed (t_cipher_in (emptied sB)) (t_rx_seq (emptied sB)) [msg.NEWKEYS] (t_rng (staged sid c2s s2c n convinced)).
Definition sC : Transport := closed Cipher_None c2s (len client_newkeys) (emptied sB).

Lemma sent_cB :
  exists w, t_tx cB = client_newkeys ++ w /\
    wire_of c2s (if t_strict_kex s then 0 else wrapping_add32 (t_rx_seq sB) 1) (t_tx_app_queue c) w (t_cipher_out cB) (t_tx_seq cB).
Proof.
  destruct (closed_sent Cipher_None s2c (len server_newkeys) cA
    : exists w, t_tx cB = t_tx cA ++ w /\
        wire_of (t_cipher_out cA) (t_tx_seq cA) (t_tx_app_queue cA) w (t_cipher_out cB) (t_tx_seq cB)) as (w & E & Hw).
  destruct (my_to_server My) as [E1 E2]. exists w.
  pose proof cA_now as (_ & _ & _ & N4 & _ & _). pose proof cA_keys as (_ & _ & K3 & _). pose proof sB_now as (B1 & B2 & _).
  rewrite K3, cA_seq, N4, E2, (my_strict My), <- B2 in Hw. split; [|exact Hw]. rewrite E, cA_tx, E1, E2.
  unfold client_newkeys. destruct (emptied_reads sB) as [-> ->]. rewrite B1, B2. reflexivity.
Qed.

(** The server is done as well. *)
Lemma sC_fixed : fixed s sC.
Proof. exact (fixed_trans _ _ _ (fixed_trans _ _ _ sB_fixed (emptied_fixed sB)) (closed_fixed _ _ _ _)). Qed.
Lemma sC_now :
  t_cipher_in sC = c2s /\ t_rx_seq sC = (if t_strict_kex s then 0 else wrapping_add32 (t_rx_seq sB) 1) /\
  t_consecutive_peer_rekeys sC = t_consecutive_peer_rekeys s /\ t_events sC = t_events s /\ t_session_id sC = Some sid.
Proof.
  destruct sB_now as (N1 & N2 & N3 & N4 & N5 & N6). destruct sB_keys as (K1 & K2 & K3 & K4).
  rewrite <- N5, <- N6, <- K4, <- (fx_strict _ _ sB_fixed).
  exact (closed_now_emptied Cipher_None c2s (len client_newkeys) sB).
Qed.
Lemma sC_idle :
  t_rekeying sC = false /\ t_kexinit_sent sC = false /\ t_tx_app_queue sC = [] /\ t_rx_packets_since_rekey sC = 0 /\
  t_rx_bytes_since_rekey sC = 0 /\ t_tx_packets_since_rekey sC = len (t_tx_app_queue s).
Proof. destruct sB_now as (_ & _ & _ & <- & _ & _). exact (closed_idle_emptied Cipher_None c2s (len client_newkeys) sB). Qed.
Lemma sent_sC :
  exists w, t_tx sC = w /\
    wire_of s2c (if t_strict_kex s then 0 else wrapping_add32 (wrapping_add32 (t_tx_seq s) 1) 1) (t_tx_app_queue s) w
      (t_cipher_out sC) (t_tx_seq sC).
Proof.
  destruct sB_now as (_ & _ & _ & <- & _ & _). destruct sB_keys as (_ & _ & <- & _). rewrite <- sB_seq.
  exact (closed_sent_emptied Cipher_None c2s (len client_newkeys) sB).
Qed.
Lemma newkeys_step fuel w :
  feed (S fuel) (client_newkeys ++ w) (emptied sB) = feed fuel w sC /\ core sC = sC.
Proof.
  destruct (my_server My) as [[L1 L2 L5 L6 L7 L8 L9 L10 L11 L12] L3 L4]. destruct (my_queues My) as [_ [Q1 Q2 _]].
  destruct sB_now as (N1 & N2 & N3 & N4 & N5 & N6). destruct sB_keys as (K1 & K2 & K3 & K4).
  assert (Fs : fixed s (emptied sB)) by exact (fixed_trans _ _ _ sB_fixed (emptied_fixed sB)).
  destruct (emptied_keeps sB) as (J1 & J2 & J3 & J4).
  pose proof (emptied_core _ (proj2 value_to_server)) as Ec. unfold sC, client_newkeys.
  revert N1 N2 N3 N4 N5 N6 K1 K2 K3 K4 Fs J1 J2 J3 J4 Ec. generalize sB as u. intros u N1 N2 N3 N4 N5 N6 K1 K2 K3 K4 Fs J1 J2 J3 J4 Ec.
  apply (feed_newkeys _ fuel (t_rng (staged sid c2s s2c n convinced)) w Cipher_None c2s (emptied u)).
  - reflexivity.
  - exact Ec.
  - exact (eq_trans (fx_closing _ _ Fs) L2).
  - exact (eq_trans (fx_phase _ _ Fs) L1).
  - exact (eq_trans (fx_done _ _ Fs) L5).
  - exact (eq_trans (fx_comp_in _ _ Fs) L7).
  - exact (eq_trans (fx_comp_out _ _ Fs) L6).
  - exact (eq_trans (fx_comp_active _ _ Fs) L8).
  - exact (eq_trans J1 K1).
  - exact (eq_trans J2 K2).
  - unfold below_cap, EPOCH_HARD_PACKETS in *. rewrite J3, N3. lia.
  - rewrite (fx_bytes_limit _ _ Fs), (fx_packets_limit _ _ Fs). exact L12.
  - rewrite J4, N4. lia.
  - rewrite J4, N4. eapply Forall_impl; [|exact Q1]. by intros p (_ & ? & _).
Qed.

Lemma cB_fixed : fixed c cB.
Proof. exact (fixed_trans _ _ _ cA_fixed (closed_fixed _ _ _ _)). Qed.
Lemma cB_now :
  t_cipher_in cB = s2c /\
  t_rx_seq cB = (if t_strict_kex s then 0 else wrapping_add32 (wrapping_add32 (t_tx_seq s) 1) 1) /\
  t_consecutive_peer_rekeys cB = t_consecutive_peer_rekeys c /\
  t_events cB = t_events c ++ [ServerHostKey (HostKey.public hk)] /\ t_session_id cB = Some sid.
Proof.
  destruct cA_now as (_ & N2 & _ & _ & N5 & N6). destruct cA_keys as (_ & _ & _ & K4). destruct (my_to_client My) as [_ E].
  rewrite <- E, <- N5, <- N6, <- K4, <- N2, <- (my_strict My), <- (fx_strict _ _ cA_fixed).
  exact (closed_now Cipher_None s2c (len server_newkeys) cA).
Qed.
Lemma cB_idle :
  t_rekeying cB = false /\ t_kexinit_sent cB = false /\ t_tx_app_queue cB = [] /\ t_rx_packets_since_rekey cB = 0 /\
  t_rx_bytes_since_rekey cB = 0 /\ t_tx_packets_since_rekey cB = len (t_tx_app_queue c).
Proof. destruct cA_now as (_ & _ & _ & <- & _ & _). exact (closed_idle Cipher_None s2c (len server_newkeys) cA). Qed.
#[local] Opaque sC cB.

Definition cD (x' m' : Z) : Transport := read_all (t_tx_app_queue s) (t_cipher_out sC) (t_tx_seq sC) x' m' (emptied cB).
Definition sD (x m : Z) : Transport := read_all (t_tx_app_queue c) (t_cipher_out cB) (t_tx_seq cB) x m sC.

Lemma newkeys_to_server :
  exists x m, 0 <= x /\ (m = 0 \/ m = t_consecutive_peer_rekeys s) /\
    feed (S (length (t_tx_app_queue c) + 1)) (t_tx cB) (emptied sB) = (Ok tt, (sD x m, [])) /\ core (sD x m) = sD x m.
Proof.
  destruct sent_cB as (w & -> & Hw). destruct (newkeys_step (length (t_tx_app_queue c) + 1) w) as [-> Hc].
  destruct sC_now as (M1 & M2 & M3 & _). destruct sC_idle as (_ & _ & _ & I4 & I5 & _). rewrite <- M1 in Hw. rewrite <- M3.
  destruct (my_server My) as [[L1 L2 _ _ L7 _ _ _ _ _] _ _]. destruct (my_queues My) as [P _].
  exact (feed_waiting _ s sC _ w _ _ Hw M2 Hc sC_fixed L2 L1 L7 I4 I5 P).
Qed.

(** What waited at the server reaches the client. *)
Lemma waiting_to_client :
  exists x m, 0 <= x /\ (m = 0 \/ m = t_consecutive_peer_rekeys c) /\
    feed (length (t_tx_app_queue s) + 1) (t_tx sC) (emptied cB) = (Ok tt, (cD x m, [])) /\ core (cD x m) = cD x m.
Proof.
  destruct sent_sC as (w & -> & Hw). destruct cB_now as (M1 & M2 & M3 & _). destruct cB_idle as (_ & _ & _ & I4 & I5 & _).
  destruct (my_client My) as [[L1 L2 _ _ L7 _ _ _ _ _] _ _]. destruct (my_queues My) as [_ P].
  destruct (emptied_reads cB) as [J1 J2]. destruct (emptied_idle cB) as (J3 & J4 & J5). rewrite <- M3, <- J5.
  rewrite <- M1, <- J1 in Hw.
  exact (feed_waiting _ c (emptied cB) _ w _ _ Hw (eq_trans J2 M2) (emptied_core _ (proj2 reply_to_client))
    (fixed_trans _ _ _ cB_fixed (emptied_fixed cB)) L2 L1 L7 (eq_trans J3 I4) (eq_trans J4 I5) P).
Qed.

(** ** The last three deliveries *)

Lemma rest_renewal x m x' m' :
  is_Some (t_session_id s) ->
  offer_meets (default default_ciphers (t_offered_ciphers c)) (default default_compressions (t_offered_compression c)) /\
    t_offered_ciphers s = None /\ t_offered_compression s = None ->
  tinv (cD x' m') -> core (cD x' m') = cD x' m' -> tinv (sD x m) -> core (sD x m) = sD x m ->
  renewal hk (t_tx_app_queue c) (t_tx_app_queue s) c s (cD x' m') (emptied (sD x m)).
Proof.
  intros Hid Hoff.
  destruct sent_cB as (w & _ & Wc). destruct sent_sC as (w' & _ & Ws).
  destruct cB_now as (_ & _ & _ & Vc & Dc). destruct sC_now as (_ & _ & _ & Vs & Ds).
  destruct cB_idle as (A1 & A2 & A3 & _). destruct sC_idle as (I1 & I2 & I3 & _).
  assert (Dcc : t_session_id c = Some sid).
  { rewrite <- (mi_sid _ _ _ _ (my_mirror My)). unfold sid. by destruct Hid as [i ->]. }
  pose proof (my_mirror My) as Mi.
  assert (Hag : agreed_keys hk (Some sid) c2s s2c).
  { eexists n, _, _, _, _, eph, v, q_s, shared, (t_rng s), rs'. split; [exact Ho|]. split; [exact Hs|]. exact Hk. }
  pose proof cB_fixed as Fc. pose proof sC_fixed as Fs. unfold cD, sD.
  revert Wc Ws Vc Dc Vs Ds A1 A2 A3 I1 I2 I3 Fc Fs. generalize cB as a, sC as b.
  intros a b Wc Ws Vc Dc Vs Ds A1 A2 A3 I1 I2 I3 Fc Fs.
  refine (renewal_of hk sid c2s s2c _ _ c s a b w w' _ _ x m x' m' (my_client My) (my_server My)
    Fc Fs _ _ (my_strict My) Hoff Hag (conj Dcc (conj Dc Ds)) Wc Ws
    (conj A1 (conj A2 A3)) (conj I1 (conj I2 I3)) Vc Vs).
  - split; [apply Mi|split; apply Mi].
  - split; apply Mi.
Qed.

Lemma play_rest (cut : bytes -> list bytes) :
  (forall w, List.concat (cut w) = w) -> tinv c -> tinv sB -> is_Some (t_session_id s) ->
  offer_meets (default default_ciphers (t_offered_ciphers c)) (default default_compressions (t_offered_compression c)) ->
  t_offered_ciphers s = None -> t_offered_compression s = None ->
  exists c' s', play cut [Server; Client; Server] (emptied c) sB = (Ok tt, (c', s')) /\
    renewal hk (t_tx_app_queue c) (t_tx_app_queue s) c s c' s'.
Proof.
  intros Hcut Tc Ts Hid Ho1 Ho2 Ho3.
  destruct (my_client My) as [[C1 C2 _ _ _ _ C7 _ _ _] _ _]. destruct (my_server My) as [[S1 S2 _ _ _ _ S7 _ _ _] _ _].
  destruct newkeys_to_server as (x & m & _ & _ & Hf). destruct waiting_to_client as (x' & m' & _ & _ & Hf').
  destruct (read_all_frame (t_tx_app_queue c) (t_cipher_out cB) (t_tx_seq cB) x m sC) as [X1 X2].
  destruct (read_all_frame (t_tx_app_queue s) (t_cipher_out sC) (t_tx_seq sC) x' m' (emptied cB)) as [_ X3].
  fold (sD x m) in X1, X2. fold (cD x' m') in X3. rewrite <- X1 in Hf'.
  pose proof (eq_trans (fx_closing _ _ cB_fixed) C2) as B1. pose proof (eq_trans (fx_phase _ _ cB_fixed) C1) as B1'.
  pose proof (eq_trans (fx_closing _ _ sB_fixed) S2) as B0. pose proof (eq_trans (fx_phase _ _ sB_fixed) S1) as B0'.
  pose proof (eq_trans (fx_closing _ _ sC_fixed) S2) as B2.
  destruct (deliver_three cut 3 _ _ (emptied c) sB cB (sD x m) (cD x' m') Hcut
    (conj (tinv_emptied _ Tc) (conj (emptied_core _ C7) (conj (eq_trans (emptied_closing c) C2) (emptied_past c C1))))
    (conj Ts (conj (proj2 value_to_server) (conj B0 B0'))) (conj B1 B1') (eq_trans X2 B2)
    (eq_trans X3 (eq_trans (emptied_closing cB) B1)) reply_to_client Hf Hf') as (E & T2 & T3).
  exists (cD x' m'), (emptied (sD x m)). split; [exact E|].
  exact (rest_renewal x m x' m' Hid (conj Ho1 (conj Ho2 Ho3)) T3 (proj2 Hf') T2 (proj2 Hf)).
Qed.
End Round.

Section Opening.
Context `{C : Crypto} `{!CryptoOk C} `{!FlateOk C}.
Implicit Types t : Transport.

Lemma strict_settled_done t : t_initial_kex_done t = true -> strict_settled t = t.
Proof. intros H. unfold strict_settled. by rewrite H. Qed.

Lemma asked_room t : tinv t -> roomy t ->
  0 <= t_consecutive_peer_rekeys t < Z.min (t_max_consecutive_peer_rekeys t) U32_MAX.
Proof. intros Ht (_ & _ & H). pose proof (ti_peer _ _ _ Ht). lia. Qed.

(** The state of the end that begins, with [ps] waiting. *)
Definition waiting (ps : list bytes) t : Transport := t <| t_tx_app_queue := ps |>.

Lemma send_waiting ps t :
  t_phase t = Established -> t_rekeying t = true -> t_tx_app_queue t = [] -> tinv t ->
  send_all ps t = (Ok tt, waiting ps t) /\ tinv (waiting ps t).
Proof.
  intros Hp Hr Hq Ht. assert (E : send_all ps t = (Ok tt, waiting ps t)).
  { rewrite send_all_waits by done. by rewrite Hq. }
  split; [exact E|].
  pose proof (wp_mfor tinv (fun _ => tinv) ps Transport.send_packet t (fun p t => send_packet_wp _ p t) Ht) as Hw.
  unfold wp in Hw. change (mfor ps Transport.send_packet t) with (send_all ps t) in Hw. by rewrite E in Hw.
Qed.

Lemma begins ps t :
  quiet t -> roomy t ->
  exists cookie r, len cookie = 16 /\
    (Transport.initiate_rekey ;;; send_all ps) t = (Ok tt, waiting ps (begun (own_hello cookie t) r t)) /\
    tinv (waiting ps (begun (own_hello cookie t) r t)).
Proof.
  intros Q (R1 & R2 & R3). destruct (qt_idle _ Q) as (I1 & I2 & I3). pose proof (qt_inv _ Q) as Ht.
  destruct (begin_rekey_begun t (qt_open _ Q) (qt_comp_out _ Q)) as (cookie & r & Hl & Hb).
  { unfold below_cap, EPOCH_HARD_PACKETS in *. pose proof (proj1 (ti_tx _ _ _ Ht)). lia. }
  exists cookie, r. split; [done|].
  assert (Hi : Transport.initiate_rekey t = (Ok tt, begun (own_hello cookie t) r t)).
  { unfold Transport.initiate_rekey, bind, get, Transport.is_established. rewrite I1, bool_decide_true by apply Q. exact Hb. }
  pose proof (initiate_rekey_wp _ t Ht) as T1. unfold wp in T1. rewrite Hi in T1.
  destruct (send_waiting ps (begun (own_hello cookie t) r t) (qt_phase _ Q) eq_refl I3 T1) as [Hq T2].
  split; [|exact T2]. unfold bind. by rewrite Hi.
Qed.

Lemma quiet_sound t : quiet t -> roomy t -> sound 8 t.
Proof.
  intros Q (R1 & R2 & R3). pose proof (qt_inv _ Q) as Ht. destruct Q. constructor; try done.
  - pose proof (proj1 (ti_tx _ _ _ Ht)). lia.
  - pose proof (ti_rxn _ _ _ Ht). lia.
Qed.

(** What keeps an end sound. *)
Lemma sound_by (f : Transport -> Transport) (a b k k' : Z) t :
  (forall t, t_phase (f t) = t_phase t /\ t_closing (f t) = t_closing t /\ t_initial_kex_done (f t) = t_initial_kex_done t /\
     t_comp_out (f t) = t_comp_out t /\ t_comp_in (f t) = t_comp_in t /\ t_comp_active (f t) = t_comp_active t /\
     t_rx (f t) = t_rx t /\ t_rx_pos (f t) = t_rx_pos t /\ t_tx_packets_since_rekey (f t) = t_tx_packets_since_rekey t + a /\
     t_rx_packets_since_rekey (f t) = t_rx_packets_since_rekey t + b /\
     t_rekey_bytes_limit (f t) = t_rekey_bytes_limit t /\ t_rekey_packets_limit (f t) = t_rekey_packets_limit t) ->
  0 <= a -> 0 <= b -> k' + a <= k -> k' + b <= k -> sound k t -> sound k' (f t).
Proof.
  intros Hf Ha Hb Hka Hkb [H1 H2 H3 H4 H5 H6 H7 H8 H9 H10].
  destruct (Hf t) as (E1 & E2 & E3 & E4 & E5 & E6 & E7 & E7' & E8 & E9 & E10 & E11).
  assert (Hc : core (f t) = f t).
  { apply core_of; [rewrite E7|rewrite E7']; by rewrite <- H7. }
  constructor; rewrite ?E1, ?E2, ?E3, ?E4, ?E5, ?E6, ?E8, ?E9, ?E10, ?E11; try assumption; lia.
Qed.
Definition valued (eph : KexEphemeral) (v : bytes) (r : Rng) t : Transport :=
  (wrote_packet (ecdh_init_msg v) (t <| t_rng := r |>)) <| t_kex_eph := Some eph |>.

Lemma sound_opened k l t : sound (k + 1) t -> sound k (opened l t).
Proof. apply (sound_by (opened l) 0 1); [intros u; rewrite Z.add_0_r; repeat split|lia..]. Qed.
Lemma sound_asked k t : sound k t -> sound k (asked t).
Proof. apply (sound_by asked 0 0); [intros u; rewrite !Z.add_0_r; repeat split|lia..]. Qed.
Lemma sound_waiting k ps t : sound k t -> sound k (waiting ps t).
Proof. apply (sound_by (waiting ps) 0 0); [intros u; rewrite !Z.add_0_r; repeat split|lia..]. Qed.
Lemma sound_emptied k t : sound k t -> sound k (emptied t).
Proof. apply (sound_by (@emptied C) 0 0); [intros u; rewrite !Z.add_0_r; repeat split|lia..]. Qed.
Lemma sound_met k ki n t : sound k t -> sound k (met ki n t).
Proof. apply (sound_by (met ki n) 0 0); [intros u; rewrite !Z.add_0_r; repeat split|lia..]. Qed.
Lemma sound_begun k ki r t : sound (k + 1) t -> sound k (begun ki r t).
Proof. apply (sound_by (begun ki r) 1 0); [intros u; rewrite Z.add_0_r; repeat split|lia..]. Qed.
Lemma sound_valued k eph v r t : sound (k + 1) t -> sound k (valued eph v r t).
Proof. apply (sound_by (valued eph v r) 1 0); [intros u; rewrite Z.add_0_r; repeat split|lia..]. Qed.
Lemma sound_less k k' t : k' <= k -> sound k t -> sound k' t.
Proof. intros Hk. apply (sound_by (fun t => t) 0 0); [intros u; rewrite !Z.add_0_r; repeat split|lia..]. Qed.

(** The rounds of an end that has sent its KEXINIT. *)
Lemma server_meets_again ki ki' n t :
  t_role t = Server -> t_initial_kex_done t = true -> kexinit_from Client ki ->
  KexInit.parse (t_local_kexinit t) = Ok ki' -> negotiate ki ki' = Ok n ->
  Transport.kexinit_round (payload ki) t = (Ok tt, met ki n t).
Proof.
  intros Hr Hi Hf Hl Hn. rewrite (round_meets ki ki' n) by (rewrite ?Hr; done). by rewrite Hr, strict_settled_done.
Qed.

Lemma client_meets_again ki ki' n eph v r t :
  t_role t = Client -> sound 1 t -> kexinit_from Server ki ->
  KexInit.parse (t_local_kexinit t) = Ok ki' -> negotiate ki' ki = Ok n ->
  Transport.client_ephemeral_for (KexKind_of (n_kex n)) (t_rng t) = (Ok (eph, v), r) ->
  Transport.kexinit_round (payload ki) t = (Ok tt, valued eph v r (met ki n t)).
Proof.
  intros Hr Hs Hf Hl Hn He. rewrite (round_meets ki ki' n) by (rewrite ?Hr; done).
  rewrite Hr, strict_settled_done by apply Hs. unfold bind at 1, Transport.with_rng, zoom.
  change (t_rng (met ki n t)) with (t_rng t). rewrite He. unfold bind at 1. rewrite write_packet_wrote; [done|apply Hs|apply Hs| |].
  - unfold below_cap. destruct (so_tx _ _ Hs). by split.
  - by rewrite (proj1 (ecdh_init_head v)).
Qed.

Lemma feed_kexinit k g w ki peer t t2 :
  kexinit_from peer ki -> small (payload ki) -> sound 1 t ->
  let f := sealed (t_cipher_in t) (t_rx_seq t) (payload ki) g in
  Transport.handle_packet (payload ki) (opened (len f) t) = (Ok tt, t2) -> t_rekeying t2 = true ->
  feed (S k) (f ++ w) t = feed k w t2 /\ core t2 = t2.
Proof.
  intros Hf Hp [H1 H2 H3 H4 H5 H6 H7 H8 H9 H10]. cbv zeta. intros Hd Hr.
  apply feed_packet; [exact H7|exact H2|congruence|exact H5|exact H9|by apply small_region|by rewrite (kf_id _ _ Hf)|exact Hd|].
  right. by left.
Qed.

(** The four ways in which a KEXINIT is received. *)
Lemma server_answers k g w ki ki' n t :
  let f := sealed (t_cipher_in t) (t_rx_seq t) (payload ki) g in
  t_role t = Server -> sound 1 t -> t_rekeying t = true -> t_kexinit_sent t = true ->
  kexinit_from Client ki -> small (payload ki) -> KexInit.parse (t_local_kexinit t) = Ok ki' -> negotiate ki ki' = Ok n ->
  feed (S k) (f ++ w) t = feed k w (met ki n (opened (len f) t)) /\ core (met ki n (opened (len f) t)) = met ki n (opened (len f) t).
Proof.
  cbv zeta. intros Hr Hs Hk Hx Hf Hp Hl Hn. apply (feed_kexinit k g w ki Client); [exact Hf|exact Hp|exact Hs| |exact Hk].
  rewrite handle_kexinit_answer by (assumption || apply Hf). apply (server_meets_again ki ki'); [exact Hr|apply Hs|exact Hf|exact Hl|exact Hn].
Qed.

Lemma client_answers k g w ki ki' n eph v r t :
  let f := sealed (t_cipher_in t) (t_rx_seq t) (payload ki) g in
  t_role t = Client -> sound 2 t -> t_rekeying t = true -> t_kexinit_sent t = true ->
  kexinit_from Server ki -> small (payload ki) -> KexInit.parse (t_local_kexinit t) = Ok ki' -> negotiate ki' ki = Ok n ->
  Transport.client_ephemeral_for (KexKind_of (n_kex n)) (t_rng t) = (Ok (eph, v), r) ->
  feed (S k) (f ++ w) t = feed k w (valued eph v r (met ki n (opened (len f) t))) /\
  core (valued eph v r (met ki n (opened (len f) t))) = valued eph v r (met ki n (opened (len f) t)).
Proof.
  cbv zeta. intros Hr Hs Hk Hx Hf Hp Hl Hn He.
  apply (feed_kexinit k g w ki Server); [exact Hf|exact Hp|by apply (sound_less 2)| |exact Hk].
  rewrite handle_kexinit_answer by (assumption || apply Hf).
  apply (client_meets_again ki ki'); [exact Hr|by apply sound_opened|exact Hf|exact Hl|exact Hn|exact He].
Qed.

Lemma server_opens k g w ki n t cookie r :
  let f := sealed (t_cipher_in t) (t_rx_seq t) (payload ki) g in
  let t1 := begun (own_hello cookie t) r (asked (opened (len f) t)) in
  t_role t = Server -> quiet t -> roomy t -> kexinit_from Client ki -> small (payload ki) ->
  Transport.begin_rekey_round (asked (opened (len f) t)) = (Ok tt, t1) ->
  KexInit.parse (t_local_kexinit t1) = Ok (own_hello cookie t) -> negotiate ki (own_hello cookie t) = Ok n ->
  feed (S k) (f ++ w) t = feed k w (met ki n t1) /\ core (met ki n t1) = met ki n t1.
Proof.
  cbv zeta. intros Hr Hq Hm Hf Hp Hb Hl Hn. pose proof (quiet_sound _ Hq Hm) as Hs.
  apply (feed_kexinit k g w ki Client); [exact Hf|exact Hp|by apply (sound_less 8)| |reflexivity].
  rewrite handle_kexinit_opens; [|apply Hf|apply Hs|apply Hq|exact (asked_room t (qt_inv _ Hq) Hm)].
  unfold bind. rewrite Hb. apply (server_meets_again ki (own_hello cookie t)); [exact Hr|apply Hs|exact Hf|exact Hl|exact Hn].
Qed.

Lemma client_opens k g w ki n t cookie r eph v r' :
  let f := sealed (t_cipher_in t) (t_rx_seq t) (payload ki) g in
  let t1 := begun (own_hello cookie t) r (asked (opened (len f) t)) in
  t_role t = Client -> quiet t -> roomy t -> kexinit_from Server ki -> small (payload ki) ->
  Transport.begin_rekey_round (asked (opened (len f) t)) = (Ok tt, t1) ->
  KexInit.parse (t_local_kexinit t1) = Ok (own_hello cookie t) -> negotiate (own_hello cookie t) ki = Ok n ->
  Transport.client_ephemeral_for (KexKind_of (n_kex n)) (t_rng t1) = (Ok (eph, v), r') ->
  feed (S k) (f ++ w) t = feed k w (valued eph v r' (met ki n t1)) /\ core (valued eph v r' (met ki n t1)) = valued eph v r' (met ki n t1).
Proof.
  cbv zeta. intros Hr Hq Hm Hf Hp Hb Hl Hn He. pose proof (quiet_sound _ Hq Hm) as Hs.
  apply (feed_kexinit k g w ki Server); [exact Hf|exact Hp|by apply (sound_less 8)| |reflexivity].
  rewrite handle_kexinit_opens; [|apply Hf|apply Hs|apply Hq|exact (asked_room t (qt_inv _ Hq) Hm)].
  unfold bind. rewrite Hb. apply (client_meets_again ki (own_hello cookie t)); [exact Hr| |exact Hf|exact Hl|exact Hn|exact He].
  apply (sound_less 6); [done|]. apply sound_begun, sound_asked, sound_opened. exact Hs.
Qed.
End Opening.
