(* ===== verification/Rekey.v ===== *)
(** A re-key between two honest ends runs to its end: from established ends in step to
    established ends in step with new keys, the packets that were queued meanwhile
    delivered. *)
From S2P Require Import Prelude Errors Wire Packet Version Crypto Kex Algo Cipher Compress.
From S2P Require Import Transport TransportInv TransportSteps TransportDemo TransportStream TransportDuplex.
From S2P Require Import Handshake Rounds RekeyRound.

(** * The whole round *)

(** Steps of one end, and deliveries, on the pair. *)
Definition at_client `{C : Crypto} (m : M SshError Transport unit) : M SshError (Transport * Transport) unit :=
  fun '(c, s) => let '(o, c') := m c in (o, (c', s)).
Definition at_server `{C : Crypto} (m : M SshError Transport unit) : M SshError (Transport * Transport) unit :=
  fun '(c, s) => let '(o, s') := m s in (o, (c, s')).
Definition deliveries `{C : Crypto} (cut : bytes -> list bytes) (l : list Role) : M SshError (Transport * Transport) unit :=
  fun '(c, s) => play cut l c s.

(** One end asks for new keys, both applications go on sending ([pc] and [ps]), and the bytes
    travel until there are no more. *)
Definition rekey_run `{C : Crypto} (cut : bytes -> list bytes) (who : Role) (pc ps : list bytes)
  : M SshError (Transport * Transport) unit :=
  match who with
  | Client =>
      at_client (Transport.initiate_rekey ;;; send_all pc) ;;; deliveries cut [Client] ;;;
      at_server (send_all ps) ;;; deliveries cut [Server; Client; Server; Client; Server]
  | Server =>
      at_server (Transport.initiate_rekey ;;; send_all ps) ;;; deliveries cut [Server] ;;;
      at_client (send_all pc) ;;; deliveries cut [Client; Server; Client; Server]
  end.

Section Whole.
Context `{C : Crypto} `{!CryptoOk C} `{!FlateOk C}.
Implicit Types t : Transport.

Lemma play_client cut l c s s' :
  mfor (cut (t_tx c)) Transport.on_input s = (Ok tt, s') -> play cut (Client :: l) c s = play cut l (emptied c) s'.
Proof. intros E. cbn [play]. unfold Transport.pending_output. by rewrite E. Qed.
Lemma play_server cut l c s c' :
  mfor (cut (t_tx s)) Transport.on_input c = (Ok tt, c') -> play cut (Server :: l) c s = play cut l c' (emptied s).
Proof. intros E. cbn [play]. unfold Transport.pending_output. by rewrite E. Qed.

Lemma run_client cut pc ps c s c1 s1 s2 r :
  (Transport.initiate_rekey ;;; send_all pc) c = (Ok tt, c1) -> mfor (cut (t_tx c1)) Transport.on_input s = (Ok tt, s1) ->
  send_all ps s1 = (Ok tt, s2) -> play cut [Server; Client; Server; Client; Server] (emptied c1) s2 = r ->
  rekey_run cut Client pc ps (c, s) = r.
Proof.
  unfold rekey_run. generalize (Transport.initiate_rekey ;;; send_all pc) as m. intros m E1 E2 E3 E4.
  unfold bind, at_client, at_server, deliveries. rewrite E1, (play_client _ _ _ _ _ E2). cbn [play]. by rewrite E3.
Qed.
Lemma run_server cut pc ps c s c1 c2 s1 r :
  (Transport.initiate_rekey ;;; send_all ps) s = (Ok tt, s1) -> mfor (cut (t_tx s1)) Transport.on_input c = (Ok tt, c1) ->
  send_all pc c1 = (Ok tt, c2) -> play cut [Client; Server; Client; Server] c2 (emptied s1) = r ->
  rekey_run cut Server pc ps (c, s) = r.
Proof.
  unfold rekey_run. generalize (Transport.initiate_rekey ;;; send_all ps) as m. intros m E1 E2 E3 E4.
  unfold bind, at_client, at_server, deliveries. rewrite E1, (play_server _ _ _ _ _ E2). cbn [play]. by rewrite E3.
Qed.

(** The KEXINITs of linked ends are honest, and agree. *)
Lemma linked_hellos hk c s cookie cookie' :
  linked hk c s -> len cookie = 16 -> len cookie' = 16 ->
  let ki_c := own_hello cookie c in let ki_s := own_hello cookie' s in
  (kexinit_from Client ki_c /\ small (payload ki_c)) /\ (kexinit_from Server ki_s /\ small (payload ki_s)) /\
  exists n kl, negotiate ki_c ki_s = Ok n /\ KexKind_of (n_kex n) = Kind_MlKem /\ Cipher.key_len (n_cipher_c2s n) = Ok kl.
Proof.
  intros L H1 H2. cbv zeta. destruct (lk_offers _ _ _ L) as ([Ho [x [Hx1 Hx2]] [z [Hz1 Hz2]]] & E1 & E2).
  destruct (lk_client _ _ _ L) as [_ Rc]. destruct (lk_server _ _ _ L) as (_ & Rs & _).
  unfold own_hello. rewrite Rc, Rs, E1, E2. change (bool_decide (Client = Server)) with false. change (bool_decide (Server = Server)) with true.
  split; [exact (hello_from false cookie _ _ H1 Ho)|]. split.
  - apply (hello_from true cookie' default_ciphers default_compressions H2).
    destruct fixed_offers_ok as (_ & _ & F1 & F2 & _). constructor; [done|done|by vm_compute].
  - exact (hellos_agree cookie cookie' _ _ x z Hx1 Hx2 Hz1 Hz2).
Qed.

(** The round from the moment at which the client's value is under way: [s] is the server once
    it has read what comes before the value, [s0] the one that is given the bytes. *)
Lemma exchange cut hk n kl eph v r r' c s g s0 j :
  (forall w, List.concat (cut w) = w) -> agreeable ->
  KexKind_of (n_kex n) = Kind_MlKem -> Cipher.key_len (n_cipher_c2s n) = Ok kl ->
  Transport.client_ephemeral_for (KexKind_of (n_kex n)) r = (Ok (eph, v), r') ->
  midway hk n eph c s -> is_Some (t_session_id s) -> tinv c -> tinv s0 ->
  core s0 = s0 -> t_closing s0 = false -> t_phase s0 = Established ->
  feed j (t_tx c) s0 = feed 2 (value_frame v s g) s ->
  offer_meets (default default_ciphers (t_offered_ciphers c)) (default default_compressions (t_offered_compression c)) ->
  t_offered_ciphers s = None -> t_offered_compression s = None ->
  exists c' s', play cut [Client; Server; Client; Server] c s0 = (Ok tt, (c', s')) /\
    renewal hk (t_tx_app_queue c) (t_tx_app_queue s) c s c' s'.
Proof.
  intros Hcut Ha Hkind Hkl He My Hid Tc T0 K0 C0 P0 Hf O1 O2 O3.
  assert (Hok : eph_ok (KexKind_of (n_kex n)) eph v).
  { destruct (client_ephemeral_ok (KexKind_of (n_kex n)) r) as (e1 & v1 & r1 & E1 & Hok). rewrite He in E1. by injection E1 as <- <- <-. }
  destruct (agreeable_kex eph v r r' (t_rng s) Ha) as (q_s & shared & rs' & Hs); [by rewrite <- Hkind|].
  assert (Hsz : len v <= 10000 /\ len q_s <= 10000) by (rewrite Hkind in Hok; by apply (exchange_sizes eph v q_s shared (t_rng s) rs')).
  destruct Hsz as [Hv Hq]. rewrite <- Hkind in Hs.
  destruct (round_keys_exist n (hash hk n v q_s shared c s) (sid hk n v q_s shared c s) (secret n shared) (KexKind_hash (kind n)) kl Hkl)
    as (c2s & s2c & Hk).
  pose proof (value_to_server hk n eph v q_s shared rs' c s g My Hs Hv c2s s2c Hk) as Hd. rewrite <- Hf in Hd.
  assert (Hcl : t_closing (sB hk n v q_s shared rs' c s g c2s s2c) = false).
  { exact (eq_trans (fx_closing _ _ (sB_fixed hk n v q_s shared rs' c s g c2s s2c)) (so_open _ _ (lv_sound _ (my_server _ _ _ _ _ My)))). }
  assert (N0 : t_phase s0 <> NeedPeerVersion) by (rewrite P0; discriminate).
  destruct (play_step cut j s0 _ (t_tx c) Hcut T0 K0 C0 (or_intror N0) Hd Hcl) as [E1 T1].
  destruct (play_rest hk n eph v q_s shared rs' c s g My Hs Hv Hq Hok c2s s2c Hk cut Hcut Tc T1 Hid O1 O2 O3) as (c' & s' & E2 & Hr).
  exists c', s'. split; [|exact Hr]. by rewrite (play_client _ _ _ _ _ E1).
Qed.

(** ** The client begins *)
Section ClientBegins.
Context (hk : HostKey) (c s : Transport) (pc ps : list bytes) (ki_c ki_s : KexInit) (n : Negotiated) (rc rs r : Rng)
  (eph : KexEphemeral) (v : bytes).
Hypotheses (L : linked hk c s) (Rc : roomy c) (Rs : roomy s) (Wc : may_wait pc s) (Ws : may_wait ps c)
  (Fc : kexinit_from Client ki_c) (Fs : kexinit_from Server ki_s) (Sc : small (payload ki_c)) (Ss : small (payload ki_s))
  (Hn : negotiate ki_c ki_s = Ok n).

Definition ca0 : Transport := waiting pc (begun ki_c rc c).
Definition cf0 : bytes := sealed (t_cipher_in s) (t_rx_seq s) (payload ki_c) rc.
Definition sa1 : Transport := met ki_c n (begun ki_s rs (asked (opened (len cf0) s))).
Definition sa2 : Transport := waiting ps sa1.
Definition cf1 : bytes := sealed (t_cipher_in (emptied ca0)) (t_rx_seq (emptied ca0)) (payload ki_s) rs.
Definition ca1 : Transport := valued eph v r (met ki_s n (opened (len cf1) (emptied ca0))).

Lemma ca0_tx : t_tx ca0 = cf0.
Proof.
  destruct (lk_up _ _ _ L) as (E1 & E2 & _). destruct (lk_client _ _ _ L) as [Q _]. unfold cf0. rewrite E1, E2.
  transitivity (t_tx c ++ sealed (t_cipher_out c) (t_tx_seq c) (payload ki_c) rc); [reflexivity|]. by rewrite (qt_sent _ Q).
Qed.
Lemma sa2_tx : t_tx sa2 = cf1.
Proof.
  destruct (lk_down _ _ _ L) as (E1 & E2 & _). destruct (lk_server _ _ _ L) as [Q _].
  transitivity (t_tx s ++ sealed (t_cipher_out s) (t_tx_seq s) (payload ki_s) rs); [reflexivity|].
  rewrite (qt_sent _ Q), <- E1, <- E2. reflexivity.
Qed.
Lemma ca1_tx : t_tx ca1 = value_frame v (emptied sa2) r.
Proof.
  destruct (lk_up _ _ _ L) as (E1 & E2 & _).
  transitivity (sealed (sealed_cipher (t_cipher_out c)) (wrapping_add32 (t_tx_seq c) 1) (ecdh_init_msg v) r); [reflexivity|].
  rewrite <- E1, <- E2. reflexivity.
Qed.

Lemma midway_client : midway hk n eph ca1 (emptied sa2).
Proof.
  destruct (lk_client _ _ _ L) as [Qc Roc]. destruct (lk_server _ _ _ L) as (Qs & Ros & Hhk). destruct (lk_ids _ _ _ L) as [I1 I2].
  destruct (lk_up _ _ _ L) as (U1 & U2 & _). destruct (lk_down _ _ _ L) as (D1 & D2 & _).
  pose proof (quiet_sound _ Qc Rc) as Hc. pose proof (quiet_sound _ Qs Rs) as Hs.
  constructor.
  - constructor; first [exact Ros|exact Roc|exact Hhk|exact I1|exact I2|exact (proj2 (lk_session _ _ _ L))|reflexivity].
  - reflexivity.
  - constructor; [|reflexivity|reflexivity]. apply (sound_less 5); [done|].
    apply sound_valued, sound_met, sound_opened, sound_emptied, sound_waiting. by apply (sound_begun 7).
  - constructor; [|reflexivity|reflexivity]. apply (sound_less 6); [done|].
    apply sound_emptied, sound_waiting, sound_met, sound_begun, sound_asked. by apply (sound_opened 7).
  - exact (lk_strict _ _ _ L).
  - reflexivity.
  - split; [exact (f_equal sealed_cipher D1)|exact (f_equal (fun q => wrapping_add32 q 1) D2)].
  - split; [exact (f_equal (fun k => sealed_cipher (sealed_cipher k)) (eq_sym U1))|].
    exact (f_equal (fun q => wrapping_add32 (wrapping_add32 q 1) 1) (eq_sym U2)).
  - split; [destruct Wc as [W1 W2 W3]|destruct Ws as [W1 W2 W3]]; constructor; [exact W1|exact W2|exact W3|exact W1|exact W2|exact W3].
Qed.
End ClientBegins.

(** What the round comes to, for the ends as they were before it. *)
Lemma renewal_from hk c s c1 s1 c' s' pc ps :
  t_tx_app_queue c1 = pc -> t_tx_app_queue s1 = ps -> t_session_id c1 = t_session_id c ->
  t_events c1 = t_events c -> t_events s1 = t_events s ->
  renewal hk (t_tx_app_queue c1) (t_tx_app_queue s1) c1 s1 c' s' -> renewal hk pc ps c s c' s'.
Proof. intros -> -> E1 E2 E3 [R1 R2 R3 R4 R5]. rewrite E1 in R2, R3. rewrite E2 in R4. rewrite E3 in R5. by constructor. Qed.

Lemma client_begins cut hk c s pc ps :
  (forall w, List.concat (cut w) = w) -> agreeable -> linked hk c s -> roomy c -> roomy s ->
  may_wait pc s -> may_wait ps c ->
  exists c' s', rekey_run cut Client pc ps (c, s) = (Ok tt, (c', s')) /\ renewal hk pc ps c s c' s'.
Proof.
  intros Hcut Ha L Rc Rs Wc Ws. destruct (lk_client _ _ _ L) as [Qc Roc]. destruct (lk_server _ _ _ L) as (Qs & Ros & Hhk).
  pose proof (quiet_sound s Qs Rs) as Hs. pose proof (quiet_sound c Qc Rc) as Hc.
  destruct (begins pc c Qc Rc) as (cookie & rc & Hl & Eb & T1). set (ki_c := own_hello cookie c) in *.
  fold (ca0 c pc ki_c rc) in Eb, T1.
  destruct (begin_rekey_begun (asked (opened (len (cf0 s ki_c rc)) s)) (qt_open _ Qs) (qt_comp_out _ Qs)) as (cookie' & rs & Hl' & Eb').
  { apply (below_cap_tx 7); [done|]. apply sound_asked. by apply (sound_opened 7). }
  destruct (linked_hellos hk c s cookie cookie' L Hl Hl') as ([Fc Pc] & [Fs Ps] & n & kl & Hn & Hkind & Hkl).
  fold ki_c in Fc, Pc, Hn. set (ki_s := own_hello cookie' s) in *.
  pose proof (server_opens 1 rc [] ki_c n s cookie' rs Ros Qs Rs Fc Pc Eb' (kf_parse _ _ Fs) Hn) as [E1 K1].
  rewrite app_nil_r in E1. clearbody ki_c. clear Eb'.
  assert (Ns : t_phase s <> NeedPeerVersion) by (rewrite (qt_phase _ Qs); discriminate).
  assert (Hd : feed 2 (t_tx (ca0 c pc ki_c rc)) s = (Ok tt, (sa1 s ki_c ki_s n rc rs, [])) /\
    core (sa1 s ki_c ki_s n rc rs) = sa1 s ki_c ki_s n rc rs).
  { split; [|exact K1]. rewrite (ca0_tx hk c s) by exact L.
    exact (eq_trans E1 (feed_end 0 (sa1 s ki_c ki_s n rc rs) (qt_open _ Qs) Ns)). }
  destruct (play_step cut 2 s _ _ Hcut (qt_inv _ Qs) (qt_core _ Qs) (qt_open _ Qs) (or_intror Ns) Hd (qt_open _ Qs)) as [Em T2].
  destruct (send_waiting ps (sa1 s ki_c ki_s n rc rs) (qt_phase _ Qs) eq_refl (proj2 (proj2 (qt_idle _ Qs))) T2) as [Eq T3].
  fold (sa2 s ps ki_c ki_s n rc rs) in Eq, T3.
  assert (Nc : t_phase c <> NeedPeerVersion) by (rewrite (qt_phase _ Qc); discriminate).
  destruct (client_ephemeral_ok (KexKind_of (n_kex n)) (t_rng (emptied (ca0 c pc ki_c rc)))) as (eph & v & r & He & _).
  assert (Hc0 : sound 7 (emptied (ca0 c pc ki_c rc))) by (apply sound_emptied, sound_waiting; by apply (sound_begun 7)).
  pose proof (client_answers 1 rs [] ki_s ki_c n eph v r (emptied (ca0 c pc ki_c rc)) Roc (sound_less 7 2 _ ltac:(done) Hc0)
    eq_refl eq_refl Fs Ps (kf_parse _ _ Fc) Hn He) as [E2 K2].
  rewrite app_nil_r in E2. clearbody ki_s.
  assert (Hd2 : feed 2 (t_tx (sa2 s ps ki_c ki_s n rc rs)) (emptied (ca0 c pc ki_c rc)) = (Ok tt, (ca1 c pc ki_c ki_s n rc rs r eph v, [])) /\
    core (ca1 c pc ki_c ki_s n rc rs r eph v) = ca1 c pc ki_c ki_s n rc rs r eph v).
  { split; [|exact K2]. rewrite (sa2_tx hk c s pc) by exact L.
    exact (eq_trans E2 (feed_end 0 (ca1 c pc ki_c ki_s n rc rs r eph v) (qt_open _ Qc) Nc)). }
  destruct (play_step cut 2 (emptied (ca0 c pc ki_c rc)) _ _ Hcut (tinv_emptied _ T1) (so_core _ _ Hc0) (qt_open _ Qc) (or_intror Nc)
    Hd2 (qt_open _ Qc)) as [Em2 T4].
  pose proof (midway_client hk c s pc ps ki_c ki_s n rc rs r eph v L Rc Rs Wc Ws) as My.
  destruct (lk_offers _ _ _ L) as (O1 & O2 & O3). destruct (lk_session _ _ _ L) as [[i Hi] Hi'].
  assert (Hid : is_Some (t_session_id (emptied (sa2 s ps ki_c ki_s n rc rs)))) by (exists i; exact (eq_trans Hi' Hi)).
  destruct (exchange cut hk n kl eph v _ r (ca1 c pc ki_c ki_s n rc rs r eph v) (emptied (sa2 s ps ki_c ki_s n rc rs)) r
    (emptied (sa2 s ps ki_c ki_s n rc rs)) 2 Hcut Ha Hkind Hkl He My Hid T4 (tinv_emptied _ T3)
    (so_core _ _ (lv_sound _ (my_server _ _ _ _ _ My))) (qt_open _ Qs) (qt_phase _ Qs)) as (c' & s' & Ep & Hr).
  - rewrite (ca1_tx hk c s pc ps) by exact L. reflexivity.
  - exact O1.
  - exact O2.
  - exact O3.
  - exists c', s'. split.
    + refine (run_client cut pc ps c s _ _ _ _ Eb Em Eq _). rewrite (play_server _ _ _ _ _ Em2). exact Ep.
    + refine (renewal_from hk c s _ _ c' s' pc ps _ _ _ _ _ Hr); reflexivity.
Qed.

(** ** The server begins *)
Section ServerBegins.
Context (hk : HostKey) (c s : Transport) (pc ps : list bytes) (ki_c ki_s : KexInit) (n : Negotiated) (rc rs r : Rng)
  (eph : KexEphemeral) (v : bytes).
Hypotheses (L : linked hk c s) (Rc : roomy c) (Rs : roomy s) (Wc : may_wait pc s) (Ws : may_wait ps c).

Definition sb0 : Transport := waiting ps (begun ki_s rs s).
Definition sf0 : bytes := sealed (t_cipher_in c) (t_rx_seq c) (payload ki_s) rs.
Definition cb1 : Transport := valued eph v r (met ki_s n (begun ki_c rc (asked (opened (len sf0) c)))).
Definition cb2 : Transport := waiting pc cb1.
Definition sf1 : bytes := sealed (t_cipher_in (emptied sb0)) (t_rx_seq (emptied sb0)) (payload ki_c) rc.
Definition sb1 : Transport := met ki_c n (opened (len sf1) (emptied sb0)).

Lemma sb0_tx : t_tx sb0 = sf0.
Proof.
  destruct (lk_down _ _ _ L) as (E1 & E2 & _). destruct (lk_server _ _ _ L) as [Q _]. unfold sf0. rewrite E1, E2.
  transitivity (t_tx s ++ sealed (t_cipher_out s) (t_tx_seq s) (payload ki_s) rs); [reflexivity|]. by rewrite (qt_sent _ Q).
Qed.
Lemma cb2_tx : t_tx cb2 = sf1 ++ value_frame v sb1 r.
Proof.
  destruct (lk_up _ _ _ L) as (E1 & E2 & _). destruct (lk_client _ _ _ L) as [Q _].
  transitivity ((t_tx c ++ sealed (t_cipher_out c) (t_tx_seq c) (payload ki_c) rc) ++
    sealed (sealed_cipher (t_cipher_out c)) (wrapping_add32 (t_tx_seq c) 1) (ecdh_init_msg v) r); [reflexivity|].
  rewrite (qt_sent _ Q), <- E1, <- E2. reflexivity.
Qed.

Lemma midway_server : midway hk n eph cb2 sb1.
Proof.
  destruct (lk_client _ _ _ L) as [Qc Roc]. destruct (lk_server _ _ _ L) as (Qs & Ros & Hhk). destruct (lk_ids _ _ _ L) as [I1 I2].
  destruct (lk_up _ _ _ L) as (U1 & U2 & _). destruct (lk_down _ _ _ L) as (D1 & D2 & _).
  pose proof (quiet_sound _ Qc Rc) as Hc. pose proof (quiet_sound _ Qs Rs) as Hs.
  constructor.
  - constructor; first [exact Ros|exact Roc|exact Hhk|exact I1|exact I2|exact (proj2 (lk_session _ _ _ L))|reflexivity].
  - reflexivity.
  - constructor; [|reflexivity|reflexivity]. apply (sound_less 5); [done|].
    apply sound_waiting, sound_valued, sound_met, sound_begun, sound_asked. by apply (sound_opened 7).
  - constructor; [|reflexivity|reflexivity]. apply (sound_less 6); [done|].
    apply sound_met, sound_opened, sound_emptied, sound_waiting. by apply (sound_begun 7).
  - exact (lk_strict _ _ _ L).
  - reflexivity.
  - split; [exact (f_equal sealed_cipher D1)|exact (f_equal (fun q => wrapping_add32 q 1) D2)].
  - split; [exact (f_equal (fun k => sealed_cipher (sealed_cipher k)) (eq_sym U1))|].
    exact (f_equal (fun q => wrapping_add32 (wrapping_add32 q 1) 1) (eq_sym U2)).
  - split; [destruct Wc as [W1 W2 W3]|destruct Ws as [W1 W2 W3]]; constructor; [exact W1|exact W2|exact W3|exact W1|exact W2|exact W3].
Qed.
End ServerBegins.

Lemma server_begins cut hk c s pc ps :
  (forall w, List.concat (cut w) = w) -> agreeable -> linked hk c s -> roomy c -> roomy s ->
  may_wait pc s -> may_wait ps c ->
  exists c' s', rekey_run cut Server pc ps (c, s) = (Ok tt, (c', s')) /\ renewal hk pc ps c s c' s'.
Proof.
  intros Hcut Ha L Rc Rs Wc Ws. destruct (lk_client _ _ _ L) as [Qc Roc]. destruct (lk_server _ _ _ L) as (Qs & Ros & Hhk).
  pose proof (quiet_sound s Qs Rs) as Hs. pose proof (quiet_sound c Qc Rc) as Hc.
  destruct (begins ps s Qs Rs) as (cookie' & rs & Hl' & Eb & T1). set (ki_s := own_hello cookie' s) in *.
  fold (sb0 s ps ki_s rs) in Eb, T1.
  destruct (begin_rekey_begun (asked (opened (len (sf0 c ki_s rs)) c)) (qt_open _ Qc) (qt_comp_out _ Qc)) as (cookie & rc & Hl & Eb').
  { apply (below_cap_tx 7); [done|]. apply sound_asked. by apply (sound_opened 7). }
  destruct (linked_hellos hk c s cookie cookie' L Hl Hl') as ([Fc Pc] & [Fs Ps] & n & kl & Hn & Hkind & Hkl).
  fold ki_s in Fs, Ps, Hn. set (ki_c := own_hello cookie c) in *.
  destruct (client_ephemeral_ok (KexKind_of (n_kex n)) (t_rng (begun ki_c rc (asked (opened (len (sf0 c ki_s rs)) c)))))
    as (eph & v & r & He & _).
  pose proof (client_opens 1 rs [] ki_s n c cookie rc eph v r Roc Qc Rc Fs Ps Eb' (kf_parse _ _ Fc) Hn He) as [E1 K1].
  rewrite app_nil_r in E1. clearbody ki_s. clear Eb'.
  assert (Ns : t_phase s <> NeedPeerVersion) by (rewrite (qt_phase _ Qs); discriminate).
  assert (Nc : t_phase c <> NeedPeerVersion) by (rewrite (qt_phase _ Qc); discriminate).
  assert (Hd : feed 2 (t_tx (sb0 s ps ki_s rs)) c = (Ok tt, (cb1 c ki_c ki_s n rc rs r eph v, [])) /\
    core (cb1 c ki_c ki_s n rc rs r eph v) = cb1 c ki_c ki_s n rc rs r eph v).
  { split; [|exact K1]. rewrite (sb0_tx hk c s) by exact L.
    exact (eq_trans E1 (feed_end 0 (cb1 c ki_c ki_s n rc rs r eph v) (qt_open _ Qc) Nc)). }
  destruct (play_step cut 2 c _ _ Hcut (qt_inv _ Qc) (qt_core _ Qc) (qt_open _ Qc) (or_intror Nc) Hd (qt_open _ Qc)) as [Em T2].
  destruct (send_waiting pc (cb1 c ki_c ki_s n rc rs r eph v) (qt_phase _ Qc) eq_refl (proj2 (proj2 (qt_idle _ Qc))) T2) as [Eq T3].
  fold (cb2 c pc ki_c ki_s n rc rs r eph v) in Eq, T3.
  assert (Hs0 : sound 7 (emptied (sb0 s ps ki_s rs))) by (apply sound_emptied, sound_waiting; by apply (sound_begun 7)).
  pose proof (server_answers 2 rc (value_frame v (sb1 s ps ki_c ki_s n rc rs) r) ki_c ki_s n (emptied (sb0 s ps ki_s rs)) Ros
    (sound_less 7 1 _ ltac:(done) Hs0) eq_refl eq_refl Fc Pc (kf_parse _ _ Fs) Hn) as [E2 _].
  clearbody ki_c.
  pose proof (midway_server hk c s pc ps ki_c ki_s n rc rs r eph v L Rc Rs Wc Ws) as My.
  destruct (lk_offers _ _ _ L) as (O1 & O2 & O3). destruct (lk_session _ _ _ L) as [[i Hi] Hi'].
  assert (Hid : is_Some (t_session_id (sb1 s ps ki_c ki_s n rc rs))) by (exists i; exact (eq_trans Hi' Hi)).
  destruct (exchange cut hk n kl eph v _ r (cb2 c pc ki_c ki_s n rc rs r eph v) (sb1 s ps ki_c ki_s n rc rs) r
    (emptied (sb0 s ps ki_s rs)) 3 Hcut Ha Hkind Hkl He My Hid T3 (tinv_emptied _ T1)
    (so_core _ _ Hs0) (qt_open _ Qs) (qt_phase _ Qs)) as (c' & s' & Ep & Hr).
  - rewrite (cb2_tx hk c s pc ps) by exact L. exact E2.
  - exact O1.
  - exact O2.
  - exact O3.
  - exists c', s'. split.
    + exact (run_server cut pc ps c s _ _ _ _ Eb Em Eq Ep).
    + refine (renewal_from hk c s _ _ c' s' pc ps _ _ _ _ _ Hr); reflexivity.
Qed.

(** C4. A re-key completes.  Two ends in step, with room under their keys for the round: one of
    them, the client or the server, asks for new keys, and both applications go on sending.
    However the streams are cut, and unless X25519 refuses honest values, both ends are then in
    step again, in the same session, under the keys of another exchange, the host key has been
    shown to the client once more, every packet that had to wait has arrived at the other end,
    in order, and nothing is left over. *)
Theorem rekey_completes (cut : bytes -> list bytes) who hk c s pc ps :
  (forall w, List.concat (cut w) = w) -> agreeable -> linked hk c s -> roomy c -> roomy s ->
  may_wait pc s -> may_wait ps c ->
  exists c' s', rekey_run cut who pc ps (c, s) = (Ok tt, (c', s')) /\ renewal hk pc ps c s c' s'.
Proof. destruct who; intros; [by apply client_begins|by apply server_begins]. Qed.
End Whole.

(** The ends of [Demo]: the client asks for new keys and sends a window adjustment meanwhile,
    the server a channel success. *)
Lemma rekey_completes_witness :
  exists c s c' s' : Transport (C := Toy.crypto),
    rekey_run (C := Toy.crypto) bytewise Client [[93; 1; 2]] [[99; 3]] (c, s) = (Ok tt, (c', s')) /\
    t_events s' = t_events s ++ [Packet [93; 1; 2]].
Proof.
  destruct demo_introduced as (c & s & I). destruct (introduced_roomy _ _ _ I) as [Rc Rs].
  pose proof (it_linked _ _ _ I) as L. destruct (is_limits _ _ (it_up _ _ _ I)) as (C1 & C2 & S1 & S2).
  destruct (@rekey_completes Toy.crypto Toy.crypto_ok Toy.flate_ok bytewise Client _ c s [[93; 1; 2]] [[99; 3]]
    bytewise_cuts toy_agreeable L Rc Rs) as (c' & s' & E & Hr).
  - constructor; [|rewrite S1; by vm_compute|rewrite S2; by vm_compute].
    rewrite (proj1 (proj2 (lk_server _ _ _ L))). repeat constructor; [discriminate|by vm_compute].
  - constructor; [|rewrite C1; by vm_compute|rewrite C2; by vm_compute].
    rewrite (proj2 (lk_client _ _ _ L)). repeat constructor; [discriminate|by vm_compute].
  - exists c, s, c', s'. exact (conj E (rn_server _ _ _ _ _ _ _ Hr)).
Defined.
