(* ===== verification/TransportFindings.v ===== *)
(** Two defects of the transport that the model exposes, the second by an execution of
    the handlers ([TransportDemo]). *)
From S2P Require Import Prelude Errors Wire Packet Version Crypto Kex Algo Cipher Compress.
From S2P Require Import Transport TransportFrames TransportInv TransportSteps TransportDemo.

(** * A key exchange that nobody counts *)
Section Uncounted.
Context `{C : Crypto}.
Implicit Types t : Transport.

Lemma keeps_server_kex p :
  keeps t_consecutive_peer_rekeys (Transport.on_ecdh_init p).
Proof.
  unfold Transport.on_ecdh_init, Transport.parse_with, Transport.with_rng,
    Transport.compute_exchange_hash, Transport.finish_kex, Transport.send_newkeys,
    Transport.maybe_complete_kex, Transport.push_event.
  repeat first [frame_write | keeps_step].
Qed.
End Uncounted.

(** A KEX_ECDH_INIT is never counted by the re-key flood guard: in any phase, and
    however often it comes, the server runs a key exchange (a Diffie-Hellman and a
    signature) and leaves the counter of consecutive peer re-keys where it was, although
    that counter exists to bound exactly this work. *)
Lemma ecdh_init_uncounted `{C : Crypto} p t :
  t_role t = Server -> t_strict_kex t && negb (Transport.is_established t) = false ->
  Transport.handle_packet (msg.KEX_ECDH_INIT :: p) t =
    Transport.on_ecdh_init (msg.KEX_ECDH_INIT :: p) t /\
  t_consecutive_peer_rekeys (snd (Transport.handle_packet (msg.KEX_ECDH_INIT :: p) t)) =
    t_consecutive_peer_rekeys t.
Proof.
  intros Hr Hs.
  assert (He : Transport.handle_packet (msg.KEX_ECDH_INIT :: p) t =
    Transport.on_ecdh_init (msg.KEX_ECDH_INIT :: p) t).
  { unfold Transport.handle_packet, bind at 1, get. rewrite Hs, Hr. done. }
  split; [exact He|]. rewrite He. apply keeps_server_kex.
Qed.

(** C35. Inbound encryption can be switched off on an established connection: a peer that
    runs an uncounted exchange, starts a re-key and then sends NEWKEYS twice leaves the
    server, in a reachable state, with the plaintext cipher as its inbound cipher (the
    second NEWKEYS installs the placeholder that the first one left in [pending]); the
    server then accepts an unauthenticated plaintext packet as application data. *)
Theorem plaintext_downgrade :
  exists t data p t', treachable (C := Toy.crypto) t /\
    t_phase t = Established /\ t_cipher_in t = Cipher_None /\
    data = encode_plain_into p [] /\
    Transport.on_input (C := Toy.crypto) data t = (Ok tt, t') /\
    t_events t' = t_events t ++ [Packet p].
Proof.
  exists Demo.sv5', (encode_plain_into Demo.injected []), Demo.injected, Demo.sv6.
  split; [exact demo_attacked|].
  split; [reflexivity|]. split; [reflexivity|]. split; [reflexivity|].
  split; [ran Demo.sv6|reflexivity].
Qed.

(** * Witnesses *)

Lemma ecdh_init_uncounted_witness :
  Transport.handle_packet (C := Toy.crypto) [msg.KEX_ECDH_INIT; 1] Demo.sv3 =
    Transport.on_ecdh_init (C := Toy.crypto) [msg.KEX_ECDH_INIT; 1] Demo.sv3 /\
  t_consecutive_peer_rekeys (snd (Transport.handle_packet (C := Toy.crypto) [msg.KEX_ECDH_INIT; 1] Demo.sv3)) =
    t_consecutive_peer_rekeys Demo.sv3.
Proof. apply (@ecdh_init_uncounted Toy.crypto [1] Demo.sv3); reflexivity. Defined.
