(* ===== verification/Server.v ===== *)
(** The server session: [server.rs].  The authentication policy is the interface
    [ServerAuthHandler]; everything else is the state machine between the transport's
    events, the connection protocol and the driver. *)
From S2P Require Import Prelude Errors Wire Packet Version Crypto Kex Algo Cipher Compress.
From S2P Require Import Connection Auth Transport TransportFrames TransportInv.

(** * The policy interface

    [&mut self] methods return the handler they leave. *)
Class ServerAuthHandler `{C : Crypto} (H : Type) := {
  banner : H -> option bytes * H;
  allow_none : bytes -> H -> bool * H;
  verify_password : bytes -> bytes -> H -> bool * H;
  is_authorized_key : bytes -> UserPublicKey -> H -> bool * H;
  methods : H -> list bytes;
  max_auth_attempts : H -> Z;
  max_auth_requests : H -> Z
}.

(** The trait's provided methods, for a policy that overrides none of them. *)
Definition default_methods : list bytes := [METHOD_PUBLICKEY; METHOD_PASSWORD].
Definition default_max_auth_attempts : Z := 6.
Definition default_max_auth_requests : Z := 50.
Definition refuse_all `{C : Crypto} : ServerAuthHandler unit := {|
  banner h := (None, h);
  allow_none _ h := (false, h);
  verify_password _ _ h := (false, h);
  is_authorized_key _ _ h := (false, h);
  methods _ := default_methods;
  max_auth_attempts _ := default_max_auth_attempts;
  max_auth_requests _ := default_max_auth_requests
|}.

(** A policy whose caps are [u32] values that its callbacks do not move. *)
Class SteadyCaps `{C : Crypto} (H : Type) {A : ServerAuthHandler H} := {
  caps_attempts h : is_u32 (max_auth_attempts h);
  caps_requests h : is_u32 (max_auth_requests h);
  caps_banner h : let h' := snd (banner h) in
    max_auth_attempts h' = max_auth_attempts h /\ max_auth_requests h' = max_auth_requests h;
  caps_none u h : let h' := snd (allow_none u h) in
    max_auth_attempts h' = max_auth_attempts h /\ max_auth_requests h' = max_auth_requests h;
  caps_password u p h : let h' := snd (verify_password u p h) in
    max_auth_attempts h' = max_auth_attempts h /\ max_auth_requests h' = max_auth_requests h;
  caps_key u k h : let h' := snd (is_authorized_key u k h) in
    max_auth_attempts h' = max_auth_attempts h /\ max_auth_requests h' = max_auth_requests h
}.

(** * State *)
Inductive ServerEvent :=
| SE_Authenticated (user : bytes)
| ExecRequest (channel : Z) (command : bytes)
| ShellRequest (channel : Z)
| SubsystemRequest (channel : Z) (name : bytes)
| WindowChange (channel cols rows : Z)
| SE_ChannelData (channel : Z) (data : bytes)
| SE_ChannelEof (channel : Z)
| SE_ChannelClose (channel : Z)
| SE_Disconnect (reason : Z) (description : bytes)
| AuthExhausted.

Record ServerConnection `{C : Crypto} {H : Type} := mkServer {
  s_transport : Transport;
  s_handler : H;
  s_authenticated : option bytes;
  s_banner_sent : bool;
  s_channel : option Channel;
  s_pending_reply : bool;
  s_allow_pty : bool;
  s_auth_failures : Z;
  s_auth_requests : Z;
  s_program_started : bool;
  s_events : list ServerEvent
}.
Arguments ServerConnection {C} H.

#[export] Instance eta_Server `{C : Crypto} {H} : Eta (ServerConnection H) := fun s =>
  mkServer C H (s_transport s) (s_handler s) (s_authenticated s) (s_banner_sent s) (s_channel s)
    (s_pending_reply s) (s_allow_pty s) (s_auth_failures s) (s_auth_requests s)
    (s_program_started s) (s_events s).

Definition LOCAL_CHANNEL : Z := 0.

(** [u16::try_from(v).unwrap_or(u16::MAX)] on a [u32]. *)
Definition u16_clamp (v : Z) : Z := if v <=? U16_MAX then v else U16_MAX.

Module ServerConnection.
Section ServerConnection.
Context `{C : Crypto} {H : Type} `{!ServerAuthHandler H}.
Abbreviation SM := (M SshError (ServerConnection H)).

(** Run a method of the transport, a policy callback, an operation on the channel. *)
Definition on_transport {A} (m : M SshError Transport A) : SM A :=
  zoom s_transport (fun t s => s <| s_transport := t |>) m.
Definition on_handler {A} (f : H -> A * H) : SM A :=
  fun s => let '(a, h) := f (s_handler s) in (Ok a, s <| s_handler := h |>).
Definition on_channel {A} (ch : Channel) (m : M SshError Channel A) : SM A :=
  zoom (fun _ => ch) (fun c s => s <| s_channel := Some c |>) m.
Definition send_packet (payload : bytes) : SM unit := on_transport (Transport.send_packet payload).
Definition disconnect (reason : Z) (description : bytes) : SM unit :=
  on_transport (Transport.disconnect reason description).
Definition push (e : ServerEvent) : SM unit := s_events <-~ (fun q => q ++ [e]).
Definition parse {A} (p : RM A) (payload : bytes) : SM A := lift (run p (Reader.new payload)).

(** [new]: the outcome is that of the transport's first packet. *)
Definition new (rng : Rng) (host_key : HostKey) (handler : H)
  : outcome SshError unit * ServerConnection H :=
  let '(o, t) := Transport.new_server rng host_key in
  (o, {| s_transport := t;
         s_handler := handler;
         s_authenticated := None;
         s_banner_sent := false;
         s_channel := None;
         s_pending_reply := false;
         s_allow_pty := false;
         s_auth_failures := 0;
         s_auth_requests := 0;
         s_program_started := false;
         s_events := [] |}).

Definition take_output : SM bytes := on_transport Transport.take_output.
Definition pending_output (s : ServerConnection H) : bytes := Transport.pending_output (s_transport s).
Definition clear_output : SM unit := on_transport Transport.clear_output.
Definition poll_event : SM (option ServerEvent) :=
  let* s := get in
  match s_events s with
  | [] => ret None
  | e :: q => s_events <-! q ;;; ret (Some e)
  end.
Definition is_authenticated (s : ServerConnection H) : bool :=
  bool_decide (is_Some (s_authenticated s)).
Definition is_closing (s : ServerConnection H) : bool := Transport.is_closing (s_transport s).
Definition send_raw_packet (payload : bytes) : SM unit := send_packet payload.
Definition session_id (s : ServerConnection H) : option bytes := Transport.session_id (s_transport s).
Definition initiate_rekey : SM unit := on_transport Transport.initiate_rekey.
Definition set_max_consecutive_rekeys (n : Z) : SM unit :=
  on_transport (Transport.set_max_consecutive_peer_rekeys n).
Definition set_allow_pty (allow : bool) : SM unit := s_allow_pty <-! allow.
Definition set_obfuscation (o : Obfuscation) : SM unit :=
  on_transport (Transport.set_obfuscation o).
Definition send_chaff : SM unit := on_transport Transport.send_chaff.

Definition channel_for (channel : Z) (s : ServerConnection H) : option Channel :=
  match s_channel s with
  | Some ch => if ch_local_id ch =? channel then Some ch else None
  | None => None
  end.

Definition channel_pty (channel : Z) (s : ServerConnection H) : option PtyInfo :=
  match channel_for channel s with Some ch => Channel.pty ch | None => None end.

Definition remote_id (s : ServerConnection H) : Z :=
  match s_channel s with Some c => ch_remote_id c | None => 0 end.

(** The drained messages are sealed in order, the first error stops the sending; the
    channel is drained whatever becomes of the sends. *)
Definition flush_channel : SM unit :=
  let* s := get in
  match s_channel s with
  | None => ret tt
  | Some ch =>
      let max_chunk := max_chunk (Transport.obfuscation (s_transport s)) in
      let* messages := on_channel ch (Channel.drain_output max_chunk) in
      mfor messages send_packet ;;;
      when (negb (len messages =? 0)) (on_transport Transport.send_chaff_burst) ;;;
      let* s := get in
      match s_channel s with
      | None => ret tt
      | Some ch =>
          if Channel.out_is_empty ch && Channel.close_requested ch && negb (ch_sent_close ch) then
            s_channel <-! Some (ch <| ch_sent_eof := true |> <| ch_sent_close := true |>) ;;;
            let remote := ch_remote_id ch in
            let status := default 0 (ch_exit_status ch) in
            send_packet (channel_request_exit_status remote status) ;;;
            send_packet (channel_eof remote) ;;;
            send_packet (channel_close remote)
          else ret tt
      end
  end.

(** ** The driver's side *)

Definition channel_stdout (channel : Z) (data : bytes) : SM unit :=
  let* s := get in
  (match channel_for channel s with
   | Some ch => s_channel <-! Some (Channel.enqueue_stdout data ch)
   | None => ret tt
   end) ;;;
  flush_channel.

Definition channel_stderr (channel : Z) (data : bytes) : SM unit :=
  let* s := get in
  (match channel_for channel s with
   | Some ch => s_channel <-! Some (Channel.enqueue_stderr data ch)
   | None => ret tt
   end) ;;;
  flush_channel.

Definition channel_exit (channel status : Z) : SM unit :=
  let* s := get in
  (match channel_for channel s with
   | Some ch => s_channel <-! Some (Channel.request_close (ch <| ch_exit_status := Some status |>))
   | None => ret tt
   end) ;;;
  flush_channel.

Definition channel_consumed (channel n : Z) : SM unit :=
  let* s := get in
  match channel_for channel s with
  | Some ch =>
      let remote := ch_remote_id ch in
      let* adjust := on_channel ch (Channel.ack_incoming n) in
      match adjust with
      | Some add => send_packet (channel_window_adjust remote add)
      | None => ret tt
      end
  | None => ret tt
  end.

Definition take_flushed_output (channel : Z) : SM Z :=
  let* s := get in
  match channel_for channel s with
  | Some ch => on_channel ch Channel.take_flushed_out
  | None => ret 0
  end.

(** ** Authentication *)

Definition handle_service_request (payload : bytes) : SM unit :=
  let* service := parse (let* _ := Reader.u8 in Reader.utf8) payload in
  if negb (beq service SERVICE_USERAUTH) then
    disconnect msg.PROTOCOL_ERROR (str "service not available")
  else
    send_packet (service_accept SERVICE_USERAUTH) ;;;
    let* s := get in
    if negb (s_banner_sent s) then
      s_banner_sent <-! true ;;;
      let* b := on_handler banner in
      match b with
      | Some b => send_packet (userauth_banner b)
      | None => ret tt
      end
    else ret tt.

Definition send_failure : SM unit :=
  let* s := get in
  let* n := checked U32_MAX (s_auth_failures s + 1) in
  s_auth_failures <-! n ;;;
  if max_auth_attempts (s_handler s) <=? n then
    disconnect msg.NO_MORE_AUTH_METHODS_AVAILABLE (str "too many authentication failures") ;;;
    push AuthExhausted
  else send_packet (userauth_failure (methods (s_handler s)) false).

Definition finish_auth (user : bytes) (granted : bool) : SM unit :=
  if granted then
    send_packet userauth_success ;;;
    s_authenticated <-! Some user ;;;
    push (SE_Authenticated user)
  else send_failure.

Definition handle_publickey (req : AuthRequest) (key_algo key_blob : bytes)
  (signature : option bytes) : SM unit :=
  match UserPublicKey.parse_blob key_blob with
  | Ok key =>
      let* authorized := on_handler (is_authorized_key (ar_user req) key) in
      if negb authorized then send_failure
      else
        match signature with
        | None => send_packet (userauth_pk_ok key_algo key_blob)
        | Some sig =>
            let* s := get in
            let* session_id :=
              ok_or (Transport.session_id (s_transport s)) (Protocol "no session id") in
            let signed := publickey_signed_data session_id (ar_user req) (ar_service req)
                            key_algo key_blob in
            let ok := is_ok (UserPublicKey.verify key signed sig) in
            finish_auth (ar_user req) ok
        end
  | Err _ => send_failure
  | Panic => panic
  | OutOfFuel => out_of_fuel
  end.

Definition handle_userauth (payload : bytes) : SM unit :=
  let* s := get in
  let* n := checked U32_MAX (s_auth_requests s + 1) in
  s_auth_requests <-! n ;;;
  if max_auth_requests (s_handler s) <? n then
    disconnect msg.PROTOCOL_ERROR (str "too many authentication requests") ;;;
    push AuthExhausted
  else
    let* req := lift (AuthRequest.parse payload) in
    match ar_method req with
    | Method_None =>
        let* granted := on_handler (allow_none (ar_user req)) in
        finish_auth (ar_user req) granted
    | Method_Password password =>
        let* granted := on_handler (verify_password (ar_user req) password) in
        finish_auth (ar_user req) granted
    | Method_PublicKey key_algo key_blob signature =>
        handle_publickey req key_algo key_blob signature
    | Method_Unknown _ => finish_auth (ar_user req) false
    end.

Definition handle_preauth (payload : bytes) : SM unit :=
  match payload with
  | [] => ret tt
  | id :: _ =>
      if id =? msg.SERVICE_REQUEST then handle_service_request payload
      else if id =? msg.USERAUTH_REQUEST then handle_userauth payload
      else ret tt
  end.

(** ** The connection protocol *)

Definition handle_channel_open (payload : bytes) : SM unit :=
  let* '(ch_type, sender, window, max_packet) := parse
    (let* _ := Reader.u8 in
     let* ch_type := Reader.utf8 in
     let* sender := Reader.u32 in
     let* window := Reader.u32 in
     let* max_packet := Reader.u32 in
     ret (ch_type, sender, window, max_packet)) payload in
  if negb (beq ch_type CHANNEL_SESSION) then
    send_packet (channel_open_failure sender UNKNOWN_CHANNEL_TYPE
      (str "only session channels are supported"))
  else
    let* s := get in
    if bool_decide (is_Some (s_channel s)) then
      send_packet (channel_open_failure sender ADMINISTRATIVELY_PROHIBITED
        (str "only one channel supported"))
    else if max_packet <? MIN_REMOTE_MAX_PACKET then
      send_packet (channel_open_failure sender ADMINISTRATIVELY_PROHIBITED
        (str "maximum packet size too small"))
    else
      s_channel <-! Some (Channel.set_remote sender window max_packet (Channel.new LOCAL_CHANNEL)) ;;;
      s_program_started <-! false ;;;
      send_packet (channel_open_confirmation sender LOCAL_CHANNEL).

(** The reply to a request whose [want_reply] is set. *)
Definition reply (success : bool) : SM unit :=
  let* s := get in
  send_packet (if success then channel_success (remote_id s) else channel_failure (remote_id s)).

Definition is_program (request : bytes) : bool :=
  beq request (str "exec") || beq request (str "shell") || beq request (str "subsystem").

(** The requests that do not start a program; the reader stands after [want_reply]. *)
Definition session_request (request : bytes) (want_reply : bool) (r : Reader) : SM unit :=
  if beq request (str "env") then when want_reply (reply true)
  else if beq request (str "pty-req") then
    let* '(pty, _) := on_local
      (let* term := Reader.utf8 in
       let* cols := Reader.u32 in
       let* rows := Reader.u32 in
       let* width_px := Reader.u32 in
       let* height_px := Reader.u32 in
       let* modes := Reader.string in
       ret (mkPtyInfo term (u16_clamp cols) (u16_clamp rows) width_px height_px modes)) r in
    let* s := get in
    let granted := s_allow_pty s && bool_decide (is_Some (s_channel s)) in
    when granted
      (match s_channel s with
       | Some ch => s_channel <-! Some (Channel.set_pty pty ch)
       | None => ret tt
       end) ;;;
    when want_reply (reply granted)
  else if beq request (str "window-change") then
    let* '((cols, rows, width_px, height_px), _) := on_local
      (let* cols := Reader.u32 in
       let* rows := Reader.u32 in
       let* width_px := Reader.u32 in
       let* height_px := Reader.u32 in
       ret (u16_clamp cols, u16_clamp rows, width_px, height_px)) r in
    let* s := get in
    let* applied :=
      (match s_channel s with
       | Some ch =>
           let '(b, ch') := Channel.update_pty_size cols rows width_px height_px ch in
           s_channel <-! Some ch' ;;; ret b
       | None => ret false
       end) in
    when applied (push (WindowChange LOCAL_CHANNEL cols rows)) ;;;
    when want_reply (reply applied)
  else when want_reply (reply false).

Definition dispatch_request (request : bytes) (want_reply : bool) (r : Reader) : SM unit :=
  if beq request (str "exec") then
    let* '(command, _) := on_local Reader.utf8 r in
    s_pending_reply <-! want_reply ;;;
    s_program_started <-! true ;;;
    push (ExecRequest LOCAL_CHANNEL command)
  else if beq request (str "shell") then
    s_pending_reply <-! want_reply ;;;
    s_program_started <-! true ;;;
    push (ShellRequest LOCAL_CHANNEL)
  else if beq request (str "subsystem") then
    let* '(name, _) := on_local Reader.utf8 r in
    s_pending_reply <-! want_reply ;;;
    s_program_started <-! true ;;;
    push (SubsystemRequest LOCAL_CHANNEL name)
  else session_request request want_reply r.

Definition handle_channel_request (payload : bytes) : SM unit :=
  let* '((request, want_reply), r) := on_local
    (let* _ := Reader.u8 in
     let* _recipient := Reader.u32 in
     let* request := Reader.utf8 in
     let* want_reply := Reader.boolean in
     ret (request, want_reply)) (Reader.new payload) in
  let* s := get in
  if is_program request && s_program_started s then when want_reply (reply false)
  else dispatch_request request want_reply r.

(** [accept_channel] and [reject_channel]; their argument is not used. *)
Definition answer_request (success : bool) : SM unit :=
  let* s := get in
  let pending := s_pending_reply s in
  s_pending_reply <-! false ;;;
  when pending (reply success).
Definition accept_channel (_channel : Z) : SM unit := answer_request true.
Definition reject_channel (_channel : Z) : SM unit := answer_request false.

Definition handle_channel_data (payload : bytes) : SM unit :=
  let* data := parse
    (let* _ := Reader.u8 in let* _recipient := Reader.u32 in Reader.string) payload in
  let* s := get in
  let* fits :=
    (match s_channel s with
     | Some ch =>
         let '(b, ch') := Channel.consume_incoming (as_u32 (len data)) ch in
         s_channel <-! Some ch' ;;; ret b
     | None => ret true
     end) in
  if negb fits then disconnect msg.PROTOCOL_ERROR (str "channel window exceeded")
  else push (SE_ChannelData LOCAL_CHANNEL data).

Definition handle_window_adjust (payload : bytes) : SM unit :=
  let* add := parse
    (let* _ := Reader.u8 in let* _recipient := Reader.u32 in Reader.u32) payload in
  let* s := get in
  (match s_channel s with
   | Some ch => s_channel <-! Some (Channel.add_remote_window add ch)
   | None => ret tt
   end) ;;;
  flush_channel.

Definition handle_channel_close : SM unit :=
  let* s := get in
  let remote := remote_id s in
  (match s_channel s with
   | Some ch =>
       if negb (ch_sent_close ch) then
         s_channel <-! Some (ch <| ch_recv_close := true |> <| ch_sent_close := true |>) ;;;
         send_packet (channel_close remote)
       else s_channel <-! Some (ch <| ch_recv_close := true |>)
   | None => ret tt
   end) ;;;
  s_channel <-! None ;;;
  s_program_started <-! false ;;;
  push (SE_ChannelClose LOCAL_CHANNEL).

Definition handle_connection (payload : bytes) : SM unit :=
  match payload with
  | [] => ret tt
  | id :: _ =>
      if id =? msg.CHANNEL_OPEN then handle_channel_open payload
      else if id =? msg.CHANNEL_REQUEST then handle_channel_request payload
      else if id =? msg.CHANNEL_DATA then handle_channel_data payload
      else if id =? msg.CHANNEL_WINDOW_ADJUST then handle_window_adjust payload
      else if id =? msg.CHANNEL_EOF then push (SE_ChannelEof LOCAL_CHANNEL)
      else if id =? msg.CHANNEL_CLOSE then handle_channel_close
      else ret tt
  end.

(** ** Events *)

Definition handle_event (e : Event) : SM unit :=
  match e with
  | Ev_Established | ServerHostKey _ => ret tt
  | Ev_Disconnect reason description => push (SE_Disconnect reason description)
  | Packet payload =>
      let* s := get in
      if is_authenticated s then handle_connection payload else handle_preauth payload
  end.

(** The loop of [pump]; no handler adds a transport event, so the queue's length is the
    number of rounds. *)
Fixpoint pump_loop (fuel : nat) : SM unit :=
  let* e := on_transport Transport.poll_event in
  match e with
  | None => ret tt
  | Some e =>
      match fuel with
      | O => out_of_fuel
      | S fuel' => handle_event e ;;; pump_loop fuel'
      end
  end.
Definition pump : SM unit := fun s => pump_loop (length (t_events (s_transport s))) s.

Definition on_input (data : bytes) : SM unit :=
  on_transport (Transport.on_input data) ;;; pump.
End ServerConnection.
End ServerConnection.
