(* ===== verification/ServerInv.v ===== *)
(** The server session's invariant: every handler and every call of the driver preserves
    it and none of them panics. *)
From S2P Require Import Prelude Errors Wire Packet Version Crypto Kex Algo Cipher Compress.
From S2P Require Import Connection Auth Transport TransportFrames TransportBytes TransportInv.
From S2P Require Import Server.

(** * Frames of the session's methods *)
Section Frames.
Context `{C : Crypto} {H : Type} `{!ServerAuthHandler H}.
Implicit Types s : ServerConnection H.
Import ServerConnection.

(** The transport as the session sees it, after its own sends. *)
Definition quiet s s' : Prop := sends (s_transport s) (s_transport s').
#[export] Instance quiet_preorder : PreOrder quiet.
Proof. unfold quiet. split; [done|]. intros s1 s2 s3. by etransitivity. Qed.

Lemma quiet_on_transport {A} (m : M SshError Transport A) :
  stays sends m -> stays quiet (on_transport m).
Proof. intros Hm. apply (stays_zoom_rel quiet sends); [exact Hm|done]. Qed.

Lemma quiet_on_handler {A} (f : H -> A * H) : stays quiet (on_handler f).
Proof. intros s. unfold on_handler. by destruct (f _). Qed.

Ltac quiet_step :=
  first
    [ lazymatch goal with
      | |- stays _ (modify _) => refine (stays_modify _ _ _); intros; apply sends_refl
      | |- stays _ (on_transport _) => apply quiet_on_transport; solve [auto with frame]
      | |- stays _ (on_handler _) => apply quiet_on_handler
      | |- stays _ (on_channel _ _) => apply stays_zoom; intros; apply sends_refl
      end
    | keeps_step ].
Ltac quiet_auto := repeat quiet_step.

Lemma quiet_send_packet p : stays quiet (send_packet p).
Proof. unfold send_packet. quiet_auto. Qed.
Lemma quiet_disconnect r d : stays quiet (disconnect r d).
Proof. unfold disconnect. quiet_auto. Qed.
#[local] Hint Resolve quiet_send_packet quiet_disconnect : frame.

Lemma quiet_flush_channel : stays quiet flush_channel.
Proof. unfold flush_channel. quiet_auto. Qed.
#[local] Hint Resolve quiet_flush_channel : frame.

Lemma quiet_send_failure : stays quiet send_failure.
Proof. unfold send_failure, push. quiet_auto. Qed.
#[local] Hint Resolve quiet_send_failure : frame.

Lemma quiet_finish_auth u g : stays quiet (finish_auth u g).
Proof. unfold finish_auth, push. quiet_auto. Qed.
#[local] Hint Resolve quiet_finish_auth : frame.

Lemma quiet_preauth p : stays quiet (handle_preauth p).
Proof.
  unfold handle_preauth, handle_service_request, handle_userauth, handle_publickey, parse, push.
  quiet_auto.
Qed.

Lemma quiet_connection p : stays quiet (handle_connection p).
Proof.
  unfold handle_connection, handle_channel_open, handle_channel_request, dispatch_request, session_request, reply,
    handle_channel_data, handle_window_adjust, handle_channel_close, parse, push.
  quiet_auto.
Qed.

Lemma quiet_event e : stays quiet (handle_event e).
Proof.
  unfold handle_event, push. destruct e; quiet_auto.
  - apply quiet_connection.
  - apply quiet_preauth.
Qed.

(** What the connection protocol never touches. *)
Definition auth_view s := (s_authenticated s, s_auth_requests s, s_auth_failures s, s_handler s).

Lemma auth_view_connection p : keeps auth_view (handle_connection p).
Proof.
  unfold handle_connection, handle_channel_open, handle_channel_request, dispatch_request, session_request, reply,
    handle_channel_data, handle_window_adjust, handle_channel_close, flush_channel, parse, push,
    send_packet, disconnect, on_channel, on_transport.
  keeps_auto.
Qed.

Lemma requests_on_handler {V} (f : H -> V * H) : keeps s_auth_requests (on_handler f).
Proof. intros s. unfold on_handler, same. by destruct (f _). Qed.
#[local] Hint Resolve requests_on_handler : frame.

(** One packet is at most one authentication request. *)
Lemma requests_preauth p s : s_auth_requests (snd (handle_preauth p s)) <= s_auth_requests s + 1.
Proof.
  unfold handle_preauth. destruct p as [|id p]; [cbn; lia|].
  destruct (id =? msg.SERVICE_REQUEST).
  { assert (Hk : keeps s_auth_requests (handle_service_request (id :: p))).
    { unfold handle_service_request, parse, send_packet, disconnect, on_transport. keeps_auto. }
    rewrite (Hk s). lia. }
  destruct (id =? msg.USERAUTH_REQUEST); [|cbn; lia].
  unfold handle_userauth, bind at 1 2, get, checked.
  destruct ((0 <=? s_auth_requests s + 1) && (s_auth_requests s + 1 <=? U32_MAX)); [|cbn; lia].
  unfold ret at 1, bind at 1, modify at 1.
  match goal with |- s_auth_requests (snd (?m ?s1)) <= _ =>
    assert (Hk : keeps s_auth_requests m); [|specialize (Hk s1); unfold same in Hk; rewrite Hk; cbn; lia] end.
  unfold handle_publickey, finish_auth, send_failure, push, send_packet, disconnect, on_transport.
  keeps_auto.
Qed.
End Frames.

(** * The invariant *)

(** Drained bytes and queued bytes are the same bytes. *)
Lemma len_stream q : len (stream q) = queued q.
Proof.
  induction q as [|i q IH]; [done|]. cbn [stream flat_map]. rewrite len_app. cbn [queued fold_right].
  unfold stream, queued in IH. rewrite IH. unfold len at 1. rewrite length_map. done.
Qed.

Lemma len_chunk_stream l : len (chunk_stream l) = chunk_bytes l.
Proof.
  induction l as [|[e d] l IH]; [done|]. cbn [chunk_stream flat_map]. rewrite len_app.
  cbn [chunk_bytes fold_right]. unfold chunk_stream, chunk_bytes in IH. rewrite IH.
  unfold len at 1. rewrite length_map. done.
Qed.

(** The output a channel holds: queued, or flushed and not yet reported to the driver. *)
Definition held (ch : Channel) : Z := ch_flushed_out ch + queued (ch_out ch).

(** A bound that the [u64] of the flushed bytes can hold. *)
Class OutBound (B : Z) : Prop := out_bound : 0 <= B <= U64_MAX.
#[export] Instance out_bound_max : OutBound U64_MAX.
Proof. unfold OutBound, U64_MAX. lia. Qed.

(** A channel with its id, that holds at most [B] bytes of output. *)
Definition chan_ok (B : Z) (ch : Channel) : Prop :=
  channel_ok ch /\ ch_local_id ch = LOCAL_CHANNEL /\ held ch <= B.

Lemma drained_chan_ok B mc ch l ch' : chan_ok B ch -> drained mc ch l ch' -> chan_ok B ch'.
Proof.
  intros (H1 & H2 & H3) [D1 D2 D3 D4 D5 D6 D7].
  assert (Hl : len (stream (ch_out ch)) = len (chunk_stream l ++ stream (ch_out ch'))) by by rewrite D1.
  rewrite len_app, !len_stream, len_chunk_stream in Hl.
  split; [done|]. split; [|unfold held in *; lia]. rewrite D7. exact H2.
Qed.

Definition before_auth (e : ServerEvent) : Prop :=
  match e with SE_Disconnect _ _ | AuthExhausted => True | _ => False end.

Section Inv.
Context `{C : Crypto} `{!CryptoOk C} `{!FlateOk C} `{!OctetsOk C}.
Context {H : Type} `{A : !ServerAuthHandler H} `{!SteadyCaps H}.
Implicit Types s : ServerConnection H.
Import ServerConnection.
Abbreviation any := (fun (_ : SshError) (_ : ServerConnection H) => True).

(** The invariant bounds the output that the channel holds; at most what its [u64] counts. *)
Context (bd : Z) `{HB : !OutBound bd}.
Abbreviation okc := (chan_ok bd).

Lemma held_fits ch : held ch <= bd -> held ch <= U64_MAX.
Proof. destruct HB. lia. Qed.

(** The caps: while the connection is not closing they have not been exceeded. *)
Definition caps_ok s : Prop :=
  t_closing (s_transport s) = false ->
  s_auth_requests s <= max_auth_requests (s_handler s) /\
  (s_auth_failures s = 0 \/ s_auth_failures s < max_auth_attempts (s_handler s)).

(** Nothing of the connection protocol before authentication. *)
Definition gate_ok s : Prop :=
  s_authenticated s = None ->
  s_channel s = None /\ s_program_started s = false /\ s_pending_reply s = false /\
  Forall before_auth (s_events s).

Record base s : Prop := {
  b_t : tinv (s_transport s);
  b_octets : octets (s_transport s);
  b_channel : forall ch, s_channel s = Some ch -> okc ch;
  b_count : 0 <= s_auth_failures s <= s_auth_requests s;
  b_caps : caps_ok s
}.

Definition base_but_caps s : Prop :=
  tinv (s_transport s) /\ octets (s_transport s) /\
  (forall ch, s_channel s = Some ch -> okc ch) /\
  0 <= s_auth_failures s <= s_auth_requests s.

Lemma base_weaken s : base s -> base_but_caps s.
Proof. intros [B1 B2 B3 B4 B5]. exact (conj B1 (conj B2 (conj B3 B4))). Qed.

Definition sinv s : Prop := base s /\ gate_ok s.

Lemma sends_octets t t' : sends t t' -> octets t -> octets t'.
Proof. intros [E _]. unfold session_view in E. unfold octets. injection E. clear E.
  intros. by repeat match goal with H : _ t' = _ |- _ => rewrite H end. Qed.

Lemma base_sent s t : base s -> tinv t -> sends (s_transport s) t -> base (s <| s_transport := t |>).
Proof.
  intros [B1 B2 B3 B4 B5] Ht Hs. constructor; try done; [by eapply sends_octets|].
  unfold caps_ok in *. cbn. intros Hc. apply B5. destruct Hs as [_ Hs].
  destruct (t_closing (s_transport s)); [|done]. rewrite Hs in Hc by done. done.
Qed.

Lemma on_transport_wp {V} (m : M SshError Transport V) s Q :
  stays sends m -> (forall t, tinv t -> wp m (fun _ => tinv) (fun _ _ => True) t) -> base s ->
  (forall a t, base (s <| s_transport := t |>) -> sends (s_transport s) t -> Q a (s <| s_transport := t |>)) ->
  wp (on_transport m) Q any s.
Proof.
  intros Hm Hw B HQ. apply wp_zoom.
  eapply wp_mono; [exact (wp_stays sends m _ _ _ Hm (Hw _ (b_t _ B)))| |done]. cbv beta.
  intros a t [Ht Hs]. apply HQ; [by apply base_sent|done].
Qed.

Lemma send_wp p s (Q : unit -> ServerConnection H -> Prop) :
  base s ->
  (forall t, base (s <| s_transport := t |>) -> sends (s_transport s) t -> Q tt (s <| s_transport := t |>)) ->
  wp (send_packet p) Q any s.
Proof.
  intros B HQ. apply on_transport_wp; [apply sends_send_packet| |done|intros []; apply HQ].
  intros t Ht. by eapply wp_mono; [apply send_packet_wp, Ht| |].
Qed.

(** Sending several packets is no different. *)
Lemma send_all_wp l s (Q : unit -> ServerConnection H -> Prop) :
  base s ->
  (forall t, base (s <| s_transport := t |>) -> sends (s_transport s) t -> Q tt (s <| s_transport := t |>)) ->
  wp (mfor l send_packet) Q any s.
Proof.
  revert s. induction l as [|p l IH]; intros s B HQ; cbn [mfor].
  - apply wp_ret. specialize (HQ (s_transport s)). destruct s. apply HQ; [done|reflexivity].
  - apply wp_bind, send_wp; [done|]. intros t Bt St. apply IH; [done|].
    intros t2 B2 S2. apply (HQ t2); [exact B2|]. by etransitivity.
Qed.

(** Disconnecting restores the caps: a closing connection has none. *)
Lemma disconnect_wp_s r d s (Q : unit -> ServerConnection H -> Prop) :
  base_but_caps s ->
  (forall t, base (s <| s_transport := t |>) -> sends (s_transport s) t -> t_closing t = true ->
     Q tt (s <| s_transport := t |>)) ->
  wp (disconnect r d) Q any s.
Proof.
  intros (Hi & Ho & Hch & Hn) HQ. apply wp_zoom.
  pose proof (disconnect_closes r d (s_transport s)) as Hc.
  pose proof (wp_stays sends _ _ _ _ (sends_disconnect r d) (disconnect_wp _ r d _ Hi)) as Hw.
  unfold wp in *. destruct (Transport.disconnect r d (s_transport s)) as [[[]|e| |] t]; try done.
  cbn in Hc, Hw. destruct Hw as [Ht Hs]. specialize (Hc eq_refl).
  apply HQ; [|done..]. constructor; try done; [by eapply sends_octets|].
  unfold caps_ok. cbn. by rewrite Hc.
Qed.

Lemma parse_wp {V} (p : RM V) payload (P : V -> Prop) (Q : V -> ServerConnection H -> Prop) s :
  wp p (fun a _ => P a) (fun _ _ => True) (Reader.new payload) -> (forall a, P a -> Q a s) ->
  wp (parse p payload) Q any s.
Proof.
  intros Hp HQ. unfold parse, run, lift, wp in *. destruct (p (Reader.new payload)) as [[a|e| |] r];
    cbn; auto.
Qed.

Lemma local_wp {V} (p : RM V) r (P : V -> Prop) (Q : V * Reader -> ServerConnection H -> Prop) s :
  wp p (fun a r' => P a /\ is_bytes (buf r')) (fun _ _ => True) r ->
  (forall a r', P a -> is_bytes (buf r') -> Q (a, r') s) ->
  wp (on_local p r) Q any s.
Proof.
  intros Hp HQ. apply wp_on_local. eapply wp_mono; [exact Hp| |done]. intros a r' []. by apply HQ.
Qed.

(** Fields outside the transport that the invariant does not constrain, or constrains
    pointwise. *)
Lemma base_channel s c :
  base s -> (forall ch, c = Some ch -> okc ch) -> base (s <| s_channel := c |>).
Proof. intros [] Hc. by constructor. Qed.
Lemma base_program s b : base s -> base (s <| s_program_started := b |>).
Proof. intros []. by constructor. Qed.
Lemma base_pending s b : base s -> base (s <| s_pending_reply := b |>).
Proof. intros []. by constructor. Qed.
Lemma base_events s u : base s -> base (s <| s_events ::= u |>).
Proof. intros []. by constructor. Qed.
Lemma base_auth s u : base s -> base (s <| s_authenticated := u |>).
Proof. intros []. by constructor. Qed.
Lemma base_banner s b : base s -> base (s <| s_banner_sent := b |>).
Proof. intros []. by constructor. Qed.

(** ** Flushing *)

Lemma flush_wp s (Q : unit -> ServerConnection H -> Prop) :
  base s ->
  (forall t c, base (s <| s_transport := t |> <| s_channel := c |>) ->
     (s_channel s = None -> c = None) -> sends (s_transport s) t ->
     Q tt (s <| s_transport := t |> <| s_channel := c |>)) ->
  wp flush_channel Q any s.
Proof.
  intros Hb HQ. unfold flush_channel. do 2 wp_step.
  destruct (s_channel s) as [ch|] eqn:Hch.
  2:{ apply wp_ret. specialize (HQ (s_transport s) (s_channel s)). rewrite Hch in HQ.
      destruct s; cbn in *; subst. apply HQ; [done|done|reflexivity]. }
  pose proof (b_channel _ Hb _ Hch) as Hok. pose proof Hok as (H1 & _ & H3'). pose proof (held_fits _ H3') as H3.
  destruct (drain_output_ok (max_chunk (Transport.obfuscation (s_transport s))) ch H1 H3)
    as (l & ch' & Hd & Hdr).
  apply wp_bind, wp_zoom. unfold wp at 1. rewrite Hd.
  pose proof (drained_chan_ok _ _ _ _ _ Hok Hdr) as Hok'.
  apply wp_bind, send_all_wp; [by apply base_channel; [|intros ? [= <-]]|].
  intros t1 B1 S1. apply wp_bind.
  apply (wp_mono _ (fun _ s2 => exists t2, s2 = s <| s_channel := Some ch' |> <| s_transport := t2 |> /\
    base s2 /\ sends (s_transport s) t2) _ any); [| |done].
  { apply wp_when; intros _; [|by exists t1].
    apply on_transport_wp; [apply sends_send_chaff_burst| |done|].
    - intros t Ht. eapply wp_mono; [by apply send_chaff_burst_wp|done|done].
    - intros [] t2 B2 S2. exists t2. split; [reflexivity|]. split; [exact B2|]. by etransitivity. }
  cbv beta. intros ? s2 (t2 & -> & B2 & S2). do 2 wp_step.
  change (s_channel (set s_transport _ _)) with (Some ch'). cbv beta iota.
  apply wp_if; intros Hcl; [|by apply (HQ t2 (Some ch'))].
  do 2 wp_step. set (ch'' := set ch_sent_close _ _).
  assert (Hok'' : okc ch'') by exact Hok'.
  apply wp_bind, send_wp; [by apply base_channel; [|intros ? [= <-]]|]. intros t3 B3 S3.
  apply wp_bind, send_wp; [exact B3|]. intros t4 B4 S4. apply send_wp; [exact B4|]. intros t5 B5 S5.
  apply (HQ t5 (Some ch'')); [exact B5|done|].
  etransitivity; [exact S2|]. etransitivity; [exact S3|]. by etransitivity; [exact S4|].
Qed.

(** ** Authentication *)

(** Counting a request or a failure, and a callback of the policy. *)
Lemma handler_wp {V} (f : H -> V * H) s (Q : V -> ServerConnection H -> Prop) :
  base s ->
  max_auth_attempts (snd (f (s_handler s))) = max_auth_attempts (s_handler s) ->
  max_auth_requests (snd (f (s_handler s))) = max_auth_requests (s_handler s) ->
  (forall a h, f (s_handler s) = (a, h) -> base (s <| s_handler := h |>) -> Q a (s <| s_handler := h |>)) ->
  wp (on_handler f) Q any s.
Proof.
  intros Hb H1 H2 HQ. unfold wp, on_handler. destruct (f (s_handler s)) as [a h]. cbn in H1, H2.
  apply HQ; [done|]. destruct Hb as [B1 B2 B3 B4 B5]. constructor; try done.
  unfold caps_ok in *. cbn. by rewrite H1, H2.
Qed.

(** What an authentication step may leave: still unauthenticated with the gate closed, or
    authenticated. *)
Definition authing s : Prop := base s /\ gate_ok s.

Lemma gate_same s s' :
  s_authenticated s' = s_authenticated s -> s_channel s' = s_channel s ->
  s_program_started s' = s_program_started s -> s_pending_reply s' = s_pending_reply s ->
  (exists l, s_events s' = s_events s ++ l /\ Forall before_auth l) -> gate_ok s -> gate_ok s'.
Proof.
  unfold gate_ok. intros -> -> -> -> (l & -> & Hl) Hg Ha. destruct (Hg Ha) as (?&?&?&?).
  split_and!; try done. by apply Forall_app.
Qed.

Lemma gate_transport s t : gate_ok s -> gate_ok (s <| s_transport := t |>).
Proof. done. Qed.
Lemma gate_handler s h : gate_ok s -> gate_ok (s <| s_handler := h |>).
Proof. done. Qed.

Lemma gate_event s e :
  before_auth e -> gate_ok s -> gate_ok (s <| s_events ::= fun q => q ++ [e] |>).
Proof. intros He. apply gate_same; try done. exists [e]. split; [done|by constructor]. Qed.

Lemma send_failure_wp s :
  base s -> gate_ok s -> s_auth_failures s < s_auth_requests s -> s_auth_requests s <= U32_MAX ->
  wp send_failure (fun _ => sinv) any s.
Proof.
  intros Hb Hg Hf Hr. unfold send_failure. do 2 wp_step.
  pose proof (b_count _ Hb) as Hc. apply wp_bind, wp_checked; [lia|]. cbv beta. do 3 wp_step.
  - apply wp_bind, disconnect_wp_s.
    { destruct Hb as [B1 B2 B3 B4 B5]. split_and!; try done; cbn; lia. }
    intros t Bt St Ht. apply wp_modify. split; [by apply base_events|by apply gate_event].
  - apply send_wp; [|intros t Bt St; split; [exact Bt|exact Hg]].
    destruct Hb as [B1 B2 B3 B4 B5]. constructor; try done; [cbn; lia|].
    unfold caps_ok in *. cbn. intros Hx. specialize (B5 Hx). lia.
Qed.

Lemma finish_auth_wp u g s :
  base s -> gate_ok s -> s_auth_failures s < s_auth_requests s -> s_auth_requests s <= U32_MAX ->
  wp (finish_auth u g) (fun _ => sinv) any s.
Proof.
  intros Hb Hg Hf Hr. unfold finish_auth. destruct g; [|by apply send_failure_wp].
  apply wp_bind, send_wp; [done|]. intros t Bt _. do 2 wp_step. apply wp_modify.
  split; [by apply base_events, base_auth|done].
Qed.

Lemma parse_blob_returns b :
  (exists k, UserPublicKey.parse_blob b = Ok k) \/ (exists e, UserPublicKey.parse_blob b = Err e).
Proof. apply (total_run UserPublicKey.parse_blob_r). unfold UserPublicKey.parse_blob_r. total. Qed.

Lemma handle_publickey_wp req a b sig s :
  base s -> gate_ok s -> s_auth_failures s < s_auth_requests s -> s_auth_requests s <= U32_MAX ->
  wp (handle_publickey req a b sig) (fun _ => sinv) any s.
Proof.
  intros Hb Hg Hf Hr. unfold handle_publickey.
  destruct (parse_blob_returns b) as [[k ->]|[e ->]]; [|by apply send_failure_wp].
  apply wp_bind, handler_wp; [done|apply caps_key..|]. intros g h _ Bh.
  apply wp_if; intros _; [by apply send_failure_wp|]. destruct sig as [sig|].
  - do 2 wp_step. apply wp_bind, wp_ok_or; [|done]. intros sid _. by apply finish_auth_wp.
  - apply send_wp; [done|]. intros t Bt _. by split.
Qed.

Lemma auth_request_returns p :
  (exists q, AuthRequest.parse p = Ok q) \/ (exists e, AuthRequest.parse p = Err e).
Proof.
  apply (total_run AuthRequest.parse_r). unfold AuthRequest.parse_r, AuthRequest.parse_method. total.
Qed.

Lemma handle_userauth_wp p s :
  base s -> gate_ok s -> s_auth_requests s < U32_MAX ->
  wp (handle_userauth p) (fun _ => sinv) any s.
Proof.
  intros Hb Hg Hr. unfold handle_userauth. do 2 wp_step. pose proof (b_count _ Hb) as Hc.
  apply wp_bind, wp_checked; [lia|]. cbv beta. do 2 wp_step.
  set (s1 := set s_auth_requests _ _). apply wp_if; intros Hcap.
  - apply wp_bind, disconnect_wp_s.
    { destruct Hb as [B1 B2 B3 B4 B5]. split_and!; try done; cbn; lia. }
    intros t Bt _ _. apply wp_modify. split; [by apply base_events|by apply gate_event].
  - assert (B1 : base s1).
    { destruct Hb as [B1 B2 B3 B4 B5]. constructor; try done; [cbn; lia|].
      unfold caps_ok in *. cbn. intros Hx. specialize (B5 Hx). lia. }
    assert (Hf : s_auth_failures s1 < s_auth_requests s1) by (cbn; lia).
    assert (Hr1 : s_auth_requests s1 <= U32_MAX) by (cbn; lia).
    assert (Hg1 : gate_ok s1) by done. clearbody s1. clear s Hb Hg Hr Hc Hcap.
    apply wp_bind, wp_lift. destruct (auth_request_returns p) as [[q ->]|[e ->]]; [|done].
    destruct (ar_method q).
    + apply wp_bind, handler_wp; [done|apply caps_none..|]. intros g h _ Bh. by apply finish_auth_wp.
    + apply wp_bind, handler_wp; [done|apply caps_password..|]. intros g h _ Bh.
      by apply finish_auth_wp.
    + by apply handle_publickey_wp.
    + by apply finish_auth_wp.
Qed.

Lemma handle_service_request_wp p s :
  base s -> gate_ok s -> wp (handle_service_request p) (fun _ => sinv) any s.
Proof.
  intros Hb Hg. unfold handle_service_request.
  apply wp_bind, (parse_wp _ _ (fun _ => True)).
  { eapply wp_mono; [|by intros ? ? _|done]. instantiate (1 := fun _ _ => True).
    apply total_bind; [|intros ?]; total. }
  intros v _. apply wp_if; intros _.
  - apply disconnect_wp_s; [by apply base_weaken|]. intros t Bt _ _. exact (conj Bt Hg).
  - apply wp_bind, send_wp; [done|]. intros t Bt _. do 2 wp_step. apply wp_if; intros _; [|by split].
    do 2 wp_step. apply wp_bind, handler_wp; [by apply base_banner|apply caps_banner..|].
    intros [b|] h _ Bh; [|by split]. apply send_wp; [done|]. intros t2 B2 _. by split.
Qed.

Lemma handle_preauth_wp p s :
  base s -> gate_ok s -> s_auth_requests s < U32_MAX ->
  wp (handle_preauth p) (fun _ => sinv) any s.
Proof.
  intros Hb Hg Hr. unfold handle_preauth. destruct p as [|id p]; [by split|].
  wp_step; [by apply handle_service_request_wp|]. wp_step; [by apply handle_userauth_wp|by split].
Qed.

(** ** The connection protocol *)
Abbreviation is_base := (fun (_ : unit) => base).

Lemma push_wp e s : base s -> wp (push e) is_base any s.
Proof. intros Hb. apply wp_modify. by apply base_events. Qed.

Lemma send_base p s : base s -> wp (send_packet p) is_base any s.
Proof. intros Hb. by apply send_wp. Qed.

Lemma reply_wp b s : base s -> wp (reply b) is_base any s.
Proof. intros Hb. unfold reply. do 2 wp_step. by apply send_base. Qed.

Lemma when_reply_wp w b s : base s -> wp (when w (reply b)) is_base any s.
Proof. intros Hb. apply wp_when; intros _; [by apply reply_wp|done]. Qed.

Lemma flush_base s : base s -> wp flush_channel is_base any s.
Proof. intros Hb. by apply flush_wp. Qed.

Lemma some_chan_ok ch ch' : okc ch' -> Some ch' = Some ch -> okc ch.
Proof. by intros Hc [= <-]. Qed.

Lemma opened_ok sender window mp :
  is_u32 window -> is_u32 mp ->
  okc (Channel.set_remote sender window mp (Channel.new LOCAL_CHANNEL)).
Proof.
  intros Hw Hm. split; [by apply set_remote_ok, new_ok|]. split; [done|]. cbn.
  unfold held, out_bound in *. cbn. destruct HB. lia.
Qed.

Lemma handle_channel_open_wp p s :
  is_bytes p -> base s -> wp (handle_channel_open p) is_base any s.
Proof.
  intros Hp Hb. unfold handle_channel_open.
  apply wp_bind, (parse_wp _ _ (fun '(_, _, w, m) => is_u32 w /\ is_u32 m)).
  { unfold Reader.new. octet_read; (exact Hp || done). }
  intros [[[ty sender] window] mp] [Hw Hm].
  apply wp_if; intros _; [by apply send_base|]. do 2 wp_step.
  apply wp_if; intros _; [by apply send_base|]. apply wp_if; intros _; [by apply send_base|].
  do 4 wp_step. apply send_base, base_program, base_channel; [done|].
  intros ch. by apply some_chan_ok, opened_ok.
Qed.

Lemma program_wp w e s :
  base s -> wp (s_pending_reply <-! w ;;; s_program_started <-! true ;;; push e) is_base any s.
Proof. intros Hb. do 4 wp_step. by apply push_wp, base_program, base_pending. Qed.

Lemma update_pty_ok cols rows wp_ hp ch :
  okc ch -> okc (snd (Channel.update_pty_size cols rows wp_ hp ch)).
Proof. unfold Channel.update_pty_size. by destruct (ch_pty ch). Qed.

Lemma dispatch_request_wp req w r s :
  is_bytes (buf r) -> base s -> wp (dispatch_request req w r) is_base any s.
Proof.
  intros Hr Hb. unfold dispatch_request, session_request.
  repeat lazymatch goal with |- wp (if _ then _ else _) _ _ _ => apply wp_if; intros _ end.
  - apply wp_bind, (local_wp _ _ (fun _ => True)); [octet_read; done|]. intros c r' _ _.
    by apply program_wp.
  - by apply program_wp.
  - apply wp_bind, (local_wp _ _ (fun _ => True)); [octet_read; done|]. intros c r' _ _.
    by apply program_wp.
  - by apply when_reply_wp.
  - apply wp_bind, (local_wp _ _ (fun _ => True)); [octet_read; done|]. intros pty r' _ _.
    do 2 wp_step. apply wp_bind. eapply (wp_mono _ is_base _ any); [| |done].
    + apply wp_when; intros _; [|done]. destruct (s_channel s) as [ch|] eqn:Hch; [|done].
      wp_step. apply base_channel; [done|]. intros ch'. apply some_chan_ok.
      exact (b_channel _ Hb _ Hch).
    + cbv beta. intros ? s1 B1. by apply when_reply_wp.
  - apply wp_bind, (local_wp _ _ (fun _ => True)); [octet_read; done|].
    intros [[[cols rows] wpx] hpx] r' _ _. do 2 wp_step. apply wp_bind.
    eapply (wp_mono _ (fun (_ : bool) => base) _ any); [| |done].
    + destruct (s_channel s) as [ch|] eqn:Hch; [|done].
      pose proof (update_pty_ok cols rows wpx hpx ch (b_channel _ Hb _ Hch)) as Hok.
      destruct (Channel.update_pty_size cols rows wpx hpx ch) as [b ch']. do 2 wp_step.
      apply base_channel; [done|]. intros ch2. by apply some_chan_ok.
    + cbv beta. intros b s1 B1. apply wp_bind. eapply (wp_mono _ is_base _ any); [| |done].
      * apply wp_when; intros _; [by apply push_wp|done].
      * cbv beta. intros ? s2 B2. by apply when_reply_wp.
  - by apply when_reply_wp.
Qed.

Lemma handle_channel_request_wp p s :
  is_bytes p -> base s -> wp (handle_channel_request p) is_base any s.
Proof.
  intros Hp Hb. unfold handle_channel_request.
  apply wp_bind, (local_wp _ _ (fun _ => True)).
  { unfold Reader.new. octet_read; (exact Hp || done). }
  intros [req w] r _ Hr. do 2 wp_step. apply wp_if; intros _; [by apply when_reply_wp|].
  by apply dispatch_request_wp.
Qed.

Lemma consume_ok n ch :
  0 <= n -> okc ch -> okc (snd (Channel.consume_incoming n ch)).
Proof.
  intros Hn (H1 & H2 & H3). split; [by apply consume_incoming_ok|].
  unfold Channel.consume_incoming. by destruct (_ <? _).
Qed.

Lemma as_u32_nonneg v : 0 <= as_u32 v.
Proof. apply is_u32_as_u32. Qed.

Lemma handle_channel_data_wp p s :
  is_bytes p -> base s -> wp (handle_channel_data p) is_base any s.
Proof.
  intros Hp Hb. unfold handle_channel_data.
  apply wp_bind, (parse_wp _ _ (fun _ => True)).
  { unfold Reader.new. octet_read; (exact Hp || done). }
  intros data _. do 2 wp_step. apply wp_bind.
  eapply (wp_mono _ (fun (_ : bool) => base) _ any); [| |done].
  - destruct (s_channel s) as [ch|] eqn:Hch; [|done].
    pose proof (consume_ok (as_u32 (len data)) ch (as_u32_nonneg _) (b_channel _ Hb _ Hch)) as Hok.
    destruct (Channel.consume_incoming _ ch) as [b ch']. do 2 wp_step.
    apply base_channel; [done|]. intros ch2. by apply some_chan_ok.
  - cbv beta. intros b s1 B1. apply wp_if; intros _; [|by apply push_wp].
    apply disconnect_wp_s; [by apply base_weaken|]. by intros.
Qed.

Lemma handle_window_adjust_wp p s :
  is_bytes p -> base s -> wp (handle_window_adjust p) is_base any s.
Proof.
  intros Hp Hb. unfold handle_window_adjust. apply wp_bind, (parse_wp _ _ is_u32).
  { unfold Reader.new. octet_read; (exact Hp || done). }
  intros add Ha. do 2 wp_step. apply wp_bind. eapply (wp_mono _ is_base _ any); [| |done].
  - destruct (s_channel s) as [ch|] eqn:Hch; [|done]. wp_step.
    destruct (b_channel _ Hb _ Hch) as (H1 & H2 & H3).
    apply base_channel; [done|]. intros ch2. apply some_chan_ok. split; [|done].
    apply add_remote_window_ok; [|done]. by destruct Ha.
  - cbv beta. intros ? s1 B1. by apply flush_base.
Qed.

Lemma handle_channel_close_wp s : base s -> wp handle_channel_close is_base any s.
Proof.
  intros Hb. unfold handle_channel_close. do 3 wp_step.
  eapply (wp_mono _ is_base _ any); [| |done].
  - destruct (s_channel s) as [ch|] eqn:Hch; [|done]. pose proof (b_channel _ Hb _ Hch) as Hok.
    apply wp_if; intros _; [do 2 wp_step; apply send_base|wp_step];
      (apply base_channel; [done|]; intros ch2; by apply some_chan_ok).
  - cbv beta. intros ? s1 B1. do 4 wp_step. by apply push_wp, base_program, base_channel.
Qed.

Lemma handle_connection_wp p s :
  is_bytes p -> base s -> wp (handle_connection p) is_base any s.
Proof.
  intros Hp Hb. unfold handle_connection. destruct p as [|id p]; [done|].
  repeat lazymatch goal with |- wp (if _ then _ else _) _ _ _ => apply wp_if; intros _ end.
  - by apply handle_channel_open_wp.
  - by apply handle_channel_request_wp.
  - by apply handle_channel_data_wp.
  - by apply handle_window_adjust_wp.
  - by apply push_wp.
  - by apply handle_channel_close_wp.
  - done.
Qed.

(** ** Events *)

Lemma quiet_events s s' : quiet s s' -> t_events (s_transport s') = t_events (s_transport s).
Proof. unfold quiet, sends, session_view. intros [E _]. by injection E. Qed.

Lemma handle_event_wp e s :
  sinv s -> event_octets e -> s_auth_requests s < U32_MAX ->
  wp (handle_event e)
    (fun _ s' => sinv s' /\ t_events (s_transport s') = t_events (s_transport s) /\
                 s_auth_requests s' <= s_auth_requests s + 1) any s.
Proof.
  intros [Hb Hg] He Hr.
  enough (Hw : wp (handle_event e) (fun _ s' => sinv s' /\ s_auth_requests s' <= s_auth_requests s + 1) any s).
  { eapply wp_mono; [exact (wp_stays quiet _ _ _ _ (quiet_event e) Hw)| |done].
    cbv beta. intros ? s' [[Hs Hc] Hq]. auto using quiet_events. }
  unfold handle_event. destruct e as [k| |p|r d].
  - split; [by split|lia].
  - split; [by split|lia].
  - do 2 wp_step. unfold is_authenticated. case_bool_decide as Ha.
    + eapply wp_mono; [exact (wp_stays _ _ _ _ _ (auth_view_connection p) (handle_connection_wp p s He Hb))| |done].
      cbv beta. intros ? s' [Hb' E]. unfold same, auth_view in E. injection E as E1 E2 _ _.
      split; [|lia]. split; [exact Hb'|]. intros Hn. rewrite E1 in Hn. rewrite Hn in Ha. by destruct Ha.
    + pose proof (requests_preauth p s) as Hn. pose proof (handle_preauth_wp p s Hb Hg Hr) as Hw.
      unfold wp in *. by destruct (handle_preauth p s) as [[]].
  - apply wp_modify. split; [|cbn; lia]. split; [by apply base_events|by apply gate_event].
Qed.

Lemma base_poll s q e :
  base s -> t_events (s_transport s) = e :: q ->
  base (s <| s_transport := (s_transport s) <| t_events := q |> |>) /\ event_octets e.
Proof.
  intros [B1 [O1 O2] B3 B4 B5] He. rewrite He in O2. apply List.Forall_cons_iff in O2 as [O2 O3].
  split; [|exact O2]. constructor; try done. destruct B1. by constructor.
Qed.

Lemma pump_loop_wp fuel s :
  sinv s -> (length (t_events (s_transport s)) <= fuel)%nat ->
  s_auth_requests s + len (t_events (s_transport s)) <= U32_MAX ->
  wp (pump_loop fuel) (fun _ => sinv) any s.
Proof.
  revert s. induction fuel as [|fuel IH]; intros s Hs Hf Hr; cbn [pump_loop]; apply wp_bind;
    unfold on_transport; apply wp_zoom; unfold Transport.poll_event; do 2 wp_step;
    destruct (t_events (s_transport s)) as [|e q] eqn:He; cbn in Hf.
  1, 3: apply wp_ret, wp_ret; by destruct s.
  - lia.
  - destruct Hs as [Hb Hg]. destruct (base_poll s q e Hb He) as [Hb' Heo].
    do 3 wp_step. rewrite len_cons in Hr. pose proof (len_nonneg q). apply wp_bind.
    set (s1 := set s_transport _ _).
    eapply wp_mono; [apply (handle_event_wp e s1); [by split|done|cbn; lia]| |done].
    cbv beta. intros ? s2 (Hs2 & He2 & Hr2). change (t_events (s_transport s1)) with q in He2.
    change (s_auth_requests s1) with (s_auth_requests s) in Hr2.
    apply IH; [done|rewrite He2; lia|rewrite He2; lia].
Qed.

Lemma pump_wp s :
  sinv s -> s_auth_requests s + len (t_events (s_transport s)) <= U32_MAX ->
  wp pump (fun _ => sinv) any s.
Proof. intros Hs Hr. by apply (pump_loop_wp (length (t_events (s_transport s)))). Qed.

(** The state in which the events of an input are handled. *)
Definition received (data : bytes) s : ServerConnection H :=
  s <| s_transport := snd (Transport.on_input data (s_transport s)) |>.

Lemma on_input_wp_s data s :
  sinv s -> is_bytes data ->
  s_auth_requests s + len (t_events (s_transport (received data s))) <= U32_MAX ->
  wp (on_input data) (fun _ => sinv) any s.
Proof.
  intros [Hb Hg] Hd Hr. unfold on_input. apply wp_bind, wp_zoom.
  pose proof (on_input_wp data _ (b_t _ Hb)) as Hw.
  pose proof (octets_on_input data _ Hd (b_octets _ Hb)) as Ho.
  assert (Hc : t_closing (s_transport s) = true ->
    t_closing (snd (Transport.on_input data (s_transport s))) = true).
  { intros Hc. unfold Transport.on_input, bind, get. by rewrite Hc. }
  unfold received in Hr. unfold wp in Hw |- * at 1.
  destruct (Transport.on_input data (s_transport s)) as [[[]|e| |] t]; try done. cbn in *.
  apply pump_wp; [|exact Hr]. split; [|exact Hg].
  destruct Hb as [B1 B2 B3 B4 B5]. constructor; try done.
  unfold caps_ok in *. cbn. intros Hn. apply B5. destruct (t_closing (s_transport s)); [|done].
  by rewrite Hc in Hn.
Qed.

(** ** The driver's calls *)

Lemma channel_for_ok channel s ch : base s -> channel_for channel s = Some ch -> okc ch.
Proof.
  intros Hb. unfold channel_for. destruct (s_channel s) as [c|] eqn:Hc; [|done].
  case_match; intros; simplify_eq. by apply (b_channel _ Hb).
Qed.

Lemma channel_for_gate channel s ch :
  gate_ok s -> channel_for channel s = Some ch -> is_Some (s_authenticated s).
Proof.
  intros Hg. unfold channel_for. destruct (s_authenticated s) eqn:Ha; [by eauto|].
  destruct (Hg Ha) as (-> & _). done.
Qed.

Lemma gate_authenticated s : is_Some (s_authenticated s) -> gate_ok s.
Proof. intros [u Hu] Hn. congruence. Qed.

Lemma queued_app q1 q2 : queued (q1 ++ q2) = queued q1 + queued q2.
Proof. rewrite <- !len_stream. unfold stream. by rewrite flat_map_app, len_app. Qed.

Lemma enqueue_chan_ok (err : bool) data ch :
  okc ch -> held ch + len data <= bd ->
  okc (if err then Channel.enqueue_stderr data ch else Channel.enqueue_stdout data ch).
Proof.
  intros (H1 & H2 & H3) Hl. split; [by apply enqueue_ok|].
  pose proof (len_nonneg data).
  assert (Hq : forall b, queued (ch_out ch ++ [mkOutItem b data 0]) = queued (ch_out ch) + len data).
  { intros b. rewrite queued_app. cbn [queued fold_right].
    change (item_rest (mkOutItem b data 0)) with data. lia. }
  unfold Channel.enqueue_stderr, Channel.enqueue_stdout.
  destruct err, (len data =? 0); unfold held in *; cbn; rewrite ?Hq; split; (done || lia).
Qed.

Lemma update_flush_wp channel (f : Channel -> Channel) s :
  sinv s -> (forall ch, channel_for channel s = Some ch -> okc ch -> okc (f ch)) ->
  wp (let* s := get in
      (match channel_for channel s with
       | Some ch => s_channel <-! Some (f ch)
       | None => ret tt
       end) ;;;
      flush_channel) (fun _ => sinv) any s.
Proof.
  intros [Hb Hg] Hf. do 3 wp_step.
  eapply (wp_mono _ (fun _ => sinv) _ any); [| |done].
  - destruct (channel_for channel s) as [ch|] eqn:Hc; [|by split]. wp_step.
    pose proof (channel_for_ok _ _ _ Hb Hc) as Hok.
    split; [|apply gate_authenticated; exact (channel_for_gate _ _ _ Hg Hc)].
    apply base_channel; [done|]. intros ch2. apply some_chan_ok. by apply Hf.
  - cbv beta. intros ? s1 [B1 G1]. apply flush_wp; [done|]. intros t c B2 Hn S2. split; [exact B2|].
    intros Ha. destruct (G1 Ha) as (G2 & G3). split; [by apply Hn|exact G3].
Qed.
End Inv.
Create HintDb server.
#[export] Hint Resolve base_channel base_program base_pending base_events base_auth base_banner : server.
