(* ===== verification/ServerSteps.v ===== *)
(** The interface of the server session as a step relation, the states its calls can
    reach, and the invariant of [ServerInv] over them. *)
From S2P Require Import Prelude Errors Wire Packet Version Crypto Kex Algo Cipher Compress.
From S2P Require Import Connection Auth Transport TransportFrames TransportBytes TransportInv.
From S2P Require Import TransportSteps Server ServerInv.
Import ServerConnection.

(** * The interface as a step relation *)
Inductive s_op :=
| SOp_input (data : bytes)
| SOp_stdout (channel : Z) (data : bytes)
| SOp_stderr (channel : Z) (data : bytes)
| SOp_exit (channel status : Z)
| SOp_consumed (channel n : Z)
| SOp_take_flushed (channel : Z)
| SOp_accept (channel : Z)
| SOp_reject (channel : Z)
| SOp_send_raw (payload : bytes)
| SOp_clear_output
| SOp_poll
| SOp_rekey
| SOp_chaff
| SOp_set_allow_pty (b : bool)
| SOp_set_obfuscation (o : Obfuscation).

Section Steps.
Context `{C : Crypto} {H : Type} `{A : !ServerAuthHandler H}.
Implicit Types s : ServerConnection H.

Definition s_discard {V} (m : M SshError (ServerConnection H) V) : M SshError (ServerConnection H) unit :=
  let* _ := m in ret tt.

Definition s_run (o : s_op) : M SshError (ServerConnection H) unit :=
  match o with
  | SOp_input data => on_input data
  | SOp_stdout ch d => channel_stdout ch d
  | SOp_stderr ch d => channel_stderr ch d
  | SOp_exit ch n => channel_exit ch n
  | SOp_consumed ch n => channel_consumed ch n
  | SOp_take_flushed ch => s_discard (take_flushed_output ch)
  | SOp_accept ch => accept_channel ch
  | SOp_reject ch => reject_channel ch
  | SOp_send_raw p => send_raw_packet p
  | SOp_clear_output => clear_output
  | SOp_poll => s_discard poll_event
  | SOp_rekey => initiate_rekey
  | SOp_chaff => send_chaff
  | SOp_set_allow_pty b => set_allow_pty b
  | SOp_set_obfuscation o => set_obfuscation o
  end.

(** What a call needs: arguments of their types, and the two counters of the source that
    grow with the traffic (authentication requests, a [u32]; the output that the channel
    holds, a [u64] or a tighter bound) not at their limit. *)
Definition output_room (bd channel : Z) (data : bytes) s : Prop :=
  forall ch, channel_for channel s = Some ch -> held ch + len data <= bd.

Definition s_op_within (bd : Z) (o : s_op) s : Prop :=
  match o with
  | SOp_input data =>
      is_bytes data /\
      s_auth_requests s + len (t_events (s_transport (received data s))) <= U32_MAX
  | SOp_stdout ch d | SOp_stderr ch d => output_room bd ch d s
  | SOp_consumed _ n => 0 <= n
  | SOp_set_obfuscation o =>
      0 <= max_chaff_len o <= U16_MAX /\ 0 <= max_chaff_per_flush o <= U8_MAX
  | _ => True
  end.

Definition s_op_ok (o : s_op) s : Prop := s_op_within U64_MAX o s.

Definition sstep s s' : Prop := exists o, s_op_ok o s /\ s_run o s = (Ok tt, s').

Definition sreachable s : Prop :=
  exists rng hk h s0, new rng hk h = (Ok tt, s0) /\ steps sstep s0 s.
End Steps.

Section Safety.
Context `{C : Crypto} `{!CryptoOk C} `{!FlateOk C} `{!OctetsOk C}.
Context {H : Type} `{A : !ServerAuthHandler H} `{!SteadyCaps H}.
Implicit Types s : ServerConnection H.
Context (bd : Z) `{HB : !OutBound bd}.
Abbreviation sinv := (sinv bd).
Abbreviation any := (fun (_ : SshError) (_ : ServerConnection H) => True).

(** The transport's own calls. *)
Lemma transport_op_wp {V} (m : M SshError Transport V) s :
  stays sends m -> (forall t, tinv t -> wp m (fun _ => tinv) (fun _ _ => True) t) -> sinv s ->
  wp (on_transport m) (fun _ => sinv) any s.
Proof. intros Hm Hw [Hb Hg]. by apply (on_transport_wp bd). Qed.

(** A call that rewrites a field of the transport which the session does not look at. *)
Lemma transport_set_wp (u : Transport -> Transport) s :
  (forall t, tinv t -> tinv (u t)) -> (forall t, t_rx (u t) = t_rx t) ->
  (forall t, t_events (u t) = t_events t) -> (forall t, t_closing (u t) = t_closing t) ->
  sinv s -> wp (on_transport (modify u)) (fun _ => sinv) any s.
Proof.
  intros H1 H2 H3 H4 [[B1 [O1 O2] B3 B4 B5] Hg]. apply wp_zoom, wp_modify. split; [|exact Hg].
  constructor; try done; cbn; [by apply H1|by split; cbn; rewrite ?H2, ?H3|].
  unfold caps_ok in *. cbn. by rewrite H4.
Qed.

Lemma answer_wp b s : sinv s -> wp (answer_request b) (fun _ => sinv) any s.
Proof.
  intros [Hb Hg]. unfold answer_request. do 4 wp_step.
  assert (Hg' : gate_ok (s <| s_pending_reply := false |>)).
  { intros Ha. destruct (Hg Ha) as (? & ? & _ & ?). by split_and!. }
  apply wp_when; intros _; [|split; [by apply base_pending|exact Hg']].
  unfold reply. do 2 wp_step. apply (send_wp bd); [by apply base_pending|].
  intros t Bt _. exact (conj Bt Hg').
Qed.

Lemma s_run_wp o s : s_op_within bd o s -> sinv s -> wp (s_run o) (fun _ => sinv) any s.
Proof.
  intros Ho Hs. destruct o as [data|ch d|ch d|ch n|ch n|ch|ch|ch|p| | | | |b|o]; cbn [s_run s_op_within] in *.
  - destruct Ho as [Hd Hr]. by apply (on_input_wp_s bd).
  - apply (update_flush_wp bd); [done|]. intros c Hc Hok. apply (enqueue_chan_ok bd false); [done|by apply Ho].
  - apply (update_flush_wp bd); [done|]. intros c Hc Hok. apply (enqueue_chan_ok bd true); [done|by apply Ho].
  - apply (update_flush_wp bd); [done|]. done.
  - destruct Hs as [Hb Hg]. unfold channel_consumed. do 2 wp_step.
    destruct (channel_for ch s) as [c|] eqn:Hc; [|by split].
    pose proof (channel_for_ok _ _ _ _ Hb Hc) as (K1 & K2 & K3).
    pose proof (gate_authenticated _ (channel_for_gate _ _ _ Hg Hc)) as _.
    apply wp_bind, wp_zoom.
    assert (Hkeep : keeps (fun c => (ch_local_id c, ch_flushed_out c, ch_out c)) (Channel.ack_incoming n)).
    { unfold Channel.ack_incoming. keeps_auto. }
    eapply wp_mono; [exact (wp_stays _ _ _ _ _ Hkeep (ack_incoming_wp n c Ho K1))| |done].
    cbv beta. intros g c' [(K1' & _) E]. unfold same in E. injection E as E1 E2 E3.
    assert (Hs : sinv (s <| s_channel := Some c' |>)).
    { split; [|apply gate_authenticated; exact (channel_for_gate _ _ _ Hg Hc)].
      apply base_channel; [done|]. intros c2. apply some_chan_ok. split; [done|].
      unfold held in *. rewrite E1, E2, E3. by split. }
    destruct Hs as [Hb' Hg']. destruct g; [|by split]. by apply (send_wp bd).
  - destruct Hs as [Hb Hg]. unfold s_discard, take_flushed_output. apply wp_bind. do 2 wp_step.
    destruct (channel_for ch s) as [c|] eqn:Hc; [|by split].
    pose proof (channel_for_ok _ _ _ _ Hb Hc) as (K1 & K2 & K3). apply wp_zoom.
    unfold Channel.take_flushed_out. do 6 wp_step.
    split; [|apply gate_authenticated; exact (channel_for_gate _ _ _ Hg Hc)].
    apply base_channel; [done|]. intros c2. apply some_chan_ok.
    destruct K1 as (?&?&?&?&?&?&?). split; [by unfold channel_ok; split_and!|]. split; [done|].
    unfold held in K3. change (0 + queued (ch_out c) <= bd). lia.
  - by apply answer_wp.
  - by apply answer_wp.
  - destruct Hs as [Hb Hg]. by apply (send_wp bd).
  - by apply (transport_set_wp (fun t => t <| t_tx := [] |>)); try done; intros t []; constructor.
  - destruct Hs as [Hb Hg]. unfold s_discard, poll_event. apply wp_bind. do 2 wp_step.
    destruct (s_events s) as [|e q] eqn:He; [by split|]. do 3 wp_step. apply wp_ret.
    split; [by apply base_events|]. intros Ha. destruct (Hg Ha) as (? & ? & ? & Hf).
    split_and!; try done. cbn. rewrite He in Hf. by apply List.Forall_cons_iff in Hf as [_ Hf].
  - apply transport_op_wp; [apply sends_initiate_rekey| |done]. intros t Ht.
    by eapply wp_mono; [apply initiate_rekey_wp|..].
  - apply transport_op_wp; [apply sends_send_chaff| |done]. intros t Ht.
    by eapply wp_mono; [apply send_chaff_wp|..].
  - destruct Hs as [[] Hg]. apply wp_modify. by split; [constructor|].
  - by apply transport_set_wp; try done; intros t []; constructor.
Qed.
End Safety.

Section Invariant.
Context `{C : Crypto} `{!CryptoOk C} `{!FlateOk C} `{!OctetsOk C}.
Context {H : Type} `{A : !ServerAuthHandler H} `{!SteadyCaps H}.
Implicit Types s : ServerConnection H.
Abbreviation sinv := (sinv U64_MAX).

Lemma new_sinv rng hk h : exists s, new rng hk h = (Ok tt, s) /\ sinv s.
Proof.
  unfold new, Transport.new_server.
  destruct (start_tinv Server rng (Some hk) None None) as (t & Hs & Ht). rewrite Hs.
  eexists. split; [reflexivity|]. split; [|done].
  constructor; try done.
  - pose proof (octets_send_kexinit (Transport.initial Server rng (Some hk) None None)) as Ho.
    unfold Transport.start in Hs. rewrite Hs in Ho. apply Ho. split; constructor.
  - intros _. destruct (caps_requests h). cbn. split; [done|by left].
Qed.

Lemma sreachable_sinv s : sreachable s -> sinv s.
Proof.
  intros (rng & hk & h & s0 & Hn & Hst). destruct (new_sinv rng hk h) as (s1 & Hn1 & H1).
  assert (s1 = s0) as -> by congruence.
  eapply steps_invariant; [|exact Hst|exact H1].
  intros s1 s2 (o & Ho & Hr) Hi. pose proof (s_run_wp U64_MAX o s1 Ho Hi) as Hw. unfold wp in Hw.
  by rewrite Hr in Hw.
Qed.
End Invariant.
