(* ===== verification/Client.v ===== *)
(** The client session: [client.rs].  Trust in host keys and the choice of credentials are
    the interface [ClientAuthHandler]. *)
From S2P Require Import Prelude Errors Wire Packet Version Crypto Kex Algo Cipher Compress.
From S2P Require Import Connection Auth Transport.

Inductive AuthAttempt `{C : Crypto} :=
| Attempt_Password (password : bytes)
| Attempt_PublicKey (keypair : UserKeypair).

Class ClientAuthHandler `{C : Crypto} (H : Type) := {
  username : H -> bytes;
  verify_host_key : HostPublicKey -> H -> bool * H;
  next_auth : list bytes -> H -> option AuthAttempt * H
}.

Inductive ClientEvent :=
| CE_Banner (text : bytes)
| CE_Authenticated
| CE_AuthFailed (methods : list bytes)
| CE_HostKeyRejected
| CE_PtyGranted
| CE_PtyRefused
| CE_ChannelReady (channel : Z)
| CE_ChannelOpenFailure (reason : Z) (description : bytes)
| CE_Stdout (data : bytes)
| CE_Stderr (data : bytes)
| CE_ExitStatus (status : Z)
| CE_RequestFailed
| CE_ChannelClosed
| CE_Disconnect (reason : Z) (description : bytes).

(** [State], [PendingRequest], [PtyParams], [PendingReply]. *)
Inductive State := CS_Handshaking | CS_ExpectServiceAccept | CS_Authenticating | CS_Authenticated | CS_Done.
#[export] Instance State_eq_dec : EqDecision State.
Proof. solve_decision. Defined.
Inductive PendingRequest := Request_Exec (command : bytes) | Request_Shell.
Record PtyParams := mkPtyParams { pp_term : bytes; pp_cols : Z; pp_rows : Z }.
Inductive PendingReply := Reply_Pty | Reply_Session.

Definition CLIENT_LOCAL_CHANNEL : Z := 0.

Record ClientConnection `{C : Crypto} {H : Type} := mkClient {
  c_transport : Transport;
  c_handler : H;
  c_state : State;
  c_host_rejected : bool;
  c_channel : option Channel;
  c_pending : option PendingRequest;
  c_want_pty : option PtyParams;
  c_reply_queue : list PendingReply;
  c_events : list ClientEvent
}.
Arguments ClientConnection {C} H.

#[export] Instance eta_Client `{C : Crypto} {H} : Eta (ClientConnection H) := fun s =>
  mkClient C H (c_transport s) (c_handler s) (c_state s) (c_host_rejected s) (c_channel s)
    (c_pending s) (c_want_pty s) (c_reply_queue s) (c_events s).

Module ClientConnection.
Section ClientConnection.
Context `{C : Crypto} {H : Type} `{!ClientAuthHandler H}.
Abbreviation CM := (M SshError (ClientConnection H)).

Definition on_transport {A} (m : M SshError Transport A) : CM A :=
  zoom c_transport (fun t s => s <| c_transport := t |>) m.
Definition on_handler {A} (f : H -> A * H) : CM A :=
  fun s => let '(a, h) := f (c_handler s) in (Ok a, s <| c_handler := h |>).
Definition on_channel {A} (ch : Channel) (m : M SshError Channel A) : CM A :=
  zoom (fun _ => ch) (fun c s => s <| c_channel := Some c |>) m.
Definition send_packet (payload : bytes) : CM unit := on_transport (Transport.send_packet payload).
Definition disconnect (reason : Z) (description : bytes) : CM unit :=
  on_transport (Transport.disconnect reason description).
Definition push (e : ClientEvent) : CM unit := c_events <-~ (fun q => q ++ [e]).
Definition parse {A} (p : RM A) (payload : bytes) : CM A := lift (run p (Reader.new payload)).

(** [r.utf8().unwrap_or("")] after the fields that [p] reads. *)
Definition parse_with_text {A} (p : RM A) (payload : bytes) : CM (A * bytes) :=
  let* '(a, r) := on_local p (Reader.new payload) in
  ret (a, match run Reader.utf8 r with Ok text => text | _ => [] end).

Definition with_transport (start : outcome SshError unit * Transport) (handler : H)
  : outcome SshError unit * ClientConnection H :=
  let '(o, t) := start in
  (o, {| c_transport := t;
         c_handler := handler;
         c_state := CS_Handshaking;
         c_host_rejected := false;
         c_channel := None;
         c_pending := None;
         c_want_pty := None;
         c_reply_queue := [];
         c_events := [] |}).
Definition new (rng : Rng) (handler : H) := with_transport (Transport.new_client rng) handler.
Definition with_cipher_preference (rng : Rng) (handler : H) (ciphers : list bytes) :=
  with_transport (Transport.new_client_with_ciphers rng ciphers) handler.
Definition with_compression_preference (rng : Rng) (handler : H) (compression : list bytes) :=
  with_transport (Transport.new_client_with_compression rng compression) handler.

Definition negotiated_cipher (s : ClientConnection H) : option bytes :=
  Transport.negotiated_cipher (c_transport s).
Definition negotiated_compression (s : ClientConnection H) : option bytes :=
  Transport.negotiated_compression (c_transport s).
Definition is_compression_active (s : ClientConnection H) : bool :=
  Transport.is_compression_active (c_transport s).
Definition take_output : CM bytes := on_transport Transport.take_output.
Definition pending_output (s : ClientConnection H) : bytes := Transport.pending_output (c_transport s).
Definition clear_output : CM unit := on_transport Transport.clear_output.
Definition poll_event : CM (option ClientEvent) :=
  let* s := get in
  match c_events s with
  | [] => ret None
  | e :: q => c_events <-! q ;;; ret (Some e)
  end.
Definition is_authenticated (s : ClientConnection H) : bool :=
  bool_decide (c_state s = CS_Authenticated).
Definition is_closing (s : ClientConnection H) : bool := Transport.is_closing (c_transport s).
Definition send_raw_packet (payload : bytes) : CM unit := send_packet payload.
Definition session_id (s : ClientConnection H) : option bytes := Transport.session_id (c_transport s).
Definition initiate_rekey : CM unit := on_transport Transport.initiate_rekey.
Definition set_max_consecutive_rekeys (n : Z) : CM unit :=
  on_transport (Transport.set_max_consecutive_peer_rekeys n).
Definition set_obfuscation (o : Obfuscation) : CM unit :=
  on_transport (Transport.set_obfuscation o).
Definition send_chaff : CM unit := on_transport Transport.send_chaff.

Definition open_session (request : PendingRequest) : CM unit :=
  let* s := get in
  if negb (is_authenticated s) then err (Protocol "session open before authentication")
  else
    c_channel <-! Some (Channel.new CLIENT_LOCAL_CHANNEL) ;;;
    c_pending <-! Some request ;;;
    send_packet (channel_open_session CLIENT_LOCAL_CHANNEL).
Definition exec (command : bytes) : CM unit := open_session (Request_Exec command).
Definition shell : CM unit := open_session Request_Shell.
Definition request_pty (term : bytes) (cols rows : Z) : CM unit :=
  c_want_pty <-! Some (mkPtyParams term cols rows).
Definition window_change (cols rows : Z) : CM unit :=
  let* s := get in
  match c_channel s with
  | None => ret tt
  | Some ch => send_packet (channel_request_window_change (ch_remote_id ch) cols rows 0 0)
  end.

Definition flush_channel : CM unit :=
  let* s := get in
  match c_channel s with
  | None => ret tt
  | Some ch =>
      let max_chunk := max_chunk (Transport.obfuscation (c_transport s)) in
      let* messages := on_channel ch (Channel.drain_output max_chunk) in
      mfor messages send_packet ;;;
      when (negb (len messages =? 0)) (on_transport Transport.send_chaff_burst) ;;;
      let* s := get in
      match c_channel s with
      | None => ret tt
      | Some ch =>
          if Channel.out_is_empty ch && Channel.eof_requested ch && negb (ch_sent_eof ch) then
            c_channel <-! Some (ch <| ch_sent_eof := true |>) ;;;
            send_packet (channel_eof (ch_remote_id ch))
          else ret tt
      end
  end.

(** [if let Some(ch) = self.channel.as_mut() { f(ch) }] *)
Definition on_open_channel (f : Channel -> Channel) : CM unit :=
  let* s := get in
  match c_channel s with
  | Some ch => c_channel <-! Some (f ch)
  | None => ret tt
  end.

Definition write_stdin (data : bytes) : CM unit :=
  on_open_channel (Channel.enqueue_stdout data) ;;; flush_channel.
Definition send_eof : CM unit := on_open_channel Channel.request_eof ;;; flush_channel.

(** ** Packets *)

Definition try_next_auth (can_continue : list bytes) : CM unit :=
  let* s := get in
  let user := username (c_handler s) in
  let* attempt := on_handler (next_auth can_continue) in
  match attempt with
  | Some (Attempt_Password password) =>
      send_packet (password_request user SERVICE_CONNECTION password)
  | Some (Attempt_PublicKey keypair) =>
      let* s := get in
      let* session_id := ok_or (Transport.session_id (c_transport s)) (Protocol "no session id") in
      let blob := UserPublicKey.blob (UserKeypair.public keypair) in
      let signed := publickey_signed_data session_id user SERVICE_CONNECTION HOSTKEY_ED25519 blob in
      let signature := UserKeypair.sign keypair signed in
      send_packet (publickey_request user SERVICE_CONNECTION HOSTKEY_ED25519 blob (Some signature))
  | None =>
      push (CE_AuthFailed can_continue) ;;;
      c_state <-! CS_Done
  end.

Definition handle_open_confirmation (payload : bytes) : CM unit :=
  let* '(sender, window, max_packet) := parse
    (let* _ := Reader.u8 in
     let* _recipient := Reader.u32 in
     let* sender := Reader.u32 in
     let* window := Reader.u32 in
     let* max_packet := Reader.u32 in
     ret (sender, window, max_packet)) payload in
  let* s := get in
  match c_channel s with
  | None => ret tt
  | Some ch =>
      let ch := Channel.set_remote sender window max_packet ch in
      c_channel <-! Some ch ;;;
      let remote := ch_remote_id ch in
      push (CE_ChannelReady CLIENT_LOCAL_CHANNEL) ;;;
      let* s := get in
      (match c_want_pty s with
       | Some pty =>
           c_want_pty <-! None ;;;
           send_packet (channel_request_pty remote true
             (mkPtyInfo (pp_term pty) (pp_cols pty) (pp_rows pty) 0 0 [])) ;;;
           c_reply_queue <-~ (fun q => q ++ [Reply_Pty])
       | None => ret tt
       end) ;;;
      let* s := get in
      (match c_pending s with
       | Some (Request_Exec command) =>
           c_pending <-! None ;;;
           send_packet (channel_request_exec remote true command) ;;;
           c_reply_queue <-~ (fun q => q ++ [Reply_Session])
       | Some Request_Shell =>
           c_pending <-! None ;;;
           send_packet (channel_request_shell remote true) ;;;
           c_reply_queue <-~ (fun q => q ++ [Reply_Session])
       | None => ret tt
       end) ;;;
      flush_channel
  end.

Definition handle_open_failure (payload : bytes) : CM unit :=
  let* '(reason, description) := parse_with_text
    (let* _ := Reader.u8 in let* _recipient := Reader.u32 in Reader.u32) payload in
  c_channel <-! None ;;;
  c_reply_queue <-! [] ;;;
  push (CE_ChannelOpenFailure reason description).

Definition replenish_window (n : Z) : CM unit :=
  let* s := get in
  match c_channel s with
  | None => ret tt
  | Some ch =>
      let '(fits, ch) := Channel.consume_incoming n ch in
      c_channel <-! Some ch ;;;
      if negb fits then disconnect msg.PROTOCOL_ERROR (str "channel window exceeded")
      else
        let remote := ch_remote_id ch in
        let* adjust := on_channel ch (Channel.ack_incoming n) in
        match adjust with
        | Some add => send_packet (channel_window_adjust remote add)
        | None => ret tt
        end
  end.

Definition handle_channel_data (payload : bytes) : CM unit :=
  let* data := parse
    (let* _ := Reader.u8 in let* _recipient := Reader.u32 in Reader.string) payload in
  replenish_window (as_u32 (len data)) ;;;
  push (CE_Stdout data).

Definition handle_extended_data (payload : bytes) : CM unit :=
  let* data := parse
    (let* _ := Reader.u8 in
     let* _recipient := Reader.u32 in
     let* _data_type := Reader.u32 in
     Reader.string) payload in
  replenish_window (as_u32 (len data)) ;;;
  push (CE_Stderr data).

Definition handle_window_adjust (payload : bytes) : CM unit :=
  let* add := parse
    (let* _ := Reader.u8 in let* _recipient := Reader.u32 in Reader.u32) payload in
  on_open_channel (Channel.add_remote_window add) ;;;
  flush_channel.

Definition handle_channel_request (payload : bytes) : CM unit :=
  let* '(request, r) := on_local
    (let* _ := Reader.u8 in
     let* _recipient := Reader.u32 in
     let* request := Reader.utf8 in
     let* _want_reply := Reader.boolean in
     ret request) (Reader.new payload) in
  if beq request (str "exit-status") then
    let* '(status, _) := on_local Reader.u32 r in
    push (CE_ExitStatus status)
  else ret tt.

(** The CLOSE that answers a close or a refusal, unless one was sent. *)
Definition close_channel : CM unit :=
  let* s := get in
  (match c_channel s with
   | Some ch =>
       if negb (ch_sent_close ch) then
         c_channel <-! Some (ch <| ch_sent_close := true |>) ;;;
         send_packet (channel_close (ch_remote_id ch))
       else ret tt
   | None => ret tt
   end) ;;;
  c_channel <-! None ;;;
  c_reply_queue <-! [] ;;;
  push CE_ChannelClosed.

Definition handle_request_failure : CM unit := push CE_RequestFailed ;;; close_channel.
Definition handle_channel_close : CM unit := close_channel.

(** [self.reply_queue.pop_front()] *)
Definition pop_reply : CM (option PendingReply) :=
  let* s := get in
  match c_reply_queue s with
  | [] => ret None
  | r :: q => c_reply_queue <-! q ;;; ret (Some r)
  end.

Definition handle_packet (payload : bytes) : CM unit :=
  match payload with
  | [] => ret tt
  | id :: _ =>
      let* s := get in
      if (id =? msg.SERVICE_ACCEPT) && bool_decide (c_state s = CS_ExpectServiceAccept) then
        c_state <-! CS_Authenticating ;;;
        try_next_auth []
      else if id =? msg.USERAUTH_BANNER then
        let* '(_, text) := parse_with_text Reader.u8 payload in
        push (CE_Banner text)
      else if id =? msg.USERAUTH_SUCCESS then
        c_state <-! CS_Authenticated ;;;
        push CE_Authenticated
      else if id =? msg.USERAUTH_FAILURE then
        let* methods := parse
          (let* _ := Reader.u8 in
           let* methods := Reader.name_list in
           let* _partial := Reader.boolean in
           ret methods) payload in
        try_next_auth methods
      else if id =? msg.USERAUTH_PK_OK then ret tt
      else if id =? msg.CHANNEL_OPEN_CONFIRMATION then handle_open_confirmation payload
      else if id =? msg.CHANNEL_OPEN_FAILURE then handle_open_failure payload
      else if id =? msg.CHANNEL_SUCCESS then
        let* reply := pop_reply in
        match reply with
        | Some Reply_Pty => push CE_PtyGranted
        | _ => ret tt
        end
      else if id =? msg.CHANNEL_FAILURE then
        let* reply := pop_reply in
        match reply with
        | Some Reply_Pty => push CE_PtyRefused
        | _ => handle_request_failure
        end
      else if id =? msg.CHANNEL_DATA then handle_channel_data payload
      else if id =? msg.CHANNEL_EXTENDED_DATA then handle_extended_data payload
      else if id =? msg.CHANNEL_WINDOW_ADJUST then handle_window_adjust payload
      else if id =? msg.CHANNEL_REQUEST then handle_channel_request payload
      else if id =? msg.CHANNEL_EOF then ret tt
      else if id =? msg.CHANNEL_CLOSE then handle_channel_close
      else ret tt
  end.

(** ** Events *)

Definition handle_event (e : Event) : CM unit :=
  match e with
  | ServerHostKey key =>
      let* trusted := on_handler (verify_host_key key) in
      if negb trusted then
        c_host_rejected <-! true ;;;
        push CE_HostKeyRejected ;;;
        disconnect msg.KEY_EXCHANGE_FAILED (str "host key rejected") ;;;
        c_state <-! CS_Done
      else ret tt
  | Ev_Established =>
      let* s := get in
      if negb (c_host_rejected s) then
        send_packet (service_request SERVICE_USERAUTH) ;;;
        c_state <-! CS_ExpectServiceAccept
      else ret tt
  | Ev_Disconnect reason description => push (CE_Disconnect reason description)
  | Packet payload => handle_packet payload
  end.

Fixpoint pump_loop (fuel : nat) : CM unit :=
  let* e := on_transport Transport.poll_event in
  match e with
  | None => ret tt
  | Some e =>
      match fuel with
      | O => out_of_fuel
      | S fuel' => handle_event e ;;; pump_loop fuel'
      end
  end.
Definition pump : CM unit := fun s => pump_loop (length (t_events (c_transport s))) s.

Definition on_input (data : bytes) : CM unit :=
  on_transport (Transport.on_input data) ;;; pump.
End ClientConnection.
End ClientConnection.
