(* ===== verification/ClientSteps.v ===== *)
(** The invariant of the client session, its interface as a step relation, and the states
    that its calls can reach. *)
From S2P Require Import Prelude Errors Wire Packet Version Crypto Kex Algo Cipher Compress.
From S2P Require Import Connection Auth Transport TransportFrames TransportBytes TransportInv.
From S2P Require Import TransportSteps Server ServerInv Client.
Import ClientConnection.

(** * Frames *)
Section Frames.
Context `{C : Crypto} {H : Type} `{!ClientAuthHandler H}.
Implicit Types s : ClientConnection H.

Definition c_quiet s s' : Prop := sends (c_transport s) (c_transport s').
#[export] Instance c_quiet_preorder : PreOrder c_quiet.
Proof. unfold c_quiet. split; [done|]. intros s1 s2 s3. by etransitivity. Qed.

Lemma c_quiet_on_transport {V} (m : M SshError Transport V) :
  stays sends m -> stays c_quiet (on_transport (H := H) m).
Proof. intros Hm. apply (stays_zoom_rel c_quiet sends); [exact Hm|done]. Qed.

Ltac quiet_step :=
  first
    [ lazymatch goal with
      | |- stays _ (modify _) => refine (stays_modify _ _ _); intros; apply sends_refl
      | |- stays _ (on_transport _) => apply c_quiet_on_transport; solve [auto with frame]
      | |- stays _ (on_handler ?f) =>
          let st := fresh "st" in intros st; unfold on_handler; destruct (f (c_handler st));
          apply sends_refl
      | |- stays _ (on_channel _ _) => apply stays_zoom; intros; apply sends_refl
      end
    | keeps_step ].

Lemma c_quiet_flush : stays c_quiet (flush_channel (H := H)).
Proof. unfold flush_channel, send_packet. repeat quiet_step. Qed.
#[local] Hint Resolve c_quiet_flush : frame.

Lemma c_quiet_next_auth l : stays c_quiet (try_next_auth (H := H) l).
Proof. unfold try_next_auth, send_packet, push. repeat quiet_step. Qed.
#[local] Hint Resolve c_quiet_next_auth : frame.

Lemma c_quiet_close : stays c_quiet (close_channel (H := H)).
Proof. unfold close_channel, send_packet, push. repeat quiet_step. Qed.
#[local] Hint Resolve c_quiet_close : frame.

Lemma c_quiet_replenish n : stays c_quiet (replenish_window (H := H) n).
Proof. unfold replenish_window, send_packet, disconnect. repeat quiet_step. Qed.
#[local] Hint Resolve c_quiet_replenish : frame.

Lemma c_quiet_confirmation p : stays c_quiet (handle_open_confirmation (H := H) p).
Proof. unfold handle_open_confirmation, send_packet, push, parse. repeat quiet_step. Qed.
#[local] Hint Resolve c_quiet_confirmation : frame.

Lemma c_quiet_event e : stays c_quiet (handle_event (H := H) e).
Proof.
  unfold handle_event, handle_packet, handle_open_failure, handle_channel_data, handle_extended_data,
    handle_window_adjust, handle_channel_request, handle_request_failure, handle_channel_close,
    pop_reply, on_open_channel, parse_with_text, parse, send_packet, disconnect, push.
  repeat quiet_step.
Qed.
End Frames.

(** * The invariant *)

(** The client acknowledges what it accounts, so the granted window and what is owed add up
    to the initial window, and less than half of it is owed. *)
Definition client_chan_ok (ch : Channel) : Prop :=
  channel_ok ch /\ ch_flushed_out ch + queued (ch_out ch) <= U64_MAX /\
  ch_local_window ch + ch_unacked ch = DEFAULT_WINDOW /\
  ch_unacked ch < DEFAULT_WINDOW / 2.

Section Inv.
Context `{C : Crypto} `{!CryptoOk C} `{!FlateOk C} `{!OctetsOk C}.
Context {H : Type} `{A : !ClientAuthHandler H}.
Implicit Types s : ClientConnection H.
Abbreviation any := (fun (_ : SshError) (_ : ClientConnection H) => True).

Record cinv s : Prop := {
  ci_t : tinv (c_transport s);
  ci_octets : octets (c_transport s);
  ci_channel : forall ch, c_channel s = Some ch -> client_chan_ok ch
}.
Abbreviation is_cinv := (fun (_ : unit) => cinv).

Lemma cinv_sent s t : cinv s -> tinv t -> sends (c_transport s) t -> cinv (s <| c_transport := t |>).
Proof. intros [B1 B2 B3] Ht Hs. constructor; try done. by eapply sends_octets. Qed.

Lemma cinv_channel s c :
  cinv s -> (forall ch, c = Some ch -> client_chan_ok ch) -> cinv (s <| c_channel := c |>).
Proof. intros [] Hc. by constructor. Qed.

(** Updates of the fields that the invariant does not read. *)
Lemma cinv_frame s s' :
  c_transport s' = c_transport s -> c_channel s' = c_channel s -> cinv s -> cinv s'.
Proof. intros E1 E2 []. constructor; by rewrite ?E1, ?E2. Qed.
Ltac cinv_set :=
  match goal with H : cinv ?x |- cinv _ => apply (cinv_frame x); [reflexivity|reflexivity|exact H] end.

Lemma c_transport_wp {V} (m : M SshError Transport V) s (Q : V -> ClientConnection H -> Prop) :
  stays sends m -> (forall t, tinv t -> wp m (fun _ => tinv) (fun _ _ => True) t) -> cinv s ->
  (forall a t, cinv (s <| c_transport := t |>) -> Q a (s <| c_transport := t |>)) ->
  wp (on_transport m) Q any s.
Proof.
  intros Hm Hw Hi HQ. apply wp_zoom.
  eapply wp_mono; [exact (wp_stays sends m _ _ _ Hm (Hw _ (ci_t _ Hi)))| |done]. cbv beta.
  intros a t [Ht Hs]. apply HQ. by apply cinv_sent.
Qed.

Lemma c_send_wp p s (Q : unit -> ClientConnection H -> Prop) :
  cinv s -> (forall t, cinv (s <| c_transport := t |>) -> Q tt (s <| c_transport := t |>)) ->
  wp (send_packet p) Q any s.
Proof.
  intros Hi HQ. apply c_transport_wp; [apply sends_send_packet| |done|intros []; apply HQ].
  intros t Ht. by eapply wp_mono; [apply send_packet_wp, Ht| |].
Qed.

Lemma c_send p s : cinv s -> wp (send_packet p) is_cinv any s.
Proof. intros Hi. by apply c_send_wp. Qed.

Lemma c_push e s : cinv s -> wp (push e) is_cinv any s.
Proof. intros Hi. apply wp_modify. cinv_set. Qed.

Lemma c_disconnect r d s : cinv s -> wp (disconnect r d) is_cinv any s.
Proof.
  intros Hi. apply c_transport_wp; [apply sends_disconnect| |done|done].
  intros t Ht. by eapply wp_mono; [by apply disconnect_wp| |].
Qed.

Lemma c_send_all l s : cinv s -> wp (mfor l send_packet) is_cinv any s.
Proof. intros Hi. apply (wp_mfor cinv); [|done]. intros p s' Hi'. by apply c_send. Qed.

Lemma drained_client_ok mc ch l ch' : client_chan_ok ch -> drained mc ch l ch' -> client_chan_ok ch'.
Proof.
  intros (H1 & H2 & H3) [D1 D2 D3 D4 D5 D6 D7].
  assert (Hl : len (stream (ch_out ch)) = len (chunk_stream l ++ stream (ch_out ch'))) by by rewrite D1.
  rewrite len_app, !len_stream, len_chunk_stream in Hl.
  split; [done|]. split; [lia|]. rewrite D7. exact H3.
Qed.

Lemma c_flush s : cinv s -> wp flush_channel is_cinv any s.
Proof.
  intros Hi. unfold flush_channel. do 2 wp_step. destruct (c_channel s) as [ch|] eqn:Hch; [|done].
  pose proof (ci_channel _ Hi _ Hch) as Hok. pose proof Hok as (H1 & H2 & _).
  destruct (drain_output_ok (max_chunk (Transport.obfuscation (c_transport s))) ch H1 H2)
    as (l & ch' & Hd & Hdr).
  apply wp_bind, wp_zoom. unfold wp at 1. rewrite Hd.
  pose proof (drained_client_ok _ _ _ _ Hok Hdr) as Hok'.
  apply wp_bind. eapply wp_mono; [apply c_send_all, cinv_channel; [done|by intros ? [= <-]]| |done].
  cbv beta. intros ? s1 B1. apply wp_bind. eapply (wp_mono _ is_cinv _ any); [| |done].
  { apply wp_when; intros _; [|done]. apply c_transport_wp; [apply sends_send_chaff_burst| |done|done].
    intros t Ht. by eapply wp_mono; [apply send_chaff_burst_wp|..]. }
  cbv beta. intros ? s2 B2. do 2 wp_step. destruct (c_channel s2) as [ch2|] eqn:Hch2; [|done].
  apply wp_if; intros _; [|done]. do 2 wp_step.
  pose proof (ci_channel _ B2 _ Hch2) as Hok2.
  apply c_send, cinv_channel; [done|]. by intros ? [= <-].
Qed.

Lemma c_handler_wp {V} (f : H -> V * H) s (Q : V -> ClientConnection H -> Prop) :
  cinv s -> (forall a h, cinv (s <| c_handler := h |>) -> Q a (s <| c_handler := h |>)) ->
  wp (on_handler f) Q any s.
Proof.
  intros Hi HQ. unfold wp, on_handler. destruct (f (c_handler s)) as [a h]. apply HQ. cinv_set.
Qed.

Lemma c_next_auth l s : cinv s -> wp (try_next_auth l) is_cinv any s.
Proof.
  intros Hi. unfold try_next_auth. do 2 wp_step. apply wp_bind, c_handler_wp; [done|].
  intros [[p|k]|] h Bh.
  - by apply c_send.
  - do 2 wp_step. apply wp_bind, wp_ok_or; [|done]. intros sid _. by apply c_send.
  - apply wp_bind, wp_modify, wp_modify. cinv_set.
Qed.

Lemma c_parse {V} (p : RM V) payload (P : V -> Prop) (Q : V -> ClientConnection H -> Prop) s :
  wp p (fun a _ => P a) (fun _ _ => True) (Reader.new payload) -> (forall a, P a -> Q a s) ->
  wp (parse p payload) Q any s.
Proof.
  intros Hp HQ. unfold parse, run, lift, wp in *. destruct (p (Reader.new payload)) as [[a|e| |] r];
    cbn; auto.
Qed.

Lemma c_local {V} (p : RM V) r (P : V -> Prop) (Q : V * Reader -> ClientConnection H -> Prop) s :
  wp p (fun a r' => P a /\ is_bytes (buf r')) (fun _ _ => True) r ->
  (forall a r', P a -> is_bytes (buf r') -> Q (a, r') s) ->
  wp (on_local p r) Q any s.
Proof.
  intros Hp HQ. apply wp_on_local. eapply wp_mono; [exact Hp| |done]. intros a r' []. by apply HQ.
Qed.

Lemma c_update (f : Channel -> Channel) s :
  cinv s -> (forall ch, client_chan_ok ch -> client_chan_ok (f ch)) ->
  wp (on_open_channel f) is_cinv any s.
Proof.
  intros Hi Hf. unfold on_open_channel. do 2 wp_step.
  destruct (c_channel s) as [ch|] eqn:Hch; [|done]. wp_step.
  pose proof (ci_channel _ Hi _ Hch). apply cinv_channel; [done|]. intros ? [= <-]. by apply Hf.
Qed.

Lemma c_update_flush (f : Channel -> Channel) s :
  cinv s -> (forall ch, c_channel s = Some ch -> client_chan_ok ch -> client_chan_ok (f ch)) ->
  wp (on_open_channel f ;;; flush_channel) is_cinv any s.
Proof.
  intros Hi Hf. apply wp_bind. eapply (wp_mono _ is_cinv _ any); [| |done].
  - unfold on_open_channel. do 2 wp_step. destruct (c_channel s) as [ch|] eqn:Hch; [|done]. wp_step.
    pose proof (ci_channel _ Hi _ Hch). apply cinv_channel; [done|]. intros ? [= <-]. by apply Hf.
  - cbv beta. intros ? s1 B1. by apply c_flush.
Qed.

(** ** Packets *)

Lemma replenish_chan_ok n ch ch1 :
  0 <= n -> client_chan_ok ch -> Channel.consume_incoming n ch = (true, ch1) ->
  wp (Channel.ack_incoming n) (fun _ ch2 => client_chan_ok ch2) (fun _ _ => False) ch1.
Proof.
  intros Hn (H1 & H2 & H3 & H4) Hc.
  pose proof (consume_incoming_ok n ch Hn H1) as Hok. rewrite Hc in Hok. cbn in Hok.
  assert (Hkeep : keeps (fun c => (ch_flushed_out c, ch_out c)) (Channel.ack_incoming n)).
  { unfold Channel.ack_incoming. keeps_auto. }
  eapply wp_mono; [exact (wp_stays _ _ _ _ _ Hkeep (ack_incoming_wp n ch1 Hn Hok))| |by intros ? ? []].
  cbv beta. intros g ch2 [(K1 & K2 & K3 & _ & K4) E]. unfold same in E. injection E as E1 E2.
  unfold Channel.consume_incoming in Hc. destruct (Z.ltb_spec (ch_local_window ch) n); [done|].
  injection Hc as Hc. assert (F1 : ch_local_window ch1 = ch_local_window ch - n) by by subst ch1.
  assert (F2 : ch_unacked ch1 = ch_unacked ch) by by subst ch1.
  assert (F3 : ch_flushed_out ch1 = ch_flushed_out ch) by by subst ch1.
  assert (F4 : ch_out ch1 = ch_out ch) by by subst ch1.
  destruct H1 as (_ & ? & ? & _). clear Hc Hok.
  split; [exact K1|]. rewrite E1, E2, F3, F4. split; [exact H2|]. split; [|exact K4].
  rewrite F1 in K2. rewrite F1, F2 in K3.
  assert (HD : DEFAULT_WINDOW <= U32_MAX) by (unfold DEFAULT_WINDOW, U32_MAX; lia).
  unfold saturating_add32 in K3. generalize dependent DEFAULT_WINDOW. intros. lia.
Qed.

Lemma c_replenish n s : 0 <= n -> cinv s -> wp (replenish_window n) is_cinv any s.
Proof.
  intros Hn Hi. unfold replenish_window. do 2 wp_step.
  destruct (c_channel s) as [ch|] eqn:Hch; [|done]. pose proof (ci_channel _ Hi _ Hch) as Hok.
  destruct (Channel.consume_incoming n ch) as [fits ch1] eqn:Hc. do 2 wp_step.
  apply wp_if; intros Hf.
  - apply c_disconnect, cinv_channel; [done|]. intros ? [= <-].
    unfold Channel.consume_incoming in Hc. by destruct (_ <? _); simplify_eq.
  - destruct fits; [|done]. pose proof (replenish_chan_ok n ch ch1 Hn Hok Hc) as Hw.
    apply wp_bind, wp_zoom. eapply wp_mono; [exact Hw| |by intros]. cbv beta. intros g ch2 Hok2.
    assert (Hi2 : cinv (s <| c_channel := Some ch1 |> <| c_channel := Some ch2 |>)).
    { apply (cinv_frame (s <| c_channel := Some ch2 |>)); [reflexivity..|].
      apply cinv_channel; [done|]. by intros ? [= <-]. }
    destruct g; [by apply c_send|exact Hi2].
Qed.

Lemma c_close s : cinv s -> wp close_channel is_cinv any s.
Proof.
  intros Hi. unfold close_channel. do 3 wp_step. eapply (wp_mono _ is_cinv _ any); [| |done].
  - destruct (c_channel s) as [ch|] eqn:Hch; [|done]. pose proof (ci_channel _ Hi _ Hch).
    apply wp_if; intros _; [|done]. do 2 wp_step. apply c_send, cinv_channel; [done|]. by intros ? [= <-].
  - cbv beta. intros ? s1 B1. do 4 wp_step. apply c_push.
    apply (cinv_frame (s1 <| c_channel := None |>)); [reflexivity..|]. by apply cinv_channel.
Qed.

Lemma c_open_confirmation p s :
  is_bytes p -> cinv s -> wp (handle_open_confirmation p) is_cinv any s.
Proof.
  intros Hp Hi. unfold handle_open_confirmation.
  apply wp_bind, (c_parse _ _ (fun '(_, w, m) => is_u32 w /\ is_u32 m)).
  { unfold Reader.new. octet_read; (exact Hp || done). }
  intros [[sender window] mp] [Hw Hm]. do 2 wp_step.
  destruct (c_channel s) as [ch|] eqn:Hch; [|done]. do 2 wp_step.
  pose proof (ci_channel _ Hi _ Hch) as (K1 & K2 & K3).
  apply wp_bind. eapply wp_mono; [apply c_push, cinv_channel; [done|]| |done].
  { intros ? [= <-]. split; [by apply set_remote_ok|]. by split. }
  cbv beta. intros ? s1 B1. do 3 wp_step.
  eapply (wp_mono _ is_cinv _ any); [| |done].
  - destruct (c_want_pty s1) as [pty|]; [|done]. do 3 wp_step.
    eapply wp_mono; [apply c_send; cinv_set| |done]. cbv beta. intros ? s2 B2. wp_step. cinv_set.
  - cbv beta. intros ? s2 B2. do 3 wp_step. eapply (wp_mono _ is_cinv _ any); [| |done].
    + destruct (c_pending s2) as [[command|]|]; [..|done]; do 3 wp_step;
        (eapply wp_mono; [apply c_send; cinv_set| |done]); cbv beta; intros ? s3 B3; wp_step; cinv_set.
    + cbv beta. intros ? s3 B3. by apply c_flush.
Qed.

Lemma c_pop s (Q : option PendingReply -> ClientConnection H -> Prop) :
  cinv s -> (forall r s', cinv s' -> Q r s') -> wp pop_reply Q any s.
Proof.
  intros Hi HQ. unfold pop_reply. do 2 wp_step. destruct (c_reply_queue s); [by apply wp_ret, HQ|].
  do 3 wp_step. apply HQ. cinv_set.
Qed.

Lemma c_data {V} (p : RM V) payload (d : V -> bytes) (e : V -> ClientEvent) s :
  wp p (fun _ _ => True) (fun _ _ => True) (Reader.new payload) -> cinv s ->
  wp (let* v := parse p payload in replenish_window (as_u32 (len (d v))) ;;; push (e v)) is_cinv any s.
Proof.
  intros Hp Hi. apply wp_bind, (c_parse _ _ (fun _ => True)); [exact Hp|]. intros v _. apply wp_bind.
  eapply wp_mono; [apply c_replenish; [apply as_u32_nonneg|done]| |done]. cbv beta. intros ? s1 B1.
  by apply c_push.
Qed.

Lemma c_text {V} (p : RM V) payload s (Q : V * bytes -> ClientConnection H -> Prop) :
  wp p (fun _ r' => is_bytes (buf r')) (fun _ _ => True) (Reader.new payload) ->
  (forall x, Q x s) -> wp (parse_with_text p payload) Q any s.
Proof.
  intros Hp HQ. unfold parse_with_text. apply wp_bind, (c_local _ _ (fun _ => True)).
  { eapply wp_mono; [exact Hp| |done]. by intros. }
  intros a r' _ _. wp_step. apply HQ.
Qed.

Lemma c_handle_packet p s : is_bytes p -> cinv s -> wp (handle_packet p) is_cinv any s.
Proof.
  intros Hp Hi. assert (Hr : is_bytes (buf (Reader.new p))) by exact Hp.
  unfold handle_packet. destruct p as [|id p]; [done|]. do 2 wp_step.
  repeat lazymatch goal with |- wp (if _ then _ else _) _ _ _ => apply wp_if; intros _ end.
  - do 2 wp_step. apply c_next_auth. cinv_set.
  - apply wp_bind, c_text; [octet_read; done|]. intros []. by apply c_push.
  - do 2 wp_step. apply c_push. cinv_set.
  - apply wp_bind, (c_parse _ _ (fun _ => True)); [octet_read; done|]. intros l _. by apply c_next_auth.
  - done.
  - by apply c_open_confirmation.
  - unfold handle_open_failure. apply wp_bind, c_text; [octet_read; done|]. intros []. do 4 wp_step.
    apply c_push. apply (cinv_frame (s <| c_channel := None |>)); [reflexivity..|]. by apply cinv_channel.
  - apply wp_bind, c_pop; [done|]. intros [[]|] s1 B1; [by apply c_push|done..].
  - apply wp_bind, c_pop; [done|].
    assert (Hf : forall s1, cinv s1 -> wp handle_request_failure is_cinv any s1).
    { intros s1 B1. unfold handle_request_failure. apply wp_bind.
      eapply wp_mono; [by apply c_push| |done]. cbv beta. intros ? s2 B2. by apply c_close. }
    intros [[]|] s1 B1; [by apply c_push|by apply Hf..].
  - apply (c_data _ _ (fun d => d) CE_Stdout); [octet_read; done|done].
  - apply (c_data _ _ (fun d => d) CE_Stderr); [octet_read; done|done].
  - unfold handle_window_adjust. apply wp_bind, (c_parse _ _ is_u32); [octet_read; done|].
    intros add Ha. apply c_update_flush; [done|]. intros ch _ (K1 & K2). split; [|exact K2].
    apply add_remote_window_ok; [by destruct Ha|done].
  - unfold handle_channel_request. apply wp_bind, (c_local _ _ (fun _ => True)); [octet_read; done|].
    intros req r' _ Hr'. apply wp_if; intros _; [|done].
    apply wp_bind, (c_local _ _ (fun _ => True)); [octet_read; done|]. intros st r2 _ _. by apply c_push.
  - done.
  - by apply c_close.
  - done.
Qed.

Lemma c_handle_event e s :
  event_octets e -> cinv s ->
  wp (handle_event e) (fun _ s' => cinv s' /\ t_events (c_transport s') = t_events (c_transport s)) any s.
Proof.
  intros He Hi. enough (Hw : wp (handle_event e) is_cinv any s).
  { eapply wp_mono; [exact (wp_stays c_quiet _ _ _ _ (c_quiet_event e) Hw)| |done].
    cbv beta. intros ? s' [Hs [E _]]. split; [done|]. unfold session_view in E. by injection E. }
  unfold handle_event. destruct e as [k| |p|r d].
  - apply wp_bind, c_handler_wp; [done|]. intros g h Bh. apply wp_if; intros _; [|done].
    do 2 wp_step. apply wp_bind. eapply wp_mono; [apply c_push; cinv_set| |done]. cbv beta.
    intros ? s1 B1. apply wp_bind. eapply wp_mono; [by apply c_disconnect| |done]. cbv beta.
    intros ? s2 B2. wp_step. cinv_set.
  - do 2 wp_step. apply wp_if; intros _; [|done]. apply wp_bind, c_send_wp; [done|]. intros t Bt.
    wp_step. cinv_set.
  - by apply c_handle_packet.
  - by apply c_push.
Qed.

(** The state once the event at the head of the transport's queue has been taken. *)
Definition popped q s : ClientConnection H := s <| c_transport := (c_transport s) <| t_events := q |> |>.

Lemma c_popped e q s :
  t_events (c_transport s) = e :: q -> cinv s -> cinv (popped q s) /\ event_octets e.
Proof.
  intros He [B1 [O1 O2] B3]. rewrite He in O2. apply List.Forall_cons_iff in O2 as [O2 O3].
  split; [|done]. constructor; [destruct B1; by constructor|by split|done].
Qed.

Lemma c_pump_loop fuel s :
  cinv s -> (length (t_events (c_transport s)) <= fuel)%nat -> wp (pump_loop fuel) is_cinv any s.
Proof.
  revert s. induction fuel as [|fuel IH]; intros s Hi Hf; cbn [pump_loop]; apply wp_bind;
    unfold on_transport; apply wp_zoom; unfold Transport.poll_event; do 2 wp_step;
    destruct (t_events (c_transport s)) as [|e q] eqn:He; cbn in Hf.
  1, 3: apply wp_ret, wp_ret; by destruct s.
  - lia.
  - do 3 wp_step. destruct (c_popped e q s He Hi) as [Hi1 Ho].
    apply wp_bind. eapply wp_mono; [by apply c_handle_event| |done].
    cbv beta. intros ? s2 (Hi2 & He2). apply IH; [done|]. rewrite He2. change (length q <= fuel)%nat. lia.
Qed.

Lemma c_receive data s :
  is_bytes data -> cinv s -> wp (on_transport (Transport.on_input data)) is_cinv any s.
Proof.
  intros Hd [B1 B2 B3]. apply wp_zoom.
  pose proof (on_input_wp data _ B1) as Hw. pose proof (octets_on_input data _ Hd B2) as Ho.
  unfold wp in Hw |- *. destruct (Transport.on_input data (c_transport s)) as [[[]|e| |] t]; done.
Qed.

Lemma c_on_input data s : is_bytes data -> cinv s -> wp (on_input data) is_cinv any s.
Proof.
  intros Hd Hi. unfold on_input. apply wp_bind.
  eapply wp_mono; [by apply c_receive| |done]. cbv beta. intros ? s1 Hi1. by apply c_pump_loop.
Qed.
End Inv.

(** * The interface as a step relation *)
Inductive c_op :=
| COp_input (data : bytes)
| COp_exec (command : bytes)
| COp_shell
| COp_request_pty (term : bytes) (cols rows : Z)
| COp_window_change (cols rows : Z)
| COp_write_stdin (data : bytes)
| COp_send_eof
| COp_send_raw (payload : bytes)
| COp_clear_output
| COp_poll
| COp_rekey
| COp_chaff.

Section Steps.
Context `{C : Crypto} {H : Type} `{A : !ClientAuthHandler H}.
Implicit Types s : ClientConnection H.

Definition c_run (o : c_op) : M SshError (ClientConnection H) unit :=
  match o with
  | COp_input data => on_input data
  | COp_exec command => exec command
  | COp_shell => shell
  | COp_request_pty term cols rows => request_pty term cols rows
  | COp_window_change cols rows => window_change cols rows
  | COp_write_stdin data => write_stdin data
  | COp_send_eof => send_eof
  | COp_send_raw p => send_raw_packet p
  | COp_clear_output => clear_output
  | COp_poll => let* _ := poll_event in ret tt
  | COp_rekey => initiate_rekey
  | COp_chaff => send_chaff
  end.

(** Bytes are bytes, and the [u64] count of flushed bytes is not at its limit. *)
Definition c_op_ok (o : c_op) s : Prop :=
  match o with
  | COp_input data => is_bytes data
  | COp_write_stdin d =>
      forall ch, c_channel s = Some ch -> ch_flushed_out ch + queued (ch_out ch) + len d <= U64_MAX
  | _ => True
  end.

Definition cstep s s' : Prop := exists o, c_op_ok o s /\ c_run o s = (Ok tt, s').

Definition creachable s : Prop :=
  exists rng oc ocomp h s0,
    with_transport (Transport.start Client rng None oc ocomp) h = (Ok tt, s0) /\ steps cstep s0 s.
End Steps.

Section Safety.
Context `{C : Crypto} `{!CryptoOk C} `{!FlateOk C} `{!OctetsOk C}.
Context {H : Type} `{A : !ClientAuthHandler H}.
Implicit Types s : ClientConnection H.
Abbreviation any := (fun (_ : SshError) (_ : ClientConnection H) => True).

Lemma new_client_chan_ok : client_chan_ok (Channel.new CLIENT_LOCAL_CHANNEL).
Proof. split; [apply new_ok|]. split_and!; done. Qed.

Lemma open_session_wp r s : cinv s -> wp (open_session r) (fun _ => cinv) any s.
Proof.
  intros Hi. unfold open_session. do 2 wp_step. apply wp_if; intros _; [done|]. do 4 wp_step.
  apply c_send. apply (cinv_frame (s <| c_channel := Some (Channel.new CLIENT_LOCAL_CHANNEL) |>));
    [reflexivity..|].
  apply cinv_channel; [done|]. intros ? [= <-]. apply new_client_chan_ok.
Qed.

Lemma c_run_wp o s : c_op_ok o s -> cinv s -> wp (c_run o) (fun _ => cinv) any s.
Proof.
  intros Ho Hi. destruct o as [data|cmd| |term cols rows|cols rows|d| |p| | | |]; cbn [c_run c_op_ok] in *.
  - by apply c_on_input.
  - by apply open_session_wp.
  - by apply open_session_wp.
  - apply wp_modify. by apply (cinv_frame s).
  - unfold window_change. do 2 wp_step. destruct (c_channel s); [by apply c_send|done].
  - apply c_update_flush; [done|]. intros ch Hc (K1 & K2 & K3). specialize (Ho ch Hc).
    split; [by apply (enqueue_ok false)|]. pose proof (len_nonneg d). unfold Channel.enqueue_stdout.
    destruct (len d =? 0); [by split|]. cbn [negb]. split; [|exact K3].
    change (ch_flushed_out ch + queued (ch_out ch ++ [mkOutItem false d 0]) <= U64_MAX).
    rewrite queued_app. cbn [queued fold_right]. change (item_rest (mkOutItem false d 0)) with d. lia.
  - apply c_update_flush; done.
  - by apply c_send.
  - apply wp_zoom, wp_modify. destruct Hi as [B1 [O1 O2] B3].
    constructor; [destruct B1; by constructor|by split|done].
  - apply wp_bind. unfold poll_event. do 2 wp_step. destruct (c_events s) as [|e q]; [done|].
    do 3 wp_step. apply wp_ret. by apply (cinv_frame s).
  - apply c_transport_wp; [apply sends_initiate_rekey| |done|done]. intros t Ht.
    by eapply wp_mono; [apply initiate_rekey_wp|..].
  - apply c_transport_wp; [apply sends_send_chaff| |done|done]. intros t Ht.
    by eapply wp_mono; [apply send_chaff_wp|..].
Qed.

Lemma creachable_cinv s : creachable s -> cinv s.
Proof.
  intros (rng & oc & ocomp & h & s0 & Hn & Hst).
  eapply steps_invariant; [|exact Hst|].
  - intros s1 s2 (o & Ho & Hr) Hi. pose proof (c_run_wp o s1 Ho Hi) as Hw. unfold wp in Hw.
    by rewrite Hr in Hw.
  - destruct (start_tinv Client rng None oc ocomp) as (t & Hs & Ht).
    pose proof (octets_send_kexinit (Transport.initial Client rng None oc ocomp)) as Ho.
    unfold Transport.start in Hs, Hn. rewrite Hs in Ho, Hn. injection Hn as <-.
    constructor; [exact Ht|apply Ho; split; constructor|done].
Qed.
End Safety.
