(* ===== verification/SessionDemo.v ===== *)
(** An executed session over the toy algorithms of [Crypto.Toy]: a client and a server
    connect, the client logs in with a key and runs a command.  The states are recorded
    values; the kernel replays the handlers against them, which shows each reachable. *)
From S2P Require Import Prelude Errors Wire Packet Version Crypto Kex Algo Cipher Compress.
From S2P Require Import Connection Auth Transport TransportFrames TransportBytes TransportInv.
From S2P Require Import TransportSteps Server ServerInv ServerSteps Client ClientSteps.

(** * The policies of the two ends *)

(** The server admits [guest] without credentials and any key of [alice]. *)
#[export] Instance demo_policy `{C : Crypto} : ServerAuthHandler unit := {|
  banner h := (None, h);
  allow_none user h := (beq user (str "guest"), h);
  verify_password _ _ h := (false, h);
  is_authorized_key user _ h := (beq user (str "alice"), h);
  methods _ := default_methods;
  max_auth_attempts _ := default_max_auth_attempts;
  max_auth_requests _ := default_max_auth_requests
|}.

#[export] Instance demo_policy_steady `{C : Crypto} : SteadyCaps unit.
Proof. by constructor. Qed.

(** The client is [alice]: whether she trusts host keys, and the keys she has left. *)
Record DemoUser `{C : Crypto} := mkDemoUser { du_trusts : bool; du_keys : list UserKeypair }.
Arguments DemoUser _ : clear implicits.
Arguments mkDemoUser {C} _ _.

#[export] Instance demo_user `{C : Crypto} : ClientAuthHandler (DemoUser C) := {|
  username _ := str "alice";
  verify_host_key _ h := (du_trusts h, h);
  next_auth _ h :=
    match du_keys h with
    | [] => (None, h)
    | k :: ks => (Some (Attempt_PublicKey k), mkDemoUser (du_trusts h) ks)
    end
|}.

(** * The session *)
Module Session.
Import Toy.
Definition alice_key : UserKeypair := UserKeypair.from_seed [4; 5; 6].
Definition alice : DemoUser crypto := mkDemoUser true [alice_key].
Definition host_key : HostKey := HostKey.from_seed [1; 2; 3].

Definition c_feed (data : bytes) (s : ClientConnection (DemoUser crypto)) : ClientConnection (DemoUser crypto) :=
  snd (ClientConnection.on_input data (snd (ClientConnection.clear_output s))).
Definition s_feed (data : bytes) (s : ServerConnection unit) : ServerConnection unit :=
  snd (ServerConnection.on_input data (snd (ServerConnection.clear_output s))).
Definition c_out (s : ClientConnection (DemoUser crypto)) : bytes := ClientConnection.pending_output s.
Definition s_out (s : ServerConnection unit) : bytes := ServerConnection.pending_output s.

(** Identification and KEXINIT, the key exchange, NEWKEYS and the service request, the
    login, and then a channel with a command on it. *)
Definition c0 : ClientConnection (DemoUser crypto) := Eval vm_compute in snd (ClientConnection.new 5 alice).
Definition s0 : ServerConnection unit := Eval vm_compute in snd (ServerConnection.new 9 host_key tt).
Definition s1 : ServerConnection unit := Eval vm_compute in s_feed (c_out c0) s0.
Definition c1 : ClientConnection (DemoUser crypto) := Eval vm_compute in c_feed (s_out s0) c0.
Definition s2 : ServerConnection unit := Eval vm_compute in s_feed (c_out c1) s1.
Definition c2 : ClientConnection (DemoUser crypto) := Eval vm_compute in c_feed (s_out s2) c1.
Definition s3 : ServerConnection unit := Eval vm_compute in s_feed (c_out c2) s2.
Definition c3 : ClientConnection (DemoUser crypto) := Eval vm_compute in c_feed (s_out s3) c2.
Definition s4 : ServerConnection unit := Eval vm_compute in s_feed (c_out c3) s3.
Definition c4 : ClientConnection (DemoUser crypto) := Eval vm_compute in c_feed (s_out s4) c3.
Definition c5 : ClientConnection (DemoUser crypto) := Eval vm_compute in
  snd (ClientConnection.exec (str "ls") (snd (ClientConnection.clear_output c4))).
Definition s5 : ServerConnection unit := Eval vm_compute in s_feed (c_out c5) s4.
Definition c6 : ClientConnection (DemoUser crypto) := Eval vm_compute in c_feed (s_out s5) c5.
Definition s6 : ServerConnection unit := Eval vm_compute in s_feed (c_out c6) s5.

(** Instead of logging in, a client that guesses six passwords in one batch. *)
Definition guesses : bytes := Eval vm_compute in
  c_out (snd (mfor (repeat (password_request (str "guest") SERVICE_CONNECTION (str "x")) 6)
    ClientConnection.send_raw_packet (snd (ClientConnection.clear_output c2)))).
Definition shut : ServerConnection unit := Eval vm_compute in s_feed guesses s3.

(** A login without credentials, and the state it leaves. *)
Definition guest_login : bytes := none_request (str "guest") SERVICE_CONNECTION.
Definition guest_in : ServerConnection unit := Eval vm_compute in
  snd (ServerConnection.handle_preauth guest_login s3).
End Session.

(** Whether [l] is made of bytes, by evaluation. *)
Definition all_bytes (l : bytes) : bool := forallb (fun x => (0 <=? x) && (x <=? 255)) l.
Lemma all_bytes_ok l : all_bytes l = true -> is_bytes l.
Proof.
  unfold all_bytes, is_bytes. rewrite forallb_forall, List.Forall_forall.
  intros H x Hx. specialize (H x Hx). unfold is_u8, U8_MAX. lia.
Qed.

Section Feed.
Context `{C : Crypto} {H : Type}.

Lemma sreachable_run `{!ServerAuthHandler H} o (s s' : ServerConnection H) :
  sreachable s -> s_op_ok o s -> s_run o s = (Ok tt, s') -> sreachable s'.
Proof.
  intros (rng & hk & h & s0 & Hn & Hst) Ho Hr. exists rng, hk, h, s0. split; [exact Hn|].
  apply (steps_snoc _ _ s); [exact Hst|]. by exists o.
Qed.

Lemma sreachable_feed `{!ServerAuthHandler H} data (s s' : ServerConnection H) :
  let s1 := snd (ServerConnection.clear_output s) in
  sreachable s -> all_bytes data = true ->
  (s_auth_requests s1 + len (t_events (s_transport (received data s1))) <=? U32_MAX) = true ->
  ServerConnection.on_input data s1 = (Ok tt, s') -> sreachable s'.
Proof.
  intros s1 Hs Hd Hr Hi. apply (sreachable_run (SOp_input data) s1).
  - by apply (sreachable_run SOp_clear_output s).
  - split; [by apply all_bytes_ok|lia].
  - exact Hi.
Qed.

Lemma creachable_run `{!ClientAuthHandler H} o (s s' : ClientConnection H) :
  creachable s -> c_op_ok o s -> c_run o s = (Ok tt, s') -> creachable s'.
Proof.
  intros (rng & oc & ocomp & h & s0 & Hn & Hst) Ho Hr. exists rng, oc, ocomp, h, s0.
  split; [exact Hn|]. apply (steps_snoc _ _ s); [exact Hst|]. by exists o.
Qed.

Lemma creachable_feed `{!ClientAuthHandler H} data (s s' : ClientConnection H) :
  let s1 := snd (ClientConnection.clear_output s) in
  creachable s -> all_bytes data = true -> ClientConnection.on_input data s1 = (Ok tt, s') ->
  creachable s'.
Proof.
  intros s1 Hs Hd Hi. apply (creachable_run (COp_input data) s1).
  - by apply (creachable_run COp_clear_output s).
  - by apply all_bytes_ok.
  - exact Hi.
Qed.
End Feed.

(** * The session's states are reachable *)
#[local] Ltac s_ran s := vm_cast_no_check
  (@eq_refl (outcome SshError unit * ServerConnection (C := Toy.crypto) unit) (Ok tt, s)).
#[local] Ltac c_ran s := vm_cast_no_check
  (@eq_refl (outcome SshError unit * ClientConnection (C := Toy.crypto) (DemoUser Toy.crypto)) (Ok tt, s)).
#[local] Ltac s_step data s s' :=
  apply (sreachable_feed (C := Toy.crypto) data s s');
  [|vm_cast_no_check (@eq_refl bool true)|vm_cast_no_check (@eq_refl bool true)|s_ran s'].
#[local] Ltac c_step data s s' :=
  apply (creachable_feed (C := Toy.crypto) data s s'); [|vm_cast_no_check (@eq_refl bool true)|c_ran s'].

Lemma session_s3 : sreachable (C := Toy.crypto) Session.s3.
Proof.
  s_step (Session.c_out Session.c2) Session.s2 Session.s3.
  s_step (Session.c_out Session.c1) Session.s1 Session.s2.
  s_step (Session.c_out Session.c0) Session.s0 Session.s1.
  exists 9, Session.host_key, tt, Session.s0. split; [s_ran Session.s0|apply steps_refl].
Qed.

Lemma session_shut : sreachable (C := Toy.crypto) Session.shut.
Proof. s_step Session.guesses Session.s3 Session.shut. exact session_s3. Qed.

Lemma session_s6 : sreachable (C := Toy.crypto) Session.s6.
Proof.
  s_step (Session.c_out Session.c6) Session.s5 Session.s6.
  s_step (Session.c_out Session.c5) Session.s4 Session.s5.
  s_step (Session.c_out Session.c3) Session.s3 Session.s4.
  exact session_s3.
Qed.

Lemma session_c1 : creachable (C := Toy.crypto) Session.c1.
Proof.
  c_step (Session.s_out Session.s0) Session.c0 Session.c1.
  exists 5, None, None, Session.alice, Session.c0. split; [c_ran Session.c0|apply steps_refl].
Qed.

Lemma session_c6 : creachable (C := Toy.crypto) Session.c6.
Proof.
  c_step (Session.s_out Session.s5) Session.c5 Session.c6.
  apply (creachable_run (C := Toy.crypto) (COp_exec (str "ls")) (snd (ClientConnection.clear_output Session.c4)));
    [|exact I|c_ran Session.c5].
  apply (creachable_run (C := Toy.crypto) COp_clear_output Session.c4); [|exact I|reflexivity].
  c_step (Session.s_out Session.s4) Session.c3 Session.c4.
  c_step (Session.s_out Session.s3) Session.c2 Session.c3.
  c_step (Session.s_out Session.s2) Session.c1 Session.c2.
  exact session_c1.
Qed.
