(* ===== verification/ClientTrust.v ===== *)
(** What a client sends before it trusts the host key: the order in which the transport
    reports the key, the completed exchange and the packets, and what follows from it for
    the credentials of the client session. *)
From S2P Require Import Prelude Errors Wire Packet Version Crypto Kex Algo Cipher Compress.
From S2P Require Import Connection Auth Transport TransportFrames TransportBytes TransportInv.
From S2P Require Import TransportSteps Server ServerInv Client ClientSteps SessionDemo.

(** * The transport reports the key first *)
Section Keying.
Context `{C : Crypto}.
Implicit Types t : Transport.

Definition ended (e : Event) : Prop :=
  match e with Ev_Disconnect _ _ => True | _ => False end.

(** The first event that is not a disconnect is a host key. *)
Definition keyed (l : list Event) : Prop :=
  exists ds k l', l = ds ++ ServerHostKey k :: l' /\ Forall ended ds.

(** A client before its first key exchange has produced keys. *)
Definition fresh_client t : Prop :=
  t_role t = Client /\ t_phase t <> Established /\ t_pending t = None /\ t_recv_newkeys t = false.

Definition appends t t' : Prop := exists l, t_events t' = t_events t ++ l.

(** Events are added at the end; a fresh client stays one, or the key comes first. *)
Definition keying t t' : Prop :=
  exists l, t_events t' = t_events t ++ l /\
    (fresh_client t -> fresh_client t' /\ Forall ended l \/ keyed l).

#[export] Instance appends_preorder : PreOrder appends.
Proof.
  split; [intros t; exists []; by rewrite app_nil_r|].
  intros t1 t2 t3 [l1 E1] [l2 E2]. exists (l1 ++ l2). by rewrite E2, E1, app_assoc.
Qed.

Lemma keyed_app l l' : keyed l -> keyed (l ++ l').
Proof. intros (ds & k & r & -> & Hd). exists ds, k, (r ++ l'). by rewrite <- app_assoc. Qed.
Lemma keyed_after ds l : Forall ended ds -> keyed l -> keyed (ds ++ l).
Proof.
  intros Hd (ds' & k & r & -> & Hd'). exists (ds ++ ds'), k, r. rewrite <- app_assoc.
  split; [done|]. by apply Forall_app_2.
Qed.

#[export] Instance keying_preorder : PreOrder keying.
Proof.
  split; [intros t; exists []; rewrite app_nil_r; by auto|].
  intros t1 t2 t3 (l1 & E1 & H1) (l2 & E2 & H2). exists (l1 ++ l2).
  split; [by rewrite E2, E1, app_assoc|]. intros Hf.
  destruct (H1 Hf) as [[Hf2 D1]|K1]; [|right; by apply keyed_app].
  destruct (H2 Hf2) as [[Hf3 D2]|K2]; [left; split; [done|by apply Forall_app_2]|].
  right. by apply keyed_after.
Qed.

Lemma keying_appends t t' : appends t t' -> ~ fresh_client t -> keying t t'.
Proof. intros [l E] Hn. by exists l. Qed.

(** The parts that the two relations read. *)
Definition key_view t := (t_role t, t_phase t, t_pending t, t_recv_newkeys t, t_events t).

Lemma keying_same t t' : key_view t' = key_view t -> keying t t'.
Proof.
  unfold key_view. intros [= E1 E2 E3 E4 E5]. exists []. rewrite app_nil_r. split; [done|].
  unfold fresh_client. rewrite E1, E2, E3, E4. by left.
Qed.
Lemma appends_same t t' : t_events t' = t_events t -> appends t t'.
Proof. intros E. exists []. by rewrite app_nil_r. Qed.

Lemma stays_appends {A} (m : M SshError Transport A) : keeps t_events m -> stays appends m.
Proof. apply stays_mono. intros t t'. apply appends_same. Qed.
Lemma stays_keying {A} (m : M SshError Transport A) : keeps key_view m -> stays keying m.
Proof. apply stays_mono. intros t t'. apply keying_same. Qed.

(** ** Methods that touch neither *)
Lemma key_view_write p : keeps key_view (Transport.write_packet p).
Proof. frame_write. Qed.
#[local] Hint Resolve key_view_write : frame.

Ltac view_auto :=
  unfold Transport.disconnect, Transport.send_kexinit, Transport.build_chaff, Transport.with_rng;
  keeps_auto.
Lemma key_view_disconnect r d : keeps key_view (Transport.disconnect r d).
Proof. view_auto. Qed.
Lemma key_view_send_kexinit : keeps key_view Transport.send_kexinit.
Proof. view_auto. Qed.
Lemma key_view_build_chaff : keeps key_view Transport.build_chaff.
Proof. view_auto. Qed.
Lemma key_view_decompress p : keeps key_view (Transport.decompress_in p).
Proof. unfold Transport.decompress_in. keeps_auto. Qed.
Lemma key_view_compact : keeps key_view Transport.compact_rx.
Proof. unfold Transport.compact_rx. keeps_auto. Qed.
Lemma key_view_activate : keeps key_view Transport.activate_compression.
Proof. unfold Transport.activate_compression. keeps_auto. Qed.
#[local] Hint Resolve key_view_disconnect key_view_send_kexinit key_view_build_chaff
  key_view_decompress key_view_compact key_view_activate : frame.

(** ** The relation, method by method *)

(** One step of a [keying] frame: an update of what the relation does not read, a
    disconnect event, or a method that changes neither. *)
Ltac key_step :=
  first
    [ lazymatch goal with
      | |- stays keying (modify _) =>
          refine (stays_modify _ _ _); intros; apply keying_same; solve [reflexivity]
      | |- stays keying (zoom _ _ _) => apply stays_zoom; intros; apply keying_same; reflexivity
      | |- stays keying (Transport.with_rng _) =>
          apply stays_zoom; intros; apply keying_same; reflexivity
      end
    | solve [apply stays_keying; eauto with frame]
    | keeps_step ].
Ltac key_auto := repeat key_step.

Lemma keying_begin_rekey : stays keying Transport.begin_rekey_round.
Proof.
  unfold Transport.begin_rekey_round. repeat first
    [ lazymatch goal with |- stays keying (t_recv_newkeys <-! false) =>
        refine (stays_modify _ _ _); intros t; exists []; rewrite app_nil_r; split; [done|];
        intros (F1 & F2 & F3 & F4); left; done end
    | key_step ].
Qed.
#[local] Hint Resolve keying_begin_rekey : frame.

Lemma keying_initiate_rekey : stays keying Transport.initiate_rekey.
Proof. unfold Transport.initiate_rekey. key_auto. Qed.
#[local] Hint Resolve keying_initiate_rekey : frame.

Lemma keying_send_packet p : stays keying (Transport.send_packet p).
Proof. unfold Transport.send_packet. key_auto. Qed.
#[local] Hint Resolve keying_send_packet : frame.
Lemma keying_send_chaff : stays keying Transport.send_chaff.
Proof. unfold Transport.send_chaff. key_auto. Qed.
Lemma keying_send_chaff_burst : stays keying Transport.send_chaff_burst.
Proof. unfold Transport.send_chaff_burst. key_auto. Qed.
Lemma keying_disconnect r d : stays keying (Transport.disconnect r d).
Proof. apply stays_keying. auto with frame. Qed.

Lemma keying_kexinit p : stays keying (Transport.on_peer_kexinit p).
Proof. unfold Transport.on_peer_kexinit, Transport.kexinit_round. key_auto. Qed.
#[local] Hint Resolve keying_kexinit : frame.

Lemma appends_complete : stays appends Transport.maybe_complete_kex.
Proof.
  unfold Transport.maybe_complete_kex, Transport.push_event.
  repeat first
    [ lazymatch goal with
      | |- stays appends (t_events <-~ _) => refine (stays_modify _ _ _); intros t; by eexists
      | |- stays appends (modify _) => refine (stays_modify _ _ _); intros; apply appends_same; reflexivity
      | |- stays appends (Transport.write_packet _) => apply stays_appends; frame_write
      end
    | keeps_step ].
Qed.
#[local] Hint Resolve appends_complete : frame.

Lemma stays_forget {A} (m : M SshError Transport A) : stays keying m -> stays appends m.
Proof. apply stays_mono. intros t t' (l & E & _). by exists l. Qed.
Lemma keying_at {A} (m : M SshError Transport A) t :
  ~ fresh_client t -> stays appends m -> keying t (snd (m t)).
Proof. intros Hn Hm. by apply keying_appends. Qed.

Ltac append_step :=
  first
    [ lazymatch goal with
      | |- stays appends (t_events <-~ _) => refine (stays_modify _ _ _); intros ?; by eexists
      | |- stays appends (modify _) => refine (stays_modify _ _ _); intros; apply appends_same; reflexivity
      | |- stays appends (zoom _ _ _) => apply stays_zoom; intros; apply appends_same; reflexivity
      | |- stays appends (Transport.write_packet _) => apply stays_appends; frame_write
      end
    | keeps_step ].
Ltac append_auto := repeat append_step.

Lemma appends_newkeys : stays appends Transport.send_newkeys.
Proof. unfold Transport.send_newkeys. append_auto. Qed.
Lemma appends_on_newkeys : stays appends Transport.on_newkeys.
Proof. unfold Transport.on_newkeys. append_auto. Qed.
Lemma appends_finish h k hash : stays appends (Transport.finish_kex h k hash).
Proof. unfold Transport.finish_kex. append_auto. Qed.
#[local] Hint Resolve appends_newkeys appends_on_newkeys appends_finish : frame.

Lemma appends_init p : stays appends (Transport.on_ecdh_init p).
Proof.
  unfold Transport.on_ecdh_init, Transport.compute_exchange_hash, Transport.parse_with, Transport.with_rng.
  append_auto.
Qed.
#[local] Hint Resolve appends_init : frame.

(** NEWKEYS is refused until an exchange has produced keys. *)
Lemma keying_on_newkeys : stays keying Transport.on_newkeys.
Proof.
  intros t. destruct (t_pending t) as [p|] eqn:Hp.
  - apply keying_at; [|apply appends_on_newkeys]. intros (_ & _ & F & _). congruence.
  - unfold Transport.on_newkeys, bind, get, ok_or. rewrite Hp. reflexivity.
Qed.
#[local] Hint Resolve keying_on_newkeys : frame.

(** The key is reported before the keys are there. *)
Lemma keying_reports k (m : M SshError Transport unit) :
  stays appends m -> stays keying (Transport.push_event (ServerHostKey k) ;;; m).
Proof.
  intros Hm t. unfold bind, Transport.push_event, modify.
  destruct (Hm (t <| t_events ::= fun q => q ++ [ServerHostKey k] |>)) as [l E].
  exists (ServerHostKey k :: l). split; [by rewrite E; cbn; rewrite <- app_assoc|].
  intros _. right. by exists [], k, l.
Qed.

Lemma keying_reply p : stays keying (Transport.on_ecdh_reply p).
Proof.
  unfold Transport.on_ecdh_reply, Transport.compute_exchange_hash, Transport.parse_with.
  repeat first [apply keying_reports; append_auto | key_step].
Qed.
#[local] Hint Resolve keying_reply : frame.

Lemma keying_ended r d : stays keying (Transport.push_event (Ev_Disconnect r d)).
Proof. intros t. exists [Ev_Disconnect r d]. split; [done|]. intros Hf. left. by split; [|repeat constructor]. Qed.
#[local] Hint Resolve keying_ended : frame.

Lemma appends_handle_packet p : stays appends (Transport.handle_packet p).
Proof.
  unfold Transport.handle_packet, Transport.push_event.
  repeat first [solve [apply stays_forget; auto with frame] | append_step].
Qed.

Lemma keying_handle_packet p : stays keying (Transport.handle_packet p).
Proof.
  intros t. destruct (decide (t_role t = Client /\ t_phase t <> Established)) as [[Hr Hp]|Hn].
  2: { apply keying_at; [|apply appends_handle_packet]. intros (? & ? & _). auto. }
  unfold Transport.handle_packet. destruct p as [|id p]; [reflexivity|].
  unfold bind at 1, get. rewrite Hr, bool_decide_false, andb_false_r by done.
  assert (Transport.is_established t = false) as -> by by apply bool_decide_eq_false.
  repeat match goal with |- keying _ (snd ((if ?b then _ else _) _)) => destruct b end;
    match goal with |- keying _ (snd (?m _)) => refine ((_ : stays keying m) t) end; key_auto.
Qed.
#[local] Hint Resolve keying_handle_packet : frame.

Lemma keying_drive fuel : stays keying (Transport.drive_loop fuel).
Proof.
  induction fuel as [|fuel IH]; cbn [Transport.drive_loop]; [apply stays_fuel; typeclasses eauto|].
  unfold Transport.unread, Transport.drive_packet.
  repeat first
    [ lazymatch goal with |- stays keying (t_phase <-! Handshake) =>
        refine (stays_modify _ _ _); intros t; exists []; rewrite app_nil_r; split; [done|];
        intros (F1 & F2 & F3 & F4); left; done end
    | key_step ].
Qed.

Lemma keying_on_input data : stays keying (Transport.on_input data).
Proof.
  unfold Transport.on_input, Transport.drive.
  repeat first [match goal with |- stays _ (fun t => Transport.drive_loop _ t) => intros t; apply keying_drive end
               | key_step].
Qed.
End Keying.
#[export] Hint Resolve keying_initiate_rekey keying_send_packet keying_send_chaff
  keying_send_chaff_burst keying_disconnect : frame.

(** * A closing transport is silent *)
Section Hushed.
Context `{C : Crypto}.

Definition hushed (t t' : Transport) : Prop :=
  t_closing t = true -> t_closing t' = true /\ t_tx t' = t_tx t.
#[export] Instance hushed_preorder : PreOrder hushed.
Proof.
  split; [by intros t ?|]. intros t1 t2 t3 H1 H2 Hc. destruct (H1 Hc) as [Hc2 E].
  destruct (H2 Hc2) as [Hc3 E']. split; [done|congruence].
Qed.

Lemma hushed_write p : stays hushed (Transport.write_packet p).
Proof.
  intros t Hc. assert (Transport.write_packet p t = (Ok tt, t)) as ->; [|done].
  unfold Transport.write_packet, bind at 1, get. by rewrite Hc.
Qed.
#[local] Hint Resolve hushed_write : frame.

Ltac hush_step :=
  first
    [ lazymatch goal with
      | |- stays _ (t_closing <-! true) => refine (stays_modify _ _ _); by intros ? ?
      | |- stays _ (modify _) => refine (stays_modify _ _ _); by intros ? ?
      | |- stays _ (zoom _ _ _) => apply stays_zoom; by intros ? ? ?
      end
    | keeps_step ].
Ltac hush_auto :=
  unfold Transport.initiate_rekey, Transport.begin_rekey_round, Transport.send_kexinit,
    Transport.build_chaff, Transport.with_rng;
  repeat hush_step.

Lemma hushed_send_packet p : stays hushed (Transport.send_packet p).
Proof. unfold Transport.send_packet. hush_auto. Qed.
#[local] Hint Resolve hushed_send_packet : frame.
Lemma hushed_disconnect r d : stays hushed (Transport.disconnect r d).
Proof. unfold Transport.disconnect. hush_auto. Qed.
Lemma hushed_send_chaff_burst : stays hushed Transport.send_chaff_burst.
Proof. unfold Transport.send_chaff_burst. hush_auto. Qed.
End Hushed.
#[export] Hint Resolve hushed_send_packet hushed_disconnect hushed_send_chaff_burst : frame.

(** * The client *)

(** The trust a policy has come to have, as a part of its state: it has it once it accepts
    a key, and does not lose it. *)
Class Trusting `{C : Crypto} (H : Type) {A : ClientAuthHandler H} := {
  trusts : H -> Prop;
  trusts_accept k h : fst (verify_host_key k h) = true -> trusts (snd (verify_host_key k h));
  trusts_verify k h : trusts h -> trusts (snd (verify_host_key k h));
  trusts_next l h : trusts h -> trusts (snd (next_auth l h))
}.

Section Trust.
Import ClientConnection.
Context `{C : Crypto} {H : Type} `{A : !ClientAuthHandler H} `{G : !Trusting H}.
Implicit Types s : ClientConnection H.

(** The states of a client between the events that it handles, and between its calls. *)
Inductive staged : ClientConnection H -> Prop :=
| staged_new rng oc ocomp h s :
    with_transport (Transport.start Client rng None oc ocomp) h = (Ok tt, s) -> staged s
| staged_receive data s s' :
    staged s -> is_bytes data -> on_transport (Transport.on_input data) s = (Ok tt, s') -> staged s'
| staged_event e q s s' :
    staged s -> t_events (c_transport s) = e :: q -> handle_event e (popped q s) = (Ok tt, s') ->
    staged s'
| staged_op o s s' :
    staged s -> (forall data, o <> COp_input data) -> c_op_ok o s -> c_run o s = (Ok tt, s') ->
    staged s'.

(** What one step may do to the client: what the transport's relation says, and closing
    and trust are not taken back. *)
Definition c_keying s s' : Prop :=
  keying (c_transport s) (c_transport s') /\
  (t_closing (c_transport s) = true -> t_closing (c_transport s') = true) /\
  (trusts (c_handler s) -> trusts (c_handler s')).

#[export] Instance c_keying_preorder : PreOrder c_keying.
Proof.
  split; [intros s; by split_and!|].
  intros s1 s2 s3 (H1 & H2 & H3) (K1 & K2 & K3). split_and!; [by etransitivity|auto..].
Qed.

(** The key has been accepted, nothing will be sent any more, or it is still to be judged
    before any event that the client would answer. *)
Definition guarded s : Prop :=
  trusts (c_handler s) \/ t_closing (c_transport s) = true \/
  (fresh_client (c_transport s) /\ Forall ended (t_events (c_transport s))) \/
  keyed (t_events (c_transport s)).

Lemma guarded_step s s' : c_keying s s' -> guarded s -> guarded s'.
Proof.
  intros ((l & El & Hl) & Hc & Ht) [G1|[G1|[[G1 G2]|G1]]].
  - left. auto.
  - right. left. auto.
  - right. right. rewrite El. destruct (Hl G1) as [[F D]|K]; [left|right].
    + split; [done|]. by apply Forall_app_2.
    + by apply keyed_after.
  - right. right. right. rewrite El. by apply keyed_app.
Qed.

Lemma c_keying_transport {V} (m : M SshError Transport V) :
  stays keying m -> (forall t, t_closing t = true -> t_closing (snd (m t)) = true) ->
  stays c_keying (on_transport m).
Proof.
  intros Hk Hc s. specialize (Hk (c_transport s)). specialize (Hc (c_transport s)).
  unfold on_transport, zoom. destruct (m (c_transport s)) as [o t]. by split_and!.
Qed.

Lemma c_keying_sends {V} (m : M SshError Transport V) :
  stays keying m -> stays sends m -> stays c_keying (on_transport m).
Proof. intros Hk Hs. apply c_keying_transport; [done|]. intros t. by destruct (Hs t). Qed.

Lemma c_keying_receive data : stays c_keying (on_transport (Transport.on_input data)).
Proof.
  apply c_keying_transport; [apply keying_on_input|]. intros t Ht.
  unfold Transport.on_input, bind, get. by rewrite Ht.
Qed.

Lemma c_keying_frame s s' :
  c_transport s' = c_transport s -> c_handler s' = c_handler s -> c_keying s s'.
Proof. intros E1 E2. unfold c_keying. rewrite E1, E2. by split_and!. Qed.

Lemma c_keying_verify k : stays c_keying (on_handler (verify_host_key k)).
Proof.
  intros s. unfold on_handler. pose proof (trusts_verify k (c_handler s)) as Ht.
  destruct (verify_host_key k (c_handler s)) as [g h]. by split_and!.
Qed.
Lemma c_keying_next l : stays c_keying (on_handler (next_auth l)).
Proof.
  intros s. unfold on_handler. pose proof (trusts_next l (c_handler s)) as Ht.
  destruct (next_auth l (c_handler s)) as [g h]. by split_and!.
Qed.
#[local] Hint Resolve c_keying_verify c_keying_next : frame.

Ltac trust_step :=
  first
    [ lazymatch goal with
      | |- stays _ (modify _) => refine (stays_modify _ _ _); intros; by apply c_keying_frame
      | |- stays _ (on_transport _) => apply c_keying_sends; solve [auto with frame]
      | |- stays _ (on_channel _ _) => apply stays_zoom; intros; by apply c_keying_frame
      end
    | keeps_step ].
Ltac trust_auto := unfold send_packet, disconnect, push, parse, parse_with_text; repeat trust_step.

Lemma c_keying_flush : stays c_keying flush_channel.
Proof. unfold flush_channel. trust_auto. Qed.
Lemma c_keying_next_auth l : stays c_keying (try_next_auth l).
Proof. unfold try_next_auth. trust_auto. Qed.
Lemma c_keying_close : stays c_keying close_channel.
Proof. unfold close_channel. trust_auto. Qed.
Lemma c_keying_replenish n : stays c_keying (replenish_window n).
Proof. unfold replenish_window. trust_auto. Qed.
#[local] Hint Resolve c_keying_flush c_keying_next_auth c_keying_close c_keying_replenish : frame.
Lemma c_keying_confirmation p : stays c_keying (handle_open_confirmation p).
Proof. unfold handle_open_confirmation. trust_auto. Qed.
#[local] Hint Resolve c_keying_confirmation : frame.

Lemma c_keying_event e : stays c_keying (handle_event e).
Proof.
  unfold handle_event, handle_packet, handle_open_failure, handle_channel_data, handle_extended_data,
    handle_window_adjust, handle_channel_request, handle_request_failure, handle_channel_close,
    pop_reply, on_open_channel.
  trust_auto.
Qed.

Lemma c_keying_op o : (forall data, o <> COp_input data) -> stays c_keying (c_run o).
Proof.
  intros Ho. destruct o as [data|cmd| |term cols rows|cols rows|d| |p| | | |]; cbn [c_run].
  - by destruct (Ho data).
  - unfold exec, open_session. trust_auto.
  - unfold shell, open_session. trust_auto.
  - unfold request_pty. trust_auto.
  - unfold window_change. trust_auto.
  - unfold write_stdin, on_open_channel. trust_auto.
  - unfold send_eof, on_open_channel. trust_auto.
  - unfold send_raw_packet. trust_auto.
  - intros s. split_and!; [by apply keying_same|done|done].
  - unfold poll_event. trust_auto.
  - unfold initiate_rekey. trust_auto.
  - unfold send_chaff. trust_auto.
Qed.

(** ** Silence *)
Definition c_hushed s s' : Prop := hushed (c_transport s) (c_transport s').
#[export] Instance c_hushed_preorder : PreOrder c_hushed.
Proof. unfold c_hushed. split; [done|]. intros s1 s2 s3. by etransitivity. Qed.

Ltac silent_step :=
  first
    [ lazymatch goal with
      | |- stays _ (modify _) => refine (stays_modify _ _ _); intros ?; by unfold c_hushed
      | |- stays _ (on_transport _) =>
          apply (stays_zoom_rel c_hushed hushed); [solve [auto with frame]|done]
      | |- stays _ (on_handler ?f) =>
          let st := fresh "st" in intros st; unfold on_handler; by destruct (f (c_handler st))
      | |- stays _ (on_channel _ _) => apply stays_zoom; intros ? ?; by unfold c_hushed
      end
    | keeps_step ].

Lemma c_hushed_flush : stays c_hushed flush_channel.
Proof. unfold flush_channel, send_packet. repeat silent_step. Qed.
#[local] Hint Resolve c_hushed_flush : frame.

Lemma c_hushed_event e : stays c_hushed (handle_event e).
Proof.
  unfold handle_event, handle_packet, handle_open_confirmation, handle_open_failure,
    handle_channel_data, handle_extended_data, handle_window_adjust, handle_channel_request,
    handle_request_failure, handle_channel_close, close_channel, replenish_window, try_next_auth,
    pop_reply, on_open_channel, parse_with_text, parse, send_packet, disconnect, push.
  repeat silent_step.
Qed.

(** ** What holds at every stage *)
Lemma host_key_judged k s s' :
  handle_event (ServerHostKey k) s = (Ok tt, s') ->
  trusts (c_handler s') \/ t_closing (c_transport s') = true.
Proof.
  unfold handle_event, bind at 1, on_handler. pose proof (trusts_accept k (c_handler s)) as Ht.
  destruct (verify_host_key k (c_handler s)) as [[] h]; cbn [negb].
  - intros [= <-]. left. by apply Ht.
  - intros (_ & s1 & _ & Hd)%bind_Ok. apply bind_Ok in Hd as (_ & s2 & _ & Hd).
    apply bind_Ok in Hd as ([] & s3 & Hd & [= <-]). right.
    unfold disconnect, on_transport, zoom in Hd.
    pose proof (disconnect_closes msg.KEY_EXCHANGE_FAILED (str "host key rejected") (c_transport s2)) as Hc.
    destruct (Transport.disconnect _ _ (c_transport s2)) as [o t]. simplify_eq. by apply Hc.
Qed.

(** What [guarded] says of the event that comes next. *)
Lemma guarded_event e q s s' :
  guarded s -> t_events (c_transport s) = e :: q -> handle_event e (popped q s) = (Ok tt, s') ->
  guarded s' /\
  (trusts (c_handler s') \/ t_tx (c_transport s') = t_tx (c_transport s) \/
   (exists k, e = ServerHostKey k) /\ t_closing (c_transport s') = true).
Proof.
  intros Hg He Hr. pose proof (c_keying_event e (popped q s)) as Hk. rewrite Hr in Hk. cbn [snd] in Hk.
  assert (Hend : ended e -> t_tx (c_transport s') = t_tx (c_transport s)).
  { intros Hd. destruct e; try done. unfold handle_event, push, modify in Hr. by injection Hr as <-. }
  destruct Hg as [J|[J|[[G1 G2]|J]]].
  - assert (trusts (c_handler s')) by by apply Hk. split; by left.
  - pose proof (c_hushed_event e (popped q s) J) as Hh. rewrite Hr in Hh. cbn [snd] in Hh.
    destruct Hh as [Hc Ht]. split; [right; by left|right; by left].
  - rewrite He in G2. apply List.Forall_cons_iff in G2 as [D1 D2]. split.
    + apply (guarded_step (popped q s)); [done|]. right. right. left. by split.
    + right. left. by apply Hend.
  - rewrite He in J. destruct J as ([|d ds] & k & l & El & Hd); simplify_eq/=.
    + destruct (host_key_judged _ _ _ Hr) as [Ht|Hc].
      * split; by left.
      * split; [right; by left|]. right. right. split; [by exists k|done].
    + apply List.Forall_cons_iff in Hd as [D1 D2]. split.
      * apply (guarded_step (popped (ds ++ ServerHostKey k :: l) s)); [done|].
        right. right. right. by exists ds, k, l.
      * right. left. by apply Hend.
Qed.

Lemma guarded_new rng oc ocomp h s :
  with_transport (Transport.start Client rng None oc ocomp) h = (Ok tt, s) -> guarded s.
Proof.
  unfold with_transport, Transport.start. set (t0 := Transport.initial _ _ _ _ _).
  pose proof (key_view_send_kexinit t0) as Hv. destruct (Transport.send_kexinit t0) as [o t].
  intros [= -> <-]. unfold same, key_view in Hv. cbn in Hv. injection Hv as E1 E2 E3 E4 E5.
  right. right. left. unfold fresh_client. cbn. rewrite E1, E2, E3, E4, E5. split; [done|constructor].
Qed.

Lemma staged_guarded s : staged s -> guarded s.
Proof.
  induction 1 as [rng oc ocomp h s Hs|data s s' _ IH _ Hr|e q s s' _ IH He Hr|o s s' _ IH Ho _ Hr].
  - by eapply guarded_new.
  - apply (guarded_step s); [|done]. pose proof (c_keying_receive data s) as Hk. by rewrite Hr in Hk.
  - by eapply guarded_event.
  - apply (guarded_step s); [|done]. pose proof (c_keying_op o Ho s) as Hk. by rewrite Hr in Hk.
Qed.

(** C16. Nothing before trust: at any stage of a client's life, and whatever the server has
    put into one batch, an event that is handled while the policy trusts no host key leaves
    the output as it was; the only event that may add to it is the host key itself, whose
    rejection closes the connection.  In particular no credentials leave the client. *)
Theorem nothing_before_trust s e q s' :
  staged s -> t_events (c_transport s) = e :: q -> handle_event e (popped q s) = (Ok tt, s') ->
  ~ trusts (c_handler s') ->
  t_tx (c_transport s') = t_tx (c_transport s) \/
  (exists k, e = ServerHostKey k) /\ t_closing (c_transport s') = true.
Proof.
  intros Hs He Hr Hn. by destruct (guarded_event e q s s' (staged_guarded s Hs) He Hr) as [_ [?|?]].
Qed.
End Trust.

(** * A client that trusts no key, in the session of the demo *)
#[export] Instance demo_trusting `{C : Crypto} : Trusting (DemoUser C).
Proof.
  refine {| trusts h := du_trusts h = true |}; [by intros k []..|].
  intros l h. cbn. by destruct (du_keys h).
Defined.

Module Wary.
Import Toy Session.
Definition w0 : ClientConnection (DemoUser crypto) :=
  Eval vm_compute in snd (ClientConnection.new 5 (mkDemoUser false [alice_key])).
Definition w1 : ClientConnection (DemoUser crypto) := Eval vm_compute in c_feed (s_out s0) w0.
Definition w2 : ClientConnection (DemoUser crypto) := Eval vm_compute in
  snd (ClientConnection.on_transport (Transport.on_input (s_out s2)) (snd (ClientConnection.clear_output w1))).
Definition w2_key : Event := Eval vm_compute in hd Ev_Established (t_events (c_transport w2)).
Definition w3 : ClientConnection (DemoUser crypto) := Eval vm_compute in
  snd (ClientConnection.handle_event w2_key (popped [Ev_Established] w2)).
Definition w4 : ClientConnection (DemoUser crypto) := Eval vm_compute in
  snd (ClientConnection.handle_event Ev_Established (popped [] w3)).
End Wary.

#[local] Ltac w_ran s := vm_cast_no_check
  (@eq_refl (outcome SshError unit * ClientConnection (C := Toy.crypto) (DemoUser Toy.crypto)) (Ok tt, s)).

Lemma staged_feed `{C : Crypto} {H} `{!ClientAuthHandler H} data (s s' : ClientConnection H) :
  let s1 := snd (ClientConnection.clear_output s) in
  staged s -> all_bytes data = true ->
  ClientConnection.on_transport (Transport.on_input data) s1 = (Ok tt, s') -> staged s'.
Proof.
  intros s1 Hs Hd Hr. apply (staged_receive data s1); [|by apply all_bytes_ok|done].
  by apply (staged_op COp_clear_output s).
Qed.

Lemma wary_staged : staged (C := Toy.crypto) Wary.w3.
Proof.
  apply (staged_event (C := Toy.crypto) Wary.w2_key [Ev_Established] Wary.w2); [|reflexivity|w_ran Wary.w3].
  apply (staged_feed (C := Toy.crypto) (Session.s_out Session.s2) Wary.w1);
    [|vm_cast_no_check (@eq_refl bool true)|w_ran Wary.w2].
  apply (staged_feed (C := Toy.crypto) (Session.s_out Session.s0) Wary.w0);
    [|vm_cast_no_check (@eq_refl bool true)|w_ran Wary.w1].
  apply (staged_new (C := Toy.crypto) 5 None None (mkDemoUser (C := Toy.crypto) false [Session.alice_key])). w_ran Wary.w0.
Qed.

(** The exchange completes behind the rejected key, and nothing is sent for it. *)
Lemma nothing_before_trust_witness :
  t_tx (c_transport Wary.w4) = t_tx (c_transport Wary.w3) \/
  (exists k, Ev_Established = ServerHostKey (C := Toy.crypto) k) /\ t_closing (c_transport Wary.w4) = true.
Proof.
  apply (nothing_before_trust (C := Toy.crypto) Wary.w3 (Ev_Established (C := Toy.crypto)) [] Wary.w4);
    [exact wary_staged|reflexivity|w_ran Wary.w4|vm_compute; congruence].
Defined.
