(* ===== verification/ServerLogin.v ===== *)
(** Who can be logged in, over a whole server session, when the policy is constant. *)
From S2P Require Import Prelude Errors Wire Packet Version Crypto Kex Algo Cipher Compress.
From S2P Require Import Connection Auth Transport TransportFrames Server ServerInv ServerSteps.
Import ServerConnection.

(** A policy that its callbacks leave as it is. *)
Class ConstantPolicy `{C : Crypto} (H : Type) {A : ServerAuthHandler H} : Prop := {
  constant_banner h : snd (banner h) = h;
  constant_none u h : snd (allow_none u h) = h;
  constant_password u p h : snd (verify_password u p h) = h;
  constant_key u k h : snd (is_authorized_key u k h) = h
}.

Section Login.
Context `{C : Crypto} {H : Type} `{A : !ServerAuthHandler H} `{K : !ConstantPolicy H}.
Implicit Types s : ServerConnection H.

(** The policy has an answer of yes for this user. *)
Definition admits (h : H) (u : bytes) : Prop :=
  fst (allow_none u h) = true \/
  (exists p, fst (verify_password u p h) = true) \/
  (exists k, fst (is_authorized_key u k h) = true).

(** The policy stays, and only a user that it admits becomes authenticated. *)
Definition login s s' : Prop :=
  s_handler s' = s_handler s /\
  (forall u, s_authenticated s' = Some u -> s_authenticated s = Some u \/ admits (s_handler s) u).

#[export] Instance login_preorder : PreOrder login.
Proof.
  split; [by intros s; split; [|left]|].
  intros s1 s2 s3 [E1 H1] [E2 H2]. split; [congruence|]. intros u Hu.
  destruct (H2 u Hu) as [Hu2|Ha]; [by apply H1|]. right. by rewrite <- E1.
Qed.

Lemma login_same s s' :
  s_handler s' = s_handler s -> s_authenticated s' = s_authenticated s -> login s s'.
Proof. intros E1 E2. split; [done|]. rewrite E2. by left. Qed.

Lemma login_ask {V} (f : H -> V * H) :
  (forall h, snd (f h) = h) -> stays login (on_handler f).
Proof.
  intros Hf s. unfold on_handler. specialize (Hf (s_handler s)).
  destruct (f (s_handler s)) as [a h]. cbn in *. subst h. by apply login_same.
Qed.
#[local] Hint Resolve login_ask constant_banner constant_none constant_password constant_key : frame.

Ltac login_step :=
  first
    [ lazymatch goal with
      | |- stays _ (modify _) => refine (stays_modify _ _ _); intros; by apply login_same
      | |- stays _ (on_transport _) => apply stays_zoom; intros; by apply login_same
      | |- stays _ (on_channel _ _) => apply stays_zoom; intros; by apply login_same
      | |- stays _ (on_handler _) => apply login_ask; intros; solve [auto with frame]
      end
    | keeps_step ].
Ltac login_auto := unfold send_packet, disconnect, push, parse, s_discard; repeat login_step.

Lemma login_failure : stays login send_failure.
Proof. unfold send_failure. login_auto. Qed.
Lemma login_flush : stays login flush_channel.
Proof. unfold flush_channel. login_auto. Qed.
Lemma login_service p : stays login (handle_service_request p).
Proof. unfold handle_service_request. login_auto. Qed.
#[local] Hint Resolve login_failure login_flush login_service : frame.

Lemma login_finish u (g : bool) s : (g = true -> admits (s_handler s) u) -> login s (snd (finish_auth u g s)).
Proof.
  intros Hg. unfold finish_auth. destruct g; [|apply login_failure].
  assert (Hs : stays login (send_packet (H := H) userauth_success)) by login_auto.
  unfold bind at 1. specialize (Hs s). destruct (send_packet userauth_success s) as [[[]|e| |] s1]; try done.
  destruct Hs as [E Hs]. split; [exact E|]. intros v [= <-]. right. by apply Hg.
Qed.

(** A question to the policy, and the login that follows from its answer. *)
Lemma login_asked u (f : H -> bool * H) s :
  (forall h, snd (f h) = h) -> (fst (f (s_handler s)) = true -> admits (s_handler s) u) ->
  login s (snd ((let* g := on_handler f in finish_auth u g) s)).
Proof.
  intros Hf Hu. pose proof (login_ask f Hf s) as Hs. unfold bind, on_handler in *.
  destruct (f (s_handler s)) as [g h] eqn:E. cbn [snd fst] in *.
  etransitivity; [exact Hs|]. apply login_finish. intros ->. specialize (Hf (s_handler s)).
  rewrite E in Hf. cbn in *. subst h. by apply Hu.
Qed.

Lemma login_publickey q algo blob sig s : login s (snd (handle_publickey q algo blob sig s)).
Proof.
  unfold handle_publickey. destruct (UserPublicKey.parse_blob blob) as [key|e| |]; try done.
  2: { apply login_failure. }
  pose proof (login_ask (is_authorized_key (ar_user q) key) (constant_key _ _) s) as Hs.
  unfold bind at 1. unfold on_handler in *.
  pose proof (constant_key (ar_user q) key (s_handler s)) as Hc.
  destruct (is_authorized_key (ar_user q) key (s_handler s)) as [g h] eqn:E. cbn [snd] in Hc. subst h.
  etransitivity; [exact Hs|]. cbn [fst snd]. set (s1 := set s_handler _ s).
  destruct g; cbn [negb]; [|apply login_failure].
  destruct sig as [signature|]; [|revert s1; generalize (set s_handler (fun _ => s_handler s) s); intros s1;
    unfold send_packet, on_transport, zoom; destruct (Transport.send_packet _ _); by apply login_same].
  unfold bind at 1, get. unfold bind at 1.
  destruct (Transport.session_id (s_transport s1)) as [sid|]; [|done]. cbn [ok_or].
  apply login_finish. intros _. right. right. exists key. change (s_handler s1) with (s_handler s).
  by rewrite E.
Qed.

Lemma login_method q : stays login
  (match ar_method q with
   | Method_None => let* g := on_handler (allow_none (ar_user q)) in finish_auth (ar_user q) g
   | Method_Password password =>
       let* g := on_handler (verify_password (ar_user q) password) in finish_auth (ar_user q) g
   | Method_PublicKey algo blob signature => handle_publickey q algo blob signature
   | Method_Unknown _ => finish_auth (ar_user q) false
   end).
Proof.
  intros s. destruct (ar_method q) as [|password|algo blob sig|name].
  - apply login_asked; [apply constant_none|]. by left.
  - apply login_asked; [apply constant_password|]. intros Hv. right. left. by exists password.
  - apply login_publickey.
  - by apply login_finish.
Qed.
#[local] Hint Resolve login_method : frame.

Lemma login_preauth p : stays login (handle_preauth p).
Proof.
  unfold handle_preauth, handle_userauth.
  repeat first [apply login_method | progress unfold disconnect, push | login_step].
Qed.
#[local] Hint Resolve login_preauth : frame.

Lemma login_event e : stays login (handle_event e).
Proof.
  unfold handle_event, handle_connection, handle_channel_open, handle_channel_request,
    dispatch_request, session_request, handle_channel_data, handle_window_adjust,
    handle_channel_close, reply.
  login_auto.
Qed.
#[local] Hint Resolve login_event : frame.

Lemma login_pump fuel : stays login (pump_loop fuel).
Proof. induction fuel as [|fuel IH]; cbn [pump_loop]; login_auto. Qed.

Lemma login_input data : stays login (on_input data).
Proof. unfold on_input. login_step; [login_auto|]. intros s. apply login_pump. Qed.
#[local] Hint Resolve login_input : frame.

Lemma login_run o : stays login (s_run o).
Proof.
  unfold s_run, channel_stdout, channel_stderr, channel_exit, channel_consumed, take_flushed_output,
    accept_channel, reject_channel, answer_request, reply, send_raw_packet, clear_output, poll_event,
    initiate_rekey, send_chaff, set_allow_pty, set_obfuscation.
  login_auto.
Qed.

(** Every user that a session has ever authenticated is one that its policy admits. *)
Lemma authenticated_admitted rng hk h s0 s u :
  new rng hk h = (Ok tt, s0) -> steps sstep s0 s -> s_authenticated s = Some u ->
  s_handler s = h /\ admits h u.
Proof.
  intros Hn Hst. assert (H0 : s_handler s0 = h /\ s_authenticated s0 = None).
  { unfold new in Hn. destruct (Transport.new_server rng hk) as [o t]. by injection Hn as _ <-. }
  assert (Hi : s_handler s = h /\ (forall v, s_authenticated s = Some v -> admits h v)).
  { eapply (steps_invariant _ (fun s => s_handler s = h /\ forall v, s_authenticated s = Some v -> admits h v));
      [|exact Hst|].
    - intros s1 s2 (o & _ & Hr) [E1 I1]. pose proof (login_run o s1) as [E2 I2]. rewrite Hr in E2, I2.
      cbn in E2, I2. split; [congruence|]. intros v Hv. destruct (I2 v Hv) as [?|Ha]; [auto|].
      by rewrite <- E1.
    - destruct H0 as [E1 E2]. split; [done|]. intros v. by rewrite E2. }
  intros Hu. destruct Hi as [E I]. split; [done|]. by apply I.
Qed.
End Login.
