(* ===== verification/ServerProps.v ===== *)
(** What the server session guarantees: it never panics, nothing of the connection
    protocol happens before authentication, the attempt caps hold, and authentication is
    the policy's decision. *)
From S2P Require Import Prelude Errors Wire Packet Version Crypto Kex Algo Cipher Compress.
From S2P Require Import Connection Auth Transport TransportFrames TransportBytes TransportInv.
From S2P Require Import TransportSteps Server ServerInv ServerSteps Client ClientSteps SessionDemo.
Import ServerConnection.

Section Reachable.
Context `{C : Crypto} `{!CryptoOk C} `{!FlateOk C} `{!OctetsOk C}.
Context {H : Type} `{A : !ServerAuthHandler H} `{!SteadyCaps H}.
Implicit Types s : ServerConnection H.


(** C7. Nothing before authentication: in every reachable state in which no user has been
    authenticated there is no channel, no program has been started, no request awaits a
    reply, and the driver has been handed nothing but disconnects and [AuthExhausted]. *)
Theorem auth_gate s :
  sreachable s -> s_authenticated s = None ->
  s_channel s = None /\ s_program_started s = false /\ s_pending_reply s = false /\
  Forall before_auth (s_events s).
Proof. intros Hs. apply (sreachable_sinv s Hs). Qed.

(** C12. The caps on authentication: in every reachable state of a connection that is not
    closing, at most [max_auth_requests] requests have been processed and fewer than
    [max_auth_attempts] have failed. *)
Theorem auth_caps s :
  sreachable s -> t_closing (s_transport s) = false ->
  s_auth_requests s <= max_auth_requests (s_handler s) /\
  (s_auth_failures s = 0 \/ s_auth_failures s < max_auth_attempts (s_handler s)).
Proof. intros Hs Hc. destruct (sreachable_sinv s Hs) as [Hb _]. by apply (b_caps _ _ Hb). Qed.

(** C13. The state is well typed: in every state that a driver can reach, whatever the peer
    has sent, the receive buffer and the packets handed up are octets with the cursor
    within the buffer, and every counter, window and size fits the machine integer that
    holds it, the bytes of output that the channel holds included. *)
Theorem session_well_typed s :
  sreachable s ->
  let t := s_transport s in
  is_bytes (t_rx t) /\ Forall event_octets (t_events t) /\
  0 <= t_rx_pos t <= len (t_rx t) /\ is_u32 (t_rx_packets_since_rekey t) /\
  is_u16 (max_chaff_len (t_obfuscation t)) /\
  (t_closing t = false ->
   is_u32 (t_tx_packets_since_rekey t) /\ is_u32 (t_consecutive_peer_rekeys t) /\
   is_u32 (s_auth_requests s) /\ is_u32 (s_auth_failures s)) /\
  forall ch, s_channel s = Some ch ->
    is_u32 (ch_local_window ch) /\ is_u32 (ch_remote_window ch) /\
    is_u32 (ch_remote_max_packet ch) /\ is_u32 (ch_unacked ch) /\
    0 <= ch_flushed_out ch /\ ch_flushed_out ch + len (stream (ch_out ch)) <= U64_MAX.
Proof.
  intros Hs t. subst t. destruct (sreachable_sinv s Hs) as [[Ht [Ho1 Ho2] Hc Hn Hk] _].
  split; [done|]. split; [done|]. split; [exact (ti_rx _ _ _ Ht)|].
  split; [pose proof (ti_rxn _ _ _ Ht); unfold is_u32, U32_MAX, EPOCH_HARD_PACKETS in *; lia|].
  split; [exact (proj1 (ti_obf _ _ _ Ht))|]. split.
  - intros Hcl. pose proof (ti_tx _ _ _ Ht) as [? Htx]. pose proof (ti_peer _ _ _ Ht) as (? & ? & Hp).
    destruct (Hk Hcl) as [Hr _]. pose proof (caps_requests (s_handler s)) as Hcap.
    rewrite Hcl in *. unfold is_u32, U32_MAX, EPOCH_HARD_PACKETS in *.
    destruct Htx, Hp; (congruence || (split_and!; lia)).
  - intros ch E. destruct (Hc ch E) as ((_ & ? & ? & ? & ? & ? & ?) & _ & Hh).
    unfold held in Hh. rewrite len_stream. unfold is_u32, DEFAULT_WINDOW, U32_MAX in *.
    split_and!; (done || lia).
Qed.
End Reachable.

(** * Who is authenticated *)
Section Authentication.
Context `{C : Crypto} {H : Type} `{A : !ServerAuthHandler H}.
Implicit Types s : ServerConnection H.

(** The policy and the protocol accept the credentials of a request. *)
Definition credentials_ok (h : H) (session : option bytes) (q : AuthRequest) : Prop :=
  match ar_method q with
  | Method_None => fst (allow_none (ar_user q) h) = true
  | Method_Password password => fst (verify_password (ar_user q) password h) = true
  | Method_PublicKey algo blob (Some signature) =>
      exists key sid, UserPublicKey.parse_blob blob = Ok key /\
        fst (is_authorized_key (ar_user q) key h) = true /\ session = Some sid /\
        UserPublicKey.verify key
          (publickey_signed_data sid (ar_user q) (ar_service q) algo blob) signature = Ok tt
  | Method_PublicKey _ _ None | Method_Unknown _ => False
  end.

Lemma auth_kept_failure : keeps s_authenticated send_failure.
Proof. unfold send_failure, disconnect, push, send_packet, on_transport. keeps_auto. Qed.

Lemma finish_auth_inv u g s s' v :
  finish_auth u g s = (Ok tt, s') -> s_authenticated s = None -> s_authenticated s' = Some v ->
  g = true /\ v = u.
Proof.
  unfold finish_auth. destruct g; intros Hf Hn Hv.
  - apply bind_Ok in Hf as (? & s1 & _ & Hf). unfold bind, modify, push in Hf.
    injection Hf as <-. cbn in Hv. by simplify_eq.
  - pose proof (auth_kept_failure s) as Hk. rewrite Hf in Hk. unfold same in Hk. cbn in Hk. congruence.
Qed.

Lemma on_handler_Ok {V} (f : H -> V * H) s a s1 :
  on_handler f s = (Ok a, s1) ->
  fst (f (s_handler s)) = a /\ s_authenticated s1 = s_authenticated s /\ s_transport s1 = s_transport s.
Proof. unfold on_handler. destruct (f (s_handler s)) as [b h]. by intros [= -> <-]. Qed.

Lemma publickey_inv q algo blob sig s s' v :
  handle_publickey q algo blob sig s = (Ok tt, s') -> s_authenticated s = None ->
  s_authenticated s' = Some v ->
  v = ar_user q /\ exists signature key sid, sig = Some signature /\
    UserPublicKey.parse_blob blob = Ok key /\
    fst (is_authorized_key (ar_user q) key (s_handler s)) = true /\
    Transport.session_id (s_transport s) = Some sid /\
    UserPublicKey.verify key
      (publickey_signed_data sid (ar_user q) (ar_service q) algo blob) signature = Ok tt.
Proof.
  assert (Hfail : forall s1, s_authenticated s1 = None -> send_failure s1 = (Ok tt, s') ->
    s_authenticated s' = Some v -> False).
  { intros s1 Hn Hf Hv. pose proof (auth_kept_failure s1) as Hk. rewrite Hf in Hk. unfold same in Hk.
    cbn in Hk. congruence. }
  unfold handle_publickey. intros Hf Hn Hv.
  destruct (UserPublicKey.parse_blob blob) as [key|e| |]; [|exfalso; eauto|done|done].
  apply bind_Ok in Hf as (g & s1 & Hg & Hf). apply on_handler_Ok in Hg as (Hg & Ha & Ht).
  rewrite <- Ha in Hn. destruct g; cbn [negb] in Hf; [|exfalso; eauto].
  destruct sig as [signature|].
  - apply bind_Ok in Hf as (? & ? & [= <- <-] & Hf).
    apply bind_Ok in Hf as (sid & s2 & Hs & Hf). rewrite Ht in Hs.
    destruct (Transport.session_id (s_transport s)) as [sid'|]; [|done]. injection Hs as -> <-.
    destruct (finish_auth_inv _ _ _ _ _ Hf Hn Hv) as [Hok ->]. split; [done|].
    exists signature, key, sid. split_and!; try done.
    by destruct (UserPublicKey.verify key _ signature) as [[]| | |].
  - unfold send_packet, on_transport, zoom in Hf.
    destruct (Transport.send_packet _ _) as [o t]. simplify_eq. cbn in Hv. congruence.
Qed.

(** C6. Authentication is the policy's decision: whatever packet arrives, a user becomes
    authenticated only if the packet is a request for that user whose credentials the
    policy accepts; a public key moreover only with a signature that verifies over this
    session's identifier, this user, service, algorithm and key; and only while the
    request is within the cap. *)
Theorem authentication_sound p s s' u :
  s_authenticated s = None -> handle_preauth p s = (Ok tt, s') -> s_authenticated s' = Some u ->
  exists q, AuthRequest.parse p = Ok q /\ ar_user q = u /\
    credentials_ok (s_handler s) (Transport.session_id (s_transport s)) q /\
    s_auth_requests s < max_auth_requests (s_handler s).
Proof.
  intros Hn Hp Hu. unfold handle_preauth in Hp. destruct p as [|id p]; [unfold ret in Hp; simplify_eq; congruence|].
  destruct (id =? msg.SERVICE_REQUEST).
  { assert (Hk : keeps s_authenticated (handle_service_request (id :: p))).
    { assert (Hh : forall V (f : H -> V * H), keeps s_authenticated (on_handler f)).
      { intros V f s0. unfold on_handler, same. by destruct (f _). }
      unfold handle_service_request, parse, send_packet, disconnect, on_transport. keeps_auto. }
    specialize (Hk s). rewrite Hp in Hk. unfold same in Hk. cbn in Hk. congruence. }
  destruct (id =? msg.USERAUTH_REQUEST); [|unfold ret in Hp; simplify_eq; congruence].
  unfold handle_userauth in Hp. apply bind_Ok in Hp as (? & ? & [= <- <-] & Hp).
  apply bind_Ok in Hp as (n & s1 & Hc & Hp). unfold checked in Hc.
  destruct ((0 <=? s_auth_requests s + 1) && _); [|done]. injection Hc as <- <-.
  apply bind_Ok in Hp as ([] & s1 & [= <-] & Hp).
  match type of Hp with _ ?x = _ => set (s1 := x) in Hp end.
  assert (Hn1 : s_authenticated s1 = None) by exact Hn.
  change (s_handler s) with (s_handler s1). change (s_transport s) with (s_transport s1).
  destruct (Z.ltb_spec (max_auth_requests (s_handler s)) (s_auth_requests s + 1)) as [|Hcap].
  { assert (Hk : keeps s_authenticated
      (disconnect (H := H) msg.PROTOCOL_ERROR (str "too many authentication requests") ;;; push AuthExhausted)).
    { unfold disconnect, push, on_transport. keeps_auto. }
    specialize (Hk s1). rewrite Hp in Hk. unfold same in Hk. cbn in Hk. congruence. }
  change (s_handler s) with (s_handler s1) in Hcap.
  apply bind_Ok in Hp as (q & s2 & Hq & Hp). injection Hq as Hq <-. exists q.
  split; [done|]. unfold credentials_ok.
  assert (Hlt : s_auth_requests s < max_auth_requests (s_handler s1)) by lia.
  destruct (ar_method q) as [|password|algo blob sig|name].
  - apply bind_Ok in Hp as (g & s2 & Hg & Hp). apply on_handler_Ok in Hg as (Hg & Ha & _).
    rewrite <- Ha in Hn1. destruct (finish_auth_inv _ _ _ _ _ Hp Hn1 Hu) as [-> ->]. done.
  - apply bind_Ok in Hp as (g & s2 & Hg & Hp). apply on_handler_Ok in Hg as (Hg & Ha & _).
    rewrite <- Ha in Hn1. destruct (finish_auth_inv _ _ _ _ _ Hp Hn1 Hu) as [-> ->]. done.
  - destruct (publickey_inv _ _ _ _ _ _ _ Hp Hn1 Hu) as (-> & sg & key & sid & -> & ? & ? & ? & ?).
    split_and!; try done. eauto 10.
  - destruct (finish_auth_inv _ _ _ _ _ Hp Hn1 Hu) as [? _]. done.
Qed.
End Authentication.

(** * Witnesses *)


Lemma auth_gate_witness :
  s_channel Session.s3 = None /\ s_program_started Session.s3 = false /\
  s_pending_reply Session.s3 = false /\ Forall before_auth (s_events Session.s3).
Proof.
  apply (@auth_gate Toy.crypto Toy.crypto_ok Toy.flate_ok Toy.octets_ok unit demo_policy
    demo_policy_steady); [apply session_s3|reflexivity].
Defined.

Lemma auth_caps_witness :
  s_auth_requests Session.s6 <= 50 /\ (s_auth_failures Session.s6 = 0 \/ s_auth_failures Session.s6 < 6).
Proof.
  apply (@auth_caps Toy.crypto Toy.crypto_ok Toy.flate_ok Toy.octets_ok unit demo_policy
    demo_policy_steady Session.s6); [apply session_s6|reflexivity].
Defined.

Lemma session_well_typed_witness :
  let t := s_transport Session.s6 in
  is_bytes (t_rx t) /\ Forall event_octets (t_events t) /\
  0 <= t_rx_pos t <= len (t_rx t) /\ is_u32 (t_rx_packets_since_rekey t) /\
  is_u16 (max_chaff_len (t_obfuscation t)) /\
  (t_closing t = false ->
   is_u32 (t_tx_packets_since_rekey t) /\ is_u32 (t_consecutive_peer_rekeys t) /\
   is_u32 (s_auth_requests Session.s6) /\ is_u32 (s_auth_failures Session.s6)) /\
  forall ch, s_channel Session.s6 = Some ch ->
    is_u32 (ch_local_window ch) /\ is_u32 (ch_remote_window ch) /\
    is_u32 (ch_remote_max_packet ch) /\ is_u32 (ch_unacked ch) /\
    0 <= ch_flushed_out ch /\ ch_flushed_out ch + len (stream (ch_out ch)) <= U64_MAX.
Proof.
  apply (@session_well_typed Toy.crypto Toy.crypto_ok Toy.flate_ok Toy.octets_ok unit demo_policy
    demo_policy_steady Session.s6). apply session_s6.
Defined.

Lemma authentication_sound_witness :
  exists q, AuthRequest.parse Session.guest_login = Ok q /\ ar_user q = str "guest" /\
    credentials_ok (C := Toy.crypto) tt (Transport.session_id (s_transport Session.s3)) q /\
    s_auth_requests Session.s3 < 50.
Proof.
  apply (@authentication_sound Toy.crypto unit demo_policy Session.guest_login Session.s3 Session.guest_in);
    [reflexivity| |reflexivity].
  vm_cast_no_check (@eq_refl (result unit * ServerConnection (C := Toy.crypto) unit) (Ok tt, Session.guest_in)).
Defined.
