(* ===== verification/ServerChannels.v ===== *)
(** The server's side of the connection protocol: one program per channel, the requests
    and the data of a client as the handlers see them, the end of a session, and what
    authentication grants. *)
From S2P Require Import Prelude Errors Wire Packet Version Crypto Kex Algo Cipher Compress.
From S2P Require Import Connection Auth Transport TransportFrames TransportBytes TransportInv.
From S2P Require Import TransportSteps Server ServerInv ServerSteps Client ClientSteps SessionDemo.
Import ServerConnection.

(** * One program per channel *)
Definition is_program_event (e : ServerEvent) : bool :=
  match e with ExecRequest _ _ | ShellRequest _ | SubsystemRequest _ _ => true | _ => false end.
Definition programs (l : list ServerEvent) : Z := len (List.filter is_program_event l).

(** Packets that start or end a channel. *)
Definition turns_channel (p : bytes) : bool :=
  match p with id :: _ => (id =? msg.CHANNEL_OPEN) || (id =? msg.CHANNEL_CLOSE) | [] => false end.
Definition turns (ps : list bytes) : Z := len (List.filter turns_channel ps).

Section Programs.
Context `{C : Crypto} {H : Type} `{A : !ServerAuthHandler H}.
Implicit Types s : ServerConnection H.

(** Programs handed to the driver, and the one that may still come. *)
Definition unstarted s : Z := if s_program_started s then 0 else 1.
Definition budget s : Z := programs (s_events s) + unstarted s.
Definition within_budget (n : Z) s s' : Prop := budget s' <= budget s + n.
Abbreviation thrifty := (within_budget 0).

#[export] Instance thrifty_preorder : PreOrder thrifty.
Proof. unfold within_budget. split; [intros s; lia|]. intros s1 s2 s3. lia. Qed.

Lemma programs_snoc l e : programs (l ++ [e]) = programs l + (if is_program_event e then 1 else 0).
Proof.
  unfold programs. rewrite List.filter_app, len_app. cbn [List.filter].
  by destruct (is_program_event e).
Qed.

Lemma thrifty_push e : is_program_event e = false -> stays thrifty (push (H := H) e).
Proof.
  intros He s. unfold within_budget, budget, push, modify. cbn [snd].
  change (programs (s_events s ++ [e]) + unstarted s <= programs (s_events s) + unstarted s + 0).
  rewrite programs_snoc, He. lia.
Qed.
#[local] Hint Extern 1 (stays (within_budget 0) (push _)) => apply thrifty_push; reflexivity : frame.

Lemma thrifty_on_transport {V} (m : M SshError Transport V) : stays thrifty (on_transport (H := H) m).
Proof.
  apply stays_zoom. intros t s. unfold within_budget.
  change (budget s <= budget s + 0). lia.
Qed.
Lemma thrifty_on_channel {V} ch (m : M SshError Channel V) : stays thrifty (on_channel (H := H) ch m).
Proof.
  apply stays_zoom. intros t s. unfold within_budget.
  change (budget s <= budget s + 0). lia.
Qed.
#[local] Hint Resolve @thrifty_on_transport @thrifty_on_channel : frame.

Ltac thrifty_step :=
  first
    [ lazymatch goal with
      | |- stays _ (modify _) =>
          refine (stays_modify _ _ _); let st := fresh "st" in intros st; unfold within_budget;
          change (budget st <= budget st + 0); lia
      | |- stays _ (on_transport _) => apply thrifty_on_transport
      | |- stays _ (on_channel _ _) => apply thrifty_on_channel
      end
    | keeps_step ].
Ltac thrifty_auto := repeat thrifty_step.

Lemma thrifty_reply b : stays thrifty (reply (H := H) b).
Proof. unfold reply, send_packet. thrifty_auto. Qed.
#[local] Hint Resolve thrifty_reply : frame.

Lemma thrifty_session req w r : stays thrifty (session_request (H := H) req w r).
Proof. unfold session_request. thrifty_auto. Qed.

(** Starting a program spends the budget of the channel. *)
Lemma start_program_budget w e s :
  is_program_event e = true -> s_program_started s = false ->
  budget (snd ((s_pending_reply <-! w ;;; s_program_started <-! true ;;; push e) s)) = budget s.
Proof.
  intros He Hs. unfold bind, modify, push, budget, unstarted. cbn.
  rewrite programs_snoc, He, Hs. lia.
Qed.

Lemma dispatch_budget req w r s :
  (is_program req = true -> s_program_started s = false) ->
  thrifty s (snd (dispatch_request req w r s)).
Proof.
  unfold is_program, dispatch_request. intros Hs.
  assert (Hp : forall e, is_program_event e = true -> s_program_started s = false ->
    thrifty s (snd ((s_pending_reply <-! w ;;; s_program_started <-! true ;;; push e) s))).
  { intros e He Hn. unfold within_budget. rewrite start_program_budget by done. lia. }
  assert (Hl : forall V (p : RM V) (k : V * Reader -> M SshError (ServerConnection H) unit),
    (forall x, thrifty s (snd (k x s))) -> thrifty s (snd (bind (on_local p r) k s))).
  { intros V p k Hk. unfold bind, on_local. by destruct (p r) as [[v|e| |] r']; [apply Hk|..]. }
  destruct (beq req (str "exec")). { apply Hl. intros [c r']. by apply Hp, Hs. }
  destruct (beq req (str "shell")). { by apply Hp, Hs. }
  destruct (beq req (str "subsystem")). { apply Hl. intros [c r']. by apply Hp, Hs. }
  apply thrifty_session.
Qed.

Lemma request_budget p s : thrifty s (snd (handle_channel_request p s)).
Proof.
  unfold handle_channel_request, bind at 1.
  destruct (on_local _ _ s) as [[[[req w] r]|e| |] s1] eqn:Hl.
  2-4: unfold on_local in Hl; repeat case_match; simplify_eq; reflexivity.
  assert (s1 = s) as -> by (unfold on_local in Hl; repeat case_match; by simplify_eq).
  unfold bind, get. destruct (is_program req && s_program_started s) eqn:Hb.
  - assert (Hs : stays thrifty (when w (reply (H := H) false))) by thrifty_auto. apply Hs.
  - apply dispatch_budget. intros Hp. rewrite Hp in Hb. exact Hb.
Qed.

(** Events of an open or a close: no program among them. *)
Definition no_program s s' : Prop := programs (s_events s') <= programs (s_events s).
#[export] Instance no_program_preorder : PreOrder no_program.
Proof. unfold no_program. split; [intros s; lia|]. intros s1 s2 s3. lia. Qed.

Lemma no_program_push e : is_program_event e = false -> stays no_program (push (H := H) e).
Proof.
  intros He s. unfold no_program, push, modify. cbn. rewrite programs_snoc, He. lia.
Qed.

Ltac no_program_step :=
  first
    [ lazymatch goal with
      | |- stays _ (push _) => apply no_program_push; reflexivity
      | |- stays _ (modify _) =>
          refine (stays_modify _ _ _); let st := fresh "st" in intros st;
          exact (Z.le_refl (programs (s_events st)))
      | |- stays _ (zoom _ _ _) =>
          apply stays_zoom; let st := fresh "st" in intros ? st;
          exact (Z.le_refl (programs (s_events st)))
      end
    | keeps_step ].

Lemma turn_no_program :
  (forall p, stays no_program (handle_channel_open (H := H) p)) /\
  stays no_program (handle_channel_close (H := H)).
Proof.
  split; [intros p|]; unfold handle_channel_open, handle_channel_close, parse, send_packet, on_transport;
    repeat no_program_step.
Qed.

Lemma connection_budget p s :
  budget (snd (handle_connection p s)) <= budget s + (if turns_channel p then 1 else 0).
Proof.
  assert (Hturn : forall m : M SshError (ServerConnection H) unit, stays no_program m ->
    budget (snd (m s)) <= budget s + 1).
  { intros m Hm. specialize (Hm s). unfold no_program in Hm. unfold budget, unstarted.
    destruct (s_program_started s), (s_program_started (snd (m s))); lia. }
  destruct turn_no_program as [Hopen Hclose].
  unfold handle_connection, turns_channel. destruct p as [|id p]; [cbn; lia|].
  destruct (id =? msg.CHANNEL_OPEN) eqn:E1; [by apply Hturn|]. cbn [orb].
  destruct (id =? msg.CHANNEL_REQUEST) eqn:E2.
  { assert ((id =? msg.CHANNEL_CLOSE) = false) as -> by (unfold msg.CHANNEL_REQUEST, msg.CHANNEL_CLOSE in *; lia).
    apply (request_budget (id :: p) s). }
  destruct (id =? msg.CHANNEL_DATA) eqn:E3.
  { assert ((id =? msg.CHANNEL_CLOSE) = false) as -> by (unfold msg.CHANNEL_DATA, msg.CHANNEL_CLOSE in *; lia).
    assert (Hs : stays thrifty (handle_channel_data (H := H) (id :: p))).
    { unfold handle_channel_data, parse, disconnect. thrifty_auto. }
    apply (Hs s). }
  destruct (id =? msg.CHANNEL_WINDOW_ADJUST) eqn:E4.
  { assert ((id =? msg.CHANNEL_CLOSE) = false) as ->
      by (unfold msg.CHANNEL_WINDOW_ADJUST, msg.CHANNEL_CLOSE in *; lia).
    assert (Hs : stays thrifty (handle_window_adjust (H := H) (id :: p))).
    { unfold handle_window_adjust, flush_channel, parse, send_packet. thrifty_auto. }
    apply (Hs s). }
  destruct (id =? msg.CHANNEL_EOF) eqn:E5.
  { assert ((id =? msg.CHANNEL_CLOSE) = false) as -> by (unfold msg.CHANNEL_EOF, msg.CHANNEL_CLOSE in *; lia).
    exact (thrifty_push (SE_ChannelEof LOCAL_CHANNEL) eq_refl s). }
  destruct (id =? msg.CHANNEL_CLOSE) eqn:E6; [by apply Hturn|cbn; lia].
Qed.

(** C37. One program per channel: however many requests a client sends, the driver is handed
    at most one program (exec, shell or subsystem) more than there are packets that open
    or close a channel. *)
Theorem one_program_per_channel ps s :
  programs (s_events (snd (mfor ps handle_connection s))) <=
    programs (s_events s) + (if s_program_started s then 0 else 1) + turns ps.
Proof.
  assert (Hb : budget (snd (mfor ps handle_connection s)) <= budget s + turns ps).
  { revert s. induction ps as [|p ps IH]; intros s; cbn [mfor].
    { change (budget s <= budget s + 0). lia. }
    assert (Ht : turns (p :: ps) = (if turns_channel p then 1 else 0) + turns ps).
    { unfold turns. cbn [List.filter]. destruct (turns_channel p); len_lia. }
    rewrite Ht. pose proof (connection_budget p s) as Hp. unfold bind.
    assert (0 <= turns ps) by apply len_nonneg. revert Hp.
    destruct (handle_connection p s) as [[a|e| |] s1]; cbn [snd]; intros Hp; [specialize (IH s1)|..]; lia. }
  unfold budget, unstarted in Hb.
  destruct (s_program_started (snd (mfor ps handle_connection s))); lia.
Qed.
End Programs.

(** * Requests and data *)
Section Requests.
Context `{C : Crypto} {H : Type} `{A : !ServerAuthHandler H}.
Implicit Types s : ServerConnection H.

Lemma on_local_reads {S V W} (p : RM V) b1 b2 x (k : V * Reader -> M SshError S W) (s : S) :
  reads p b1 x -> len (b1 ++ b2) <= U64_MAX ->
  (let* v := on_local p (Reader.new (b1 ++ b2)) in k v) s = k (x, mkReader (b1 ++ b2) (len b1)) s.
Proof.
  intros Hp Hl. unfold bind, on_local. specialize (Hp [] b2 Hl). unfold Reader.new.
  change 0 with (len (@nil Z)). cbn [app] in Hp. rewrite Hp. by rewrite Z.add_0_l.
Qed.

(** The part of a request that all types share. *)
Definition request_head : RM (bytes * bool) :=
  let* _ := Reader.u8 in
  let* _recipient := Reader.u32 in
  let* request := Reader.utf8 in
  let* want_reply := Reader.boolean in
  ret (request, want_reply).

Lemma reads_request_head r name w :
  is_u32 r -> text_ok name ->
  reads request_head ([msg.CHANNEL_REQUEST] ++ to_be32 r ++ wire_string name ++ wire_bool w) (name, w).
Proof.
  intros Hr Hn. unfold request_head.
  eapply reads_bind; [apply reads_u8|]. eapply reads_bind; [by apply reads_u32_id|].
  eapply reads_bind; [by apply reads_text|]. apply (reads_bind_ret Reader.boolean (pair name)).
  apply reads_boolean.
Qed.

(** What the server does with the program request that a client builds. *)
Definition started (w : bool) (e : ServerEvent) s : ServerConnection H :=
  s <| s_pending_reply := w |> <| s_program_started := true |> <| s_events ::= fun q => q ++ [e] |>.

Lemma exec_request_runs r w command s :
  is_u32 r -> text_ok command -> len (channel_request_exec r w command) <= U64_MAX ->
  s_program_started s = false ->
  handle_connection (channel_request_exec r w command) s =
    (Ok tt, started w (ExecRequest LOCAL_CHANNEL command) s).
Proof.
  intros Hr Hc Hl Hs.
  assert (He : channel_request_exec r w command =
    ([msg.CHANNEL_REQUEST] ++ to_be32 r ++ wire_string (str "exec") ++ wire_bool w) ++ wire_string command).
  { unfold channel_request_exec. wire_norm. done. }
  change (handle_connection (channel_request_exec r w command) s)
    with (handle_channel_request (channel_request_exec r w command) s).
  unfold handle_channel_request. fold request_head. rewrite He in *.
  rewrite (on_local_reads _ _ _ _ _ _ (reads_request_head r (str "exec") w Hr ltac:(by split))); [|exact Hl].
  unfold bind at 1, get. rewrite Hs, andb_false_r.
  unfold dispatch_request. rewrite beq_refl. cbv iota.
  assert (Hu : reads Reader.utf8 (wire_string command) command) by by apply reads_text.
  specialize (Hu ([msg.CHANNEL_REQUEST] ++ to_be32 r ++ wire_string (str "exec") ++ wire_bool w) []).
  rewrite app_nil_r in Hu. specialize (Hu Hl). unfold bind, on_local. by rewrite Hu.
Qed.

(** An exec request reaches the driver: the request that a client builds is handed over
    with its command and its [want_reply], and marks the program started, whatever the
    state of the channel; a channel need not even be open. *)
Lemma exec_request_surfaces r w command s :
  is_u32 r -> text_ok command -> len (channel_request_exec r w command) <= U64_MAX ->
  s_program_started s = false ->
  handle_connection (channel_request_exec r w command) s =
    (Ok tt, started w (ExecRequest LOCAL_CHANNEL command) s).
Proof. apply exec_request_runs. Qed.

(** Channel data is accounted against the window that was granted: data within the
    window is handed to the driver and shrinks the window by its length, more data than
    the window closes the connection and is not handed over; with no channel open the
    data is handed over with no accounting at all. *)
Lemma channel_data_spec r d s :
  is_u32 r -> len d <= U32_MAX -> len (channel_data r d) <= U64_MAX ->
  handle_connection (channel_data r d) s =
    match s_channel s with
    | None => (Ok tt, s <| s_events ::= fun q => q ++ [SE_ChannelData LOCAL_CHANNEL d] |>)
    | Some ch =>
        if ch_local_window ch <? len d
        then disconnect msg.PROTOCOL_ERROR (str "channel window exceeded") (s <| s_channel := Some ch |>)
        else (Ok tt, s <| s_channel := Some (ch <| ch_local_window ::= fun w => w - len d |>) |>
                       <| s_events ::= fun q => q ++ [SE_ChannelData LOCAL_CHANNEL d] |>)
    end.
Proof.
  intros Hr Hd Hl.
  assert (He : channel_data r d = [msg.CHANNEL_DATA] ++ to_be32 r ++ wire_string d).
  { unfold channel_data. wire_norm. done. }
  change (handle_connection (channel_data r d) s) with (handle_channel_data (channel_data r d) s).
  unfold handle_channel_data, parse. rewrite He in *.
  assert (Hp : run (let* _ := Reader.u8 in let* _recipient := Reader.u32 in Reader.string)
    (Reader.new ([msg.CHANNEL_DATA] ++ to_be32 r ++ wire_string d)) = Ok d).
  { apply reads_run; [|exact Hl]. eapply reads_bind; [apply reads_u8|].
    eapply reads_bind; [by apply reads_u32_id|]. by apply reads_wire_string. }
  unfold bind at 1, lift. rewrite Hp. unfold bind at 1, get.
  rewrite as_u32_id by (split; [apply len_nonneg|done]).
  destruct (s_channel s) as [ch|]; [|done].
  unfold Channel.consume_incoming. by destruct (ch_local_window ch <? len d).
Qed.

End Requests.


(** * What authentication grants *)
Section Granted.
Context `{C : Crypto} `{!CryptoOk C} `{!FlateOk C} {H : Type} `{A : !ServerAuthHandler H}.
Implicit Types s : ServerConnection H.

Lemma send_packet_returns p t :
  tinv t -> t_phase t = Established -> exists t', Transport.send_packet p t = (Ok tt, t').
Proof.
  intros Ht Hp.
  assert (Hw : wp (Transport.send_packet p) (fun _ _ => True) (fun _ _ => False) t).
  { unfold Transport.send_packet, Transport.is_established. do 2 wp_step. rewrite bool_decide_true by done.
    cbn [negb]. destruct (t_rekeying t); [done|].
    apply wp_bind. eapply wp_mono; [by apply write_packet_tinv| |done]. cbv beta. intros ? t1 H1.
    do 4 wp_step. apply wp_when; intros _; [|done].
    eapply wp_mono; [apply initiate_rekey_wp|done|done]. by destruct H1; constructor. }
  unfold wp in Hw. destruct (Transport.send_packet p t) as [[[]|e| |] t']; try done. eauto.
Qed.

(** A [none] request that the policy accepts; nothing asks whether the connection closes. *)
Lemma none_request_granted user service s :
  tinv (s_transport s) -> t_phase (s_transport s) = Established -> s_authenticated s = None ->
  0 <= s_auth_requests s < U32_MAX -> s_auth_requests s < max_auth_requests (s_handler s) ->
  AuthRequest.parse (none_request user service) = Ok (mkAuthRequest user service Method_None) ->
  fst (allow_none user (s_handler s)) = true ->
  exists s', handle_preauth (none_request user service) s = (Ok tt, s') /\
    s_authenticated s' = Some user /\
    s_events s' = s_events s ++ [SE_Authenticated user].
Proof.
  intros Ht Hp Hn Hr Hcap Hq Hg.
  change (handle_preauth (none_request user service) s)
    with (handle_userauth (none_request user service) s).
  unfold handle_userauth. unfold bind at 1, get. unfold bind at 1, checked.
  replace ((0 <=? s_auth_requests s + 1) && (s_auth_requests s + 1 <=? U32_MAX)) with true by lia.
  unfold ret at 1, bind at 1, modify at 1.
  destruct (Z.ltb_spec (max_auth_requests (s_handler s)) (s_auth_requests s + 1)); [lia|].
  unfold bind at 1, lift. rewrite Hq. cbn [ar_method ar_user].
  unfold bind at 1, on_handler. cbn [s_handler set].
  destruct (allow_none user (s_handler s)) as [g h]. cbn in Hg. subst g.
  unfold finish_auth, bind at 1, send_packet, on_transport, zoom. cbn [s_transport set].
  destruct (send_packet_returns userauth_success (s_transport s) Ht Hp) as (t' & ->).
  eexists. split; [reflexivity|]. done.
Qed.

(** Closing does not stop authentication: after [AuthExhausted] (and any other
    disconnect of ours) a request that waits in the same batch is still served, and a
    request that the policy accepts authenticates its user, whatever the number of failures;
    the driver is told so by an event that follows [AuthExhausted]. *)
Lemma exhausted_still_authenticates user service q s :
  tinv (s_transport s) -> t_phase (s_transport s) = Established -> s_authenticated s = None ->
  0 <= s_auth_requests s < U32_MAX -> s_auth_requests s < max_auth_requests (s_handler s) ->
  AuthRequest.parse (none_request user service) = Ok (mkAuthRequest user service Method_None) ->
  fst (allow_none user (s_handler s)) = true ->
  t_closing (s_transport s) = true -> s_events s = q ++ [AuthExhausted] ->
  exists s', handle_preauth (none_request user service) s = (Ok tt, s') /\
    s_authenticated s' = Some user /\
    s_events s' = q ++ [AuthExhausted; SE_Authenticated user].
Proof.
  intros H1 H2 H3 H4 H5 H6 H7 _ He.
  destruct (none_request_granted user service s H1 H2 H3 H4 H5 H6 H7) as (s' & Hs & Ha & Hv).
  exists s'. split; [exact Hs|]. split; [exact Ha|]. by rewrite Hv, He, <- app_assoc.
Qed.
End Granted.

(** * The end of a session *)
Section Exit.
Context `{C : Crypto} {H : Type} `{A : !ServerAuthHandler H}.
Implicit Types s : ServerConnection H.

(** The program's exit closes the channel once: with no output queued, the exit status,
    EOF and CLOSE are sent in that order and the channel is marked; on a channel that has
    been closed already nothing is sent. *)
Lemma channel_exit_spec n ch s :
  s_channel s = Some ch -> ch_local_id ch = LOCAL_CHANNEL ->
  ch_out ch = [] ->
  let ch1 := ch <| ch_exit_status := Some n |> <| ch_want_close := true |> in
  channel_exit LOCAL_CHANNEL n s =
    (if ch_sent_close ch then (Ok tt, s <| s_channel := Some ch1 |>)
     else (send_packet (channel_request_exit_status (ch_remote_id ch) n) ;;;
           send_packet (channel_eof (ch_remote_id ch)) ;;;
           send_packet (channel_close (ch_remote_id ch)))
            (s <| s_channel := Some (ch1 <| ch_sent_eof := true |> <| ch_sent_close := true |>) |>)).
Proof.
  intros Hc Hid Ho ch1. unfold channel_exit, channel_for, bind at 1, get. rewrite Hc, Hid, Z.eqb_refl.
  unfold bind at 1, modify at 1. unfold flush_channel, bind at 1, get. cbn [s_channel set].
  change (Channel.request_close _) with ch1.
  assert (Hd : forall mc, Channel.drain_output mc ch1 = (Ok [], ch1)).
  { intros mc. assert (Ho1 : ch_out ch1 = []) by exact Ho. clearbody ch1.
    unfold Channel.drain_output. rewrite Ho1. change (Z.to_nat (queued [])) with 0%nat.
    unfold Channel.drain_loop, bind, get. cbv beta iota. by rewrite Ho1. }
  unfold bind at 1, on_channel, zoom. rewrite Hd.
  unfold bind at 1. cbn [mfor]. unfold ret at 1.
  replace (negb (len (@nil bytes) =? 0)) with false by done. unfold when.
  unfold bind at 1, ret at 1, bind at 1, get. cbn [s_channel set].
  assert (Hx : Channel.out_is_empty ch1 && Channel.close_requested ch1 && negb (ch_sent_close ch1) =
    negb (ch_sent_close ch)).
  { unfold Channel.out_is_empty. change (ch_out ch1) with (ch_out ch). by rewrite Ho. }
  rewrite Hx. destruct (ch_sent_close ch); [|done]. cbn. unfold ret. by destruct s.
Qed.
End Exit.

(** * Witnesses *)

Lemma channel_data_spec_witness :
  handle_connection (C := Toy.crypto) (channel_data 0 [1; 2]) Session.s3 =
    (Ok tt, Session.s3 <| s_events ::= fun q => q ++ [SE_ChannelData LOCAL_CHANNEL [1; 2]] |>).
Proof.
  apply (@channel_data_spec Toy.crypto unit 0 [1; 2] Session.s3); vm_compute; intuition congruence.
Defined.

Lemma exhausted_still_authenticates_witness :
  exists s', handle_preauth (C := Toy.crypto) Session.guest_login Session.shut = (Ok tt, s') /\
    s_authenticated s' = Some (str "guest") /\
    s_events s' = [] ++ [AuthExhausted; SE_Authenticated (str "guest")].
Proof.
  apply (@exhausted_still_authenticates Toy.crypto Toy.crypto_ok Toy.flate_ok unit demo_policy);
    try reflexivity.
  - destruct (@sreachable_sinv Toy.crypto Toy.crypto_ok Toy.flate_ok Toy.octets_ok
      unit demo_policy demo_policy_steady _ session_shut) as [Hb _]. by destruct Hb.
  - vm_compute; intuition congruence.
Defined.
