(* ===== verification/ClientProps.v ===== *)
(** What the client session guarantees: it never panics, its receive window never starves a
    server that keeps to it, a host key that the policy rejects ends the connection, and
    an honest key is accepted by the server. *)
From S2P Require Import Prelude Errors Wire Packet Version Crypto Kex Algo Cipher Compress.
From S2P Require Import Connection Auth Transport TransportFrames TransportBytes TransportInv.
From S2P Require Import TransportSteps Server ServerInv ServerSteps Client ClientSteps SessionDemo.
From S2P Require Import ServerProps.
Import ClientConnection.

Section Reachable.
Context `{C : Crypto} `{!CryptoOk C} `{!FlateOk C} `{!OctetsOk C}.
Context {H : Type} `{A : !ClientAuthHandler H}.
Implicit Types s : ClientConnection H.


(** C29. The client's window never starves a server that keeps to it: in every reachable
    state more than half of the initial window is open, since what is accounted is
    acknowledged at once. *)
Theorem client_window_open s ch :
  creachable s -> c_channel s = Some ch ->
  DEFAULT_WINDOW / 2 < ch_local_window ch <= DEFAULT_WINDOW.
Proof.
  intros Hs Hc. destruct (ci_channel _ (creachable_cinv s Hs) _ Hc) as ((_ & ? & ? & _) & _ & Hw & Hu).
  assert (HD : DEFAULT_WINDOW = 2 * (DEFAULT_WINDOW / 2)) by reflexivity.
  generalize dependent DEFAULT_WINDOW. intros. lia.
Qed.
End Reachable.

(** * Host keys *)
Section HostKeys.
Context `{C : Crypto} `{!CryptoOk C} `{!FlateOk C} {H : Type} `{A : !ClientAuthHandler H}.
Implicit Types s : ClientConnection H.

Lemma host_key_rejection k s :
  tinv (c_transport s) -> fst (verify_host_key k (c_handler s)) = false ->
  exists s', handle_event (ServerHostKey k) s = (Ok tt, s') /\
    c_state s' = CS_Done /\ c_host_rejected s' = true /\ t_closing (c_transport s') = true /\
    c_events s' = c_events s ++ [CE_HostKeyRejected].
Proof.
  intros Ht Hv. unfold handle_event, bind at 1, on_handler.
  destruct (verify_host_key k (c_handler s)) as [g h]. cbn in Hv. subst g. cbn [negb].
  unfold push, bind, modify, disconnect, on_transport, zoom. cbn [c_transport set].
  pose proof (disconnect_wp _ msg.KEY_EXCHANGE_FAILED (str "host key rejected") _ Ht) as Hw.
  pose proof (disconnect_closes msg.KEY_EXCHANGE_FAILED (str "host key rejected") (c_transport s)) as Hc.
  unfold wp in Hw. destruct (Transport.disconnect _ _ (c_transport s)) as [[[]|e| |] t]; try done.
  eexists. split; [reflexivity|]. split_and!; try done. by apply Hc.
Qed.

(** C27. A host key that the policy does not trust ends the connection: the application is
    told, our disconnect is queued, no authentication is requested when the key exchange
    completes, and the client is done. *)
Theorem host_key_gate k s :
  tinv (c_transport s) -> fst (verify_host_key k (c_handler s)) = false ->
  exists s', handle_event (ServerHostKey k) s = (Ok tt, s') /\
    c_state s' = CS_Done /\ t_closing (c_transport s') = true /\
    c_events s' = c_events s ++ [CE_HostKeyRejected] /\
    handle_event Ev_Established s' = (Ok tt, s').
Proof.
  intros Ht Hv. destruct (host_key_rejection k s Ht Hv) as (s' & Hs & H1 & H2 & H3 & H4).
  exists s'. split_and!; try done. unfold handle_event, bind, get. by rewrite H2.
Qed.

(** Success is never questioned: after the host key has been rejected, and without a
    single authentication attempt, a USERAUTH_SUCCESS in the same batch makes the client
    authenticated, and tells the application so. *)
Lemma success_after_rejection k s :
  tinv (c_transport s) -> fst (verify_host_key k (c_handler s)) = false ->
  exists s', mfor [ServerHostKey k; Ev_Established; Packet userauth_success] handle_event s = (Ok tt, s') /\
    is_authenticated s' = true /\ c_host_rejected s' = true /\
    c_events s' = c_events s ++ [CE_HostKeyRejected; CE_Authenticated].
Proof.
  intros Ht Hv. destruct (host_key_rejection k s Ht Hv) as (s' & Hs & H1 & H2 & H3 & H4).
  cbn [mfor]. unfold bind at 1. rewrite Hs. unfold bind at 1.
  assert (He : handle_event Ev_Established s' = (Ok tt, s')).
  { unfold handle_event, bind, get. by rewrite H2. }
  rewrite He. unfold bind at 1.
  assert (Hp : handle_event (Packet userauth_success) s' =
    (Ok tt, s' <| c_state := CS_Authenticated |> <| c_events ::= fun q => q ++ [CE_Authenticated] |>))
    by reflexivity.
  rewrite Hp. eexists. split; [reflexivity|]. split_and!; try done. cbn. by rewrite H4, <- app_assoc.
Qed.
End HostKeys.

(** * An honest client and an honest server *)
Section Honest.
Context `{C : Crypto} `{!CryptoOk C}.
Context {Hc : Type} `{A : !ClientAuthHandler Hc} {Hs : Type} `{B : !ServerAuthHandler Hs}.

(** The request for a key, a user and a session. *)
Definition key_request (sid user : bytes) (k : UserKeypair) : AuthRequest :=
  let blob := UserPublicKey.blob (UserKeypair.public k) in
  mkAuthRequest user SERVICE_CONNECTION
    (Method_PublicKey HOSTKEY_ED25519 blob
      (Some (UserKeypair.sign k (publickey_signed_data sid user SERVICE_CONNECTION HOSTKEY_ED25519 blob)))).

Definition key_packet (sid user : bytes) (k : UserKeypair) : bytes :=
  default [] (encode_request (key_request sid user k)).

Lemma len_user_blob k : len (UserPublicKey.blob (UserKeypair.public k)) = 51.
Proof. unfold UserPublicKey.blob. wire_norm. len_simpl. by rewrite verifying_as_bytes_len. Qed.

Lemma len_user_sign k d : len (UserKeypair.sign k d) = 83.
Proof. unfold UserKeypair.sign. wire_norm. len_simpl. by rewrite ed25519_sign_len. Qed.

Definition ar_signature (q : AuthRequest) : option bytes :=
  match ar_method q with Method_PublicKey _ _ sg => sg | _ => None end.

Lemma len_key_request user b sg :
  len (publickey_request user SERVICE_CONNECTION HOSTKEY_ED25519 b sg) =
    56 + len user + len b + match sg with Some x => 4 + len x | None => 0 end.
Proof.
  assert (H1 : len SERVICE_CONNECTION = 14) by reflexivity.
  assert (H2 : len METHOD_PUBLICKEY = 9) by reflexivity.
  assert (H3 : len HOSTKEY_ED25519 = 11) by reflexivity.
  unfold publickey_request. destruct sg; wire_norm; unfold wire_string; len_simpl; lia.
Qed.

Lemma key_request_parses sid user k :
  text_ok user -> AuthRequest.parse (key_packet sid user k) = Ok (key_request sid user k).
Proof.
  intros Hu. apply parse_encoded_request; [|reflexivity|].
  - unfold request_ok, key_request. cbn [ar_user ar_service ar_method].
    split; [exact Hu|]. split; [by split|]. split; [by split|].
    unfold blob_ok. rewrite len_user_blob. split; [done|]. intros x [= <-].
    rewrite len_user_sign. done.
  - change (len (publickey_request user SERVICE_CONNECTION HOSTKEY_ED25519
      (UserPublicKey.blob (UserKeypair.public k)) (ar_signature (key_request sid user k))) <= U64_MAX).
    rewrite len_key_request. rewrite len_user_blob. cbn [ar_signature key_request ar_method default].
    rewrite len_user_sign. destruct Hu as [Hu _]. unfold U32_MAX, U64_MAX in *. lia.
Qed.

End Honest.

(** * Witnesses *)


Lemma client_window_open_witness :
  exists ch, c_channel Session.c6 = Some ch /\ DEFAULT_WINDOW / 2 < ch_local_window ch <= DEFAULT_WINDOW.
Proof.
  eexists. split; [reflexivity|].
  apply (@client_window_open Toy.crypto Toy.crypto_ok Toy.flate_ok Toy.octets_ok _ demo_user Session.c6);
    [apply session_c6|reflexivity].
Defined.


(** The client of the demo, with a policy that trusts no host key. *)
Definition wary : ClientConnection (C := Toy.crypto) (DemoUser Toy.crypto) :=
  Session.c1 <| c_handler := mkDemoUser false [] |>.
Lemma wary_tinv : tinv (c_transport wary).
Proof.
  exact (ci_t _ (@creachable_cinv Toy.crypto Toy.crypto_ok Toy.flate_ok Toy.octets_ok _ demo_user
    _ session_c1)).
Qed.
Definition wary_key : HostPublicKey := HostKey.public Session.host_key.
Lemma host_key_gate_witness :
  exists s', handle_event (ServerHostKey wary_key) wary = (Ok tt, s') /\
    c_state s' = CS_Done /\ t_closing (c_transport s') = true /\
    c_events s' = c_events wary ++ [CE_HostKeyRejected] /\
    handle_event Ev_Established s' = (Ok tt, s').
Proof. apply (@host_key_gate Toy.crypto Toy.flate_ok _ demo_user); [apply wary_tinv|reflexivity]. Defined.

Lemma success_after_rejection_witness :
  exists s', mfor [ServerHostKey wary_key; Ev_Established; Packet userauth_success]
      handle_event wary = (Ok tt, s') /\
    is_authenticated s' = true /\ c_host_rejected s' = true /\
    c_events s' = c_events wary ++ [CE_HostKeyRejected; CE_Authenticated].
Proof. apply (@success_after_rejection Toy.crypto Toy.flate_ok _ demo_user); [apply wary_tinv|reflexivity]. Defined.
