(* ===== verification/Limits.v ===== *)
(** Accept-time caps on concurrent connections: the [ConnectionLimiter] and the
    [ConnectionGuard] of [ssh-io/limits.rs].  The counting semaphore is [tokio]'s: a
    parameter, with its documented behaviour as laws. *)
From stdpp Require Import gmap.
From S2P Require Import Prelude Errors.

(** [std::net::IpAddr]: 32 or 128 bits. *)
Inductive IpAddr := V4 (a : Z) | V6 (a : Z).
#[export] Instance IpAddr_eq_dec : EqDecision IpAddr.
Proof. solve_decision. Defined.
#[export] Instance IpAddr_countable : Countable IpAddr.
Proof.
  refine (inj_countable' (fun ip => match ip with V4 a => inl a | V6 a => inr a end)
    (fun s => match s with inl a => V4 a | inr a => V6 a end) _).
  by intros [].
Defined.

(** [tokio::sync::Semaphore]: [try_acquire] takes a permit or fails, dropping an owned
    permit adds it back. *)
Class Semaphore := {
  semaphore : Type;
  sem_new : Z -> semaphore;
  try_acquire : semaphore -> option semaphore;
  release : semaphore -> semaphore;
  available : semaphore -> Z
}.
Class SemaphoreOk (T : Semaphore) : Prop := {
  available_new n : 0 <= n -> available (sem_new n) = n;
  try_acquire_some s s' : try_acquire s = Some s' -> 0 < available s /\ available s' = available s - 1;
  try_acquire_none s : try_acquire s = None <-> available s <= 0;
  available_release s : available (release s) = available s + 1
}.

Record ConnectionGuard := mkGuard { g_ip : IpAddr; g_counted : bool }.

Record ConnectionLimiter `{T : Semaphore} := mkLimiter {
  l_global : semaphore;
  l_per_ip_max : option Z;
  l_per_ip : gmap IpAddr Z
}.
#[export] Instance eta_Limiter `{T : Semaphore} : Eta ConnectionLimiter := fun l =>
  mkLimiter T (l_global l) (l_per_ip_max l) (l_per_ip l).

Module ConnectionLimiter.
Section ConnectionLimiter.
Context `{T : Semaphore}.
Abbreviation LM := (M unit ConnectionLimiter).

Definition new (max_global : Z) (per_ip_max : option Z) : ConnectionLimiter :=
  mkLimiter T (sem_new max_global) per_ip_max ∅.

(** [Arc::clone(&self.global).try_acquire_owned()] *)
Definition acquire : LM bool :=
  let* l := get in
  match try_acquire (l_global l) with
  | Some s => l_global <-! s ;;; ret true
  | None => ret false
  end.

(** [entry(ip).or_insert(0)] stays in the map when the connection is refused. *)
Definition try_admit (ip : IpAddr) : LM (option ConnectionGuard) :=
  let* l := get in
  match l_per_ip_max l with
  | Some max =>
      let count := default 0 (l_per_ip l !! ip) in
      l_per_ip <-! <[ip := count]> (l_per_ip l) ;;;
      if max <=? count then ret None
      else
        let* permit := acquire in
        if negb permit then ret None
        else
          let* count' := checked U64_MAX (count + 1) in
          l_per_ip <-~ (fun m => <[ip := count']> m) ;;;
          ret (Some (mkGuard ip true))
  | None =>
      let* permit := acquire in
      if negb permit then ret None else ret (Some (mkGuard ip false))
  end.

(** [Drop for ConnectionGuard]; its permit is dropped after the body. *)
Definition drop_guard (g : ConnectionGuard) : LM unit :=
  let* l := get in
  (if g_counted g then
     match l_per_ip l !! g_ip g with
     | Some count =>
         let* count' := checked U64_MAX (count - 1) in
         if count' =? 0 then l_per_ip <-~ delete (g_ip g)
         else l_per_ip <-~ (fun m => <[g_ip g := count']> m)
     | None => ret tt
     end
   else ret tt) ;;;
  l_global <-~ release.
End ConnectionLimiter.
End ConnectionLimiter.

(** * The caps hold *)

(** The limiter and the guards that are alive. *)
Record World `{T : Semaphore} := mkWorld { w_limiter : ConnectionLimiter; w_guards : list ConnectionGuard }.

Inductive admission_step `{T : Semaphore} : World -> World -> Prop :=
| admit_ok ip l l' gs g :
    ConnectionLimiter.try_admit ip l = (Ok (Some g), l') ->
    admission_step (mkWorld _ l gs) (mkWorld _ l' (g :: gs))
| admit_refused ip l l' gs :
    ConnectionLimiter.try_admit ip l = (Ok None, l') ->
    admission_step (mkWorld _ l gs) (mkWorld _ l' gs)
| guard_dropped g l l' gs1 gs2 :
    ConnectionLimiter.drop_guard g l = (Ok tt, l') ->
    admission_step (mkWorld _ l (gs1 ++ g :: gs2)) (mkWorld _ l' (gs1 ++ gs2)).

Section Caps.
Context `{T : Semaphore} `{!SemaphoreOk T}.

(** The live connections of an address. *)
Definition from_ip (ip : IpAddr) (gs : list ConnectionGuard) : Z :=
  len (List.filter (fun g => bool_decide (g_ip g = ip)) gs).

Lemma from_ip_cons ip g gs :
  from_ip ip (g :: gs) = (if bool_decide (g_ip g = ip) then 1 else 0) + from_ip ip gs.
Proof. unfold from_ip. cbn [List.filter]. destruct (bool_decide _); len_lia. Qed.

Lemma from_ip_app ip gs1 gs2 : from_ip ip (gs1 ++ gs2) = from_ip ip gs1 + from_ip ip gs2.
Proof. unfold from_ip. by rewrite List.filter_app, len_app. Qed.

Lemma from_ip_bound ip gs : 0 <= from_ip ip gs <= len gs.
Proof.
  split; [apply len_nonneg|]. unfold from_ip, len. apply inj_le, List.filter_length_le.
Qed.

(** Permits and guards add up, and the map counts the live guards of each address. *)
Definition world_inv (max_global : Z) (w : World) : Prop :=
  let l := w_limiter w in
  available (l_global l) = max_global - len (w_guards w) /\ len (w_guards w) <= max_global /\
  (forall g, g ∈ w_guards w -> g_counted g = bool_decide (is_Some (l_per_ip_max l))) /\
  match l_per_ip_max l with
  | Some max =>
      0 <= max /\
      forall ip, default 0 (l_per_ip l !! ip) = from_ip ip (w_guards w) /\ from_ip ip (w_guards w) <= max
  | None => l_per_ip l = ∅
  end.

Lemma lookup_default_insert (m : gmap IpAddr Z) i j v :
  default 0 (<[i := v]> m !! j) = if bool_decide (i = j) then v else default 0 (m !! j).
Proof. case_bool_decide; subst; by simplify_map_eq. Qed.

Lemma lookup_default_delete (m : gmap IpAddr Z) i j :
  default 0 (delete i m !! j) = if bool_decide (i = j) then 0 else default 0 (m !! j).
Proof. case_bool_decide; subst; by simplify_map_eq. Qed.

Lemma try_admit_wp max_global ip l gs :
  max_global <= U64_MAX -> world_inv max_global (mkWorld _ l gs) ->
  wp (ConnectionLimiter.try_admit ip)
    (fun o l' => l_per_ip_max l' = l_per_ip_max l /\
       world_inv max_global (mkWorld _ l' (match o with Some g => g :: gs | None => gs end)))
    (fun _ _ => False) l.
Proof.
  intros Hmax (Ha & Hn & Hc & Hm). cbn in Ha, Hn, Hc, Hm.
  unfold ConnectionLimiter.try_admit, ConnectionLimiter.acquire. do 2 wp_step.
  destruct (l_per_ip_max l) as [max|] eqn:Hpm.
  - destruct Hm as [H0 Hm]. pose proof (Hm ip) as [Hip _]. pose proof (from_ip_bound ip gs) as Hb.
    assert (Hsame : forall j, default 0 (<[ip := default 0 (l_per_ip l !! ip)]> (l_per_ip l) !! j) =
      default 0 (l_per_ip l !! j)).
    { intros j. rewrite lookup_default_insert. by destruct (bool_decide_reflect (ip = j)) as [->|]. }
    do 2 wp_step. apply wp_if; intros Hle.
    { wp_step. cbn. split; [done|]. unfold world_inv. cbn. rewrite Hpm.
      split_and!; try done. intros j. rewrite Hsame. apply Hm. }
    apply wp_bind. do 2 wp_step. cbn [l_global set].
    destruct (try_acquire (l_global l)) as [s|] eqn:Hs.
    + apply try_acquire_some in Hs as [Hs1 Hs2]. do 3 wp_step. cbn [negb].
      apply wp_bind, wp_checked; [lia|]. cbv beta. do 3 wp_step. cbn.
      split; [done|]. unfold world_inv. cbn. rewrite Hpm, len_cons.
      split; [lia|]. split; [lia|]. split.
      { intros g [->|Hg]%elem_of_cons; [done|]. by apply Hc. }
      split; [done|]. intros j. rewrite lookup_default_insert, from_ip_cons. cbn [g_ip].
      rewrite Hsame. destruct (Hm j) as [Hj1 Hj2].
      destruct (bool_decide_reflect (ip = j)) as [->|]; lia.
    + wp_step. cbn [negb]. wp_step. cbn. split; [done|]. unfold world_inv. cbn. rewrite Hpm.
      split_and!; try done. intros j. rewrite Hsame. apply Hm.
  - apply wp_bind. do 2 wp_step. destruct (try_acquire (l_global l)) as [s|] eqn:Hs.
    + apply try_acquire_some in Hs as [Hs1 Hs2]. do 3 wp_step. cbn [negb]. wp_step. cbn.
      split; [done|].
      unfold world_inv. cbn. rewrite Hpm, len_cons. split; [lia|]. split; [lia|]. split; [|done].
      intros g [->|Hg]%elem_of_cons; [done|]. by apply Hc.
    + wp_step. cbn [negb]. wp_step. cbn. split; [done|]. unfold world_inv. cbn. rewrite Hpm.
      by split_and!.
Qed.

Lemma drop_guard_wp max_global g l gs1 gs2 :
  max_global <= U64_MAX -> world_inv max_global (mkWorld _ l (gs1 ++ g :: gs2)) ->
  wp (ConnectionLimiter.drop_guard g)
    (fun _ l' => l_per_ip_max l' = l_per_ip_max l /\ world_inv max_global (mkWorld _ l' (gs1 ++ gs2)))
    (fun _ _ => False) l.
Proof.
  intros Hmax (Ha & Hn & Hc & Hm). cbn in Ha, Hn, Hc, Hm. rewrite len_app, len_cons in Ha, Hn.
  pose proof (Hc g ltac:(apply elem_of_app; right; apply elem_of_cons; by left)) as Hg.
  assert (Hc' : forall g', g' ∈ gs1 ++ gs2 -> g_counted g' = bool_decide (is_Some (l_per_ip_max l))).
  { intros g' Hin. apply Hc. apply elem_of_app in Hin as [?|?]; apply elem_of_app; [by left|right].
    apply elem_of_cons. by right. }
  assert (Hrel : available (release (l_global l)) = max_global - len (gs1 ++ gs2)).
  { rewrite available_release, len_app. lia. }
  assert (Hlen : len (gs1 ++ gs2) <= max_global) by (rewrite len_app; lia).
  unfold ConnectionLimiter.drop_guard. do 3 wp_step.
  destruct (l_per_ip_max l) as [max|] eqn:Hpm.
  - rewrite bool_decide_true in Hg by eauto. rewrite Hg. destruct Hm as [H0 Hm].
    destruct (Hm (g_ip g)) as [Hg1 Hg2]. rewrite from_ip_app, from_ip_cons, bool_decide_true in Hg1, Hg2 by done.
    pose proof (from_ip_bound (g_ip g) gs1). pose proof (from_ip_bound (g_ip g) gs2).
    destruct (l_per_ip l !! g_ip g) as [count|] eqn:Hl; cbn [default] in Hg1; [|cbn in Hg1; lia].
    cbn in Hg1. apply wp_bind, wp_checked; [lia|]. cbv beta.
    assert (Hrest : forall j (m' : gmap IpAddr Z), (forall j, default 0 (m' !! j) =
        if bool_decide (g_ip g = j) then count - 1 else default 0 (l_per_ip l !! j)) ->
      default 0 (m' !! j) = from_ip j (gs1 ++ gs2) /\ from_ip j (gs1 ++ gs2) <= max).
    { intros j m' Hm'. rewrite Hm'. destruct (Hm j) as [Hj1 Hj2].
      rewrite from_ip_app, from_ip_cons in Hj1, Hj2. rewrite from_ip_app.
      destruct (bool_decide_reflect (g_ip g = j)) as [<-|]; lia. }
    apply wp_if; intros Hz; do 2 wp_step; cbn; (split; [exact Hpm|]); unfold world_inv; cbn; rewrite Hpm;
      (split_and!; try done); intros j; apply Hrest; clear j; intros j.
    + rewrite lookup_default_delete. destruct (bool_decide_reflect (g_ip g = j)); lia.
    + by rewrite lookup_default_insert.
  - rewrite bool_decide_false in Hg by (by intros []). rewrite Hg. do 2 wp_step. cbn.
    split; [exact Hpm|]. unfold world_inv. cbn. rewrite Hpm. by split_and!.
Qed.

Lemma admission_inv max_global per_ip_max gs l :
  0 <= max_global <= U64_MAX -> (forall max, per_ip_max = Some max -> 0 <= max) ->
  steps admission_step (mkWorld _ (ConnectionLimiter.new max_global per_ip_max) []) (mkWorld _ l gs) ->
  world_inv max_global (mkWorld _ l gs) /\ l_per_ip_max l = per_ip_max.
Proof.
  intros Hmax Hpos Hst.
  change (let w := mkWorld T l gs in world_inv max_global w /\ l_per_ip_max (w_limiter w) = per_ip_max).
  cbv zeta. eapply (steps_invariant admission_step
    (fun w => world_inv max_global w /\ l_per_ip_max (w_limiter w) = per_ip_max)); [|exact Hst|].
  - intros w w' [ip l0 l1 gs0 g Hr|ip l0 l1 gs0 Hr|g l0 l1 gs1 gs2 Hr] [Hi Hp]; cbn [w_limiter] in *.
    + pose proof (try_admit_wp max_global ip l0 gs0 ltac:(lia) Hi) as Hw. unfold wp in Hw.
      rewrite Hr in Hw. destruct Hw as [-> Hw]. by split.
    + pose proof (try_admit_wp max_global ip l0 gs0 ltac:(lia) Hi) as Hw. unfold wp in Hw.
      rewrite Hr in Hw. destruct Hw as [-> Hw]. by split.
    + pose proof (drop_guard_wp max_global g l0 gs1 gs2 ltac:(lia) Hi) as Hw. unfold wp in Hw.
      rewrite Hr in Hw. destruct Hw as [-> Hw]. by split.
  - split; [|done]. unfold world_inv. cbn. rewrite available_new, len_nil by lia.
    split; [lia|]. split; [lia|]. split; [by intros g Hg%elem_of_nil|].
    destruct per_ip_max as [max|]; [|done]. split; [by apply Hpos|]. intros ip.
    rewrite lookup_empty. split; [done|]. by apply Hpos.
Qed.

(** The caps hold through any sequence of admissions, refusals and drops: at most
    [max_global] connections are alive, at most [per_ip_max] from any address, and
    dropping a guard never underflows its count. *)
Lemma admission_caps max_global per_ip_max gs l :
  0 <= max_global <= U64_MAX -> (forall max, per_ip_max = Some max -> 0 <= max) ->
  steps admission_step (mkWorld _ (ConnectionLimiter.new max_global per_ip_max) []) (mkWorld _ l gs) ->
  len gs <= max_global /\
  (forall max ip, per_ip_max = Some max -> from_ip ip gs <= max) /\
  (forall g, g ∈ gs -> exists l', ConnectionLimiter.drop_guard g l = (Ok tt, l')).
Proof.
  intros Hmax Hpos Hst. destruct (admission_inv _ _ _ _ Hmax Hpos Hst) as [Hi Hp].
  pose proof Hi as (_ & Hn & _ & Hm). cbn in Hn, Hm. split; [done|]. split.
  - intros max ip ->. rewrite Hp in Hm. by apply Hm.
  - intros g Hg. apply list_elem_of_split in Hg as (gs1 & gs2 & ->).
    pose proof (drop_guard_wp max_global g l gs1 gs2 ltac:(lia) Hi) as Hw. unfold wp in Hw.
    destruct (ConnectionLimiter.drop_guard g l) as [[[]| | |] l']; try done. eauto.
Qed.

(** One refusal at a full limiter. *)
Lemma refusal_leaves_entry ip l max :
  l_per_ip_max l = Some max -> available (l_global l) <= 0 -> l_per_ip l !! ip = None ->
  ConnectionLimiter.try_admit ip l = (Ok None, l <| l_per_ip := <[ip := 0]> (l_per_ip l) |>).
Proof.
  intros Hm Ha Hn. unfold ConnectionLimiter.try_admit, ConnectionLimiter.acquire, bind at 1, get.
  rewrite Hm, Hn. cbn [default]. unfold bind at 1, modify at 1.
  destruct (max <=? 0) eqn:Hle; [by unfold ret|].
  unfold bind, get. cbn [l_global set]. by rewrite (proj2 (try_acquire_none (l_global l)) Ha).
Qed.

(** Refused addresses are remembered: while the limiter is full, every refusal from a
    new address leaves an entry in the per-address map, and no guard will ever remove it,
    so the map grows with the number of addresses that knock. *)
Lemma refused_addresses_accumulate ips l max :
  l_per_ip_max l = Some max -> available (l_global l) <= 0 -> NoDup ips ->
  (forall ip, ip ∈ ips -> l_per_ip l !! ip = None) ->
  exists l', mfor ips (fun ip => let* g := ConnectionLimiter.try_admit ip in
                                 if bool_decide (g = None) then ret tt else err tt) l = (Ok tt, l') /\
    size (l_per_ip l') = (size (l_per_ip l) + length ips)%nat.
Proof.
  revert l. induction ips as [|ip ips IH]; intros l Hm Ha Hd Hn; cbn [mfor].
  { exists l. split; [done|]. cbn. lia. }
  inversion Hd as [|? ? Hip Hd']; subst. clear Hd. rename Hd' into Hd.
  assert (Hn0 : l_per_ip l !! ip = None) by (apply Hn, elem_of_cons; by left).
  unfold bind at 1. unfold bind at 1. rewrite (refusal_leaves_entry ip l max Hm Ha Hn0).
  rewrite bool_decide_true by done. unfold ret at 1.
  destruct (IH (l <| l_per_ip := <[ip := 0]> (l_per_ip l) |>)) as (l' & Hl & Hs); try done.
  - intros j Hj. cbn. rewrite lookup_insert_ne; [apply Hn, elem_of_cons; by right|].
    intros ->. done.
  - exists l'. split; [exact Hl|]. rewrite Hs. cbn.
    rewrite map_size_insert_None by done. lia.
Qed.
End Caps.

(** A counting semaphore, for the witnesses. *)
Module Counting.
#[export] Instance semaphore : Semaphore := {|
  semaphore := Z;
  sem_new n := n;
  try_acquire s := if 0 <? s then Some (s - 1) else None;
  release s := s + 1;
  available s := s
|}.
#[export] Instance semaphore_ok : SemaphoreOk semaphore.
Proof.
  constructor; cbn; try done.
  - intros s s'. destruct (Z.ltb_spec 0 s); intros; simplify_eq; lia.
  - intros s. destruct (Z.ltb_spec 0 s); split; (done || lia).
Qed.
End Counting.

(** * Witnesses *)

Lemma admission_caps_witness :
  let l := ConnectionLimiter.new (T := Counting.semaphore) 4 (Some 2) in
  exists gs l', steps (admission_step (T := Counting.semaphore)) (mkWorld _ l []) (mkWorld _ l' gs) /\
    len gs = 1 /\ len gs <= 4 /\ from_ip (V4 7) gs <= 2.
Proof.
  intros l. exists [mkGuard (V4 7) true], (snd (ConnectionLimiter.try_admit (V4 7) l)).
  match goal with |- ?A /\ _ => assert (Hs : A) end.
  { eapply steps_cons; [|apply steps_refl]. apply (admit_ok (T := Counting.semaphore) (V4 7)); vm_compute; reflexivity. }
  split; [exact Hs|]. split; [reflexivity|].
  eapply (@admission_caps Counting.semaphore Counting.semaphore_ok) in Hs as (H1 & H2 & _).
  - split; [exact H1|]. by apply H2.
  - vm_compute; intuition congruence.
  - intros max [= <-]. lia.
Defined.

Lemma refused_addresses_accumulate_witness :
  let l := ConnectionLimiter.new (T := Counting.semaphore) 0 (Some 2) in
  exists l', mfor [V4 1; V4 2; V4 3] (fun ip => let* g := ConnectionLimiter.try_admit ip in
      if bool_decide (g = None) then ret tt else err tt) l = (Ok tt, l') /\
    size (l_per_ip l') = 3%nat.
Proof.
  apply (@refused_addresses_accumulate Counting.semaphore Counting.semaphore_ok [V4 1; V4 2; V4 3]
    (ConnectionLimiter.new (T := Counting.semaphore) 0 (Some 2)) 2); try done.
  apply (bool_decide_unpack _). reflexivity.
Defined.
