(* ===== verification/Policy.v ===== *)
(** Admission and retry policies: [ssh-io/policy.rs].  The two traits are classes; a clock
    reading is an argument (a number of nanoseconds since some origin), and adding a
    duration to an instant panics past [instant_max], as the standard library does. *)
From stdpp Require Import gmap.
From S2P Require Import Prelude Errors Limits.

Record SocketAddr := mkSocketAddr { sa_ip : IpAddr; sa_port : Z }.

Inductive ConnectionDecision := Accept | Reject.

(** The traits: what a driver asks of a policy at a time, about a peer. *)
Class ConnectionPolicy (P : Type) := evaluate : Z -> SocketAddr -> M unit P ConnectionDecision.
Class RetryPolicy (P : Type) := {
  on_auth_exhausted : Z -> SocketAddr -> M unit P unit;
  on_authenticated : SocketAddr -> M unit P unit
}.

(** What a driver relies on: at the times at which a policy is [retry_ready] its hooks
    return, and a hook leaves it ready. *)
Class RetryOk (P : Type) `{R : RetryPolicy P} := {
  retry_ready : Z -> P -> Prop;
  exhausted_returns now peer (r : P) :
    retry_ready now r -> exists r', on_auth_exhausted now peer r = (Ok tt, r') /\ retry_ready now r';
  authenticated_returns now peer (r : P) :
    retry_ready now r -> exists r', on_authenticated peer r = (Ok tt, r') /\ retry_ready now r'
}.

Inductive AllowAll := allow_all.
#[export] Instance allow_all_policy : ConnectionPolicy AllowAll := fun _ _ => ret Accept.

Inductive NoRetryReaction := no_retry_reaction.
#[export] Instance no_retry_policy : RetryPolicy NoRetryReaction := {|
  on_auth_exhausted _ _ := ret tt;
  on_authenticated _ := ret tt
|}.
#[export] Instance no_retry_ok : RetryOk NoRetryReaction.
Proof. refine {| retry_ready _ _ := True |}; intros; by eexists. Defined.

(** [Record]. *)
Record BanRecord := mkBanRecord {
  strikes : Z;
  banned_until : option Z;
  last_strike : Z
}.
#[export] Instance eta_BanRecord : Eta BanRecord := fun r =>
  mkBanRecord (strikes r) (banned_until r) (last_strike r).

Record Fail2Ban := mkFail2Ban {
  fb_state : gmap IpAddr BanRecord;
  fb_max_auth_attempts : Z;
  fb_ban_threshold : Z;
  fb_ban_duration : Z
}.
#[export] Instance eta_Fail2Ban : Eta Fail2Ban := fun f =>
  mkFail2Ban (fb_state f) (fb_max_auth_attempts f) (fb_ban_threshold f) (fb_ban_duration f).

(** [Instant::duration_since] saturates at zero. *)
Definition duration_since (now earlier : Z) : Z := Z.max (now - earlier) 0.

Module Fail2Ban.
Section Fail2Ban.
Context (instant_max : Z).
Abbreviation FM := (M unit Fail2Ban).

Definition new (max_auth_attempts ban_threshold ban_duration : Z) : Fail2Ban :=
  mkFail2Ban ∅ max_auth_attempts ban_threshold ban_duration.

Definition is_banned (now : Z) (ip : IpAddr) : FM bool :=
  let* f := get in
  match fb_state f !! ip with
  | Some record =>
      match banned_until record with
      | Some until =>
          if now <? until then ret true
          else fb_state <-~ delete ip ;;; ret false
      | None => ret false
      end
  | None => ret false
  end.

Definition tracked_ips (f : Fail2Ban) : nat := size (fb_state f).

(** A record worth keeping at [now]. *)
Definition live (now retention : Z) (r : BanRecord) : bool :=
  match banned_until r with
  | Some until => now <? until
  | None => duration_since now (last_strike r) <? retention
  end.

Definition gc (now retention : Z) (state : gmap IpAddr BanRecord) : gmap IpAddr BanRecord :=
  filter (fun '(_, r) => live now retention r = true) state.

Definition exhausted (now : Z) (peer : SocketAddr) : FM unit :=
  let* f := get in
  let state := gc now (fb_ban_duration f) (fb_state f) in
  let record := default (mkBanRecord 0 None now) (state !! sa_ip peer) in
  let record := record <| strikes ::= fun s => saturating_add32 s 1 |> <| last_strike := now |> in
  fb_state <-! <[sa_ip peer := record]> state ;;;
  if fb_ban_threshold f <=? strikes record then
    let* until := checked instant_max (now + fb_ban_duration f) in
    fb_state <-~ (fun st => <[sa_ip peer := record <| banned_until := Some until |>]> st)
  else ret tt.

Definition authenticated (peer : SocketAddr) : FM unit := fb_state <-~ delete (sa_ip peer).
End Fail2Ban.
End Fail2Ban.

#[export] Instance fail2ban_connection : ConnectionPolicy Fail2Ban := fun now peer =>
  let* banned := Fail2Ban.is_banned now (sa_ip peer) in
  ret (if (banned : bool) then Reject else Accept).

Definition fail2ban_retry (instant_max : Z) : RetryPolicy Fail2Ban := {|
  on_auth_exhausted := Fail2Ban.exhausted instant_max;
  on_authenticated := Fail2Ban.authenticated
|}.

(** * Properties *)
Section Props.
Context (instant_max : Z).
Implicit Types f : Fail2Ban.
Abbreviation exhausted := (Fail2Ban.exhausted instant_max).

(** A peer is turned away at [now]. *)
Definition rejected (now : Z) (ip : IpAddr) f : bool :=
  match fb_state f !! ip with
  | Some r => match banned_until r with Some until => now <? until | None => false end
  | None => false
  end.

Lemma is_banned_eq now ip f :
  exists f', Fail2Ban.is_banned now ip f = (Ok (rejected now ip f), f') /\
    forall now' ip', now <= now' -> rejected now' ip' f' = rejected now' ip' f.
Proof.
  unfold Fail2Ban.is_banned, rejected, bind, get.
  destruct (fb_state f !! ip) as [r|] eqn:Hr; [|by eexists].
  destruct (banned_until r) as [until|] eqn:Hb; [|by eexists].
  destruct (Z.ltb_spec now until); [by eexists|].
  unfold modify, ret. eexists. split; [reflexivity|]. intros now' ip' Hn. cbn.
  destruct (decide (ip = ip')) as [<-|]; [|by rewrite lookup_delete_ne].
  rewrite lookup_delete_eq, Hr, Hb. symmetry. lia.
Qed.

Lemma gc_lookup now d (st : gmap IpAddr BanRecord) ip :
  Fail2Ban.gc now d st !! ip =
    match st !! ip with
    | Some r => if Fail2Ban.live now d r then Some r else None
    | None => None
    end.
Proof.
  unfold Fail2Ban.gc. destruct (st !! ip) as [r|] eqn:Hr.
  - destruct (Fail2Ban.live now d r) eqn:Hl.
    + by apply map_lookup_filter_Some.
    + apply map_lookup_filter_None. right. intros x Hx. rewrite Hr in Hx. injection Hx as <-.
      by rewrite Hl.
  - apply map_lookup_filter_None. by left.
Qed.

(** One strike: the record of the peer after it. *)
Definition struck now f ip : BanRecord :=
  let old := match fb_state f !! ip with
             | Some r => if Fail2Ban.live now (fb_ban_duration f) r then r else mkBanRecord 0 None now
             | None => mkBanRecord 0 None now
             end in
  old <| strikes ::= fun s => saturating_add32 s 1 |> <| last_strike := now |>.

Lemma exhausted_eq now peer f :
  now + fb_ban_duration f <= instant_max -> 0 <= now + fb_ban_duration f ->
  let r := struck now f (sa_ip peer) in
  let r' := if fb_ban_threshold f <=? strikes r
            then r <| banned_until := Some (now + fb_ban_duration f) |> else r in
  exhausted now peer f =
    (Ok tt, f <| fb_state := <[sa_ip peer := r']> (Fail2Ban.gc now (fb_ban_duration f) (fb_state f)) |>).
Proof.
  intros H1 H2 r r'. unfold Fail2Ban.exhausted, bind, get, modify.
  assert (Hr : (default (mkBanRecord 0 None now)
      (Fail2Ban.gc now (fb_ban_duration f) (fb_state f) !! sa_ip peer))
      <| strikes ::= fun s => saturating_add32 s 1 |> <| last_strike := now |> = r).
  { unfold r, struck. rewrite gc_lookup. destruct (fb_state f !! sa_ip peer) as [x|]; [|done].
    by destruct (Fail2Ban.live _ _ x). }
  rewrite Hr. unfold r'. destruct (fb_ban_threshold f <=? strikes r); [|done].
  unfold checked. replace ((0 <=? now + fb_ban_duration f) && (now + fb_ban_duration f <=? instant_max))
    with true by lia.
  unfold ret, set. cbn [fb_state fb_max_auth_attempts fb_ban_threshold fb_ban_duration].
  by rewrite insert_insert_eq.
Qed.

(** The hooks return as long as the end of a ban is an instant. *)
#[export] Instance fail2ban_ok : RetryOk (R := fail2ban_retry instant_max) Fail2Ban.
Proof.
  refine {| retry_ready now f := 0 <= now + fb_ban_duration f <= instant_max |}.
  - intros now peer f Hf.
    change (exists r', exhausted now peer f = (Ok tt, r') /\ 0 <= now + fb_ban_duration r' <= instant_max).
    rewrite exhausted_eq by lia. by eexists.
  - intros now peer f Hf. by eexists.
Defined.

(** Strikes of one address, one within [ban_duration] of the next. *)
Fixpoint burst (d last : Z) (ts : list Z) : Prop :=
  match ts with [] => True | t :: ts' => last <= t < last + d /\ burst d t ts' end.

Definition last_of (t : Z) (ts : list Z) : Z := List.last ts t.

Lemma last_of_cons t0 t ts : last_of t0 (t :: ts) = last_of t ts.
Proof.
  unfold last_of. revert t. induction ts as [|x ts IH]; intros t; [done|].
  change (List.last (x :: ts) t0 = List.last (x :: ts) t). clear IH.
  revert x. induction ts as [|y ts IH]; intros x; [done|]. apply (IH y).
Qed.

Lemma burst_mono ts d t : burst d t ts -> t <= last_of t ts.
Proof.
  revert t. induction ts as [|x ts IH]; intros t; [unfold last_of; cbn; lia|].
  intros [? Hb]. rewrite last_of_cons. specialize (IH x Hb). lia.
Qed.

Definition record_after (f : Fail2Ban) (k t : Z) : BanRecord :=
  mkBanRecord k (if fb_ban_threshold f <=? k then Some (t + fb_ban_duration f) else None) t.

Lemma burst_strikes peer ts f k t :
  fb_state f !! sa_ip peer = Some (record_after f k t) ->
  0 <= t -> 0 <= fb_ban_duration f -> 1 <= k -> k + len ts <= fb_ban_threshold f <= U32_MAX ->
  burst (fb_ban_duration f) t ts -> last_of t ts + fb_ban_duration f <= instant_max ->
  exists f', mfor ts (fun t => exhausted t peer) f = (Ok tt, f') /\
    fb_state f' !! sa_ip peer = Some (record_after f (k + len ts) (last_of t ts)).
Proof.
  revert f k t. induction ts as [|t1 ts IH]; intros f k t Hr Ht Hd Hk Hth Hb Hl.
  { exists f. split; [done|]. rewrite len_nil, Z.add_0_r. exact Hr. }
  rewrite len_cons in *. rewrite last_of_cons in *. pose proof (len_nonneg ts).
  destruct Hb as [Ht1 Hb].
  pose proof (burst_mono _ _ _ Hb) as Hm.
  cbn [mfor]. unfold bind at 1. rewrite (exhausted_eq t1 peer f) by lia.
  assert (Hs : struck t1 f (sa_ip peer) = mkBanRecord (k + 1) None t1).
  { unfold struck. rewrite Hr. unfold Fail2Ban.live, record_after. cbn [banned_until last_strike].
    replace (fb_ban_threshold f <=? k) with false by lia. unfold duration_since.
    replace (Z.max (t1 - t) 0 <? fb_ban_duration f) with true by lia.
    unfold set. cbn [strikes banned_until last_strike]. f_equal.
    unfold saturating_add32, U32_MAX in *. lia. }
  rewrite Hs. cbn [strikes].
  set (f1 := set fb_state _ f).
  destruct (IH f1 (k + 1) t1) as (f' & Hf & Hl'); try (change (fb_ban_threshold f1) with (fb_ban_threshold f);
    change (fb_ban_duration f1) with (fb_ban_duration f)); try lia; try done.
  - unfold f1. cbn. rewrite lookup_insert_eq. f_equal. unfold record_after. cbn.
    by destruct (fb_ban_threshold f <=? k + 1).
  - exists f'. split; [exact Hf|]. rewrite Hl'. unfold record_after.
    change (fb_ban_threshold f1) with (fb_ban_threshold f).
    change (fb_ban_duration f1) with (fb_ban_duration f). by replace (k + 1 + len ts) with (k + (1 + len ts)) by lia.
Qed.

(** Exactly the threshold bans: an address without a record that exhausts its attempts
    again and again, each time within [ban_duration] of the last, is turned away after
    [ban_threshold] strikes and not before, and is admitted again [ban_duration] after its
    last strike. *)
Lemma ban_after_threshold peer t ts f now :
  fb_state f !! sa_ip peer = None -> 0 <= t -> 0 <= fb_ban_duration f ->
  1 + len ts <= fb_ban_threshold f <= U32_MAX ->
  burst (fb_ban_duration f) t ts -> last_of t ts + fb_ban_duration f <= instant_max ->
  exists f' f'', mfor (t :: ts) (fun t => exhausted t peer) f = (Ok tt, f') /\
    evaluate now peer f' =
      (Ok (if (1 + len ts =? fb_ban_threshold f) && (now <? last_of t ts + fb_ban_duration f)
           then Reject else Accept), f'').
Proof.
  intros Hn Ht Hd Hth Hb Hl. pose proof (len_nonneg ts).
  pose proof (burst_mono _ _ _ Hb) as Hm.
  cbn [mfor]. unfold bind at 1. rewrite (exhausted_eq t peer f) by lia.
  assert (Hs : struck t f (sa_ip peer) = mkBanRecord 1 None t).
  { unfold struck. by rewrite Hn. }
  rewrite Hs. cbn [strikes]. set (f1 := set fb_state _ f).
  destruct (burst_strikes peer ts f1 1 t) as (f' & Hf & Hl');
    try (change (fb_ban_threshold f1) with (fb_ban_threshold f);
         change (fb_ban_duration f1) with (fb_ban_duration f)); try lia; try done.
  { unfold f1. cbn. rewrite lookup_insert_eq. f_equal. unfold record_after. cbn.
    by destruct (fb_ban_threshold f <=? 1). }
  unfold evaluate, fail2ban_connection, bind.
  destruct (is_banned_eq now (sa_ip peer) f') as (f'' & He & _).
  exists f', f''. split; [exact Hf|]. rewrite He. unfold ret. do 2 f_equal.
  unfold rejected. rewrite Hl'. unfold record_after. cbn [banned_until].
  change (fb_ban_threshold f1) with (fb_ban_threshold f).
  change (fb_ban_duration f1) with (fb_ban_duration f).
  destruct (Z.leb_spec (fb_ban_threshold f) (1 + len ts)), (Z.eqb_spec (1 + len ts) (fb_ban_threshold f));
    try lia; done.
Qed.

(** One address does not affect another: whatever [peer] does at [now], the decision about
    any other address, at any later time, is what it would have been. *)
Lemma bans_are_isolated now peer f f' ip later :
  exhausted now peer f = (Ok tt, f') -> ip <> sa_ip peer -> now <= later ->
  rejected later ip f' = rejected later ip f.
Proof.
  intros He Hip Hl. unfold Fail2Ban.exhausted, bind, get, modify in He.
  assert (Hst : fb_state f' !! ip = Fail2Ban.gc now (fb_ban_duration f) (fb_state f) !! ip).
  { destruct (_ <=? _); unfold checked, ret, panic in He; [destruct (_ && _)|]; simplify_eq; cbn;
      by rewrite !lookup_insert_ne by done. }
  unfold rejected. rewrite Hst, gc_lookup. destruct (fb_state f !! ip) as [r|]; [|done].
  unfold Fail2Ban.live. destruct (banned_until r) as [until|] eqn:Hb.
  - destruct (Z.ltb_spec now until); [by rewrite Hb|lia].
  - destruct (_ <? _); [by rewrite Hb|done].
Qed.

(** The table holds only recent offenders: after a strike at [now], every record is that of
    an address still banned at [now], or struck less than [ban_duration] ago, or of the
    peer itself. *)
Lemma table_is_fresh now peer f f' ip r :
  exhausted now peer f = (Ok tt, f') -> fb_state f' !! ip = Some r ->
  ip = sa_ip peer \/ Fail2Ban.live now (fb_ban_duration f) r = true.
Proof.
  intros He Hr. destruct (decide (ip = sa_ip peer)) as [|Hip]; [by left|right].
  unfold Fail2Ban.exhausted, bind, get, modify in He.
  assert (Hst : fb_state f' !! ip = Fail2Ban.gc now (fb_ban_duration f) (fb_state f) !! ip).
  { destruct (_ <=? _); unfold checked, ret, panic in He; [destruct (_ && _)|]; simplify_eq; cbn;
      by rewrite !lookup_insert_ne by done. }
  rewrite Hr, gc_lookup in Hst. destruct (fb_state f !! ip) as [x|]; [|done].
  destruct (Fail2Ban.live _ _ x) eqn:Hx; [|done]. by injection Hst as ->.
Qed.
End Props.

(** * Witnesses *)

Lemma ban_after_threshold_witness :
  exists f' f'', mfor [10; 20; 30] (fun t => Fail2Ban.exhausted U64_MAX t (mkSocketAddr (V4 7) 22))
      (Fail2Ban.new 6 3 100) = (Ok tt, f') /\
    evaluate 50 (mkSocketAddr (V4 7) 4000) f' = (Ok Reject, f'').
Proof.
  apply (ban_after_threshold U64_MAX (mkSocketAddr (V4 7) 22) 10 [20; 30] (Fail2Ban.new 6 3 100) 50); try done.
Defined.
