(* ===== verification/Float64.v ===== *)
(** Binary floating-point numbers of 64 bits, as the rate limiter uses them: the operations
    are those of the Standard Library's specification of IEEE 754, and what they do to the
    rational numbers that floats stand for is proved here, with the error of the rounding. *)
From Stdlib Require Import ZArith QArith Qpower Lqa Lia.
From Stdlib Require Import SpecFloat.
#[local] Open Scope Q_scope.

(** * [f64] *)
Abbreviation f64 := spec_float.
Definition f64_add : f64 -> f64 -> f64 := SFadd 53 1024.
Definition f64_sub : f64 -> f64 -> f64 := SFsub 53 1024.
Definition f64_mul : f64 -> f64 -> f64 := SFmul 53 1024.
Definition f64_div : f64 -> f64 -> f64 := SFdiv 53 1024.
(** [n as f64] of an integer. *)
Definition f64_of_Z (n : Z) : f64 := binary_normalize 53 1024 n 0 false.
(** [a >= b]: false when one of them is not a number. *)
Definition f64_geb (a b : f64) : bool := SFleb b a.
(** [f64::min]: the other one when one of them is not a number. *)
Definition f64_min (a b : f64) : f64 :=
  match SFcompare a b with
  | Some Gt => b
  | Some _ => a
  | None => match a with S754_nan => b | _ => a end
  end.

(** * Powers of two *)
Definition p2 (e : Z) : Q := 2 ^ e.
Lemma p2_pos e : 0 < p2 e.
Proof. apply Qpower_0_lt. reflexivity. Qed.
Lemma p2_add a b : p2 (a + b) == p2 a * p2 b.
Proof. apply Qpower_plus. discriminate. Qed.
Lemma p2_mono a b : (a <= b)%Z -> p2 a <= p2 b.
Proof. intros H. apply Qpower_le_compat_l; [exact H|discriminate]. Qed.
Lemma p2_0 : p2 0 == 1.
Proof. reflexivity. Qed.
Lemma p2_Z n : (0 <= n)%Z -> p2 n == inject_Z (2 ^ n).
Proof. intros H. symmetry. exact (Zpower_Qpower 2 n H). Qed.
Lemma p2_double a : p2 (a + 1) == 2 * p2 a.
Proof. rewrite p2_add. change (p2 1) with 2. ring. Qed.

(** * Shifting to the right *)

Lemma inj_le a b : (a <= b)%Z -> inject_Z a <= inject_Z b.
Proof. rewrite <- Zle_Qle. easy. Qed.

(** A mantissa with its guard and sticky bits stands for [x]. *)
Definition represents (r : shr_record) (x : Q) : Prop :=
  let m := inject_Z (shr_m r) in
  (0 <= shr_m r)%Z /\
  match shr_r r, shr_s r with
  | false, false => x == m
  | false, true => m < x /\ x < m + (1 # 2)
  | true, false => x == m + (1 # 2)
  | true, true => m + (1 # 2) < x /\ x < m + 1
  end.

Lemma represents_floor r x : represents r x -> inject_Z (shr_m r) <= x < inject_Z (shr_m r) + 1.
Proof. intros [_ H]. destruct (shr_r r), (shr_s r); lra. Qed.

Lemma shr_1_half r x : represents r x -> represents (shr_1 r) (x * (1 # 2)).
Proof.
  destruct r as [[|p|p] r s]; intros [H0 H]; cbn [shr_m shr_r shr_s] in *; [| |easy].
  - split; [easy|]. destruct r, s; cbn in *; change (inject_Z 0) with 0 in *; lra.
  - destruct p as [p|p|]; cbn [shr_1]; split; cbn [shr_m shr_r shr_s]; try easy.
    + change (Zpos p~1) with (2 * Zpos p + 1)%Z in H. rewrite inject_Z_plus, inject_Z_mult in H.
      change (inject_Z 2) with 2 in H. change (inject_Z 1) with 1 in H. destruct r, s; cbn; lra.
    + change (Zpos p~0) with (2 * Zpos p)%Z in H. rewrite inject_Z_mult in H.
      change (inject_Z 2) with 2 in H. destruct r, s; cbn; lra.
    + change (inject_Z 1) with 1 in H. change (inject_Z 0) with 0. destruct r, s; cbn; lra.
Qed.

#[export] Instance represents_proper : Proper (eq ==> Qeq ==> iff) represents.
Proof.
  intros r ? <- x y E. unfold represents. destruct (shr_r r), (shr_s r); rewrite E; reflexivity.
Qed.

Lemma iter_half n : forall r x, represents r x -> represents (iter_pos shr_1 n r) (x * p2 (Zneg n)).
Proof.
  induction n as [n IH|n IH|]; intros r x H; cbn [iter_pos].
  - apply shr_1_half, IH, IH in H. revert H. apply represents_proper; [easy|].
    replace (Z.neg n~1) with (Z.neg n + Z.neg n + -1)%Z by lia. rewrite !p2_add. change (p2 (-1)) with (1 # 2). ring.
  - apply IH, IH in H. revert H. apply represents_proper; [easy|].
    replace (Z.neg n~0) with (Z.neg n + Z.neg n)%Z by lia. rewrite !p2_add. ring.
  - now apply shr_1_half.
Qed.

Lemma shr_represents r e n x :
  represents r x -> (0 <= n)%Z ->
  represents (fst (shr r e n)) (x * p2 (- n)) /\ snd (shr r e n) = (e + n)%Z.
Proof.
  intros H Hn. destruct n as [|n|n]; [| |lia]; cbn [shr fst snd].
  - split; [|lia]. revert H. apply represents_proper; [easy|]. change (p2 (- 0)) with 1. ring.
  - split; [|easy]. now apply iter_half.
Qed.

(** Rounding to the nearest. *)
Lemma round_nearest r x :
  represents r x -> let m := round_nearest_even (shr_m r) (loc_of_shr_record r) in
  (0 <= m)%Z /\ inject_Z m <= x + (1 # 2) /\ x - (1 # 2) <= inject_Z m.
Proof.
  destruct r as [m r s]. intros [H0 H]. cbn in *.
  assert (E : inject_Z (m + 1) == inject_Z m + 1) by (rewrite inject_Z_plus; reflexivity).
  destruct r, s; cbn; try destruct (Z.even m); rewrite ?E; split; try lia; lra.
Qed.

(** * Digits *)
Lemma digits2_bounds p : (2 ^ (Zpos (digits2_pos p) - 1) <= Zpos p < 2 ^ Zpos (digits2_pos p))%Z.
Proof.
  induction p as [p IH|p IH|]; cbn [digits2_pos]; rewrite ?Pos2Z.inj_succ.
  1,2: replace (Z.succ (Z.pos (digits2_pos p)) - 1)%Z with (Z.succ (Z.pos (digits2_pos p) - 1)) by lia;
    rewrite !Z.pow_succ_r by lia; lia.
  easy.
Qed.

Abbreviation fexp := (fexp 53 1024).
Lemma fexp_eq e : fexp e = Z.max (e - 53) (-1074).
Proof. reflexivity. Qed.

Lemma digits_le p n : (0 <= n)%Z -> (Zpos p < 2 ^ n)%Z -> (Zpos (digits2_pos p) <= n)%Z.
Proof.
  intros Hn H. pose proof (digits2_bounds p) as B.
  assert (2 ^ (Z.pos (digits2_pos p) - 1) < 2 ^ n)%Z as L by lia. apply Z.pow_lt_mono_r_iff in L; lia.
Qed.
Lemma digits_ge p n : (0 <= n)%Z -> (2 ^ n <= Zpos p)%Z -> (n < Zpos (digits2_pos p))%Z.
Proof.
  intros Hn H. pose proof (digits2_bounds p) as B.
  assert (2 ^ n < 2 ^ Z.pos (digits2_pos p))%Z as L by lia. apply Z.pow_lt_mono_r_iff in L; lia.
Qed.

(** * Values and rounding *)

(** The rational that a float stands for. *)
Definition val (f : spec_float) : Q :=
  match f with
  | S754_finite s m e => inject_Z (if s then Zneg m else Zpos m) * p2 e
  | _ => 0
  end.

Definition eps : Q := p2 (-53).
Definition tiny : Q := p2 (-1075).
(** [v] is [y] up to a relative error, or up to an absolute one next to zero. *)
Definition near (v y : Q) : Prop :=
  (y * (1 - eps) <= v <= y * (1 + eps)) \/ (y < p2 (-1021) /\ y - tiny <= v <= y + tiny).

(** [f] is what [y] rounds to, as far as it matters: finite and near it, or infinite when
    [y] is huge. *)
Definition rounds (f : spec_float) (y : Q) : Prop :=
  match f with
  | S754_zero s => s = false /\ near 0 y
  | S754_finite s m e => s = false /\ bounded 53 1024 m e = true /\ near (val f) y
  | S754_infinity s => s = false /\ p2 900 <= y
  | S754_nan => False
  end.

Lemma mul_le_pos a b c : a <= b -> 0 < c -> a * c <= b * c.
Proof. intros H Hc. apply Qmult_le_compat_r; lra. Qed.

(** The digits of a mantissa bound what it stands for. *)
Lemma digits_range p l x e :
  represents (shr_record_of_loc (Zpos p) l) x ->
  p2 (Zpos (digits2_pos p) - 1 + e) <= x * p2 e < p2 (Zpos (digits2_pos p) + e).
Proof.
  intros Hx. set (d := Zpos (digits2_pos p)).
  assert (Hp : shr_m (shr_record_of_loc (Z.pos p) l) = Zpos p) by (destruct l as [|[]]; reflexivity).
  pose proof (represents_floor _ _ Hx) as Hf. rewrite Hp in Hf.
  pose proof (digits2_bounds p) as Hd. fold d in Hd. assert (Hd1 : (1 <= d)%Z) by (unfold d; lia).
  pose proof (p2_pos e) as P0. split.
  - rewrite p2_add, (p2_Z (d - 1)) by lia. apply mul_le_pos; [|exact P0].
    assert (inject_Z (2 ^ (d - 1)) <= inject_Z (Zpos p)) as L by (apply inj_le; lia). lra.
  - rewrite p2_add, (p2_Z d) by lia.
    assert (inject_Z (Zpos p + 1) <= inject_Z (2 ^ d)) as L by (apply inj_le; lia).
    rewrite inject_Z_plus in L. apply Qmult_lt_compat_r; [exact P0|]. change (inject_Z 1) with 1 in L. lra.
Qed.

(** An integer next to a bounded rational. *)
Lemma near_integer m z n :
  (0 <= n)%Z -> inject_Z m <= z + (1 # 2) -> z - (1 # 2) <= inject_Z m ->
  (z < p2 n -> (m <= 2 ^ n)%Z) /\ (p2 n <= z -> (2 ^ n <= m)%Z).
Proof.
  intros Hn H1 H2. split; intros Hz.
  - assert (inject_Z m < inject_Z (2 ^ n + 1)) as L.
    { rewrite inject_Z_plus, <- (p2_Z n) by lia. change (inject_Z 1) with 1. lra. }
    rewrite <- Zlt_Qlt in L. lia.
  - assert (inject_Z (2 ^ n - 1) < inject_Z m) as L.
    { unfold Z.sub. rewrite inject_Z_plus, <- (p2_Z n) by lia. change (inject_Z (- (1))) with (- (1)). lra. }
    rewrite <- Zlt_Qlt in L. lia.
Qed.

(** The mantissa [m1] after the first rounding, for the exponent [e1]. *)
Lemma mantissa p e l x :
  represents (shr_record_of_loc (Zpos p) l) x ->
  let e1 := fexp (Zpos (digits2_pos p) + e) in
  (e <= e1)%Z ->
  let y := x * p2 e in
  let r1 := fst (shr_fexp 53 1024 (Zpos p) e l) in
  let m1 := round_nearest_even (shr_m r1) (loc_of_shr_record r1) in
  snd (shr_fexp 53 1024 (Zpos p) e l) = e1 /\
  (0 <= m1 <= 2 ^ 53)%Z /\
  y - p2 (e1 - 1) <= inject_Z m1 * p2 e1 <= y + p2 (e1 - 1) /\
  ((2 ^ 52 <= m1)%Z /\ p2 (52 + e1) <= y \/ e1 = (-1074)%Z /\ y < p2 (-1021)).
Proof.
  intros Hx e1 He y r1 m1. destruct (digits_range p l x e Hx) as [Hlo Hup]. fold y in Hlo, Hup.
  destruct (shr_represents _ e (e1 - e) x Hx ltac:(lia)) as [Hr Hs].
  unfold shr_fexp in *. change (Zdigits2 (Z.pos p)) with (Zpos (digits2_pos p)) in *.
  set (d := Zpos (digits2_pos p)) in *. fold e1 in r1, Hr, Hs |- *.
  fold r1 in Hr. pose proof (round_nearest _ _ Hr) as (R0 & R1 & R2). fold m1 in R0, R1, R2.
  pose proof (p2_pos e1) as P1.
  assert (Ey : y == x * p2 (- (e1 - e)) * p2 e1).
  { unfold y. rewrite <- Qmult_assoc, <- p2_add. now replace (- (e1 - e) + e1)%Z with e by lia. }
  assert (Eh : p2 (e1 - 1) == (1 # 2) * p2 e1).
  { replace (e1 - 1)%Z with (-1 + e1)%Z by lia. rewrite p2_add. reflexivity. }
  set (z := x * p2 (- (e1 - e))) in *. clearbody z m1 y.
  assert (Hz : z < p2 53).
  { apply (Qmult_lt_r _ _ (p2 e1)); [exact P1|]. rewrite <- Ey, <- p2_add. eapply Qlt_le_trans; [exact Hup|].
    apply p2_mono. unfold e1. rewrite fexp_eq. lia. }
  split; [lia|]. split; [split; [exact R0|now apply (near_integer m1 z 53)]|]. split.
  { rewrite Ey, Eh. split.
    - setoid_replace (z * p2 e1 - (1 # 2) * p2 e1) with ((z - (1 # 2)) * p2 e1) by ring. now apply mul_le_pos.
    - setoid_replace (z * p2 e1 + (1 # 2) * p2 e1) with ((z + (1 # 2)) * p2 e1) by ring. now apply mul_le_pos. }
  destruct (Z_lt_le_dec (d + e - 53) (-1074)) as [Hm|Hm].
  - right. assert (e1 = (-1074)%Z) as -> by (unfold e1; rewrite fexp_eq; lia). split; [easy|].
    eapply Qlt_le_trans; [exact Hup|]. apply p2_mono. lia.
  - left. assert (Hy : p2 (52 + e1) <= y).
    { eapply Qle_trans; [|exact Hlo]. apply p2_mono. unfold e1. rewrite fexp_eq. lia. }
    split; [|exact Hy]. apply (near_integer m1 z 52); [easy..|].
    apply (Qmult_le_r _ _ (p2 e1)); [exact P1|]. rewrite <- Ey, <- p2_add. exact Hy.
Qed.

(** The second shift: only a carry out of the mantissa has an effect. *)
Lemma renormalized q e1 :
  (Zpos q <= 2 ^ 53)%Z -> (-1074 <= e1)%Z -> (2 ^ 52 <= Zpos q)%Z \/ e1 = (-1074)%Z ->
  exists q' e2, shr_fexp 53 1024 (Zpos q) e1 loc_Exact = (Build_shr_record (Zpos q') false false, e2) /\
    inject_Z (Zpos q') * p2 e2 == inject_Z (Zpos q) * p2 e1 /\ (e2 <= e1 + 1)%Z /\
    canonical_mantissa 53 1024 q' e2 = true.
Proof.
  intros Hq Hmin Hn. unfold shr_fexp, canonical_mantissa. destruct (Z.eq_dec (Zpos q) (2 ^ 53)) as [E|E].
  - injection E as ->. exists 4503599627370496%positive, (e1 + 1)%Z.
    replace (fexp (Zdigits2 9007199254740992 + e1) - e1)%Z with 1%Z
      by (change (Zdigits2 9007199254740992) with 54%Z; rewrite fexp_eq; lia).
    split; [reflexivity|]. split; [|split; [lia|]].
    + rewrite p2_double. change (inject_Z 9007199254740992) with (inject_Z 4503599627370496 * 2). ring.
    + change (Z.pos (digits2_pos 4503599627370496)) with 53%Z. rewrite fexp_eq. apply Z.eqb_eq. lia.
  - exists q, e1. assert (Hd : (Zpos (digits2_pos q) <= 53)%Z) by (apply digits_le; lia).
    change (Zdigits2 (Zpos q)) with (Zpos (digits2_pos q)).
    assert (Hf : (fexp (Zpos (digits2_pos q) + e1) = e1)%Z).
    { rewrite fexp_eq. destruct Hn as [Hm| ->]; [|lia]. pose proof (digits_ge q 52 ltac:(lia) Hm). lia. }
    rewrite Hf, Z.sub_diag. split; [reflexivity|]. split; [reflexivity|]. split; [lia|now apply Z.eqb_eq].
Qed.

Lemma shr_zero n : fst (shr_fexp 53 1024 0 n loc_Exact) = Build_shr_record 0 false false.
Proof.
  unfold shr_fexp. destruct (_ - n)%Z as [|k|k]; try easy. cbn.
  induction k as [k IH|k IH|]; cbn; now rewrite ?IH.
Qed.

Lemma rounds_aux p e l x :
  represents (shr_record_of_loc (Zpos p) l) x ->
  (e <= fexp (Zpos (digits2_pos p) + e))%Z ->
  rounds (binary_round_aux 53 1024 false (Zpos p) e l) (x * p2 e).
Proof.
  intros Hx He. destruct (mantissa p e l x Hx He) as (E1 & M1 & M2 & M3).
  unfold binary_round_aux. destruct (shr_fexp 53 1024 (Zpos p) e l) as [r1 e1'].
  cbn [fst snd] in *. subst e1'. set (e1 := fexp (Z.pos (digits2_pos p) + e)) in *.
  set (y := x * p2 e) in *. set (m1 := round_nearest_even (shr_m r1) (loc_of_shr_record r1)) in *.
  assert (Hmin : (-1074 <= e1)%Z) by (unfold e1; rewrite fexp_eq; lia).
  clearbody m1 y e1. clear r1 He Hx.
  assert (Hnear : near (inject_Z m1 * p2 e1) y).
  { destruct M3 as [[_ Hy]|[-> Hy]].
    - left. assert (p2 (e1 - 1) <= y * eps) as L; [|lra].
      unfold eps. replace (e1 - 1)%Z with (52 + e1 + -53)%Z by lia. rewrite p2_add.
      apply mul_le_pos; [exact Hy|apply p2_pos].
    - right. split; [exact Hy|]. change (p2 (-1074 - 1)) with tiny in M2. lra. }
  destruct m1 as [|q|q]; [| |lia].
  - assert (E : inject_Z 0 * p2 e1 == 0) by (change (inject_Z 0) with 0; ring).
    unfold near in Hnear. rewrite E in Hnear. pose proof (shr_zero e1) as Hz.
    destruct (shr_fexp 53 1024 0 e1 loc_Exact) as [r2 e2]. cbn in Hz. subst r2. now split.
  - destruct (renormalized q e1) as (q' & e2 & -> & Hv & He2 & Hc); [lia|easy|tauto|]. cbn [shr_m].
    destruct (Z.leb_spec e2 (1024 - 53)) as [Hle|Hle].
    + split; [easy|]. split; [unfold bounded; rewrite Hc; now apply Z.leb_le|].
      unfold near in *. change (val (S754_finite false q' e2)) with (inject_Z (Zpos q') * p2 e2). now rewrite Hv.
    + split; [easy|]. destruct M3 as [[_ Hy]|[-> _]]; [|lia].
      eapply Qle_trans; [|exact Hy]. apply p2_mono. lia.
Qed.

(** * The operations *)

(** Finite, canonical and not negative. *)
Definition nonneg (f : spec_float) : Prop :=
  match f with
  | S754_zero false => True
  | S754_finite false m e => bounded 53 1024 m e = true
  | _ => False
  end.

Lemma val_nonneg f : nonneg f -> 0 <= val f.
Proof.
  destruct f as [[]|[]| |[] m e]; try easy. intros _. cbn [val].
  apply Qmult_le_0_compat; [easy|]. apply Qlt_le_weak, p2_pos.
Qed.

Lemma eps_small : 0 < eps /\ eps < 1 # 1000.
Proof. split; reflexivity. Qed.
Lemma near_refl y : 0 <= y -> near y y.
Proof. intros H. left. pose proof eps_small. split; nra. Qed.
Lemma near_proper v v' y y' : v == v' -> y == y' -> near v y -> near v' y'.
Proof. unfold near. intros E1 E2. rewrite E1, E2. easy. Qed.
Lemma rounds_proper f y y' : y == y' -> rounds f y -> rounds f y'.
Proof.
  intros E. destruct f as [s|s| |s m e]; cbn [rounds]; try easy; rewrite ?E; try easy; unfold near; now rewrite E.
Qed.
Lemma rounds_self f : nonneg f -> rounds f (val f).
Proof.
  intros H. pose proof (near_refl _ (val_nonneg f H)) as N.
  destruct f as [[]|[]| |[] m e]; cbn in H; try easy.
Qed.
Lemma rounds_nonneg f y : rounds f y -> nonneg f \/ f = S754_infinity false.
Proof. destruct f as [s|s| |s m e]; cbn; [intros [-> _]|intros [-> _]|easy|intros (-> & ? & _)]; auto. Qed.

Lemma canonical m e : bounded 53 1024 m e = true -> fexp (Zpos (digits2_pos m) + e) = e.
Proof. unfold bounded, canonical_mantissa. intros H. apply andb_prop in H as [H _]. now apply Z.eqb_eq. Qed.

Lemma shl_iter p d : Zpos (Pos.iter xO p d) = (Zpos p * 2 ^ Zpos d)%Z.
Proof.
  revert p. induction d as [|d IH] using Pos.peano_ind; intros p; [rewrite Z.mul_comm; easy|].
  rewrite Pos.iter_succ. change (Zpos (Pos.iter xO p d)~0) with (2 * Zpos (Pos.iter xO p d))%Z.
  rewrite IH, Pos2Z.inj_succ, Z.pow_succ_r by lia. lia.
Qed.

Lemma shl_align_spec p e e' :
  let '(q, f) := shl_align p e e' in
  f = Z.min e e' /\ Zpos q = (Zpos p * 2 ^ (e - f))%Z.
Proof.
  unfold shl_align. destruct (e' - e)%Z as [|k|k] eqn:E.
  - split; [lia|]. rewrite Z.sub_diag. cbn. lia.
  - split; [lia|]. rewrite Z.sub_diag. cbn. lia.
  - split; [lia|]. rewrite shl_iter. do 2 f_equal. lia.
Qed.

Lemma digits_mul p k q : (0 <= k)%Z -> Zpos q = (Zpos p * 2 ^ k)%Z ->
  Zpos (digits2_pos q) = (Zpos (digits2_pos p) + k)%Z.
Proof.
  intros Hk E. pose proof (digits2_bounds p) as B.
  assert (Zpos q < 2 ^ (Z.pos (digits2_pos p) + k))%Z by (rewrite E, Z.pow_add_r by lia; nia).
  assert (2 ^ (Z.pos (digits2_pos p) - 1 + k) <= Zpos q)%Z by (rewrite E, Z.pow_add_r by lia; nia).
  pose proof (digits_le q (Z.pos (digits2_pos p) + k) ltac:(lia) ltac:(lia)).
  pose proof (digits_ge q (Z.pos (digits2_pos p) - 1 + k) ltac:(lia) ltac:(lia)). lia.
Qed.

Lemma exact_represents p : represents (shr_record_of_loc (Zpos p) loc_Exact) (inject_Z (Zpos p)).
Proof. split; [easy|]. cbn. reflexivity. Qed.

Lemma rounds_round p e : rounds (binary_round 53 1024 false p e) (inject_Z (Zpos p) * p2 e).
Proof.
  unfold binary_round. pose proof (shl_align_spec p e (fexp (Zpos (digits2_pos p) + e))) as H.
  destruct (shl_align p e _) as [q f]. destruct H as [Hf Hq].
  pose proof (digits_mul p (e - f) q ltac:(lia) Hq) as Hd.
  apply (rounds_proper _ (inject_Z (Zpos q) * p2 f)).
  - rewrite Hq, inject_Z_mult, <- (p2_Z (e - f)), <- Qmult_assoc, <- p2_add by lia.
    now replace (e - f + f)%Z with e by lia.
  - apply rounds_aux; [apply exact_represents|]. rewrite Hd. replace (_ + (e - f) + f)%Z with (Z.pos (digits2_pos p) + e)%Z by lia. lia.
Qed.

Lemma rounds_normalize n e :
  (0 <= n)%Z -> rounds (binary_normalize 53 1024 n e false) (inject_Z n * p2 e).
Proof.
  intros Hn. destruct n as [|p|p]; [|apply rounds_round|lia].
  split; [easy|]. apply (near_proper 0 0 0); [easy|change (inject_Z 0) with 0; ring|]. now apply near_refl.
Qed.

(** Two operands brought to one exponent. *)
Lemma aligned m e f : (f <= e)%Z ->
  inject_Z (Zpos (fst (shl_align m e f))) * p2 f == inject_Z (Zpos m) * p2 e.
Proof.
  intros Hf. pose proof (shl_align_spec m e f) as H. destruct (shl_align m e f) as [q f'].
  destruct H as [Hf' Hq]. replace (Z.min e f) with f in Hf' by lia. subst f'. cbn [fst].
  rewrite Hq, inject_Z_mult, <- (p2_Z (e - f)), <- Qmult_assoc, <- p2_add by lia.
  now replace (e - f + f)%Z with e by lia.
Qed.

Lemma rounds_add a b : nonneg a -> nonneg b -> rounds (f64_add a b) (val a + val b).
Proof.
  intros Ha Hb. destruct a as [[]|[]| |[] m1 e1], b as [[]|[]| |[] m2 e2]; try easy.
  - now apply (rounds_self (S754_zero false)).
  - apply (rounds_proper _ (val (S754_finite false m2 e2))); [cbn [val]; ring|]. now apply rounds_self.
  - apply (rounds_proper _ (val (S754_finite false m1 e1))); [cbn [val]; ring|]. now apply rounds_self.
  - unfold f64_add; cbn [SFadd val cond_Zopp]. eapply rounds_proper; cycle 1; [apply rounds_normalize; lia|].
    rewrite inject_Z_plus, Qmult_plus_distr_l, !aligned by lia. reflexivity.
Qed.

Lemma rounds_sub a b :
  nonneg a -> nonneg b -> val b <= val a -> rounds (f64_sub a b) (val a - val b).
Proof.
  intros Ha Hb Hle. destruct a as [[]|[]| |[] m1 e1], b as [[]|[]| |[] m2 e2]; try easy.
  - now apply (rounds_self (S754_zero false)).
  - exfalso. cbn [val] in Hle. assert (0 < inject_Z (Zpos m2) * p2 e2); [|lra].
    apply Qmult_lt_0_compat; [easy|apply p2_pos].
  - apply (rounds_proper _ (val (S754_finite false m1 e1))); [cbn [val]; ring|]. now apply rounds_self.
  - unfold f64_sub; cbn [SFsub val cond_Zopp] in *.
    pose proof (aligned m1 e1 (Z.min e1 e2) ltac:(lia)) as A1. pose proof (aligned m2 e2 (Z.min e1 e2) ltac:(lia)) as A2.
    rewrite <- A1, <- A2 in Hle. apply Qmult_le_r in Hle; [|apply p2_pos]. rewrite <- Zle_Qle in Hle.
    eapply rounds_proper; cycle 1; [apply rounds_normalize; lia|].
    unfold Z.sub. rewrite inject_Z_plus, inject_Z_opp, Qmult_plus_distr_l, A1.
    setoid_replace (- inject_Z (Z.pos (fst (shl_align m2 e2 (Z.min e1 e2)))) * p2 (Z.min e1 e2))
      with (- (inject_Z (Z.pos (fst (shl_align m2 e2 (Z.min e1 e2)))) * p2 (Z.min e1 e2))) by ring.
    rewrite A2. ring.
Qed.

Lemma rounds_mul a b : nonneg a -> nonneg b -> rounds (f64_mul a b) (val a * val b).
Proof.
  intros Ha Hb.
  assert (Hz : forall y, y == 0 -> rounds (S754_zero false) y).
  { intros y E. apply (rounds_proper _ 0); [now rewrite E|]. split; [easy|]. now apply near_refl. }
  destruct a as [[]|[]| |[] m1 e1], b as [[]|[]| |[] m2 e2]; try easy; unfold f64_mul; cbn [SFmul xorb].
  1-3: apply Hz; cbn [val]; ring.
  cbn [val]. eapply rounds_proper; cycle 1; [apply rounds_aux; [apply exact_represents|]|].
  - apply canonical in Ha, Hb. rewrite fexp_eq in *.
    assert (Zpos (digits2_pos m1) <= Zpos (digits2_pos (m1 * m2)))%Z.
    { pose proof (digits2_bounds m1). pose proof (digits_ge (m1 * m2) (Zpos (digits2_pos m1) - 1) ltac:(lia) ltac:(nia)). lia. }
    assert (Zpos (digits2_pos m2) <= Zpos (digits2_pos (m1 * m2)))%Z.
    { pose proof (digits2_bounds m2). pose proof (digits_ge (m1 * m2) (Zpos (digits2_pos m2) - 1) ltac:(lia) ltac:(nia)). lia. }
    lia.
  - rewrite Pos2Z.inj_mul, inject_Z_mult, p2_add. ring.
Qed.

Lemma compare_spec a b :
  nonneg a -> nonneg b ->
  match SFcompare a b with
  | Some Lt => val a < val b
  | Some Eq => val a == val b
  | Some Gt => val b < val a
  | None => False
  end.
Proof.
  assert (Hpos : forall m e, 0 < inject_Z (Zpos m) * p2 e).
  { intros m e. apply Qmult_lt_0_compat; [easy|apply p2_pos]. }
  assert (Hlt : forall m1 e1 m2 e2, bounded 53 1024 m1 e1 = true -> bounded 53 1024 m2 e2 = true -> (e1 < e2)%Z ->
    inject_Z (Zpos m1) * p2 e1 < inject_Z (Zpos m2) * p2 e2).
  { intros m1 e1 m2 e2 H1 H2 He. apply canonical in H1, H2. rewrite fexp_eq in *.
    pose proof (digits2_bounds m1) as B1. pose proof (digits2_bounds m2) as B2.
    apply (Qlt_le_trans _ (p2 (Zpos (digits2_pos m1) + e1))).
    - rewrite p2_add, (p2_Z (Zpos (digits2_pos m1))) by lia. apply Qmult_lt_compat_r; [apply p2_pos|]. rewrite <- Zlt_Qlt. lia.
    - apply (Qle_trans _ (p2 (Zpos (digits2_pos m2) - 1 + e2))); [apply p2_mono; lia|].
      rewrite p2_add, (p2_Z (Zpos (digits2_pos m2) - 1)) by lia. apply mul_le_pos; [apply inj_le; lia|apply p2_pos]. }
  intros Ha Hb. destruct a as [[]|[]| |[] m1 e1], b as [[]|[]| |[] m2 e2]; try easy; cbn [SFcompare val].
  - apply Hpos.
  - apply Hpos.
  - destruct (Z.compare_spec e1 e2) as [->|He|He].
    + change (Pos.compare_cont Eq m1 m2) with (Pos.compare m1 m2). destruct (Pos.compare_spec m1 m2) as [->|H|H].
      * reflexivity.
      * apply Qmult_lt_compat_r; [apply p2_pos|]. rewrite <- Zlt_Qlt. lia.
      * apply Qmult_lt_compat_r; [apply p2_pos|]. rewrite <- Zlt_Qlt. lia.
    + now apply Hlt.
    + now apply Hlt.
Qed.

Lemma location_represents q r n :
  (0 <= q)%Z -> (0 <= r < n)%Z ->
  represents (shr_record_of_loc q (new_location n r)) (inject_Z q + inject_Z r / inject_Z n).
Proof.
  intros Hq Hr.
  assert (Hn : 0 < inject_Z n) by (change 0 with (inject_Z 0); rewrite <- Zlt_Qlt; lia).
  assert (H2 : forall a b, (a < b)%Z -> inject_Z a < inject_Z b) by (intros; now rewrite <- Zlt_Qlt).
  set (x := inject_Z r / inject_Z n). assert (Ex : x * inject_Z n == inject_Z r) by (unfold x; field; lra).
  assert (Hx : x < 1) by (apply (Qmult_lt_r _ _ (inject_Z n)); [easy|]; rewrite Ex, Qmult_1_l; apply H2; lia).
  assert (Hlt : (2 * r < n)%Z -> x < 1 # 2).
  { intros H. apply H2 in H. rewrite inject_Z_mult in H. change (inject_Z 2) with 2 in H.
    apply (Qmult_lt_r _ _ (inject_Z n)); [easy|]. lra. }
  assert (Hgt : (n < 2 * r)%Z -> (1 # 2) < x).
  { intros H. apply H2 in H. rewrite inject_Z_mult in H. change (inject_Z 2) with 2 in H.
    apply (Qmult_lt_r _ _ (inject_Z n)); [easy|]. lra. }
  assert (Heq : (n = 2 * r)%Z -> x == 1 # 2).
  { intros H. apply (Qmult_inj_r _ _ (inject_Z n)); [lra|]. rewrite Ex, H, inject_Z_mult. change (inject_Z 2) with 2. ring. }
  assert (H0 : (0 < r)%Z -> 0 < x).
  { intros H. apply H2 in H. change (inject_Z 0) with 0 in H. apply (Qmult_lt_r _ _ (inject_Z n)); [easy|]. lra. }
  assert (Hz : (r = 0)%Z -> x == 0).
  { intros H. apply (Qmult_inj_r _ _ (inject_Z n)); [lra|]. rewrite Ex, H. change (inject_Z 0) with 0. ring. }
  assert (Hs : forall l, shr_m (shr_record_of_loc q l) = q) by (intros [|[]]; reflexivity).
  split; [now rewrite Hs|]. rewrite Hs. unfold new_location, new_location_even, new_location_odd.
  destruct (Z.even n) eqn:Ev; (destruct (Z.eqb_spec r 0) as [E0|E0]; [cbn; specialize (Hz E0); lra|]).
  - change (Z.mul (Zpos 2) r) with (2 * r)%Z. destruct (Z.compare_spec (2 * r) n) as [E|E|E]; cbn.
    + specialize (Heq (eq_sym E)). lra.
    + specialize (H0 ltac:(lia)). specialize (Hlt E). lra.
    + specialize (Hgt E). lra.
  - assert (Hodd : (n <> 2 * r)%Z) by (intros ->; rewrite Z.even_mul in Ev; discriminate).
    destruct (Z.compare_spec (2 * r + 1) n) as [E|E|E]; cbn.
    + specialize (H0 ltac:(lia)). specialize (Hlt ltac:(lia)). lra.
    + specialize (H0 ltac:(lia)). specialize (Hlt ltac:(lia)). lra.
    + specialize (Hgt ltac:(lia)). lra.
Qed.

(** A quotient, its exponent and its digits. *)
Lemma quotient_value m1 e1 m2 e2 q r s e' :
  (Zpos m1 * 2 ^ s = Zpos m2 * q + r)%Z -> (0 <= s)%Z -> (s = e1 - e2 - e')%Z ->
  inject_Z (Zpos m1) * p2 e1 / (inject_Z (Zpos m2) * p2 e2) ==
  (inject_Z q + inject_Z r / inject_Z (Zpos m2)) * p2 e'.
Proof.
  intros Hq Hs ->. set (s := (e1 - e2 - e')%Z) in *.
  assert (Hm2 : 0 < inject_Z (Zpos m2)) by easy. pose proof (p2_pos e2) as P2.
  assert (E1 : inject_Z (Zpos m1) * p2 s == inject_Z (Zpos m2) * inject_Z q + inject_Z r).
  { rewrite (p2_Z s) by lia. rewrite <- !inject_Z_mult, <- inject_Z_plus, Hq. reflexivity. }
  assert (E2 : p2 e1 == p2 s * p2 e' * p2 e2).
  { rewrite <- !p2_add. unfold s. now replace (e1 - e2 - e' + e' + e2)%Z with e1 by lia. }
  rewrite E2. setoid_replace (inject_Z q + inject_Z r / inject_Z (Zpos m2))
    with ((inject_Z (Zpos m2) * inject_Z q + inject_Z r) / inject_Z (Zpos m2)) by (field; lra).
  rewrite <- E1. field. split; lra.
Qed.

Lemma quotient_range m1 e1 m2 e2 :
  let D := (Zpos (digits2_pos m1) + e1 - (Zpos (digits2_pos m2) + e2))%Z in
  inject_Z (Zpos m1) * p2 e1 / (inject_Z (Zpos m2) * p2 e2) < p2 (D + 1).
Proof.
  intros D. pose proof (p2_pos e1) as P1. pose proof (p2_pos e2) as P2.
  assert (Hm2 : 0 < inject_Z (Zpos m2)) by easy.
  pose proof (digits_range m1 loc_Exact _ e1 (exact_represents m1)) as [_ U1].
  pose proof (digits_range m2 loc_Exact _ e2 (exact_represents m2)) as [L2 _].
  apply (Qmult_lt_r _ _ (inject_Z (Zpos m2) * p2 e2)); [now apply Qmult_lt_0_compat|].
  setoid_replace (inject_Z (Z.pos m1) * p2 e1 / (inject_Z (Z.pos m2) * p2 e2) * (inject_Z (Z.pos m2) * p2 e2))
    with (inject_Z (Z.pos m1) * p2 e1) by (field; split; lra).
  eapply Qlt_le_trans; [exact U1|]. apply (Qle_trans _ (p2 (D + 1) * p2 (Zpos (digits2_pos m2) - 1 + e2))).
  - rewrite <- p2_add. apply p2_mono. unfold D. lia.
  - rewrite !(Qmult_comm (p2 (D + 1))). apply mul_le_pos; [exact L2|apply p2_pos].
Qed.

Lemma quotient_digits m1 m2 q r s n :
  (Zpos m1 * 2 ^ s = Zpos m2 * q + r)%Z -> (0 <= r < Zpos m2)%Z -> (0 <= s)%Z -> (0 <= n)%Z ->
  (n + Zpos (digits2_pos m2) <= Zpos (digits2_pos m1) - 1 + s)%Z -> (2 ^ n <= q)%Z.
Proof.
  intros Hq Hr Hs Hn Hd. pose proof (digits2_bounds m1) as B1. pose proof (digits2_bounds m2) as B2.
  assert (Hlt : (2 ^ n * Zpos m2 < Zpos m1 * 2 ^ s)%Z); [|nia].
  apply (Z.lt_le_trans _ (2 ^ n * 2 ^ Zpos (digits2_pos m2))).
  - apply Z.mul_lt_mono_pos_l; [|lia]. apply Z.pow_pos_nonneg; lia.
  - rewrite <- Z.pow_add_r by lia. apply (Z.le_trans _ (2 ^ (Zpos (digits2_pos m1) - 1) * 2 ^ s)).
    + rewrite <- Z.pow_add_r by lia. apply Z.pow_le_mono_r; lia.
    + apply Z.mul_le_mono_nonneg_r; [|lia]. apply Z.pow_nonneg. lia.
Qed.

Lemma rounds_div a b :
  nonneg a -> nonneg b -> 0 < val b -> (val a == 0 \/ p2 (-1000) <= val a / val b) ->
  rounds (f64_div a b) (val a / val b).
Proof.
  intros Ha Hb Hb0 Hc. destruct b as [[]|[]| |[] m2 e2]; try easy.
  destruct a as [[]|[]| |[] m1 e1]; try easy.
  { cbn [f64_div SFdiv xorb]. apply (rounds_proper _ 0); [change (val (S754_zero false)) with 0; field; lra|].
    split; [easy|]. now apply near_refl. }
  destruct Hc as [Hc|Hc].
  { exfalso. cbn [val] in Hc. assert (0 < inject_Z (Zpos m1) * p2 e1); [|lra].
    apply Qmult_lt_0_compat; [easy|apply p2_pos]. }
  unfold f64_div. cbn [SFdiv xorb val] in *. unfold SFdiv_core_binary.
  change (Zdigits2 (Zpos m1)) with (Zpos (digits2_pos m1)). change (Zdigits2 (Zpos m2)) with (Zpos (digits2_pos m2)).
  pose proof (quotient_range m1 e1 m2 e2) as Hup. cbv zeta in Hup.
  set (D := (Zpos (digits2_pos m1) + e1 - (Zpos (digits2_pos m2) + e2))%Z) in *.
  set (e' := Z.min (fexp D) (e1 - e2)). set (s := (e1 - e2 - e')%Z). assert (Hs : (0 <= s)%Z) by (unfold s, e'; lia).
  replace (match s with Z0 => Zpos m1 | Zpos _ => Z.shiftl (Zpos m1) s | Zneg _ => 0%Z end)
    with (Zpos m1 * 2 ^ s)%Z by (destruct s; [lia|now rewrite Z.shiftl_mul_pow2 by lia|lia]).
  pose proof (Z_div_mod (Zpos m1 * 2 ^ s) (Zpos m2) ltac:(lia)) as Hdm.
  destruct (Z.div_eucl (Zpos m1 * 2 ^ s) (Zpos m2)) as [q r]. destruct Hdm as [Hq Hr].
  assert (HD : (-1001 < D)%Z).
  { apply Z.nle_gt. intros H. assert (p2 (D + 1) <= p2 (-1000)) by (apply p2_mono; lia). lra. }
  assert (He : (e' <= D - 53)%Z) by (unfold e'; rewrite fexp_eq; lia).
  pose proof (quotient_digits m1 m2 q r s (D - 1 - e') Hq ltac:(lia) Hs ltac:(lia) ltac:(unfold s, D; lia)) as Hn.
  assert (0 < 2 ^ (D - 1 - e'))%Z by (apply Z.pow_pos_nonneg; lia).
  destruct q as [|q|q]; [lia| |lia].
  eapply rounds_proper; [symmetry; exact (quotient_value m1 e1 m2 e2 _ r s e' Hq Hs eq_refl)|]. apply rounds_aux.
  - apply location_represents; lia.
  - pose proof (digits_ge q (D - 1 - e') ltac:(lia) Hn) as Hdq. unfold e' at 1. rewrite !fexp_eq. lia.
Qed.

Lemma geb_spec a b : nonneg a -> nonneg b -> f64_geb a b = true <-> val b <= val a.
Proof.
  intros Ha Hb. pose proof (compare_spec b a Hb Ha) as H. unfold f64_geb, SFleb.
  destruct (SFcompare b a) as [[]|]; [| | |easy]; split; try easy; intros; lra.
Qed.

(** The smaller one, also against an infinity. *)
Lemma min_spec f y b :
  rounds f y -> nonneg b -> val b <= p2 900 ->
  nonneg (f64_min f b) /\ val (f64_min f b) <= val b /\
  (val (f64_min f b) == val b /\ (nonneg f /\ val b <= val f \/ p2 900 <= y) \/
   nonneg f /\ val (f64_min f b) == val f /\ near (val f) y).
Proof.
  intros Hf Hb Hbig. destruct (rounds_nonneg f y Hf) as [Hn| ->].
  - pose proof (compare_spec f b Hn Hb) as Hc. unfold f64_min.
    assert (Hy : near (val f) y) by (destruct f as [?|?| |? ? ?]; cbn in Hf; try easy; apply Hf).
    destruct (SFcompare f b) as [[]|]; [| | |easy].
    + split; [easy|]. split; [lra|]. right. easy.
    + split; [easy|]. split; [lra|]. right. easy.
    + split; [easy|]. split; [lra|]. left. split; [lra|]. left. split; [easy|lra].
  - destruct Hf as [_ Hf].
    assert (E : f64_min (S754_infinity false) b = b) by (destruct b as [[]|[]| |[] ? ?]; easy).
    rewrite E. split; [easy|]. split; [lra|]. left. split; [lra|now right].
Qed.

Lemma rounds_of_Z n : (0 <= n)%Z -> rounds (f64_of_Z n) (inject_Z n).
Proof.
  intros Hn. apply (rounds_proper _ (inject_Z n * p2 0)); [rewrite p2_0; ring|]. now apply rounds_normalize.
Qed.
