(* ===== verification/Rate.v ===== *)
(** The token bucket of [ssh-io/limits.rs], the [RateLimiter]: its tokens are floating-point
    numbers and are computed as such, rounding included.  A clock reading is an argument, in
    nanoseconds. *)
From Stdlib Require Import QArith Lqa SpecFloat.
From S2P Require Import Prelude Float64 Policy.

Record Bucket := mkBucket { bk_tokens : f64; bk_last : Z }.
#[export] Instance eta_Bucket : Eta Bucket := fun b => mkBucket (bk_tokens b) (bk_last b).

Record RateLimiter := mkRateLimiter {
  rl_inner : Bucket;
  rl_rate_per_sec : f64;
  rl_capacity : f64
}.
#[export] Instance eta_RateLimiter : Eta RateLimiter := fun r =>
  mkRateLimiter (rl_inner r) (rl_rate_per_sec r) (rl_capacity r).

(** [Duration::as_secs_f64]: the seconds and the nanoseconds, each as a float. *)
Definition NANOS_PER_SEC : Z := 1000000000.
Definition as_secs_f64 (d : Z) : f64 :=
  f64_add (f64_of_Z (d / NANOS_PER_SEC)) (f64_div (f64_of_Z (d mod NANOS_PER_SEC)) (f64_of_Z NANOS_PER_SEC)).

Module RateLimiter.
Abbreviation RM := (M unit RateLimiter).

Definition new (now : Z) (rate_per_sec burst : f64) : RateLimiter :=
  mkRateLimiter (mkBucket burst now) rate_per_sec burst.

Definition try_acquire (now : Z) : RM bool :=
  let* r := get in
  let elapsed := as_secs_f64 (duration_since now (bk_last (rl_inner r))) in
  let tokens := f64_min (f64_add (bk_tokens (rl_inner r)) (f64_mul elapsed (rl_rate_per_sec r))) (rl_capacity r) in
  rl_inner <-! mkBucket tokens now ;;;
  if f64_geb tokens (f64_of_Z 1) then
    rl_inner <-~ (fun b => b <| bk_tokens := f64_sub tokens (f64_of_Z 1) |>) ;;;
    ret true
  else ret false.
End RateLimiter.

(** * What the floats amount to *)
#[local] Open Scope Q_scope.

(** A result of ordinary size has a relative error. *)
Lemma rounds_relative f y :
  rounds f y -> p2 (-1000) <= y -> y < p2 900 -> nonneg f /\ y * (1 - eps) <= val f <= y * (1 + eps).
Proof.
  intros Hf Hlo Hhi. assert (Hn : near (val f) y -> y * (1 - eps) <= val f <= y * (1 + eps)).
  { intros [?|[Hs _]]; [done|]. assert (p2 (-1021) < p2 (-1000)) by reflexivity. lra. }
  destruct (rounds_nonneg f y Hf) as [Hp| ->].
  - split; [done|]. apply Hn. destruct f as [?|?| |? ? ?]; cbn in Hf; try done; apply Hf.
  - destruct Hf as [_ Hf]. lra.
Qed.

Lemma of_Z_relative n : (0 <= n < 2 ^ 60)%Z ->
  nonneg (f64_of_Z n) /\ inject_Z n * (1 - eps) <= val (f64_of_Z n) <= inject_Z n * (1 + eps).
Proof.
  intros Hn. destruct (Z.eq_dec n 0) as [->|H0]; [split; [done|split; discriminate]|].
  apply rounds_relative; [apply rounds_of_Z; lia| |].
  - apply (Qle_trans _ (inject_Z 1)); [discriminate|]. apply inj_le. lia.
  - apply (Qlt_trans _ (inject_Z (2 ^ 60))); [|reflexivity]. rewrite <- Zlt_Qlt. lia.
Qed.

(** Seconds, exactly. *)
Definition secs (d : Z) : Q := inject_Z d / 1000000000.

Lemma val_one : nonneg (f64_of_Z 1) /\ val (f64_of_Z 1) == 1.
Proof. by split. Qed.

Lemma nanos_float : nonneg (f64_of_Z NANOS_PER_SEC) /\ val (f64_of_Z NANOS_PER_SEC) == 1000000000.
Proof. split; reflexivity. Qed.

(** The fraction of a second. *)
Lemma nanos_relative n : (0 <= n < NANOS_PER_SEC)%Z ->
  let f := f64_div (f64_of_Z n) (f64_of_Z NANOS_PER_SEC) in
  nonneg f /\ secs n * (1 - eps) * (1 - eps) <= val f <= secs n * (1 + eps) * (1 + eps).
Proof.
  intros Hn f. destruct (Z.eq_dec n 0) as [->|H0]; [split; [done|split; discriminate]|].
  destruct (of_Z_relative n) as [N1 N2]; [unfold NANOS_PER_SEC in *; lia|]. destruct nanos_float as [D1 D2].
  set (a := f64_of_Z n) in *. set (b := f64_of_Z NANOS_PER_SEC) in *.
  assert (E : val a / val b == val a * (1 # 1000000000)) by (rewrite D2; field).
  assert (L1 : 1 <= inject_Z n) by (apply (inj_le 1); lia).
  assert (L2 : inject_Z n < 1000000000) by (change 1000000000 with (inject_Z 1000000000); rewrite <- Zlt_Qlt; exact (proj2 Hn)).
  destruct eps_small as [S1 S2].
  assert (V1 : 1 # 2 <= val a) by nra. assert (V2 : val a <= 2000000000) by nra.
  destruct (rounds_relative f (val a / val b)) as [F1 F2].
  - apply rounds_div; [done|done|by rewrite D2|right]. rewrite E.
    apply (Qle_trans _ ((1 # 2) * (1 # 1000000000))); [discriminate|]. lra.
  - rewrite E. apply (Qle_trans _ ((1 # 2) * (1 # 1000000000))); [discriminate|]. lra.
  - rewrite E. apply (Qle_lt_trans _ (2000000000 * (1 # 1000000000))); [lra|reflexivity].
  - split; [done|]. rewrite E in F2. unfold secs.
    assert (Es : inject_Z n / 1000000000 == inject_Z n * (1 # 1000000000)) by field. rewrite Es.
    split; nra.
Qed.

Lemma secs_split d : secs d == inject_Z (d / NANOS_PER_SEC) + secs (d mod NANOS_PER_SEC).
Proof.
  unfold secs. rewrite (Z_div_mod_eq_full d NANOS_PER_SEC) at 1.
  rewrite inject_Z_plus, inject_Z_mult. change (inject_Z NANOS_PER_SEC) with 1000000000. field.
Qed.

(** The elapsed time, up to four roundings. *)
Lemma elapsed_relative d : (0 <= d < 2 ^ 53 * NANOS_PER_SEC)%Z ->
  nonneg (as_secs_f64 d) /\ secs d * (1 - 4 * eps) <= val (as_secs_f64 d) <= secs d * (1 + 4 * eps).
Proof.
  intros Hd. destruct (Z.eq_dec d 0) as [->|H0]; [split; [done|split; discriminate]|].
  pose proof (Z.mod_pos_bound d NANOS_PER_SEC ltac:(done)) as Hm.
  assert (Hq : (0 <= d / NANOS_PER_SEC < 2 ^ 60)%Z).
  { split; [apply Z.div_pos; [lia|done]|]. apply Z.div_lt_upper_bound; [done|]. unfold NANOS_PER_SEC in *. lia. }
  destruct (of_Z_relative _ Hq) as [A1 A2]. destruct (nanos_relative _ Hm) as [B1 B2].
  pose proof (secs_split d) as E. unfold as_secs_f64.
  set (a := f64_of_Z (d / NANOS_PER_SEC)) in *. set (b := f64_div _ _) in *.
  set (x := inject_Z (d / NANOS_PER_SEC)) in *. set (y := secs (d mod NANOS_PER_SEC)) in *.
  assert (X0 : 0 <= x) by (apply (inj_le 0); lia).
  assert (X1 : x <= inject_Z (2 ^ 60)) by (apply inj_le; lia).
  assert (Hf : forall n, (0 <= n)%Z -> 0 <= secs n /\ ((1 <= n)%Z -> (1 # 1000000000) <= secs n)).
  { intros n Hn. unfold secs. assert (En : inject_Z n / 1000000000 == inject_Z n * (1 # 1000000000)) by field. rewrite En.
    split; [|intros H1; apply (inj_le 1) in H1; change (inject_Z 1) with 1 in H1; lra].
    apply (inj_le 0) in Hn. change (inject_Z 0) with 0 in Hn. lra. }
  destruct (Hf _ (proj1 Hm)) as [Y0 _]. destruct (Hf d ltac:(lia)) as [_ Yd]. specialize (Yd ltac:(lia)).
  assert (Y1 : y <= 1).
  { unfold y, secs. assert (En : inject_Z (d mod NANOS_PER_SEC) / 1000000000 == inject_Z (d mod NANOS_PER_SEC) * (1 # 1000000000)) by field.
    rewrite En. assert (inject_Z (d mod NANOS_PER_SEC) <= inject_Z NANOS_PER_SEC) as L by (apply inj_le; lia).
    change (inject_Z NANOS_PER_SEC) with 1000000000 in L. lra. }
  fold y in Y0. destruct eps_small as [S1 S2]. rewrite E in Yd |- *.
  clearbody x y a b. clear E Hf Hm Hq Hd H0 d.
  assert (C1 : (1 - 2 * eps) * (x + y) <= val a + val b <= (1 + 3 * eps) * (x + y)) by (split; nra).
  destruct (rounds_relative (f64_add a b) (val a + val b)) as [F1 F2].
  - by apply rounds_add.
  - apply (Qle_trans _ ((1 # 2) * (1 # 1000000000))); [discriminate|]. nra.
  - apply (Qle_lt_trans _ (2 * (inject_Z (2 ^ 60) + 1))); [nra|reflexivity].
  - split; [done|]. split; nra.
Qed.

Lemma rounds_near f y : 0 <= y -> nonneg f -> rounds f y -> y * (1 - eps) - tiny <= val f <= y * (1 + eps) + tiny.
Proof.
  intros Hy Hn Hf. assert (Ht : 0 < tiny) by reflexivity. destruct eps_small.
  assert (N : near (val f) y) by (destruct f as [?|?| |? ? ?]; cbn in Hf; try done; apply Hf).
  destruct N as [?|[_ ?]]; [lra|]. split; nra.
Qed.

Lemma add_infinity a : nonneg a -> f64_add a (S754_infinity false) = S754_infinity false.
Proof. by destruct a as [[]|[]| |[] m e]. Qed.

(** The refill: the bucket gains what has accrued, up to the rounding, and never more than
    its capacity. *)
Lemma refill_spec k T el rate cap :
  nonneg T -> nonneg el -> nonneg rate -> nonneg cap -> val T <= val cap -> (0 <= k <= 52)%Z -> val cap <= p2 k ->
  let m := f64_min (f64_add T (f64_mul el rate)) cap in
  let accrued := val el * val rate in
  nonneg m /\ val m <= val cap /\ val m <= val T + accrued * (1 + eps) + p2 (k - 52) /\
  (val m == val cap \/ (val T + (accrued * (1 - eps) - tiny)) * (1 - eps) - tiny <= val m).
Proof.
  intros HT He Hr Hc Hle Hk Hcap m accrued.
  assert (HC : val cap <= p2 900) by (eapply Qle_trans; [exact Hcap|apply p2_mono; lia]).
  pose proof (val_nonneg _ HT) as T0. pose proof (val_nonneg _ Hc) as C0.
  assert (A0 : 0 <= accrued) by (apply Qmult_le_0_compat; by apply val_nonneg).
  assert (Ht : 0 < tiny) by reflexivity. destruct eps_small as [E0 E1].
  assert (Hk53 : p2 k * eps == p2 (k - 53)) by (unfold eps; by rewrite <- p2_add).
  assert (Htk : tiny <= p2 (k - 54)) by (apply p2_mono; lia).
  assert (Hd1 : p2 (k - 53) == 2 * p2 (k - 54)) by (rewrite <- p2_double; by replace (k - 54 + 1)%Z with (k - 53)%Z by lia).
  assert (Hd2 : p2 (k - 52) == 2 * p2 (k - 53)) by (rewrite <- p2_double; by replace (k - 53 + 1)%Z with (k - 52)%Z by lia).
  pose proof (rounds_mul el rate He Hr) as Rc. fold accrued in Rc. unfold m. clear m.
  destruct (rounds_nonneg _ _ Rc) as [Nc|Ei].
  - pose proof (rounds_near _ _ A0 Nc Rc) as [c1 c2]. set (c := f64_mul el rate) in *.
    pose proof (val_nonneg _ Nc) as c0. pose proof (rounds_add T c HT Nc) as Rs.
    set (s := f64_add T c) in *. set (Y := val T + val c) in *.
    destruct (min_spec s Y cap Rs Hc HC) as (M1 & M2 & M3). set (m := f64_min s cap) in *.
    split; [done|]. split; [done|].
    assert (HY : val m <= Y + p2 (k - 53) + tiny).
    { destruct (Qlt_le_dec Y (val cap)) as [Hlt|Hge]; [|lra].
      destruct (rounds_nonneg _ _ Rs) as [Ns|Es]; [|rewrite Es in Rs; destruct Rs as [_ Rs]; lra].
      pose proof (rounds_near s Y ltac:(unfold Y; lra) Ns Rs) as [_ s2].
      assert (Y * eps <= p2 (k - 53)) by (rewrite <- Hk53; apply mul_le_pos; lra).
      destruct M3 as [[M3 [[_ ?]|?]]|(_ & M3 & _)]; lra. }
    split; [unfold Y in HY; lra|].
    destruct M3 as [[M3 _]|(Ns & M3 & _)]; [by left|right].
    pose proof (rounds_near s Y ltac:(unfold Y; lra) Ns Rs) as [s1 _]. rewrite M3.
    assert ((val T + (accrued * (1 - eps) - tiny)) * (1 - eps) <= Y * (1 - eps)) by (apply mul_le_pos; unfold Y; lra). lra.
  - rewrite Ei in *. destruct Rc as [_ Rc]. rewrite (add_infinity _ HT).
    assert (E : f64_min (S754_infinity false) cap = cap) by (destruct cap as [[]|[]| |[] ? ?]; done).
    rewrite E. split; [done|]. split; [lra|]. split; [|by left].
    pose proof (p2_pos (k - 52)). nra.
Qed.

(** * The bucket *)
Record bucket_ok (r : RateLimiter) : Prop := {
  bo_tokens : nonneg (bk_tokens (rl_inner r));
  bo_rate : nonneg (rl_rate_per_sec r);
  bo_capacity : nonneg (rl_capacity r);
  bo_full : val (bk_tokens (rl_inner r)) <= val (rl_capacity r);
  bo_small : val (rl_capacity r) <= p2 52
}.

Definition one (b : bool) : Q := if b then 1 else 0.

Lemma try_acquire_spec k now (r : RateLimiter) :
  bucket_ok r -> (0 <= k <= 52)%Z -> val (rl_capacity r) <= p2 k ->
  (bk_last (rl_inner r) <= now < bk_last (rl_inner r) + 2 ^ 53 * NANOS_PER_SEC)%Z ->
  let elapsed := secs (now - bk_last (rl_inner r)) in
  exists b r', RateLimiter.try_acquire now r = (Ok b, r') /\ bucket_ok r' /\
    bk_last (rl_inner r') = now /\ rl_capacity r' = rl_capacity r /\ rl_rate_per_sec r' = rl_rate_per_sec r /\
    one b + val (bk_tokens (rl_inner r')) <=
      val (bk_tokens (rl_inner r)) + elapsed * val (rl_rate_per_sec r) * (1 + p2 (-50)) + p2 (k - 51) /\
    (1 <= val (rl_capacity r) -> 1 + p2 (-49) <= elapsed * val (rl_rate_per_sec r) -> b = true).
Proof.
  intros [B1 B2 B3 B4 B5] Hk Hcap Hnow elapsed.
  destruct (elapsed_relative (now - bk_last (rl_inner r))) as [N1 N2]; [lia|].
  unfold RateLimiter.try_acquire, bind, get, modify, duration_since.
  replace (Z.max (now - bk_last (rl_inner r)) 0) with (now - bk_last (rl_inner r))%Z by lia.
  fold elapsed in N2. set (el := as_secs_f64 _) in *.
  set (T := bk_tokens (rl_inner r)) in *. set (rate := rl_rate_per_sec r) in *. set (cap := rl_capacity r) in *.
  destruct (refill_spec k T el rate cap) as (M1 & M2 & M3 & M4); try done. cbv zeta in *.
  set (m := f64_min _ cap) in *. destruct val_one as [O1 O2]. destruct eps_small as [E0 E1].
  pose proof (val_nonneg _ B1) as T0. pose proof (val_nonneg _ B2) as R0. pose proof (val_nonneg _ M1) as m0.
  fold T in T0. fold rate in R0.
  assert (P : 0 <= elapsed).
  { unfold elapsed, secs. assert (E : inject_Z (now - bk_last (rl_inner r)) / 1000000000 ==
      inject_Z (now - bk_last (rl_inner r)) * (1 # 1000000000)) by field. rewrite E.
    assert (0 <= inject_Z (now - bk_last (rl_inner r))) by (apply (inj_le 0); lia). lra. }
  assert (Hd2 : p2 (k - 51) == 2 * p2 (k - 52)) by (rewrite <- p2_double; by replace (k - 52 + 1)%Z with (k - 51)%Z by lia).
  assert (Hd3 : p2 (k - 52) == 2 * p2 (k - 53)) by (rewrite <- p2_double; by replace (k - 53 + 1)%Z with (k - 52)%Z by lia).
  pose proof (p2_pos (k - 52)) as Hk0.
  assert (H50 : p2 (-50) == 8 * eps) by reflexivity. assert (H49 : p2 (-49) == 16 * eps) by reflexivity.
  assert (Hnew : forall t, nonneg t -> val t <= val cap -> bucket_ok (r <| rl_inner := mkBucket t now |>)) by (by constructor).
  assert (Hcap52 : val cap <= p2 52) by done.
  set (P1 := elapsed * val rate) in *.
  assert (Q0 : 0 <= P1) by (by apply Qmult_le_0_compat).
  assert (Q1 : P1 * (1 - 4 * eps) <= val el * val rate <= P1 * (1 + 4 * eps)) by (unfold P1; split; nra).
  set (acc := val el * val rate) in *. clearbody P1 acc m.
  assert (M5 : val m <= val T + P1 * (1 + p2 (-50)) + p2 (k - 52)) by (rewrite H50; nra).
  destruct (f64_geb m (f64_of_Z 1)) eqn:G.
  - apply geb_spec in G; [|done..]. rewrite O2 in G.
    pose proof (rounds_sub m (f64_of_Z 1) M1 O1 ltac:(lra)) as Rs.
    set (t := f64_sub m (f64_of_Z 1)) in *.
    assert (Nt : nonneg t).
    { destruct (rounds_nonneg _ _ Rs) as [?|Es]; [done|]. rewrite Es in Rs. destruct Rs as [_ Rs].
      assert (p2 52 < p2 900) by reflexivity. lra. }
    apply (rounds_proper _ _ (val m - 1)) in Rs; [|by rewrite O2].
    pose proof (rounds_near t (val m - 1) ltac:(lra) Nt Rs) as [_ Hup].
    assert (Hkk : (val m - 1) * eps <= p2 (k - 53)).
    { assert (E : p2 (k - 53) == p2 k * eps) by (unfold eps; by rewrite <- p2_add). rewrite E. apply mul_le_pos; lra. }
    assert (Htk : tiny <= p2 (k - 54)) by (apply p2_mono; lia).
    assert (Hd4 : p2 (k - 53) == 2 * p2 (k - 54)) by (rewrite <- p2_double; by replace (k - 54 + 1)%Z with (k - 53)%Z by lia).
    assert (Hk1 : p2 (k - 53) <= 1 # 2) by (change (1 # 2) with (p2 (-1)); apply p2_mono; lia).
    exists true, (r <| rl_inner := mkBucket t now |>). split; [reflexivity|]. split; [apply Hnew; [done|lra]|].
    split; [done|]. split; [done|]. split; [done|]. split; [|done].
    change (1 + val t <= val T + P1 * (1 + p2 (-50)) + p2 (k - 51)). lra.
  - eexists false, _. split; [reflexivity|]. split; [by apply Hnew|].
    split; [done|]. split; [done|]. split; [done|]. split.
    { change (0 + val m <= val T + P1 * (1 + p2 (-50)) + p2 (k - 51)). lra. }
    intros H1 H2. exfalso.
    apply not_true_iff_false in G. apply G, geb_spec; [done..|]. rewrite O2.
    destruct M4 as [->|M4]; [done|]. assert (tiny <= eps) by (apply p2_mono; lia).
    rewrite H49 in H2. assert (S : eps * eps <= eps * (1 # 1000)) by nra.
    pose proof (mul_le_pos _ _ (1 - 4 * eps) H2 ltac:(lra)) as A1.
    assert (A2 : 1 + 11 * eps <= acc) by lra.
    pose proof (mul_le_pos _ _ (1 - eps) A2 ltac:(lra)) as A3.
    assert (A4 : 1 + 8 * eps <= val T + (acc * (1 - eps) - tiny)) by lra.
    pose proof (mul_le_pos _ _ (1 - eps) A4 ltac:(lra)) as A5. lra.
Qed.

(** * Sequences of calls *)

(** Calls at the instants [ts], with their results; the clock does not go back and no pause
    is longer than a float has integers of seconds. *)
Fixpoint calls (ts : list Z) : M unit RateLimiter (list bool) :=
  match ts with
  | [] => ret []
  | t :: ts' =>
      let* b := RateLimiter.try_acquire t in
      let* bs := calls ts' in
      ret (b :: bs)
  end.
Definition LONGEST : Z := (2 ^ 53 * NANOS_PER_SEC)%Z.
Fixpoint ascending (last : Z) (ts : list Z) : Prop :=
  match ts with
  | [] => True
  | t :: ts' => (last <= t < last + LONGEST)%Z /\ ascending t ts'
  end.
Definition admitted (bs : list bool) : Z := len (List.filter (fun b => b) bs).

Lemma secs_add a b : secs (a + b) == secs a + secs b.
Proof. unfold secs. rewrite inject_Z_plus. field. Qed.
Lemma admitted_cons b bs : inject_Z (admitted (b :: bs)) == one b + inject_Z (admitted bs).
Proof.
  unfold admitted. destruct b; cbn [List.filter one]; [|ring]. rewrite len_cons, inject_Z_plus. reflexivity.
Qed.

Lemma calls_spec k ts (r : RateLimiter) :
  bucket_ok r -> (0 <= k <= 52)%Z -> val (rl_capacity r) <= p2 k -> ascending (bk_last (rl_inner r)) ts ->
  exists bs r', calls ts r = (Ok bs, r') /\ bucket_ok r' /\
    bk_last (rl_inner r') = List.last ts (bk_last (rl_inner r)) /\
    rl_capacity r' = rl_capacity r /\ rl_rate_per_sec r' = rl_rate_per_sec r /\
    inject_Z (admitted bs) + val (bk_tokens (rl_inner r')) <=
      val (bk_tokens (rl_inner r)) +
      secs (List.last ts (bk_last (rl_inner r)) - bk_last (rl_inner r)) * val (rl_rate_per_sec r) * (1 + p2 (-50)) +
      inject_Z (len ts) * p2 (k - 51).
Proof.
  revert r. induction ts as [|t ts IH]; intros r Hr Hk Hc Ha.
  - exists [], r. do 5 (split; [done|]). cbn [List.last]. rewrite Z.sub_diag.
    change (secs 0) with (0 / 1000000000). change (inject_Z (admitted [])) with 0.
    change (inject_Z (len [])) with 0. assert (E : 0 / 1000000000 == 0) by reflexivity. rewrite E. lra.
  - destruct Ha as [Ht Ha].
    destruct (try_acquire_spec k t r Hr Hk Hc Ht) as (b & r1 & E & H1 & H2 & H3 & H4 & H5 & _).
    rewrite <- H3 in Hc. rewrite <- H2 in Ha.
    destruct (IH r1 H1 Hk Hc Ha) as (bs & r2 & E2 & G1 & G2 & G3 & G4 & G5).
    exists (b :: bs), r2. split; [cbn [calls]; unfold bind; by rewrite E, E2|].
    rewrite H2, H4 in G5. rewrite H2 in G2. rewrite H3 in G3. rewrite H4 in G4.
    assert (El : forall d, List.last (t :: ts) d = List.last ts t).
    { intros d. destruct ts as [|t1 ts]; [done|]. clear. revert t1.
      induction ts as [|t2 ts IH]; intros t1; [done|]. apply IH. }
    rewrite El. do 4 (split; [done|]). rewrite admitted_cons, len_cons, inject_Z_plus.
    assert (Es : secs (List.last ts t - bk_last (rl_inner r)) ==
      secs (t - bk_last (rl_inner r)) + secs (List.last ts t - t)).
    { rewrite <- secs_add. by replace (t - bk_last (rl_inner r) + (List.last ts t - t))%Z
        with (List.last ts t - bk_last (rl_inner r))%Z by lia. }
    rewrite Es. change (inject_Z 1) with 1. lra.
Qed.

Lemma new_bucket_ok now rate burst :
  nonneg rate -> nonneg burst -> val burst <= p2 52 -> bucket_ok (RateLimiter.new now rate burst).
Proof. intros. constructor; cbn; try done. lra. Qed.

(** C23. The rate holds, rounding included: over any sequence of calls the connections let in
    are at most the burst plus what has accrued in the time that has passed, up to a
    relative error of 2^-50 and an error for each call of 2^-51 of the power of two above
    the burst. *)
Theorem admissions_bounded k now rate burst ts :
  nonneg rate -> nonneg burst -> (0 <= k <= 52)%Z -> val burst <= p2 k -> ascending now ts ->
  exists bs r', calls ts (RateLimiter.new now rate burst) = (Ok bs, r') /\
    inject_Z (admitted bs) <=
      val burst + secs (List.last ts now - now) * val rate * (1 + p2 (-50)) + inject_Z (len ts) * p2 (k - 51).
Proof.
  intros Hr Hb Hk Hc Ha. assert (H52 : val burst <= p2 52) by (eapply Qle_trans; [exact Hc|apply p2_mono; lia]).
  destruct (calls_spec k ts _ (new_bucket_ok now rate burst Hr Hb H52) Hk Hc Ha) as (bs & r' & E & Hok & _ & _ & _ & Hle).
  exists bs, r'. split; [done|]. pose proof (val_nonneg _ (bo_tokens _ Hok)). unfold RateLimiter.new in Hle.
  cbn [rl_inner rl_capacity rl_rate_per_sec bk_tokens bk_last] in Hle. lra.
Qed.

(** Nobody is locked out: whatever calls came before, once so much time has passed since
    the last that one token has accrued, with a margin of 2^-49, the next call is let in. *)
Lemma idle_admits now rate burst ts bs r t :
  nonneg rate -> nonneg burst -> 1 <= val burst <= p2 52 -> ascending now ts ->
  calls ts (RateLimiter.new now rate burst) = (Ok bs, r) ->
  (List.last ts now <= t < List.last ts now + LONGEST)%Z ->
  1 + p2 (-49) <= secs (t - List.last ts now) * val rate ->
  exists r', RateLimiter.try_acquire t r = (Ok true, r').
Proof.
  intros Hr Hb [H1 H52] Ha E Ht Hw.
  destruct (calls_spec 52 ts _ (new_bucket_ok now rate burst Hr Hb H52) ltac:(lia) H52 Ha)
    as (bs' & r1 & E1 & Hok & Hl & Hc & Hrate & _).
  rewrite E in E1. injection E1 as <- <-. cbn in Hl, Hc, Hrate.
  destruct (try_acquire_spec 52 t r Hok) as (b & r' & E' & _ & _ & _ & _ & _ & Hb'); [lia|by rewrite Hc|by rewrite Hl|].
  rewrite Hl, Hc, Hrate in Hb'. exists r'. by rewrite E', Hb'.
Qed.

(** A rate that is not a number switches the limit off: the bucket is always full. *)
Example nan_rate_unlimited :
  fst (calls (repeat 0%Z 500) (RateLimiter.new 0 S754_nan (f64_of_Z 1))) = Ok (repeat true 500).
Proof. vm_compute. reflexivity. Qed.

(** A burst of three and two per second: the bucket empties and fills. *)
Example bucket_run :
  fst (calls [0; 0; 0; 0; 400000000; 600000000; 600000000; 10000000000]%Z
        (RateLimiter.new 0 (f64_of_Z 2) (f64_of_Z 3))) =
  Ok [true; true; true; false; false; true; false; true].
Proof. vm_compute. reflexivity. Qed.

Lemma admissions_bounded_witness :
  exists bs r', calls (repeat 1000000%Z 120) (RateLimiter.new 0 (f64_of_Z 50) (f64_of_Z 100)) = (Ok bs, r') /\
    inject_Z (admitted bs) <= 101.
Proof.
  destruct (admissions_bounded 7 0 (f64_of_Z 50) (f64_of_Z 100) (repeat 1000000%Z 120)) as (bs & r' & E & H);
    [done|done|lia|vm_compute; discriminate|vm_compute; repeat split; congruence|].
  exists bs, r'. split; [exact E|]. eapply Qle_trans; [exact H|]. vm_compute. discriminate.
Defined.

Lemma idle_admits_witness :
  exists r', RateLimiter.try_acquire 30000000 (snd (calls (repeat 1000000%Z 120)
    (RateLimiter.new 0 (f64_of_Z 50) (f64_of_Z 100)))) = (Ok true, r').
Proof.
  eapply (idle_admits 0 (f64_of_Z 50) (f64_of_Z 100) (repeat 1000000%Z 120));
    [done|done|split; vm_compute; discriminate|vm_compute; repeat split; congruence|vm_compute; reflexivity
    |vm_compute; split; congruence|vm_compute; discriminate].
Defined.
