(* ===== verification/Driver.v ===== *)
(** Driving a session over a byte stream: the [Session] trait and the [Driver] of
    [ssh-io/lib.rs].  A socket call is the environment's: its outcome is an argument. *)
From S2P Require Import Prelude Errors Wire Packet Version Crypto Kex Algo Cipher Compress.
From S2P Require Import Connection Auth Transport Server Client.

(** [io::ErrorKind]: the kinds that the code tells apart. *)
Inductive ErrorKind := ConnectionReset | ConnectionAborted | BrokenPipe | UnexpectedEof | OtherError.

Definition is_disconnect (e : ErrorKind) : bool :=
  match e with
  | ConnectionReset | ConnectionAborted | BrokenPipe | UnexpectedEof => true
  | OtherError => false
  end.

Inductive DriveError :=
| De_Io (e : ErrorKind)
| De_Protocol (e : SshError)
| De_UnexpectedEof.

(** [trait Session]. *)
Class Session (S : Type) := {
  session_event : Type;
  session_on_input : bytes -> M SshError S unit;
  session_take_output : M SshError S bytes;
  session_poll_event : M SshError S (option session_event);
  session_pending_output : S -> bytes;
  session_clear_output : M SshError S unit
}.

#[export] Instance client_session `{C : Crypto} {H} `{!ClientAuthHandler H} : Session (ClientConnection H) := {|
  session_event := ClientEvent;
  session_on_input := ClientConnection.on_input;
  session_take_output := ClientConnection.take_output;
  session_poll_event := ClientConnection.poll_event;
  session_pending_output := ClientConnection.pending_output;
  session_clear_output := ClientConnection.clear_output
|}.

#[export] Instance server_session `{C : Crypto} {H} `{!ServerAuthHandler H} : Session (ServerConnection H) := {|
  session_event := ServerEvent;
  session_on_input := ServerConnection.on_input;
  session_take_output := ServerConnection.take_output;
  session_poll_event := ServerConnection.poll_event;
  session_pending_output := ServerConnection.pending_output;
  session_clear_output := ServerConnection.clear_output
|}.

(** The session and the bytes that were written to its stream. *)
Record Driver {S : Type} := mkDriver { dv_stream : bytes; dv_session : S }.
Arguments Driver : clear implicits.
Arguments mkDriver {S} _ _.
#[export] Instance eta_Driver {S} : Eta (Driver S) := fun d => mkDriver (dv_stream d) (dv_session d).

(** What [write_all] and [flush] come to: everything written, or an error after a part. *)
Inductive WriteOutcome := Written | WriteFailed (n : Z) (e : ErrorKind).
(** What a [read] into the buffer comes to; no bytes at the end of the stream. *)
Inductive ReadOutcome := Read (data : bytes) | ReadFailed (e : ErrorKind).
Definition READ_BUF : Z := 32768.

Module Driver.
Section Driver.
Context {S : Type} `{!Session S}.
Abbreviation DM := (M DriveError (Driver S)).

Definition new (session : S) : Driver S := mkDriver [] session.

(** A call on the session; [?] converts its error. *)
Definition on_session {A} (m : M SshError S A) : DM A :=
  fun d => match m (dv_session d) with
           | (Ok a, s) => (Ok a, d <| dv_session := s |>)
           | (Err e, s) => (Err (De_Protocol e), d <| dv_session := s |>)
           | (Panic, s) => (Panic, d <| dv_session := s |>)
           | (OutOfFuel, s) => (OutOfFuel, d <| dv_session := s |>)
           end.

Definition flush (w : WriteOutcome) : DM unit :=
  let* d := get in
  let pending := session_pending_output (dv_session d) in
  if negb (len pending =? 0) then
    match w with
    | Written =>
        dv_stream <-~ (fun out => out ++ pending) ;;;
        on_session session_clear_output
    | WriteFailed n e =>
        dv_stream <-~ (fun out => out ++ ztake n pending) ;;;
        err (De_Io e)
    end
  else ret tt.

Definition read_once (r : ReadOutcome) : DM bool :=
  match r with
  | ReadFailed e => if is_disconnect e then ret false else err (De_Io e)
  | Read data =>
      if len data =? 0 then ret false
      else on_session (session_on_input data) ;;; ret true
  end.

(** [next_event], for the outcomes of the socket calls of its rounds; when they run out the
    future is still pending. *)
Fixpoint next_event (script : list (WriteOutcome * ReadOutcome)) : DM (option session_event) :=
  match script with
  | [] => out_of_fuel
  | (w, r) :: script' =>
      let* e := on_session session_poll_event in
      match e with
      | Some event => flush w ;;; ret (Some event)
      | None =>
          flush w ;;;
          match r with
          | ReadFailed k => if is_disconnect k then ret None else err (De_Io k)
          | Read data =>
              if len data =? 0 then ret None
              else on_session (session_on_input data) ;;; next_event script'
          end
      end
  end.
End Driver.
End Driver.

(** A call on the session behind a driver: it returns when the call does. *)
Lemma on_session_wp {S A} (m : M SshError S A) (Q : A -> Driver S -> Prop) X (d : Driver S) :
  wp m (fun a s => Q a (d <| dv_session := s |>)) (fun e s => X (De_Protocol e) (d <| dv_session := s |>))
    (dv_session d) ->
  wp (Driver.on_session m) Q X d.
Proof. unfold wp, Driver.on_session. by destruct (m (dv_session d)) as [[a|e| |] s]. Qed.

Lemma stays_on_session {S A} (R : S -> S -> Prop) (m : M SshError S A) :
  stays R m -> stays (fun d d' : Driver S => R (dv_session d) (dv_session d')) (Driver.on_session m).
Proof.
  intros Hm d. specialize (Hm (dv_session d)). unfold Driver.on_session.
  by destruct (m (dv_session d)) as [[a|e| |] s].
Qed.
