(* ===== verification/Exec.v ===== *)
(** In-process program handlers: [ssh-io/exec.rs].  The registry of handlers, and a
    handler's end of its channel: the reader of its input and the writers of its output.

    A handler is arbitrary code, here a value of a type [Hd]; what it can do to the server
    is what its [ChannelSession] offers, one poll at a time.  The queues, the semaphore
    and the watched cells are tokio's: parameters ([Tokio]) with their documented
    behaviour as laws ([TokioOk]). *)
From stdpp Require Import gmap.
From S2P Require Import Prelude Errors Wire Text Connection Driver.

(** * tokio *)
Inductive Poll (A : Type) := Ready (a : A) | Pending.
Arguments Ready {A} a.
Arguments Pending {A}.

Class Tokio := {
  (** [mpsc::unbounded_channel]: the messages sent and not yet received. *)
  fifo : Type -> Type;
  fifo_new {A} : fifo A;
  fifo_send {A} : A -> fifo A -> fifo A;
  fifo_recv {A} : fifo A -> option (A * fifo A);
  fifo_items {A} : fifo A -> list A;
  (** [sync::Semaphore]: [None] is the panic beyond [MAX_PERMITS]; [budget_poll n] polls an
      acquisition of [n] permits.  [permits] counts those not handed out. *)
  budget : Type;
  MAX_PERMITS : Z;
  budget_new : Z -> option budget;
  budget_poll : Z -> budget -> option (Poll unit) * budget;
  budget_add : Z -> budget -> option budget;
  budget_close : budget -> budget;
  permits : budget -> Z;
  budget_closed : budget -> bool;
  (** [sync::watch]: [watch_changed] polls [changed()], [false] when the sender is gone. *)
  watch : Type -> Type;
  watch_new {A} : A -> watch A;
  watch_modify {A} : (A -> A) -> watch A -> watch A;
  watch_changed {A} : watch A -> Poll bool;
  watch_borrow {A} : watch A -> A * watch A;
  watch_close {A} : watch A -> watch A;
  watch_value {A} : watch A -> A
}.

Class TokioOk (T : Tokio) : Prop := {
  items_new {A} : fifo_items (fifo_new (A := A)) = [];
  items_send {A} (x : A) q : fifo_items (fifo_send x q) = fifo_items q ++ [x];
  items_recv {A} (x : A) q q' : fifo_recv q = Some (x, q') -> fifo_items q = x :: fifo_items q';
  items_none {A} (q : fifo A) : fifo_recv q = None -> fifo_items q = [];
  budget_new_ok n : 0 <= n <= MAX_PERMITS ->
    exists b, budget_new n = Some b /\ permits b = n /\ budget_closed b = false;
  budget_ready n b b' : budget_poll n b = (Some (Ready tt), b') ->
    0 <= permits b' /\ permits b' = permits b - n /\ budget_closed b' = budget_closed b;
  budget_pending n b b' : budget_poll n b = (Some Pending, b') ->
    permits b' = permits b /\ budget_closed b' = budget_closed b;
  budget_refused n b b' : budget_poll n b = (None, b') ->
    permits b' = permits b /\ budget_closed b = true /\ budget_closed b' = true;
  budget_add_ok n b : 0 <= n -> permits b + n <= MAX_PERMITS ->
    exists b', budget_add n b = Some b';
  budget_added n b b' : budget_add n b = Some b' ->
    permits b' = permits b + n /\ budget_closed b' = budget_closed b;
  budget_close_ok b : permits (budget_close b) = permits b /\ budget_closed (budget_close b) = true;
  watch_value_new {A} (x : A) : watch_value (watch_new x) = x;
  watch_value_modify {A} f (w : watch A) : watch_value (watch_modify f w) = f (watch_value w);
  watch_value_borrow {A} (w : watch A) :
    fst (watch_borrow w) = watch_value w /\ watch_value (snd (watch_borrow w)) = watch_value w
}.

(** * The registry *)

(** [command.split_whitespace().next().unwrap_or("")]. *)
Definition first_word (command : bytes) : bytes := hd [] (split_whitespace command).

Record ExecContext {Hd : Type} := mkExecContext {
  xc_exec : gmap bytes Hd;
  xc_subsystem : gmap bytes Hd;
  xc_shell : option Hd;
  xc_default_exec : option Hd
}.
Arguments ExecContext : clear implicits.
#[export] Instance eta_ExecContext {Hd} : Eta (ExecContext Hd) := fun x =>
  mkExecContext Hd (xc_exec x) (xc_subsystem x) (xc_shell x) (xc_default_exec x).

Module ExecContext.
Section ExecContext.
Context {Hd : Type}.
Implicit Types x : ExecContext Hd.

Definition new : ExecContext Hd := mkExecContext Hd ∅ ∅ None None.
Definition on_exec (name : bytes) (h : Hd) x : ExecContext Hd := x <| xc_exec ::= <[name := h]> |>.
Definition on_subsystem (name : bytes) (h : Hd) x : ExecContext Hd :=
  x <| xc_subsystem ::= <[name := h]> |>.
Definition on_shell (h : Hd) x : ExecContext Hd := x <| xc_shell := Some h |>.
Definition on_unmatched_exec (h : Hd) x : ExecContext Hd := x <| xc_default_exec := Some h |>.

Definition exec_handler (command : bytes) x : option Hd :=
  match xc_exec x !! first_word command with
  | Some h => Some h
  | None => xc_default_exec x
  end.
Definition subsystem_handler (name : bytes) x : option Hd := xc_subsystem x !! name.
Definition shell_handler x : option Hd := xc_shell x.
End ExecContext.
End ExecContext.

(** * A running handler *)

Inductive Outbound := O_Stdout (data : bytes) | O_Stderr (data : bytes) | O_Exit (status : Z).
Definition MAX_RESERVE : Z := 32 * 1024.

(** A spawned handler and what it shares with the serve loop: its input queue (and whether
    the loop still holds the sender), its output budget, the consumption and the size
    watches; its [SessionReader] (the chunk being read and the position in it) and its
    [SessionWriter]s, each with the reservation in progress: the bytes wanted, and whether
    the acquisition has completed. *)
Record Task `{T : Tokio} {Hd : Type} := mkTask {
  k_handler : Hd;
  k_command : bytes;
  k_pty : option PtyInfo;
  k_stdin : fifo bytes;
  k_stdin_open : bool;
  k_chunk : bytes;
  k_pos : Z;
  k_consumed : watch Z;
  k_budget : budget;
  k_writers : list (option (Z * bool));
  k_resize : watch (Z * Z);
  k_running : bool;
  k_aborted : bool
}.
Arguments Task {T} Hd.
#[export] Instance eta_Task `{T : Tokio} {Hd} : Eta (Task Hd) := fun k =>
  mkTask T Hd (k_handler k) (k_command k) (k_pty k) (k_stdin k) (k_stdin_open k) (k_chunk k)
    (k_pos k) (k_consumed k) (k_budget k) (k_writers k) (k_resize k) (k_running k) (k_aborted k).

(** The task with the sending end of the loop's output queue; the queue is closed when the
    loop has dropped the receiver. *)
Record Endpoint `{T : Tokio} {Hd : Type} := mkEndpoint {
  e_task : Task Hd;
  e_out : fifo Outbound;
  e_open : bool
}.
Arguments Endpoint {T} Hd.
Arguments mkEndpoint {T Hd} _ _ _.
#[export] Instance eta_Endpoint `{T : Tokio} {Hd} : Eta (Endpoint Hd) := fun e =>
  mkEndpoint (e_task e) (e_out e) (e_open e).

Module ChannelSession.
Section ChannelSession.
Context `{T : Tokio} {Hd : Type}.
Abbreviation EM := (M ErrorKind (Endpoint Hd)).

Definition update (u : Task Hd -> Task Hd) : EM unit := e_task <-~ u.
Definition closed {A} : EM A := err BrokenPipe.

(** [ChannelSession::new], of the ends that the loop creates for it. *)
Definition new (h : Hd) (command : bytes) (b : budget) (pty : option PtyInfo) (size : Z * Z) : Task Hd :=
  mkTask T Hd h command pty fifo_new true [] 0 (watch_new 0) b [None] (watch_new size) true false.

Definition pty (k : Task Hd) : option PtyInfo := k_pty k.
Definition resize_events (k : Task Hd) : watch (Z * Z) := k_resize k.

(** ** Reading *)

(** The [while] loop of [poll_read]; every round receives a chunk.  [Some] is a [return]. *)
Fixpoint recv_loop (fuel : nat) : EM (option (Poll bytes)) :=
  let* e := get in
  let k := e_task e in
  if negb (len (k_chunk k) <=? k_pos k) then ret None
  else
    match fifo_recv (k_stdin k) with
    | Some (c, q) =>
        match fuel with
        | O => out_of_fuel
        | S fuel' =>
            update (fun k => k <| k_stdin := q |>) ;;;
            (if negb (len c =? 0) then update (fun k => k <| k_chunk := c |> <| k_pos := 0 |>)
             else ret tt) ;;;
            recv_loop fuel'
        end
    | None => ret (Some (if k_stdin_open k then Pending else Ready []))
    end.

(** [poll_read] into a buffer with [room] bytes left: the bytes it puts there. *)
Definition poll_read (room : Z) : EM (Poll bytes) :=
  let* r := (fun e => recv_loop (length (fifo_items (k_stdin (e_task e)))) e) in
  match r with
  | Some p => ret p
  | None =>
      let* e := get in
      let k := e_task e in
      let n := Z.min (len (k_chunk k) - k_pos k) room in
      update (fun k => k <| k_pos ::= fun p => p + n |>) ;;;
      let* _ := checked U64_MAX (watch_value (k_consumed k) + n) in
      update (fun k => k <| k_consumed ::= watch_modify (fun total => total + n) |>) ;;;
      ret (Ready (slice (k_pos k) (k_pos k + n) (k_chunk k)))
  end.

(** The handler drops its reader, and with it the sender of the consumption watch. *)
Definition drop_reader : EM unit := update (fun k => k <| k_consumed ::= watch_close |>).

(** ** Writing *)

(** One poll of [acquire_many_owned(n)]. *)
Definition poll_acquire (n : Z) : EM (Poll unit) :=
  let* e := get in
  let '(p, b) := budget_poll n (k_budget (e_task e)) in
  update (fun k => k <| k_budget := b |>) ;;;
  match p with Some p => ret p | None => closed end.

Definition add_permits (n : Z) : EM unit :=
  let* e := get in
  let* b := unwrap (budget_add n (k_budget (e_task e))) in
  update (fun k => k <| k_budget := b |>).

Definition send (o : Outbound) : EM unit :=
  let* e := get in
  if e_open e then e_out <-~ fifo_send o else closed.

Definition set_writer (j : nat) (r : option (Z * bool)) : EM unit :=
  update (fun k => k <| k_writers ::= fun ws => <[j := r]> ws |>).

(** [Clone for SessionWriter]. *)
Definition clone_writer : EM unit := update (fun k => k <| k_writers ::= fun ws => ws ++ [None] |>).

(** [poll_write] of the [j]th writer.  A reservation whose acquisition has failed stays in
    the writer, and the future of a completed acquisition must not be polled again. *)
Definition poll_write (j : nat) (data : bytes) : EM (Poll Z) :=
  if len data =? 0 then ret (Ready 0)
  else
    let* e := get in
    let* reserving := unwrap (k_writers (e_task e) !! j) in
    let '(want, completed) := default (Z.min (len data) MAX_RESERVE, false) reserving in
    set_writer j (Some (want, completed)) ;;;
    if (completed : bool) then panic
    else
      set_writer j (Some (want, true)) ;;;
      let* p := poll_acquire want in
      match p with
      | Pending => set_writer j (Some (want, false)) ;;; ret Pending
      | Ready _ =>
          set_writer j None ;;;
          let n := Z.min want (len data) in
          when (n <? want) (add_permits (want - n)) ;;;
          send (O_Stdout (ztake n data)) ;;;
          ret (Ready n)
      end.

(** [slice::chunks]. *)
Fixpoint chunks_loop (fuel : nat) (size : Z) (data : bytes) : list bytes :=
  match fuel with
  | O => []
  | S fuel' =>
      if len data =? 0 then []
      else ztake size data :: chunks_loop fuel' size (zdrop size data)
  end.
Definition chunks (size : Z) (data : bytes) : list bytes := chunks_loop (length data) size data.

(** The loop of [reserve_and_send] from its remaining chunks until it is done or waits for
    the budget: the chunks that are left. *)
Fixpoint send_chunks (ext : bool) (rest : list bytes) : EM (list bytes) :=
  match rest with
  | [] => ret []
  | chunk :: rest' =>
      let* p := poll_acquire (len chunk) in
      match p with
      | Pending => ret rest
      | Ready _ =>
          send (if ext then O_Stderr chunk else O_Stdout chunk) ;;;
          send_chunks ext rest'
      end
  end.
Definition reserve_and_send (data : bytes) (ext : bool) : EM (list bytes) :=
  send_chunks ext (chunks MAX_RESERVE data).
Definition write_stdout (data : bytes) : EM (list bytes) := reserve_and_send data false.
Definition write_stderr (data : bytes) : EM (list bytes) := reserve_and_send data true.

(** The body of the spawned task after [handler.run]: report the exit status; nobody looks
    at whether the loop is still there. *)
Definition exit (status : Z) : EM unit :=
  update (fun k => k <| k_running := false |>) ;;;
  let* e := get in
  if e_open e then send (O_Exit status) else ret tt.
End ChannelSession.
End ChannelSession.
