(* ===== verification/ExecInv.v ===== *)
(** What a handler can do with its end of a channel: it reads the client's bytes in order,
    it pays for every byte that it writes from its budget, and it changes nothing else
    that the serve loop relies on. *)
From stdpp Require Import gmap.
From S2P Require Import Prelude Errors Wire Connection Driver Exec.

(** * A concrete tokio: queues as lists, a semaphore as its permits and whether it is
    closed, a watched cell as its value, whether it has changed and whether it is closed. *)
#[export] Instance plain_tokio : Tokio := {|
  fifo := list;
  fifo_new A := [];
  fifo_send A x q := q ++ [x];
  fifo_recv A q := match q with [] => None | x :: q' => Some (x, q') end;
  fifo_items A q := q;
  budget := Z * bool;
  MAX_PERMITS := U64_MAX / 8;
  budget_new n := if n <=? U64_MAX / 8 then Some (n, false) else None;
  budget_poll n '(p, closed) :=
    if (closed : bool) then (None, (p, closed))
    else if n <=? p then (Some (Ready tt), (p - n, closed)) else (Some Pending, (p, closed));
  budget_add n '(p, closed) := if p + n <=? U64_MAX / 8 then Some (p + n, closed) else None;
  budget_close '(p, _) := (p, true);
  permits := fst;
  budget_closed := snd;
  watch A := (A * bool * bool)%type;
  watch_new A x := (x, false, false);
  watch_modify A f '(x, _, closed) := (f x, true, closed);
  watch_changed A '(_, changed, closed) :=
    if (changed : bool) then Ready true else if (closed : bool) then Ready false else Pending;
  watch_borrow A '(x, _, closed) := (x, (x, false, closed));
  watch_close A '(x, changed, _) := (x, changed, true);
  watch_value A '(x, _, _) := x
|}.

#[export] Instance plain_tokio_ok : TokioOk plain_tokio.
Proof.
  constructor; cbn; intros; repeat match goal with b : _ * _ |- _ => destruct b end;
    repeat case_match; simplify_eq/=; try done; try (split_and!; done || lia).
  - eexists. split; [reflexivity|done].
  - lia.
  - by eexists.
  - lia.
Qed.

(** * Conservation of the budget *)
Definition out_bytes (o : Outbound) : Z :=
  match o with O_Stdout d | O_Stderr d => len d | O_Exit _ => 0 end.
Definition load (l : list Outbound) : Z := fold_right (fun o n => out_bytes o + n) 0 l.

Lemma load_app l1 l2 : load (l1 ++ l2) = load l1 + load l2.
Proof. unfold load. induction l1 as [|o l1 IH]; cbn [fold_right app]; [done|]. rewrite IH. lia. Qed.
Lemma out_bytes_nonneg o : 0 <= out_bytes o.
Proof. destruct o; cbn; try apply len_nonneg. lia. Qed.
Lemma load_nonneg l : 0 <= load l.
Proof.
  induction l as [|o l IH]; [done|]. cbn [load fold_right]. unfold load in IH.
  pose proof (out_bytes_nonneg o). lia.
Qed.

Section Handler.
Context `{T : Tokio} `{!TokioOk T} {Hd : Type}.
Implicit Types (k : Task Hd) (e : Endpoint Hd).
Import ChannelSession.

Definition reservation_ok (r : option (Z * bool)) : Prop :=
  match r with Some (want, _) => 0 <= want | None => True end.
#[local] Instance reservation_dec r : Decision (reservation_ok r).
Proof. destruct r as [[]|]; cbn; apply _. Defined.
Definition task_ok k : Prop := 0 <= permits (k_budget k) /\ Forall reservation_ok (k_writers k).

(** The budget that is left and the bytes on their way to the loop. *)
Definition charge e : Z := permits (k_budget (e_task e)) + load (fifo_items (e_out e)).

(** What no handler changes. *)
Definition fixed e := (k_handler (e_task e), k_command (e_task e), k_stdin_open (e_task e),
  k_aborted (e_task e), budget_closed (k_budget (e_task e)), e_open e).

Definition handled e e' : Prop :=
  fixed e' = fixed e /\ (task_ok (e_task e) -> task_ok (e_task e') /\ charge e' <= charge e).
#[export] Instance handled_preorder : PreOrder handled.
Proof.
  split; [intros e; split; [done|]; intros; split; [done|lia]|].
  intros e1 e2 e3 [F1 H1] [F2 H2]. split; [congruence|]. intros Hk.
  destruct (H1 Hk) as [K2 L2]. destruct (H2 K2) as [K3 L3]. split; [done|lia].
Qed.

(** Updates of the reader's side, of the watches and of whether the task runs. *)
Lemma handled_update u :
  (forall k, (k_handler (u k), k_command (u k), k_stdin_open (u k), k_aborted (u k), k_budget (u k),
              k_writers (u k)) =
             (k_handler k, k_command k, k_stdin_open k, k_aborted k, k_budget k, k_writers k)) ->
  stays handled (update (Hd := Hd) u).
Proof.
  intros Hu [k q o]. specialize (Hu k). injection Hu as H1 H2 H3 H4 H5 H6.
  unfold handled, fixed, charge, task_ok, update, modify. cbn. rewrite H1, H2, H3, H4, H5, H6.
  split; [done|]. intros ?. split; [done|lia].
Qed.

Lemma handled_writers u :
  (forall ws, Forall reservation_ok ws -> Forall reservation_ok (u ws)) ->
  stays handled (update (Hd := Hd) (fun k => k <| k_writers ::= u |>)).
Proof.
  intros Hu [k q o]. unfold handled, fixed, charge, task_ok, update, modify. cbn.
  split; [done|]. intros [K1 K2]. split; [split; auto|lia].
Qed.

Lemma handled_set_writer j r : reservation_ok r -> stays handled (set_writer (Hd := Hd) j r).
Proof. intros Hr. apply handled_writers. intros ws Hw. by apply Forall_insert. Qed.

Ltac handled_step :=
  first
    [ lazymatch goal with
      | |- stays _ (update _) => apply handled_update; done
      | |- stays _ (set_writer _ _) => apply handled_set_writer; done
      end
    | keeps_step ].
Ltac handled_auto := repeat handled_step.

Lemma handled_recv fuel : stays handled (recv_loop (Hd := Hd) fuel).
Proof. induction fuel as [|fuel IH]; cbn [recv_loop]; handled_auto. Qed.

Lemma handled_read room : stays handled (poll_read (Hd := Hd) room).
Proof.
  unfold poll_read. apply stays_bind; [typeclasses eauto|intros e; apply handled_recv|].
  intros r. handled_auto.
Qed.

Lemma handled_clone : stays handled (clone_writer (Hd := Hd)).
Proof. apply handled_writers. intros ws Hw. apply Forall_app. split; [done|by constructor]. Qed.

Lemma handled_drop_reader : stays handled (drop_reader (Hd := Hd)).
Proof. unfold drop_reader. handled_auto. Qed.

(** ** Writes *)

(** [n] bytes of budget have been taken and not been sent yet. *)
Definition owes (n : Z) e e' : Prop :=
  fixed e' = fixed e /\ (task_ok (e_task e) -> task_ok (e_task e') /\ charge e' <= charge e - n).

Lemma handled_owes e e' : handled e e' <-> owes 0 e e'.
Proof. unfold handled, owes. split; intros [F H]; (split; [done|]); intros K; destruct (H K); (split; [done|lia]). Qed.
Lemma owes_trans n m e1 e2 e3 : owes n e1 e2 -> owes m e2 e3 -> owes (n + m) e1 e3.
Proof.
  intros [F1 H1] [F2 H2]. split; [congruence|]. intros K. destruct (H1 K) as [K2 L2].
  destruct (H2 K2) as [K3 L3]. split; [done|lia].
Qed.

Lemma acquire_owes n e :
  match poll_acquire n e with
  | (Ok (Ready _), e') => owes n e e'
  | (_, e') => handled e e'
  end.
Proof.
  destruct e as [k q o]. unfold poll_acquire, bind, get, update, modify, closed. cbn.
  destruct (budget_poll n (k_budget k)) as [[[[]|]|] b] eqn:Hb; cbn.
  - apply budget_ready in Hb as (P1 & P2 & P3).
    split; [unfold fixed; cbn; congruence|]. unfold task_ok, charge. cbn. intros [K1 K2].
    split; [split; [lia|done]|lia].
  - apply budget_pending in Hb as (P1 & P2).
    split; [unfold fixed; cbn; congruence|]. unfold task_ok, charge. cbn. intros [K1 K2].
    split; [split; [lia|done]|lia].
  - apply budget_refused in Hb as (P1 & P2 & P3).
    split; [unfold fixed; cbn; congruence|]. unfold task_ok, charge. cbn. intros [K1 K2].
    split; [split; [lia|done]|lia].
Qed.

Lemma send_owes o e : owes (- out_bytes o) e (snd (send o e)).
Proof.
  destruct e as [k q op]. unfold send, bind, get, closed. cbn. destruct op; cbn.
  - split; [done|]. intros K. split; [exact K|]. unfold charge. cbn.
    rewrite items_send, load_app. cbn. lia.
  - split; [done|]. intros K. split; [exact K|]. pose proof (out_bytes_nonneg o). lia.
Qed.

Lemma add_owes n e : 0 <= n -> owes (- n) e (snd (add_permits n e)).
Proof.
  intros Hn. destruct e as [k q op]. unfold add_permits, bind, get, unwrap. cbn.
  destruct (budget_add n (k_budget k)) as [b|] eqn:Hb; cbn.
  - apply budget_added in Hb as [P1 P2]. split; [unfold fixed; cbn; congruence|].
    unfold task_ok, charge. cbn. intros [K1 K2]. split; [split; [lia|done]|lia].
  - split; [done|]. intros K. split; [exact K|lia].
Qed.

(** A computation that sends at most [n] bytes that have been taken from the budget. *)
Definition spends (n : Z) {V} (m : M ErrorKind (Endpoint Hd) V) : Prop :=
  forall e, owes (- n) e (snd (m e)).

Lemma owes_weaken n m e e' : m <= n -> owes n e e' -> owes m e e'.
Proof. intros Hm [F H1]. split; [done|]. intros K. destruct (H1 K). split; [done|lia]. Qed.

Lemma spends_eq n n' {V} (m : M ErrorKind (Endpoint Hd) V) : n = n' -> spends n m -> spends n' m.
Proof. by intros ->. Qed.

Lemma spends_handled {V} (m : M ErrorKind (Endpoint Hd) V) : stays handled m <-> spends 0 m.
Proof. split; intros Hm e; apply handled_owes, Hm. Qed.

Lemma spends_bind {V W} n1 n2 (m : M ErrorKind (Endpoint Hd) V) (f : V -> M ErrorKind (Endpoint Hd) W) :
  0 <= n2 -> spends n1 m -> (forall v, spends n2 (f v)) -> spends (n1 + n2) (bind m f).
Proof.
  intros Hn Hm Hf e. specialize (Hm e). unfold bind. destruct (m e) as [[v|k| |] e1]; cbn in *;
    [|eapply owes_weaken; [|exact Hm]; lia..].
  replace (- (n1 + n2)) with (- n1 + - n2) by lia. eapply owes_trans; [exact Hm|apply Hf].
Qed.

(** Acquiring first, and sending what was acquired. *)
Lemma handled_acquire {W} n (f : Poll unit -> M ErrorKind (Endpoint Hd) W) :
  spends n (f (Ready tt)) -> stays handled (f Pending) -> stays handled (bind (poll_acquire n) f).
Proof.
  intros Hr Hp e. pose proof (acquire_owes n e) as Ha. unfold bind.
  destruct (poll_acquire n e) as [[[[]|]|k| |] e1]; cbn; try exact Ha.
  - apply handled_owes. replace 0 with (n + - n) by lia. eapply owes_trans; [exact Ha|apply Hr].
  - etransitivity; [exact Ha|apply Hp].
Qed.

Lemma spends_send o : spends (out_bytes o) (send (Hd := Hd) o).
Proof. intros e. apply send_owes. Qed.

Lemma handled_chunks ext l : stays handled (send_chunks (Hd := Hd) ext l).
Proof.
  induction l as [|c l IH]; cbn [send_chunks]; [handled_auto|].
  apply handled_acquire; [|handled_auto].
  apply (spends_eq (out_bytes (if ext then O_Stderr c else O_Stdout c) + 0)); [destruct ext; cbn; lia|].
  apply spends_bind; [lia|apply spends_send|]. intros _. by apply spends_handled.
Qed.

(** A poll with the reservation in hand. *)
Lemma handled_reserved j want completed data :
  0 <= want ->
  stays handled (set_writer (Hd := Hd) j (Some (want, completed)) ;;;
    if (completed : bool) then panic
    else
      set_writer j (Some (want, true)) ;;;
      let* p := poll_acquire want in
      match p with
      | Pending => set_writer j (Some (want, false)) ;;; ret Pending
      | Ready _ =>
          set_writer j None ;;;
          let n := Z.min want (len data) in
          when (n <? want) (add_permits (want - n)) ;;;
          send (O_Stdout (ztake n data)) ;;;
          ret (Ready n)
      end).
Proof.
  intros Hw. pose proof (len_nonneg data). set (n := Z.min want (len data)).
  assert (Hn : out_bytes (O_Stdout (ztake n data)) = n) by (cbn; rewrite len_ztake; unfold n; lia).
  handled_step; [by handled_step|]. destruct completed; [handled_step|].
  handled_step; [by handled_step|]. apply handled_acquire; [|handled_auto].
  apply (spends_eq (0 + (want - n + (n + 0)))); [lia|].
  apply spends_bind; [unfold n; lia|by apply spends_handled, handled_set_writer|intros _].
  apply spends_bind; [unfold n; lia| |intros _].
  - unfold when. destruct (Z.ltb_spec n want).
    + intros e. apply add_owes. lia.
    + apply (spends_eq 0); [unfold n in *; lia|]. apply spends_handled. handled_auto.
  - apply spends_bind; [lia| |intros _; apply spends_handled; handled_auto].
    apply (spends_eq _ _ _ Hn), spends_send.
Qed.

Lemma fixed_acquire n : keeps fixed (poll_acquire (Hd := Hd) n).
Proof.
  intros e. pose proof (acquire_owes n e) as Ha. unfold same.
  by destruct (poll_acquire n e) as [[[[]|]|k| |] e1]; destruct Ha as [F _].
Qed.
Lemma fixed_add n : keeps fixed (add_permits (Hd := Hd) n).
Proof.
  intros [k q op]. unfold same, add_permits, bind, get, unwrap. cbn.
  destruct (budget_add n (k_budget k)) as [b|] eqn:Hb; cbn; [|done].
  apply budget_added in Hb as [P1 P2]. unfold fixed. cbn. congruence.
Qed.
#[local] Hint Resolve fixed_acquire fixed_add : frame.

Lemma fixed_write j data : keeps fixed (poll_write (Hd := Hd) j data).
Proof. unfold poll_write, set_writer, update, send, closed. keeps_auto. Qed.

Lemma handled_write j data : stays handled (poll_write (Hd := Hd) j data).
Proof.
  intros e. destruct (decide (Forall reservation_ok (k_writers (e_task e)))) as [Hf|Hf].
  2:{ split; [apply fixed_write|]. by intros [_ ?]. }
  unfold poll_write. destruct (len data =? 0); [reflexivity|].
  unfold bind at 1, get. unfold bind at 1, unwrap.
  destruct (k_writers (e_task e) !! j) as [r|] eqn:Hr; [|reflexivity]. cbn [ret].
  destruct (default (Z.min (len data) MAX_RESERVE, false) r) as [want completed] eqn:Hd'.
  pose proof (len_nonneg data). apply handled_reserved.
  apply (Forall_lookup_1 _ _ _ _ Hf) in Hr.
  destruct r as [[w c]|]; cbn in Hd'; injection Hd' as <- <-; [exact Hr|unfold MAX_RESERVE; lia].
Qed.

Lemma handled_exit status : stays handled (exit (Hd := Hd) status).
Proof.
  unfold exit. handled_step; [handled_auto|]. handled_step; [handled_auto|].
  destruct (e_open _); [|handled_auto]. apply spends_handled, (spends_send (O_Exit status)).
Qed.
End Handler.

(** * What a write queues *)
Section Queued.
Context `{T : Tokio} `{!TokioOk T} {Hd : Type}.
Implicit Types e : Endpoint Hd.
Import ChannelSession.

(** The bytes of a stream among what was queued. *)
Definition on_stream (ext : bool) (o : Outbound) : bytes :=
  match o with
  | O_Stdout d => if ext then [] else d
  | O_Stderr d => if ext then d else []
  | O_Exit _ => []
  end.
Definition sent_on (ext : bool) (l : list Outbound) : bytes := List.concat (List.map (on_stream ext) l).
Lemma sent_on_app ext l1 l2 : sent_on ext (l1 ++ l2) = sent_on ext l1 ++ sent_on ext l2.
Proof. unfold sent_on. by rewrite List.map_app, List.concat_app. Qed.

Definition chunk_of (ext : bool) (c : bytes) : Outbound := if ext then O_Stderr c else O_Stdout c.
Lemma sent_on_chunks ext ext' cs :
  sent_on ext (List.map (chunk_of ext') cs) = if Bool.eqb ext ext' then List.concat cs else [].
Proof.
  unfold sent_on. induction cs as [|c cs IH]; [by destruct (Bool.eqb ext ext')|].
  cbn [List.map List.concat]. rewrite IH. by destruct ext, ext'.
Qed.
(** Nothing of the channel works any more. *)
Definition shut e : Prop := budget_closed (k_budget (e_task e)) = true \/ e_open e = false.

(** A poll of a write queues a prefix of what is left, or all of it unless the channel is
    shut. *)
Lemma send_chunks_spec ext rest e o e' :
  send_chunks ext rest e = (o, e') ->
  exists sent, fifo_items (e_out e') = fifo_items (e_out e) ++ List.map (chunk_of ext) sent /\
    match o with
    | Ok left_ => rest = sent ++ left_
    | Err _ => (exists left_, rest = sent ++ left_) /\ shut e'
    | _ => False
    end.
Proof.
  revert e. induction rest as [|c rest IH]; intros e; cbn [send_chunks].
  { intros [= <- <-]. exists []. by rewrite app_nil_r. }
  intros E. destruct e as [k q op]. unfold bind at 1 in E.
  destruct (poll_acquire (len c) (mkEndpoint k q op)) as [oa e1] eqn:Ea.
  unfold poll_acquire, bind, get, update, modify, closed, ret, err in Ea. cbn in Ea.
  destruct (budget_poll (len c) (k_budget k)) as [[[[]|]|] b] eqn:Hb; injection Ea as <- <-.
  - unfold bind in E. destruct op; cbn in E.
    + apply IH in E as (sent & Hi & Ho). cbn in Hi. rewrite items_send in Hi. exists (c :: sent).
      split; [rewrite Hi, <- app_assoc; by destruct ext|].
      destruct o as [l|x| |]; [by rewrite Ho|destruct Ho as [[l ->] ?]; split; [by exists l|done]|done..].
    + injection E as <- <-. exists []. split; [cbn; by rewrite app_nil_r|]. split; [by exists (c :: rest)|by right].
  - injection E as <- <-. exists []. split; [cbn; by rewrite app_nil_r|done].
  - injection E as <- <-. exists []. split; [cbn; by rewrite app_nil_r|]. split; [by exists (c :: rest)|].
    left. cbn. by apply budget_refused in Hb as (_ & _ & ?).
Qed.

(** The chunks are the data. *)
Lemma chunks_loop_concat fuel size data :
  0 < size -> (length data <= fuel)%nat -> List.concat (chunks_loop fuel size data) = data.
Proof.
  intros Hs. revert data. induction fuel as [|fuel IH]; intros data Hf; cbn [chunks_loop].
  - by destruct data; cbn in Hf; [|lia].
  - destruct (Z.eqb_spec (len data) 0) as [E|E].
    + destruct data; [done|]. rewrite len_cons in E. pose proof (len_nonneg data). lia.
    + cbn [List.concat]. rewrite IH; [apply ztake_zdrop|].
      unfold zdrop. rewrite length_drop. unfold len in E. lia.
Qed.
Lemma chunks_concat data : List.concat (chunks MAX_RESERVE data) = data.
Proof. by apply chunks_loop_concat. Qed.
End Queued.

(** * Reading *)
Section Reading.
Context `{T : Tokio} `{!TokioOk T} {Hd : Type}.
Implicit Types (k : Task Hd) (e : Endpoint Hd).
Import ChannelSession.
Abbreviation any := (fun (_ : ErrorKind) (_ : Endpoint Hd) => True).

(** The client's bytes that the handler has not read yet. *)
Definition unread k : bytes := zdrop (k_pos k) (k_chunk k) ++ List.concat (fifo_items (k_stdin k)).
Definition reader_ok k : Prop := 0 <= k_pos k <= len (k_chunk k).

(** What receiving chunks leaves alone. *)
Record received_more e e' : Prop := {
  rm_ok : reader_ok (e_task e');
  rm_unread : unread (e_task e') = unread (e_task e);
  rm_consumed : k_consumed (e_task e') = k_consumed (e_task e);
  rm_open : k_stdin_open (e_task e') = k_stdin_open (e_task e)
}.

Lemma recv_loop_wp fuel e :
  reader_ok (e_task e) -> (length (fifo_items (k_stdin (e_task e))) <= fuel)%nat ->
  wp (recv_loop fuel)
    (fun r e' => received_more e e' /\
       match r with
       | None => k_pos (e_task e') < len (k_chunk (e_task e'))
       | Some p => unread (e_task e) = [] /\ p = (if k_stdin_open (e_task e) then Pending else Ready [])
       end) (fun _ _ => False) e.
Proof.
  revert e. induction fuel as [|fuel IH]; intros [k q o] Hk Hf; cbn [recv_loop]; do 2 wp_step;
    cbn in Hk, Hf; cbn [e_task]; (apply wp_if; intros Hc; [by apply wp_ret; split; [constructor|cbn; lia]|]);
    (assert (Hz : zdrop (k_pos k) (k_chunk k) = []) by (apply len_zero_inv; rewrite len_zdrop; unfold reader_ok in Hk; lia));
    destruct (fifo_recv (k_stdin k)) as [[c q']|] eqn:Hr.
  1, 3: apply items_recv in Hr; rewrite Hr in Hf; cbn in Hf.
  - lia.
  - apply wp_bind, wp_modify.
    assert (Hu : unread k = c ++ List.concat (fifo_items q')) by (unfold unread; by rewrite Hz, Hr).
    apply wp_bind. eapply (wp_mono _ (fun _ e1 => received_more (mkEndpoint k q o) e1 /\
      k_stdin (e_task e1) = q') _ (fun _ _ => False)); [| |done].
    + pose proof (len_nonneg c). apply wp_if; intros Hl; [apply wp_modify|apply wp_ret]; (split; [|done]); constructor; try done.
      assert (c = []) as -> by (apply len_zero_inv; lia). cbn in Hu.
      change (zdrop (k_pos k) (k_chunk k) ++ List.concat (fifo_items q') = unread k).
      by rewrite Hz, Hu.
    + cbv beta. intros _ e1 [[R1 R2 R3 R4] R5]. cbn in R2, R3, R4.
      eapply wp_mono; [apply IH; [done|rewrite R5; lia]| |done].
      cbv beta. intros r e2 [[S1 S2 S3 S4] S5]. rewrite R2, R4 in S5.
      split; [constructor; cbn; [done|congruence..]|exact S5].
  - apply items_none in Hr. apply wp_ret. split; [by constructor|]. split; [|done].
    unfold unread. cbn. by rewrite Hz, Hr.
  - apply items_none in Hr. apply wp_ret. split; [by constructor|]. split; [|done].
    unfold unread. cbn. by rewrite Hz, Hr.
Qed.

(** A handler reads the client's bytes in order: a poll of its reader returns a prefix of
    the bytes that the loop has queued and that it has not read, at most what fits its
    buffer and not nothing, and reports exactly these as consumed; it waits only when
    there are none, and sees the end only when there are none and the client has sent
    the end. *)
Lemma stdin_in_order room e :
  reader_ok (e_task e) -> 0 < room ->
  0 <= watch_value (k_consumed (e_task e)) ->
  watch_value (k_consumed (e_task e)) + len (unread (e_task e)) <= U64_MAX ->
  wp (poll_read room)
    (fun p e' =>
       reader_ok (e_task e') /\
       match p with
       | Pending => unread (e_task e) = [] /\ unread (e_task e') = [] /\ k_stdin_open (e_task e) = true
       | Ready d =>
           unread (e_task e) = d ++ unread (e_task e') /\ len d <= room /\
           watch_value (k_consumed (e_task e')) = watch_value (k_consumed (e_task e)) + len d /\
           (d = [] -> unread (e_task e) = [] /\ k_stdin_open (e_task e) = false)
       end) (fun _ _ => False) e.
Proof.
  intros Hk Hr Hc0 Hc. unfold poll_read.
  assert (Hat : forall V (m : Endpoint Hd -> M ErrorKind (Endpoint Hd) V) Q X,
    wp (m e) Q X e -> wp (fun e => m e e) Q X e) by done.
  apply wp_bind, (Hat _ (fun e => recv_loop (length (fifo_items (k_stdin (e_task e)))))). clear Hat.
  eapply wp_mono; [apply (recv_loop_wp _ e Hk); lia| |done].
  cbv beta. intros r [k q o] [[R1 R2 R3 R4] R5]. cbn in R1, R2, R3, R4, R5.
  destruct r as [p|].
  - destruct R5 as [R5 ->]. apply wp_ret. split; [done|]. destruct (k_stdin_open (e_task e)).
    + split_and!; [done| |done]. cbn. by rewrite R2.
    + change (len (@nil Z)) with 0. split_and!; [symmetry; exact R2|lia|change (k_consumed (e_task (mkEndpoint k q o))) with (k_consumed k); rewrite R3; lia|done].
  - do 2 wp_step. cbn [e_task]. set (n := Z.min (len (k_chunk k) - k_pos k) room).
    apply wp_bind, wp_modify. unfold reader_ok in R1.
    assert (Hu : len (unread k) = len (k_chunk k) - k_pos k + len (List.concat (fifo_items (k_stdin k)))).
    { unfold unread. rewrite len_app, len_zdrop by lia. done. }
    pose proof (len_nonneg (List.concat (fifo_items (k_stdin k)))).
    apply wp_bind, wp_checked; [rewrite R3; rewrite R2 in Hu; unfold n; lia|]. cbv beta.
    apply wp_bind, wp_modify, wp_ret.
    assert (Hd' : len (slice (k_pos k) (k_pos k + n) (k_chunk k)) = n) by (rewrite len_slice; unfold n; lia).
    split; [unfold reader_ok; cbn; unfold n; lia|].
    split_and!.
    + rewrite <- R2. unfold unread. cbn. rewrite app_assoc. f_equal.
      unfold slice. replace (k_pos k + n - k_pos k) with n by lia.
      rewrite <- (zdrop_zdrop n) by (unfold n; lia). by rewrite ztake_zdrop.
    + rewrite Hd'. unfold n. lia.
    + cbn. rewrite watch_value_modify, R3, Hd'. done.
    + intros E. rewrite E in Hd'. change (len (@nil Z)) with 0 in Hd'. unfold n in Hd'. lia.
Qed.
End Reading.

(** * Writing to a closed budget *)
Section Closed.
Context `{T : Tokio} {Hd : Type}.
Import ChannelSession.

(** A writer that goes on after its budget has been closed panics: the first write is
    refused with [BrokenPipe], but the reservation stays in the writer with its finished
    acquisition, and the next write polls that again. *)
Lemma write_after_close_panics j data data' (e e' : Endpoint Hd) :
  k_writers (e_task e) !! j = Some None -> data <> [] -> data' <> [] ->
  e_open e = true -> poll_write j data e = (Err BrokenPipe, e') -> fst (poll_write j data' e') = Panic.
Proof.
  intros Hj Hd1 Hd2 Ho Hw. destruct e as [k q op]. cbn in Hj, Ho. subst op.
  assert (H1 : forall d : bytes, d <> [] -> (len d =? 0) = false).
  { by intros []. }
  assert (Hjl : (j < length (k_writers k))%nat) by (by eapply lookup_lt_Some).
  unfold poll_write in Hw. rewrite (H1 _ Hd1) in Hw.
  unfold poll_acquire, set_writer, update, closed, bind, get, unwrap, modify, ret, err in Hw. cbn in Hw.
  rewrite Hj in Hw. cbn in Hw.
  destruct (budget_poll (Z.min (len data) MAX_RESERVE) (k_budget k)) as [[[[]|]|] b] eqn:Hb.
  - exfalso. unfold when, add_permits, bind, get, unwrap, update, modify, send, ret in Hw. cbn in Hw.
    by repeat case_match; simplify_eq.
  - by simplify_eq.
  - injection Hw as <-. unfold poll_write. rewrite (H1 _ Hd2).
    unfold set_writer, update, bind, get, unwrap, modify, ret. cbn.
    rewrite list_lookup_insert_eq by (by rewrite length_insert). done.
Qed.
End Closed.

(** * Witnesses *)
Definition demo_task : Task (T := plain_tokio) nat :=
  (ChannelSession.new 1%nat (str "cat") (10, false) None (0, 0)) <| k_stdin := [[1; 2; 3]; [4; 5]] |>.
Definition demo_endpoint : Endpoint (T := plain_tokio) nat := mkEndpoint demo_task [] true.
Definition shut_endpoint : Endpoint (T := plain_tokio) nat :=
  mkEndpoint (demo_task <| k_budget := (10, true) |>) [] true.

Lemma stdin_in_order_witness :
  [1; 2; 3; 4; 5] = [1; 2] ++ unread (e_task (snd (ChannelSession.poll_read 2 demo_endpoint))).
Proof.
  exact (proj1 (proj2 (@stdin_in_order plain_tokio plain_tokio_ok nat 2 demo_endpoint
    ltac:(vm_compute; split; congruence) ltac:(lia) ltac:(cbn; lia) ltac:(vm_compute; congruence)))).
Defined.

Lemma write_after_close_panics_witness :
  fst (ChannelSession.poll_write 0 [7] (snd (ChannelSession.poll_write 0 [1; 2] shut_endpoint))) = Panic.
Proof.
  apply (@write_after_close_panics plain_tokio nat 0%nat [1; 2] [7] shut_endpoint);
    [reflexivity|discriminate|discriminate|reflexivity|reflexivity].
Defined.
