(* ===== verification/System.v ===== *)
(** The [SystemRunner] of [ssh-io/system.rs]: the command that a handler spawns, and what
    its pumps make of the client's input.  Processes and pipes are the operating system's. *)
From S2P Require Import Prelude Errors Wire Text Connection Driver Exec.

(** * The command *)

Inductive ProcessMode := Direct | Shell.

(** [std::process::Command]: a program and its arguments. *)
Record Command := mkCommand { cmd_program : bytes; cmd_args : list bytes }.

(** The platform, and the value of SHELL in the environment. *)
Definition build_command (windows : bool) (shell : option bytes) (command : option bytes)
  : bytes + Command :=
  match command with
  | Some command =>
      match split_whitespace command with
      | [] => inl (str "empty command")
      | program :: parts => inr (mkCommand program parts)
      end
  | None =>
      if windows then inr (mkCommand (str "cmd.exe") [str "/Q"])
      else inr (mkCommand (default (str "/bin/sh") shell) [str "-i"])
  end.

(** The first lines of [run_process]. *)
Definition process_mode (command : bytes) : ProcessMode :=
  if len command =? 0 then Shell else Direct.
Definition process_command (windows : bool) (shell : option bytes) (command : bytes) : bytes + Command :=
  build_command windows shell (if len command =? 0 then None else Some command).

(** Up to the start of the child: what a handler that cannot start one writes to the
    client's stderr and its status, or the mode and the command that runs.  [spawn] gives
    the error of the operating system, if any. *)
Definition start_process (windows : bool) (shell : option bytes) (spawn : Command -> option bytes) (command : bytes)
  : (bytes * Z) + (ProcessMode * Command) :=
  let mode := process_mode command in
  match process_command windows shell command with
  | inl e => inl (e ++ [10], 127)
  | inr cmd =>
      match spawn cmd with
      | Some e => inl (str "failed to start process: " ++ e ++ [10], 127)
      | None => inr (mode, cmd)
      end
  end.

(** What [child.wait()] gives: an error, or the exit code, which a process that a signal
    has ended does not have. *)
Definition exit_status (waited : option (option Z)) : Z :=
  as_u32 (default 0 (waited ≫= fun code => code)).

(** * The input *)

Fixpoint cr_to_lf_loop (fuel : nat) (i : nat) (data out : bytes) : bytes :=
  match fuel with
  | O => out
  | S fuel' =>
      match data !! i with
      | None => out
      | Some b =>
          if b =? 13 then
            let out := out ++ [10] in
            let i := if bool_decide (data !! S i = Some 10) then S i else i in
            cr_to_lf_loop fuel' (S i) data out
          else cr_to_lf_loop fuel' (S i) data (out ++ [b])
      end
  end.
(** Every round moves the index. *)
Definition cr_to_lf (data : bytes) : bytes := cr_to_lf_loop (length data) 0 data [].

(** What the pump writes to the child for the chunks it reads. *)
Definition stdin_pump (mode : ProcessMode) (reads : list bytes) : bytes :=
  List.concat (List.map (match mode with Shell => cr_to_lf | Direct => fun data => data end) reads).

(** * What they do *)

(** [icrnl] with CRLF collapsed, as a terminal would do it on the whole stream. *)
Fixpoint icrnl (data : bytes) : bytes :=
  match data with
  | [] => []
  | x :: r =>
      if x =? 13 then
        10 :: match r with
              | [] => []
              | y :: r' => if y =? 10 then icrnl r' else icrnl r
              end
      else x :: icrnl r
  end.

Lemma cr_to_lf_loop_spec fuel i data out :
  (length data <= i + fuel)%nat -> cr_to_lf_loop fuel i data out = out ++ icrnl (drop i data).
Proof.
  revert i out. induction fuel as [|fuel IH]; intros i out Hf; cbn [cr_to_lf_loop].
  - rewrite drop_ge by lia. by rewrite app_nil_r.
  - destruct (data !! i) as [b|] eqn:Hi.
    2: { apply lookup_ge_None in Hi. rewrite drop_ge by lia. by rewrite app_nil_r. }
    rewrite (drop_S _ _ _ Hi). cbn [icrnl]. destruct (b =? 13).
    + case_bool_decide as Hn; rewrite IH by lia; rewrite <- app_assoc; cbn [app]; do 2 f_equal.
      * by rewrite (drop_S _ _ _ Hn).
      * destruct (drop (S i) data) as [|y r] eqn:Hd; [done|].
        destruct (Z.eqb_spec y 10) as [->|]; [|done]. destruct Hn.
        rewrite <- (Nat.add_0_r (S i)), <- lookup_drop, Hd. done.
    + rewrite IH by lia. by rewrite <- app_assoc.
Qed.

(** The loop is the terminal's mapping. *)
Lemma cr_to_lf_spec data : cr_to_lf data = icrnl data.
Proof. unfold cr_to_lf. rewrite cr_to_lf_loop_spec by lia. done. Qed.

Lemma icrnl_app a b :
  ~ (list.last a = Some 13 /\ list.head b = Some 10) -> icrnl (a ++ b) = icrnl a ++ icrnl b.
Proof.
  remember (length a) as n eqn:Hn. revert a Hn. induction n as [n IH] using lt_wf_ind.
  intros [|x a] -> Hb; [done|]. cbn [app icrnl]. cbn [length] in IH.
  assert (Htail : forall a', (length a' < length (x :: a))%nat -> a' <> [] -> list.last a' = list.last (x :: a) ->
    icrnl (a' ++ b) = icrnl a' ++ icrnl b).
  { intros a' Hl Hne He. apply (IH (length a')); [done|done|]. rewrite He. done. }
  destruct (Z.eqb_spec x 13) as [->|Hx].
  - cbn [app]. f_equal. destruct a as [|y a].
    + cbn [app]. destruct b as [|y b]; [done|]. destruct (Z.eqb_spec y 10) as [->|]; [|done].
      by destruct Hb.
    + cbn [app]. destruct (y =? 10).
      * destruct a as [|z a]; [done|]. apply Htail; [cbn; lia|done|done].
      * change (y :: a ++ b) with ((y :: a) ++ b). by apply Htail; [cbn; lia|..].
  - cbn [app]. f_equal. destruct a as [|y a]; [done|]. apply Htail; [cbn; lia|done|done].
Qed.

(** No CRLF is cut by the end of a read. *)
Fixpoint uncut (reads : list bytes) : Prop :=
  match reads with
  | [] => True
  | a :: rest => ~ (list.last a = Some 13 /\ list.head (List.concat rest) = Some 10) /\ uncut rest
  end.

(** Reading in pieces: as long as no CRLF is cut between two reads, what a shell
    receives is the terminal's mapping of the client's bytes as a whole, and a command
    receives the bytes themselves. *)
Lemma stdin_pump_spec mode reads :
  uncut reads ->
  stdin_pump mode reads =
    match mode with Shell => icrnl (List.concat reads) | Direct => List.concat reads end.
Proof.
  unfold stdin_pump. intros Hu. destruct mode; [by rewrite map_id|].
  induction reads as [|a rest IH]; [done|]. destruct Hu as [Ha Hr]. cbn [List.map List.concat].
  rewrite cr_to_lf_spec, IH by done. by rewrite icrnl_app.
Qed.

Lemma stdin_pump_spec_witness :
  stdin_pump Shell [str "ls"; [13]; [13; 10]; str "id"] = icrnl (str "ls" ++ [13; 13; 10] ++ str "id").
Proof.
  apply (stdin_pump_spec Shell [str "ls"; [13]; [13; 10]; str "id"]).
  vm_compute. split_and!; try done; intros []; done.
Defined.

(** A CRLF that is cut between two reads becomes two lines. *)
Example cut_crlf_doubled : stdin_pump Shell [[13]; [10]] = [10; 10] /\ icrnl [13; 10] = [10].
Proof. split; reflexivity. Qed.

(** A process that a signal has ended is reported as successful. *)
Example killed_is_success : exit_status (Some None) = 0 /\ exit_status None = 0.
Proof. split; reflexivity. Qed.

(** An exec request never reaches a shell: what is spawned for a command is its first
    word, the word that the registry has looked up, the arguments are the other words, none
    of them split, quoted or expanded, and nothing but white space is lost; otherwise the
    status is 127, and the command was white space alone or could not be spawned. *)
Lemma exec_not_through_shell windows shell spawn command :
  command <> [] ->
  match start_process windows shell spawn command with
  | inr (mode, mkCommand program args) =>
      mode = Direct /\ program = first_word command /\ Forall is_word (program :: args) /\
      List.concat (program :: args) = List.concat (List.filter unblank (chars command))
  | inl (_, status) =>
      status = 127 /\
      (List.concat (List.filter unblank (chars command)) = [] \/ exists cmd, is_Some (spawn cmd))
  end.
Proof.
  intros Hne. assert (Hl : (len command =? 0) = false).
  { destruct command; [done|]. rewrite len_cons. pose proof (len_nonneg command). lia. }
  unfold start_process, process_command, process_mode. rewrite Hl.
  pose proof (split_whitespace_words command) as Hw. pose proof (words_concat (chars command) []) as Hc.
  unfold build_command, first_word, split_whitespace in *.
  destruct (words (chars command) []) as [|program args]; [split; [done|by left]|].
  destruct (spawn (mkCommand program args)) as [e|] eqn:E; [|done].
  split; [done|]. right. exists (mkCommand program args). by rewrite E.
Qed.

Lemma exec_not_through_shell_witness :
  exists program args,
    start_process false None (fun _ => None) (str "printf safe; printf pwned") = inr (Direct, mkCommand program args) /\
    args = [str "safe;"; str "printf"; str "pwned"] /\ program = first_word (str "printf safe; printf pwned").
Proof.
  pose proof (exec_not_through_shell false None (fun _ => None) (str "printf safe; printf pwned") ltac:(discriminate)) as H.
  destruct (start_process _ _ _ _) as [[? ?]|[mode [program args]]] eqn:E; [vm_compute in E; discriminate E|].
  destruct H as (-> & Hp & _). exists program, args. split; [done|]. split; [|exact Hp].
  vm_compute in E. by injection E as _ <-.
Defined.
