(* ===== verification/Process.v ===== *)
(** [run_process] of [ssh-io/system.rs]: a handler that bridges a channel and a child
    process.  Its three pumps, its wait for the end and its tear-down are a state machine
    over the handler's end of the channel; the child and the serve loop are its
    environment, and what they do is nondeterministic. *)
From stdpp Require Import gmap.
From S2P Require Import Prelude Errors Wire Text Connection Driver Exec ExecInv System.

(** How an output pump has ended: at the end of the pipe, by an error of the pipe, or by
    an error of the channel. *)
Inductive Finish := AtEof | ReadFault | WriteFault.

(** The task of an output pump: it reads from the child, or has chunks left to write, or
    is over. *)
Inductive Pump := Pumping | Writing (rest : list bytes) | Finished (how : Finish).

(** The task of the input pump: it reads from the channel, or has bytes left to write to
    the child, or is over. *)
Inductive StdinPump := In_Reading | In_Writing (rest : bytes) | In_Finished.

(** Where the body of [run_process] is suspended: at the reply of a start that failed, at
    the start of the pumps, at the [select!], at the pumps after a kill, at [wait]; it has
    returned, its task has reported the status, or it was dropped. *)
Inductive Main :=
| Replying (rest : list bytes) (status : Z)
| Starting
| Selecting
| Unwinding
| Reaping
| Returned (status : Z)
| Reported (status : Z)
| Dropped.

(** The last fields are its history: the input that the loop has queued, what the pumps
    have read, what the child has been given, and what has been queued for the client. *)
Record Process := mkProcess {
  pr_mode : ProcessMode;
  pr_stdin : StdinPump;
  pr_stdout : Pump;
  pr_stderr : Pump;
  pr_main : Main;
  pr_killed : bool;
  pr_input : bytes;
  pr_reads : list bytes;
  pr_given : bytes;
  pr_out_read : bytes;
  pr_err_read : bytes;
  pr_log : list Outbound
}.
#[export] Instance eta_Process : Eta Process := fun p =>
  mkProcess (pr_mode p) (pr_stdin p) (pr_stdout p) (pr_stderr p) (pr_main p) (pr_killed p)
    (pr_input p) (pr_reads p) (pr_given p) (pr_out_read p) (pr_err_read p) (pr_log p).

Module Process.
Section Process.
Context `{T : Tokio} {Hd : Type}.
Abbreviation EM := (M ErrorKind (Endpoint Hd)).
Definition BUF : Z := 8192.

(** The state after the first lines, for what [start_process] has come to. *)
Definition start (o : (bytes * Z) + (ProcessMode * Command)) : Process :=
  match o with
  | inl (message, status) =>
      mkProcess Direct In_Finished (Finished WriteFault) (Finished WriteFault)
        (Replying (ChannelSession.chunks MAX_RESERVE message) status) false [] [] [] [] [] []
  | inr (mode, _) =>
      mkProcess mode In_Finished (Finished WriteFault) (Finished WriteFault) Starting false [] [] [] [] [] []
  end.

(** [split], the writers' clones, and the three tasks. *)
Definition spawn_pumps (p : Process) : Process :=
  p <| pr_stdin := In_Reading |> <| pr_stdout := Pumping |> <| pr_stderr := Pumping |> <| pr_main := Selecting |>.
Definition clone_writers : EM unit := ChannelSession.clone_writer ;;; ChannelSession.clone_writer.

(** The two output pumps; [ext] is stderr. *)
Definition pump (ext : bool) (p : Process) : Pump := if ext then pr_stderr p else pr_stdout p.
Definition set_pump (ext : bool) (u : Pump) (p : Process) : Process :=
  if ext then p <| pr_stderr := u |> else p <| pr_stdout := u |>.
Definition child_read (ext : bool) (p : Process) : bytes := if ext then pr_err_read p else pr_out_read p.
Definition add_read (ext : bool) (data : bytes) (p : Process) : Process :=
  if ext then p <| pr_err_read ::= fun b => b ++ data |> else p <| pr_out_read ::= fun b => b ++ data |>.

(** A read from the child's pipe comes to bytes, to none at the end, or to an error. *)
Definition pump_read (r : option bytes) : Pump :=
  match r with
  | Some data => if len data =? 0 then Finished AtEof else Writing (ChannelSession.chunks MAX_RESERVE data)
  | None => Finished ReadFault
  end.
(** A poll of the write of what is left. *)
Definition pump_wrote (o : outcome ErrorKind (list bytes)) : Pump :=
  match o with
  | Ok [] => Pumping
  | Ok rest => Writing rest
  | _ => Finished WriteFault
  end.

(** A read from the channel: [Ok(0)] ends the task. *)
Definition stdin_read (data : bytes) (p : Process) : Process :=
  if len data =? 0 then p <| pr_stdin := In_Finished |>
  else p <| pr_stdin := In_Writing (match pr_mode p with Shell => cr_to_lf data | Direct => data end) |>
         <| pr_reads ::= fun ds => ds ++ [data] |>.
(** [write_all] makes progress by [n] bytes. *)
Definition stdin_wrote (n : Z) (rest : bytes) (p : Process) : Process :=
  p <| pr_given ::= fun b => b ++ ztake n rest |>
    <| pr_stdin := if len rest <=? n then In_Reading else In_Writing (zdrop n rest) |>.

Definition pumps_done (p : Process) : Prop :=
  exists h1 h2, pr_stdout p = Finished h1 /\ pr_stderr p = Finished h2.
(** After the [select!]: [stdin_task.abort()]. *)
Definition reap (p : Process) : Process := p <| pr_stdin := In_Finished |> <| pr_main := Reaping |>.
Definition log (l : list Outbound) (p : Process) : Process := p <| pr_log ::= fun m => m ++ l |>.

(** What the serve loop may do to the handler's end meanwhile: queue input, end it, grant or
    close the budget, receive output or drop the queue, watch what was consumed. *)
Record touched (d : list bytes) (e e' : Endpoint Hd) : Prop := {
  to_stdin : fifo_items (k_stdin (e_task e')) = fifo_items (k_stdin (e_task e)) ++ d;
  to_chunk : k_chunk (e_task e') = k_chunk (e_task e);
  to_pos : k_pos (e_task e') = k_pos (e_task e);
  to_ended : k_stdin_open (e_task e) = false -> d = [] /\ k_stdin_open (e_task e') = false;
  to_consumed : watch_value (k_consumed (e_task e')) = watch_value (k_consumed (e_task e));
  to_budget : budget_closed (k_budget (e_task e)) = true -> budget_closed (k_budget (e_task e')) = true;
  to_open : e_open e = false -> e_open e' = false
}.

(** The machine.  [l] is what a write has queued. *)
Inductive process_step : Process * Endpoint Hd -> Process * Endpoint Hd -> Prop :=
| P_reply p e rest status o e' l :
    pr_main p = Replying rest status -> ChannelSession.send_chunks true rest e = (o, e') ->
    fifo_items (e_out e') = fifo_items (e_out e) ++ l ->
    process_step (p, e)
      (log l p <| pr_main := match o with Ok (c :: rest') => Replying (c :: rest') status | _ => Returned status end |>, e')
| P_start p e :
    pr_main p = Starting -> process_step (p, e) (spawn_pumps p, snd (clone_writers e))
| P_read ext r p e :
    pump ext p = Pumping -> (forall data, r = Some data -> len data <= BUF) ->
    process_step (p, e) (set_pump ext (pump_read r) (add_read ext (default [] r) p), e)
| P_write ext rest p e o e' l :
    pump ext p = Writing rest -> ChannelSession.send_chunks ext rest e = (o, e') ->
    fifo_items (e_out e') = fifo_items (e_out e) ++ l ->
    process_step (p, e) (set_pump ext (pump_wrote o) (log l p), e')
| P_stdin_read p e data e' :
    pr_stdin p = In_Reading -> ChannelSession.poll_read BUF e = (Ok (Ready data), e') ->
    process_step (p, e) (stdin_read data p, e')
| P_stdin_write n rest p e :
    pr_stdin p = In_Writing rest -> 0 < n <= len rest -> process_step (p, e) (stdin_wrote n rest p, e)
| P_stdin_fault rest p e :
    pr_stdin p = In_Writing rest -> process_step (p, e) (p <| pr_stdin := In_Finished |>, e)
| P_stdin_drop p e :
    pr_stdin p = In_Finished -> pr_main p <> Starting -> (forall rest status, pr_main p <> Replying rest status) ->
    process_step (p, e) (p, snd (ChannelSession.drop_reader e))
| P_pumps p e :
    pr_main p = Selecting -> pumps_done p -> process_step (p, e) (reap p, e)
| P_closed p e :
    pr_main p = Selecting -> e_open e = false ->
    process_step (p, e) (p <| pr_main := Unwinding |> <| pr_killed := true |>, e)
| P_unwound p e :
    pr_main p = Unwinding -> pumps_done p -> process_step (p, e) (reap p, e)
| P_reaped waited p e :
    pr_main p = Reaping -> process_step (p, e) (p <| pr_main := Returned (exit_status waited) |>, e)
| P_report status p e e' l :
    pr_main p = Returned status -> ChannelSession.exit status e = (Ok tt, e') ->
    fifo_items (e_out e') = fifo_items (e_out e) ++ l ->
    process_step (p, e) (log l p <| pr_main := Reported status |>, e')
| P_abort p e :
    k_aborted (e_task e) = true -> (forall status, pr_main p <> Reported status) ->
    process_step (p, e) (p <| pr_main := Dropped |> <| pr_killed := true |>, e)
| P_loop d p e e' :
    touched d e e' -> process_step (p, e) (p <| pr_input ::= fun b => b ++ List.concat d |>, e').
End Process.
End Process.

(** * What it does *)
Section Faithful.
Context `{T : Tokio} `{!TokioOk T} {Hd : Type}.
Implicit Types (p : Process) (e : Endpoint Hd).
Import Process ChannelSession.

(** The exits among what was queued. *)
Definition is_exit (o : Outbound) : bool := match o with O_Exit _ => true | _ => false end.
Definition no_exit (l : list Outbound) : Prop := Forall (fun o => is_exit o = false) l.

Lemma no_exit_chunks ext cs : no_exit (List.map (chunk_of ext) cs).
Proof. unfold no_exit. induction cs; constructor; by destruct ext. Qed.


(** The reader's part of a task. *)
Definition reader_part e :=
  (k_stdin (e_task e), k_chunk (e_task e), k_pos (e_task e), k_consumed (e_task e), k_stdin_open (e_task e)).
Lemma reader_chunks ext rest : keeps reader_part (send_chunks (Hd := Hd) ext rest).
Proof. induction rest as [|c rest IH]; cbn [send_chunks]; unfold poll_acquire, send, update, closed; keeps_auto. Qed.

(** ** The invariant *)
Definition pump_ok (ext : bool) p e : Prop :=
  match pump ext p with
  | Pumping => sent_on ext (pr_log p) = child_read ext p
  | Writing rest => sent_on ext (pr_log p) ++ List.concat rest = child_read ext p
  | Finished WriteFault =>
      (exists lost, sent_on ext (pr_log p) ++ lost = child_read ext p) /\
      (shut e \/ pr_main p = Starting \/ pr_main p = Dropped)
  | Finished _ => sent_on ext (pr_log p) = child_read ext p
  end.

(** Before the pumps run. *)
Definition pristine p : Prop :=
  pumps_done p /\ pr_stdin p = In_Finished /\ pr_log p = [] /\ pr_out_read p = [] /\ pr_err_read p = [] /\
  pr_given p = [] /\ pr_reads p = [].

Definition main_ok p e : Prop :=
  match pr_main p with
  | Replying _ _ => False
  | Starting => pristine p
  | Reaping | Returned _ => pumps_done p /\ no_exit (pr_log p)
  | Reported status =>
      pumps_done p /\ (e_open e = true -> exists l, pr_log p = l ++ [O_Exit status] /\ no_exit l)
  | _ => no_exit (pr_log p)
  end.

Definition stdin_ok p : Prop :=
  match pr_stdin p with
  | In_Reading => pr_given p = stdin_pump (pr_mode p) (pr_reads p)
  | In_Writing rest => pr_given p ++ rest = stdin_pump (pr_mode p) (pr_reads p)
  | In_Finished => exists held, pr_given p ++ held = stdin_pump (pr_mode p) (pr_reads p)
  end.

Definition input_ok p e : Prop :=
  pr_input p = List.concat (pr_reads p) ++ unread (e_task e) /\
  (pr_stdin p <> In_Finished \/ pr_main p = Starting ->
   reader_ok (e_task e) /\ watch_value (k_consumed (e_task e)) = len (List.concat (pr_reads p))).

Record pinv p e : Prop := {
  pi_pumps ext : pump_ok ext p e;
  pi_main : main_ok p e;
  pi_stdin : stdin_ok p;
  pi_input : len (pr_input p) <= U64_MAX -> input_ok p e
}.

(** What a step that is not about a pump leaves of it. *)
Lemma pump_ok_frame ext p e p' e' :
  pump ext p' = pump ext p -> child_read ext p' = child_read ext p ->
  sent_on ext (pr_log p') = sent_on ext (pr_log p) -> (shut e -> shut e') ->
  (pr_main p = Starting \/ pr_main p = Dropped -> pr_main p' = Starting \/ pr_main p' = Dropped) ->
  pump_ok ext p e -> pump_ok ext p' e'.
Proof.
  unfold pump_ok. intros -> -> -> Hs Hm. destruct (pump ext p) as [|rest|[]]; try done. intros [? [?|?]]; auto.
Qed.

Lemma shut_fixed e e' : fixed e' = fixed e -> shut e -> shut e'.
Proof. unfold fixed, shut. intros [= _ _ _ _ -> ->]. done. Qed.
Lemma open_fixed e e' : fixed e' = fixed e -> e_open e' = e_open e.
Proof. unfold fixed. by intros [=]. Qed.
Lemma shut_touched d e e' : touched d e e' -> shut e -> shut e'.
Proof. intros [] [?|?]; [left|right]; auto. Qed.

Lemma input_ok_frame p e p' e' :
  pr_input p' = pr_input p -> pr_reads p' = pr_reads p ->
  (pr_stdin p' <> In_Finished \/ pr_main p' = Starting -> pr_stdin p <> In_Finished \/ pr_main p = Starting) ->
  reader_part e' = reader_part e -> input_ok p e -> input_ok p' e'.
Proof.
  unfold input_ok, reader_part, unread, reader_ok. intros -> -> Hr [= -> -> -> -> _] [H1 H2]. auto.
Qed.

(** ** The steps *)
Lemma pinv_write ext rest p e o e' l :
  pump ext p = Writing rest -> send_chunks ext rest e = (o, e') ->
  fifo_items (e_out e') = fifo_items (e_out e) ++ l -> pinv p e ->
  pinv (set_pump ext (pump_wrote o) (log l p)) e'.
Proof.
  intros Hp Ho Hl [I1 I2 I3 I4]. destruct (send_chunks_spec _ _ _ _ _ Ho) as (sent & Hi & Hw).
  rewrite Hl in Hi. apply app_inv_head in Hi as ->.
  pose proof (handled_chunks ext rest e) as Hf. rewrite Ho in Hf. destruct Hf as [Hf _]. cbn [snd] in Hf.
  pose proof (reader_chunks ext rest e) as Hr. rewrite Ho in Hr. unfold same in Hr. cbn [snd] in Hr.
  assert (Hlog : pr_log (set_pump ext (pump_wrote o) (log (List.map (chunk_of ext) sent) p)) =
    pr_log p ++ List.map (chunk_of ext) sent) by by destruct ext.
  constructor.
  - intros ext'. destruct (Bool.eqb_spec ext' ext) as [->|Hne].
    + specialize (I1 ext). unfold pump_ok in *. rewrite Hp in I1. rewrite Hlog, sent_on_app, sent_on_chunks, Bool.eqb_reflx.
      assert (E1 : pump ext (set_pump ext (pump_wrote o) (log (List.map (chunk_of ext) sent) p)) = pump_wrote o) by by destruct ext.
      assert (E2 : child_read ext (set_pump ext (pump_wrote o) (log (List.map (chunk_of ext) sent) p)) = child_read ext p) by by destruct ext.
      rewrite E1, E2. destruct o as [left_|x| |]; [|destruct Hw as [[left_ ->] Hs]|done..].
      * subst rest. rewrite List.concat_app in I1. destruct left_; cbn [pump_wrote].
        -- rewrite <- I1. cbn [List.concat]. by rewrite app_nil_r.
        -- by rewrite <- app_assoc.
      * cbn [pump_wrote]. split; [|by left]. exists (List.concat left_). rewrite <- app_assoc, <- List.concat_app. exact I1.
    + eapply pump_ok_frame; [| | |exact (shut_fixed _ _ Hf)| |exact (I1 ext')].
      * by destruct ext, ext'.
      * by destruct ext, ext'.
      * rewrite Hlog, sent_on_app, sent_on_chunks. apply Bool.eqb_false_iff in Hne. by rewrite Hne, app_nil_r.
      * by destruct ext.
  - assert (E : pr_main (set_pump ext (pump_wrote o) (log (List.map (chunk_of ext) sent) p)) = pr_main p) by by destruct ext.
    assert (Hn : forall l, no_exit l -> no_exit (l ++ List.map (chunk_of ext) sent)).
    { intros l Hn. apply Forall_app_2; [exact Hn|apply no_exit_chunks]. }
    assert (Hnd : ~ pumps_done p).
    { intros (h1 & h2 & D1 & D2). destruct ext; cbn in Hp; congruence. }
    unfold main_ok in *. rewrite E, Hlog. destruct (pr_main p); try done; try (by apply Hn); by destruct I2 as [? _].
  - unfold stdin_ok in *. by destruct ext.
  - assert (E : pr_input (set_pump ext (pump_wrote o) (log (List.map (chunk_of ext) sent) p)) = pr_input p) by by destruct ext.
    rewrite E. intros Hb. eapply input_ok_frame; [| | |exact Hr|exact (I4 Hb)]; by destruct ext.
Qed.

Lemma pinv_read ext r p e :
  pump ext p = Pumping -> pinv p e -> pinv (set_pump ext (pump_read r) (add_read ext (default [] r) p)) e.
Proof.
  intros Hp [I1 I2 I3 I4]. set (p' := set_pump ext (pump_read r) (add_read ext (default [] r) p)).
  assert (E : pr_log p' = pr_log p /\ pr_main p' = pr_main p /\ pr_input p' = pr_input p /\ pr_reads p' = pr_reads p /\
    pr_stdin p' = pr_stdin p /\ pr_given p' = pr_given p /\ pr_mode p' = pr_mode p) by (by destruct ext; split_and!).
  destruct E as (E1 & E2 & E3 & E4 & E5 & E6 & E7). constructor.
  - intros ext'. destruct (Bool.eqb_spec ext' ext) as [->|Hne].
    + specialize (I1 ext). unfold pump_ok in *. rewrite Hp in I1. rewrite E1.
      assert (E8 : pump ext p' = pump_read r) by by destruct ext.
      assert (E9 : child_read ext p' = child_read ext p ++ default [] r) by by destruct ext.
      rewrite E8, E9. destruct r as [data|]; cbn [pump_read default]; [|by rewrite app_nil_r].
      destruct (Z.eqb_spec (len data) 0) as [El|El]; [assert (data = []) as -> by (apply len_zero_inv; lia); by rewrite app_nil_r|].
      by rewrite chunks_concat, I1.
    + eapply pump_ok_frame; [..|exact (I1 ext')]; try done; try (by rewrite E1); try (by rewrite E2); by destruct ext, ext'.
  - assert (Hnd : ~ pumps_done p) by (intros (h1 & h2 & D1 & D2); destruct ext; cbn in Hp; congruence).
    unfold main_ok in *. rewrite E1, E2. destruct (pr_main p); try done; by destruct I2 as [? _].
  - unfold stdin_ok in *. by rewrite E5, E6, E7, E4.
  - rewrite E3. intros Hb. eapply input_ok_frame; [..|exact (I4 Hb)]; try done. by rewrite E5, E2.
Qed.

Lemma concat_snoc {V} (ds : list (list V)) d : List.concat (ds ++ [d]) = List.concat ds ++ d.
Proof. rewrite List.concat_app. cbn. by rewrite app_nil_r. Qed.

Lemma pinv_stdin_read p e data e' :
  pr_stdin p = In_Reading -> poll_read BUF e = (Ok (Ready data), e') -> pinv p e -> pinv (stdin_read data p) e'.
Proof.
  intros Hp Ho [I1 I2 I3 I4].
  pose proof (handled_read BUF e) as Hf. rewrite Ho in Hf. destruct Hf as [Hf _]. cbn [snd] in Hf.
  assert (E : pr_log (stdin_read data p) = pr_log p /\ pr_main (stdin_read data p) = pr_main p /\
    pr_input (stdin_read data p) = pr_input p /\ pr_stdout (stdin_read data p) = pr_stdout p /\
    pr_stderr (stdin_read data p) = pr_stderr p /\ pr_out_read (stdin_read data p) = pr_out_read p /\
    pr_err_read (stdin_read data p) = pr_err_read p).
  { unfold stdin_read. destruct (len data =? 0); by split_and!. }
  destruct E as (E1 & E2 & E3 & E4 & E5 & E6 & E7). constructor.
  - intros ext. eapply pump_ok_frame; [| | |exact (shut_fixed _ _ Hf)| |exact (I1 ext)]; rewrite ?E1, ?E2; try done;
      destruct ext; cbn; congruence.
  - unfold main_ok, pumps_done in *. rewrite E1, E2, E4, E5, (open_fixed _ _ Hf).
    destruct (pr_main p); try exact I2. destruct I2 as (_ & I2 & _). congruence.
  - unfold stdin_ok in *. rewrite Hp in I3. unfold stdin_read. destruct (len data =? 0); cbn.
    + exists []. rewrite app_nil_r. exact I3.
    + rewrite I3. unfold stdin_pump. rewrite List.map_app. destruct (pr_mode p); cbn [List.map]; by rewrite concat_snoc.
  - rewrite E3. intros Hb. destruct (I4 Hb) as [H1 H2]. destruct H2 as [H2 H3]; [left; by rewrite Hp|].
    pose proof (f_equal len H1) as Hl. rewrite len_app in Hl.
    pose proof (len_nonneg (List.concat (pr_reads p))).
    pose proof (stdin_in_order BUF e H2 ltac:(done) ltac:(lia) ltac:(lia)) as Hw. unfold wp in Hw. rewrite Ho in Hw.
    destruct Hw as (R1 & R2 & R3 & R4 & R5). unfold input_ok, stdin_read.
    destruct (Z.eqb_spec (len data) 0) as [El|El]; cbn.
    + assert (data = []) as -> by (apply len_zero_inv; lia). rewrite H1, R2. split; [done|].
      intros _. split; [done|]. change (len (@nil Z)) with 0 in R4. rewrite R4, H3. lia.
    + rewrite concat_snoc, H1, R2, <- app_assoc. split; [done|]. intros _. split; [done|].
      rewrite R4, H3, len_app. done.
Qed.

Lemma pinv_stdin_write n rest p e :
  pr_stdin p = In_Writing rest -> 0 < n <= len rest -> pinv p e -> pinv (stdin_wrote n rest p) e.
Proof.
  intros Hp Hn [I1 I2 I3 I4]. constructor; [exact I1| | |].
  - unfold main_ok in *. cbn. destruct (pr_main p); try exact I2. destruct I2 as (_ & I2 & _). congruence.
  - unfold stdin_ok in *. rewrite Hp in I3. unfold stdin_wrote. cbn -[stdin_pump]. destruct (Z.leb_spec (len rest) n).
    + rewrite <- I3. f_equal. by rewrite ztake_all by lia.
    + by rewrite <- app_assoc, ztake_zdrop.
  - intros Hb. eapply (input_ok_frame p e); [reflexivity|reflexivity| |reflexivity|exact (I4 Hb)]. rewrite Hp. by left.
Qed.

(** Steps of the body that write nothing. *)
Lemma pinv_main p e p' e' :
  (forall ext, pump ext p' = pump ext p /\ child_read ext p' = child_read ext p) ->
  pr_log p' = pr_log p -> (pr_input p', pr_reads p', pr_given p', pr_mode p') = (pr_input p, pr_reads p, pr_given p, pr_mode p) ->
  pr_stdin p' = pr_stdin p \/ pr_stdin p' = In_Finished ->
  (pr_main p = Starting \/ pr_main p = Dropped -> pr_main p' = pr_main p \/ pr_main p' = Dropped) ->
  (pr_main p' = Starting -> pr_main p = Starting) -> main_ok p' e' ->
  fixed e' = fixed e -> (pr_stdin p' = In_Finished \/ reader_part e' = reader_part e) -> unread (e_task e') = unread (e_task e) ->
  (pr_main p' = Starting -> reader_part e' = reader_part e) ->
  pinv p e -> pinv p' e'.
Proof.
  intros Hx Hl [= Hi Hr Hg Hm] Hs H1 H2 H3 Hf Hrd Hu Hst [I1 I2 I3 I4]. constructor.
  - intros ext. destruct (Hx ext) as [X1 X2].
    eapply pump_ok_frame; [exact X1|exact X2|by rewrite Hl|exact (shut_fixed _ _ Hf)| |exact (I1 ext)].
    intros Ho. destruct (H1 Ho) as [->| ->]; auto.
  - exact H3.
  - unfold stdin_ok in *. rewrite Hg, Hr, Hm. destruct Hs as [->| ->]; [exact I3|].
    destruct (pr_stdin p) as [|rest|]; [exists []; by rewrite app_nil_r|by exists rest|done].
  - rewrite Hi. intros Hb. destruct (I4 Hb) as [J1 J2]. split; [rewrite Hi, Hr, Hu; exact J1|].
    intros Hor. assert (Hp : reader_part e' = reader_part e) by (destruct Hor as [Hor|Hor]; [by destruct Hrd|auto]).
    unfold reader_part in Hp. injection Hp as P1 P2 P3 P4 _. unfold reader_ok. rewrite P2, P3, P4, Hr.
    apply J2. destruct Hor as [Hor|Hor]; [left|right; auto]. by destruct Hs as [Hs|Hs]; rewrite Hs in Hor.
Qed.

Lemma clone_fixed e :
  fixed (snd (clone_writers e)) = fixed e /\ reader_part (snd (clone_writers e)) = reader_part e.
Proof. done. Qed.

Lemma pinv_start p e : pr_main p = Starting -> pinv p e -> pinv (spawn_pumps p) (snd (clone_writers e)).
Proof.
  intros Hp [I1 I2 I3 I4]. unfold main_ok in I2. rewrite Hp in I2. destruct I2 as (_ & _ & L1 & L2 & L3 & L4 & L5).
  constructor.
  - intros ext. unfold pump_ok. destruct ext; cbn; by rewrite L1, ?L2, ?L3.
  - unfold main_ok. cbn. rewrite L1. by apply Forall_nil.
  - unfold stdin_ok. cbn. rewrite L4, L5. by destruct (pr_mode p).
  - intros Hb. destruct (I4 Hb) as [J1 J2]. split; [exact J1|]. intros _. apply J2. by right.
Qed.

Lemma exit_spec status e e' l :
  exit status e = (Ok tt, e') -> fifo_items (e_out e') = fifo_items (e_out e) ++ l ->
  fixed e' = fixed e /\ reader_part e' = reader_part e /\ l = if e_open e then [O_Exit status] else [].
Proof.
  intros E Hl. destruct e as [k q o]. unfold exit, update, send, bind, get, modify, ret, closed in E. cbn in E.
  destruct o; injection E as <-; cbn in *; (split; [done|]; split; [done|]).
  - rewrite items_send in Hl. by apply app_inv_head in Hl.
  - rewrite <- (app_nil_r (fifo_items q)) in Hl at 1. by apply app_inv_head in Hl.
Qed.

Lemma pinv_report status p e e' l :
  pr_main p = Returned status -> exit status e = (Ok tt, e') ->
  fifo_items (e_out e') = fifo_items (e_out e) ++ l -> pinv p e -> pinv (log l p <| pr_main := Reported status |>) e'.
Proof.
  intros Hp E Hl [I1 I2 I3 I4]. destruct (exit_spec _ _ _ _ E Hl) as (Hf & Hr & ->).
  unfold main_ok in I2. rewrite Hp in I2. destruct I2 as [D N]. constructor.
  - intros ext. eapply (pump_ok_frame ext p e); [by destruct ext|by destruct ext| |exact (shut_fixed _ _ Hf)| |exact (I1 ext)].
    + transitivity (sent_on ext (pr_log p ++ if e_open e then [O_Exit status] else [])); [done|].
      rewrite sent_on_app. destruct (e_open e); apply app_nil_r.
    + rewrite Hp. by intros [].
  - split; [exact D|]. rewrite (open_fixed _ _ Hf). intros ->. by exists (pr_log p).
  - exact I3.
  - intros Hb. eapply (input_ok_frame p e); [reflexivity|reflexivity| |exact Hr|exact (I4 Hb)].
    rewrite Hp. intros [?|?]; [by left|done].
Qed.

Lemma pinv_loop d p e e' : touched d e e' -> pinv p e -> pinv (p <| pr_input ::= fun b => b ++ List.concat d |>) e'.
Proof.
  intros Ht [I1 I2 I3 I4]. constructor.
  - intros ext. eapply (pump_ok_frame ext p e); [by destruct ext|by destruct ext|done|exact (shut_touched _ _ _ Ht)|by auto|exact (I1 ext)].
  - unfold main_ok in *. cbn. destruct (pr_main p); try exact I2. destruct I2 as [D I2]. split; [exact D|].
    intros Ho. apply I2. destruct (e_open e) eqn:Eo; [done|]. by rewrite (to_open _ _ _ Ht Eo) in Ho.
  - exact I3.
  - cbn. rewrite len_app. pose proof (len_nonneg (List.concat d)). intros Hb. destruct (I4 ltac:(lia)) as [J1 J2].
    destruct Ht as [T1 T2 T3 _ T5 _ _]. split; cbn.
    + rewrite J1. unfold unread. rewrite T1, T2, T3, List.concat_app, <- !app_assoc. done.
    + unfold reader_ok. rewrite T2, T3, T5. exact J2.
Qed.

(** A step of the body that leaves the channel alone. *)
Lemma pinv_body p p' e :
  (forall ext, pump ext p' = pump ext p /\ child_read ext p' = child_read ext p) ->
  pr_log p' = pr_log p -> (pr_input p', pr_reads p', pr_given p', pr_mode p') = (pr_input p, pr_reads p, pr_given p, pr_mode p) ->
  pr_stdin p' = pr_stdin p \/ pr_stdin p' = In_Finished ->
  pr_main p' = pr_main p \/ pr_main p' = Dropped \/ (pr_main p <> Starting /\ pr_main p <> Dropped /\ pr_main p' <> Starting) ->
  main_ok p' e -> pinv p e -> pinv p' e.
Proof.
  intros Hx Hl Hs Ht Hm Ho Hi. apply (pinv_main p e); auto.
  - intros Hb. destruct Hm as [?|[?|(? & ? & ?)]]; auto. by destruct Hb.
  - intros Hb. destruct Hm as [?|[?|(? & ? & ?)]]; congruence.
Qed.

Lemma main_no_exit p e : main_ok p e -> (forall status, pr_main p <> Reported status) -> no_exit (pr_log p).
Proof.
  unfold main_ok. intros Hm Hn. destruct (pr_main p) eqn:Ep; try done; try apply Hm.
  - destruct Hm as (_ & _ & -> & _). by apply Forall_nil.
  - by destruct (Hn status).
Qed.

Lemma process_step_pinv x x' : process_step x x' -> pinv (fst x) (snd x) -> pinv (fst x') (snd x').
Proof.
  intros Hst Hi. destruct Hst; cbn [fst snd] in *; pose proof (pi_main _ _ Hi) as Hm;
    unfold main_ok in Hm; try match goal with E : pr_main ?q = _ |- _ => rewrite E in Hm end.
  - done.
  - by apply pinv_start.
  - by apply pinv_read.
  - by eapply pinv_write.
  - by eapply pinv_stdin_read.
  - by apply pinv_stdin_write.
  - apply (pinv_body p); [by intros []|done|done|by right|by left| |done].
    unfold main_ok. cbn. destruct (pr_main p); try exact Hm. destruct Hm as (_ & Hm & _). congruence.
  - by apply (pinv_main p e); try reflexivity; auto.
  - apply (pinv_body p); [by intros []|done|done|by right|rewrite H; by right; right|by split|done].
  - apply (pinv_body p); [by intros []|done|done|by left|rewrite H; by right; right|exact Hm|done].
  - apply (pinv_body p); [by intros []|done|done|by right|rewrite H; by right; right|by split|done].
  - apply (pinv_body p); [by intros []|done|done|by left|rewrite H; by right; right|exact Hm|done].
  - by eapply pinv_report.
  - apply (pinv_body p); [by intros []|done|done|by left|by right; left|exact (main_no_exit _ _ (pi_main _ _ Hi) H0)|done].
  - by apply (pinv_loop d p e).
Qed.

Lemma fresh_pinv mode cmd h command b pty size q o :
  pinv (start (inr (mode, cmd))) (mkEndpoint (ChannelSession.new (Hd := Hd) h command b pty size) q o).
Proof.
  constructor.
  - intros []; (split; [by exists []|by right; left]).
  - split; [by eexists _, _|by split_and!].
  - exists []. by destruct mode.
  - intros _. split; [cbn; unfold unread; cbn; by rewrite items_new|].
    intros _. split; [by split|]. cbn. by rewrite watch_value_new.
Qed.

(** To the serve loop the runner is a handler like any other: it pays for what it queues, and
    the loop's side of the channel is not touched. *)
Lemma process_step_handled (x x' : Process * Endpoint Hd) :
  process_step x x' -> (exists d, touched d (snd x) (snd x')) \/ handled (snd x) (snd x').
Proof.
  intros Hst. destruct Hst; cbn [snd]; try (right; reflexivity).
  - right. pose proof (handled_chunks true rest e) as Hf. by rewrite H0 in Hf.
  - right. exact (stays_bind handled _ _ handled_clone (fun _ => handled_clone) e).
  - right. pose proof (handled_chunks ext rest e) as Hf. by rewrite H0 in Hf.
  - right. pose proof (handled_read BUF e) as Hf. by rewrite H0 in Hf.
  - right. apply handled_drop_reader.
  - right. pose proof (handled_exit status e) as Hf. by rewrite H0 in Hf.
  - left. by exists d.
Qed.

(** C32. The runner is a faithful pipe between the channel and the child: whatever the child,
    the client and the loop do, and in whatever order, what is queued for a stream is a
    prefix of what the child has written to it; the child is given a prefix of the mapped
    input, and the input that is neither read nor waiting is none; and when the status is
    reported on a channel that still works, both pipes have been read to their end, all of
    it has been queued, and the status is the last message. *)
Theorem runner_faithful mode cmd h command b pty size q o p e :
  steps process_step (start (inr (mode, cmd)), mkEndpoint (ChannelSession.new h command b pty size) q o) (p, e) ->
  len (pr_input p) <= U64_MAX ->
  (forall ext, exists rest, child_read ext p = sent_on ext (pr_log p) ++ rest) /\
  (exists rest, stdin_pump (pr_mode p) (pr_reads p) = pr_given p ++ rest) /\
  pr_input p = List.concat (pr_reads p) ++ unread (e_task e) /\
  (forall status, pr_main p = Reported status -> ~ shut e ->
    (forall ext, child_read ext p = sent_on ext (pr_log p) /\
       (pump ext p = Finished AtEof \/ pump ext p = Finished ReadFault)) /\
    exists l, pr_log p = l ++ [O_Exit status] /\ no_exit l).
Proof.
  intros Hst Hb.
  assert (Hi : pinv p e).
  { change (let x := (p, e) in pinv (fst x) (snd x)). cbv zeta.
    eapply (steps_invariant process_step (fun x => pinv (fst x) (snd x))); [|exact Hst|apply fresh_pinv].
    intros x x'. apply process_step_pinv. }
  destruct Hi as [I1 I2 I3 I4]. split_and!.
  - intros ext. specialize (I1 ext). unfold pump_ok in I1. destruct (pump ext p) as [|rest|[]].
    + exists []. by rewrite app_nil_r.
    + by exists (List.concat rest).
    + exists []. by rewrite app_nil_r.
    + exists []. by rewrite app_nil_r.
    + destruct I1 as [[lost <-] _]. by exists lost.
  - unfold stdin_ok in I3. destruct (pr_stdin p) as [|rest|]; [exists []; by rewrite app_nil_r|by exists rest|].
    destruct I3 as [held <-]. by exists held.
  - apply (I4 Hb).
  - intros status Hm Hs. unfold main_ok in I2. rewrite Hm in I2. destruct I2 as [(h1 & h2 & D1 & D2) He].
    split.
    + intros ext. specialize (I1 ext). unfold pump_ok in I1. rewrite Hm in I1.
      destruct ext; cbn [pump] in *; [rewrite D2 in *; destruct h2|rewrite D1 in *; destruct h1];
        try (split; [by rewrite I1|auto]); by destruct I1 as [_ [?|[?|?]]].
    + apply He. destruct (e_open e) eqn:Eo; [done|]. destruct Hs. by right.
Qed.
End Faithful.

(** * A run *)
Module Run.
Import Process.
Abbreviation endpoint := (Endpoint (T := plain_tokio) nat).
Definition command : bytes := str "wc -c".
(** The loop queues input, and ends it. *)
Definition queued (e : endpoint) : endpoint := e <| e_task ::= fun k => k <| k_stdin := [str "abc"] |> |>.
Definition ended (e : endpoint) : endpoint := e <| e_task ::= fun k => k <| k_stdin_open := false |> |>.

Definition p0 : Process := Eval vm_compute in start (start_process false None (fun _ => None) command).
Definition e0 : endpoint := Eval vm_compute in mkEndpoint (ChannelSession.new 2%nat command (100, false) None (0, 0)) [] true.
Definition p1 : Process := Eval vm_compute in (spawn_pumps p0) <| pr_input := str "abc" |>.
Definition e1 : endpoint := Eval vm_compute in queued (snd (clone_writers e0)).
Definition p2 : Process := Eval vm_compute in stdin_wrote 3 (str "abc") (stdin_read (str "abc") p1).
Definition e2 : endpoint := Eval vm_compute in ended (snd (ChannelSession.poll_read BUF e1)).
Definition p3 : Process := Eval vm_compute in stdin_read [] p2.
Definition e3 : endpoint := Eval vm_compute in snd (ChannelSession.poll_read BUF e2).
Definition p4 : Process := Eval vm_compute in set_pump false (pump_read (Some (str "3"))) (add_read false (str "3") p3).
Definition p5 : Process := Eval vm_compute in set_pump false (pump_wrote (Ok [])) (log [O_Stdout (str "3")] p4).
Definition e5 : endpoint := Eval vm_compute in snd (ChannelSession.send_chunks false [str "3"] e3).
Definition p6 : Process := Eval vm_compute in set_pump true (pump_read (Some [])) (set_pump false (pump_read (Some [])) p5).
Definition p7 : Process := Eval vm_compute in (reap p6) <| pr_main := Returned 0 |>.
Definition p8 : Process := Eval vm_compute in (log [O_Exit 0] p7) <| pr_main := Reported 0 |>.
Definition e8 : endpoint := Eval vm_compute in snd (ChannelSession.exit 0 e5).
End Run.
Import Process.

Abbreviation ran x := (steps process_step (Run.p0, Run.e0) x).
Lemma run_step x x' x'' : ran x -> process_step x x' -> x' = x'' -> ran x''.
Proof. intros Hr Hs <-. by eapply steps_snoc. Qed.

#[local] Ltac computed := lazymatch goal with |- _ = ?v => vm_cast_no_check (@eq_refl _ v) end.

Lemma runner_run : ran (Run.p8, Run.e8).
Proof.
  eapply (run_step (Run.p7, Run.e5)); [|apply (P_report 0 _ _ Run.e8 [O_Exit 0]); computed|computed].
  eapply (run_step (reap Run.p6, Run.e5)); [|apply (P_reaped (Some (Some 0))); computed|computed].
  eapply (run_step (Run.p6, Run.e5)); [|apply P_pumps; [computed|by eexists _, _]|computed].
  eapply (run_step (set_pump false (pump_read (Some [])) Run.p5, Run.e5));
    [|apply (P_read true (Some [])); [computed|by intros ? [= <-]]|computed].
  eapply (run_step (Run.p5, Run.e5)); [|apply (P_read false (Some [])); [computed|by intros ? [= <-]]|computed].
  eapply (run_step (Run.p4, Run.e3)); [|apply (P_write false [str "3"] _ _ (Ok []) Run.e5 [O_Stdout (str "3")]); computed|computed].
  eapply (run_step (Run.p3, Run.e3)); [|apply (P_read false (Some (str "3"))); [computed|by intros ? [= <-]]|computed].
  eapply (run_step (Run.p2, Run.e2)); [|apply (P_stdin_read _ _ [] Run.e3); computed|computed].
  eapply (run_step (Run.p2, snd (ChannelSession.poll_read BUF Run.e1)));
    [|apply (P_loop [] _ _ Run.e2); by constructor|computed].
  eapply (run_step (stdin_read (str "abc") Run.p1, snd (ChannelSession.poll_read BUF Run.e1)));
    [|apply (P_stdin_write 3 (str "abc")); [computed|by split]|computed].
  eapply (run_step (Run.p1, Run.e1)); [|apply (P_stdin_read _ _ (str "abc") (snd (ChannelSession.poll_read BUF Run.e1))); computed|computed].
  eapply (run_step (spawn_pumps Run.p0, snd (clone_writers Run.e0))); [|apply (P_loop [str "abc"] _ _ Run.e1); by constructor|computed].
  eapply (run_step (Run.p0, Run.e0)); [|by apply P_start|computed].
  apply steps_refl.
Qed.

Lemma runner_faithful_witness :
  (forall ext, child_read ext Run.p8 = sent_on ext (pr_log Run.p8)) /\
  pr_log Run.p8 = [O_Stdout (str "3"); O_Exit 0] /\
  str "abc" = List.concat (pr_reads Run.p8) ++ unread (e_task Run.e8).
Proof.
  destruct (runner_faithful (T := plain_tokio) Direct (mkCommand (str "wc") [str "-c"]) 2%nat Run.command (100, false) None
    (0, 0) [] true Run.p8 Run.e8 runner_run) as (_ & _ & H3 & H4); [by vm_compute|].
  split; [|split; [reflexivity|exact H3]]. intros ext. apply (H4 0); [done|]. by intros [|].
Defined.
