(* ===== verification/Serve.v ===== *)
(** The server's loop: [ssh-io/serve.rs].  One connection, its handlers' tasks, and the
    flow of output, input and control between them.

    The loop is [serve_with]: each arm of its [select!] is a definition, and the loop with
    the tasks beside it is a step relation: an arm that is ready runs to its next
    suspension, a handler is polled, or time passes, in any order. *)
From stdpp Require Import gmap.
From S2P Require Import Prelude Errors Wire Packet Version Crypto Kex Algo Cipher Compress.
From S2P Require Import Connection Auth Transport Server Client Limits Policy Driver Exec.

(** Durations and instants in nanoseconds. *)
Definition seconds (n : Z) : Z := n * 1000000000.

Record ServeConfig := mkServeConfig {
  login_timeout : Z;
  idle_timeout : option Z;
  max_buffered_output : Z
}.
Definition default_config : ServeConfig := mkServeConfig (seconds 30) (Some (seconds 120)) (256 * 1024).

(** The state of [serve_with].  The tasks that it has spawned are in a list, and the
    variables that hold an end of one ([stdin_tx], the [BudgetGuard], [consumed_rx],
    [resize_tx], the [TaskGuard]) hold its index. *)
Record Serve `{C : Crypto} {H RP : Type} `{T : Tokio} {Hd : Type} := mkServe {
  v_driver : Driver (ServerConnection H);
  v_retry : RP;
  v_tasks : list (Task Hd);
  v_out_rx : fifo Outbound;
  v_out_open : bool;
  v_stdin_tx : option nat;
  v_out_budget : option nat;
  v_consumed_rx : option nat;
  v_resize_tx : option nat;
  v_handler_task : option nat;
  v_active_channel : Z;
  v_out_inflight : Z;
  v_last_consumed : Z;
  v_login_deadline : Z;
  v_idle_deadline : Z;
  v_authenticated : bool
}.
Arguments Serve {C} H RP {T} Hd.
#[export] Instance eta_Serve `{C : Crypto} {H RP} `{T : Tokio} {Hd} : Eta (Serve H RP Hd) := fun v =>
  mkServe C H RP T Hd (v_driver v) (v_retry v) (v_tasks v) (v_out_rx v) (v_out_open v)
    (v_stdin_tx v) (v_out_budget v) (v_consumed_rx v) (v_resize_tx v) (v_handler_task v)
    (v_active_channel v) (v_out_inflight v) (v_last_consumed v) (v_login_deadline v)
    (v_idle_deadline v) (v_authenticated v).

(** How an arm of the loop ends: another round, [return Ok(())], or the latter after a last
    flush. *)
Inductive Flow := Continue | Return | FlushReturn.

Module Serve.
Section Serve.
Context `{C : Crypto} {H : Type} `{A : !ServerAuthHandler H}.
Context {RP : Type} `{R : !RetryPolicy RP} `{RO : !RetryOk RP} `{T : Tokio} {Hd : Type}.
Context (config : ServeConfig) (ctx : ExecContext Hd) (peer : option SocketAddr) (instant_max : Z).
Abbreviation Serve := (Serve H RP Hd).
Abbreviation LM := (M DriveError Serve).

Definition out_limit : Z := Z.max (max_buffered_output config) MAX_RESERVE.

(** Calls on the driver, on its session, on the retry policy (whose methods have no error)
    and on a task. *)
Definition on_driver {B} (m : M DriveError (Driver (ServerConnection H)) B) : LM B :=
  zoom v_driver (fun d v => v <| v_driver := d |>) m.
Definition on_session {B} (m : M SshError (ServerConnection H) B) : LM B :=
  on_driver (Driver.on_session m).
Definition session (v : Serve) : ServerConnection H := dv_session (v_driver v).
Definition on_retry (m : M unit RP unit) : LM unit :=
  fun v => match m (v_retry v) with
           | (Ok tt, r) => (Ok tt, v <| v_retry := r |>)
           | (OutOfFuel, r) => (OutOfFuel, v <| v_retry := r |>)
           | (_, r) => (Panic, v <| v_retry := r |>)
           end.
Definition update_task (i : nat) (u : Task Hd -> Task Hd) : LM unit := v_tasks <-~ alter u i.

(** The tail of a select arm that a peer's address decides: [if let Some(p) = peer]. *)
Definition for_peer (f : SocketAddr -> M unit RP unit) : LM unit :=
  match peer with Some p => on_retry (f p) | None => ret tt end.

(** ** Dropping the ends that the loop holds *)
Definition drop_stdin (v : Serve) : Serve :=
  match v_stdin_tx v with
  | Some i => v <| v_tasks ::= alter (fun k => k <| k_stdin_open := false |>) i |> <| v_stdin_tx := None |>
  | None => v
  end.
Definition drop_budget (v : Serve) : Serve :=
  match v_out_budget v with
  | Some i => v <| v_tasks ::= alter (fun k => k <| k_budget ::= budget_close |>) i |> <| v_out_budget := None |>
  | None => v
  end.
Definition drop_resize (v : Serve) : Serve :=
  match v_resize_tx v with
  | Some i => v <| v_tasks ::= alter (fun k => k <| k_resize ::= watch_close |>) i |> <| v_resize_tx := None |>
  | None => v
  end.
Definition drop_handler (v : Serve) : Serve :=
  match v_handler_task v with
  | Some i => v <| v_tasks ::= alter (fun k => k <| k_aborted := true |>) i |> <| v_handler_task := None |>
  | None => v
  end.

(** Leaving [serve_with]: its variables are dropped. *)
Definition drop_all (v : Serve) : Serve :=
  (drop_stdin (drop_budget (drop_resize (drop_handler v))))
    <| v_consumed_rx := None |> <| v_out_open := false |>.

(** ** Starting a handler *)

(** [spawn_handler]: the index of the task. *)
Definition spawn_handler (h : Hd) (command : bytes) (pty : option PtyInfo) : LM nat :=
  let* b := unwrap (budget_new out_limit) in
  let size := match pty with Some p => (pty_cols p, pty_rows p) | None => (0, 0) end in
  let* v := get in
  v_tasks <-~ (fun ks => ks ++ [ChannelSession.new h command b pty size]) ;;;
  ret (length (v_tasks v)).

(** [wire_handler], and the assignment of what it returns, which drops the previous ends. *)
Definition wire_handler (i : nat) (v : Serve) : Serve :=
  (drop_resize (drop_stdin (drop_handler (drop_budget v))))
    <| v_stdin_tx := Some i |> <| v_out_budget := Some i |> <| v_consumed_rx := Some i |>
    <| v_resize_tx := Some i |> <| v_handler_task := Some i |>.

(** The three kinds of request differ in the registry's answer and in the command. *)
Definition start_program (channel : Z) (handler : option Hd) (command : bytes) : LM unit :=
  match handler with
  | Some h =>
      on_session (ServerConnection.accept_channel channel) ;;;
      let* pty := gets (fun v => ServerConnection.channel_pty channel (session v)) in
      let* i := spawn_handler h command pty in
      modify (wire_handler i) ;;;
      v_active_channel <-! channel ;;;
      v_out_inflight <-! 0 ;;;
      v_last_consumed <-! 0
  | None => on_session (ServerConnection.reject_channel channel)
  end.

(** ** The arms of the loop *)

(** After a flush: output that reached the wire frees budget. *)
Definition credit_flushed : LM unit :=
  let* v := get in
  match v_out_budget v with
  | Some i =>
      let* flushed := on_session (ServerConnection.take_flushed_output (v_active_channel v)) in
      let credit := Z.min flushed (v_out_inflight v) in
      if 0 <? credit then
        let* left_ := checked U64_MAX (v_out_inflight v - credit) in
        v_out_inflight <-! left_ ;;;
        let* k := unwrap (v_tasks v !! i) in
        let* b := unwrap (budget_add credit (k_budget k)) in
        update_task i (fun k => k <| k_budget := b |>)
      else ret tt
  | None => ret tt
  end.

Definition flush_arm (w : WriteOutcome) : LM Flow :=
  on_driver (Driver.flush w) ;;; credit_flushed ;;; ret Continue.

(** The update of the consumption watch of task [i], once [changed] has said [alive]. *)
Definition consumed_arm (i : nat) (alive : bool) : LM Flow :=
  let* v := get in
  let* k := unwrap (v_tasks v !! i) in
  let '(total, w) := watch_borrow (k_consumed k) in
  update_task i (fun k => k <| k_consumed := w |>) ;;;
  let delta := Z.max (total - v_last_consumed v) 0 in
  v_last_consumed <-! total ;;;
  when (0 <? delta)
    (on_session (ServerConnection.channel_consumed (v_active_channel v)
       (if delta <=? U32_MAX then delta else U32_MAX))) ;;;
  when (negb alive) (v_consumed_rx <-! None) ;;;
  ret Continue.

Definition out_arm (o : Outbound) (q : fifo Outbound) : LM Flow :=
  v_out_rx <-! q ;;;
  let* v := get in
  match o with
  | O_Stdout data =>
      let* n := checked U64_MAX (v_out_inflight v + len data) in
      v_out_inflight <-! n ;;;
      on_session (ServerConnection.channel_stdout (v_active_channel v) data) ;;;
      ret Continue
  | O_Stderr data =>
      let* n := checked U64_MAX (v_out_inflight v + len data) in
      v_out_inflight <-! n ;;;
      on_session (ServerConnection.channel_stderr (v_active_channel v) data) ;;;
      ret Continue
  | O_Exit status =>
      on_session (ServerConnection.channel_exit (v_active_channel v) status) ;;;
      ret Continue
  end.

(** One event of the session. *)
Definition serve_event (now : Z) (e : ServerEvent) : LM Flow :=
  match e with
  | SE_Authenticated _ =>
      v_authenticated <-! true ;;;
      for_peer on_authenticated ;;;
      ret Continue
  | AuthExhausted =>
      for_peer (on_auth_exhausted now) ;;;
      ret FlushReturn
  | ExecRequest channel command =>
      start_program channel (ExecContext.exec_handler command ctx) command ;;; ret Continue
  | ShellRequest channel =>
      start_program channel (ExecContext.shell_handler ctx) [] ;;; ret Continue
  | SubsystemRequest channel name =>
      start_program channel (ExecContext.subsystem_handler name ctx) name ;;; ret Continue
  | WindowChange _ cols rows =>
      let* v := get in
      match v_resize_tx v with
      | Some i => update_task i (fun k => k <| k_resize ::= watch_modify (fun _ => (cols, rows)) |>)
      | None => ret tt
      end ;;;
      ret Continue
  | SE_ChannelData _ data =>
      let* v := get in
      (if negb (len data =? 0) then
         match v_stdin_tx v with
         | Some i => update_task i (fun k => k <| k_stdin ::= fifo_send data |>)
         | None => ret tt
         end
       else ret tt) ;;;
      ret Continue
  | SE_ChannelEof _ => modify drop_stdin ;;; ret Continue
  | SE_ChannelClose _ =>
      modify (fun v => drop_handler (drop_budget (drop_resize (drop_stdin v)))) ;;;
      ret Continue
  | SE_Disconnect _ _ => ret Return
  end.

(** [while let Some(event) = poll_event()]: no event's handling adds an event, so the
    queue's length is enough rounds. *)
Fixpoint drain_events (fuel : nat) (now : Z) : LM Flow :=
  let* e := on_session ServerConnection.poll_event in
  match e with
  | None => ret Continue
  | Some e =>
      match fuel with
      | O => out_of_fuel
      | S fuel' =>
          let* f := serve_event now e in
          match f with
          | Continue => drain_events fuel' now
          | _ => ret f
          end
      end
  end.

Definition read_arm (now : Z) (r : ReadOutcome) : LM Flow :=
  let* more := on_driver (Driver.read_once r) in
  if negb more then ret Return
  else
    (match idle_timeout config with
     | Some d => let* t := checked instant_max (now + d) in v_idle_deadline <-! t
     | None => ret tt
     end) ;;;
    let* f := (fun v => drain_events (length (s_events (session v))) now v) in
    match f with
    | Continue =>
        let* v := get in
        ret (if ServerConnection.is_closing (session v) then FlushReturn else Continue)
    | _ => ret f
    end.

(** ** The loop *)

(** The state when the loop is entered; the sleeps are set up from the clock. *)
Definition start (now : Z) (s : ServerConnection H) (retry : RP) : Serve :=
  mkServe C H RP T Hd (Driver.new s) retry [] fifo_new true None None None None None 0 0 0
    (now + login_timeout config) (now + default (seconds (365 * 24 * 3600)) (idle_timeout config)) false.

(** Where the loop is suspended: at the flush that opens a round, at the [select!] of the
    round, at the flush before a [return]; or it has ended. *)
Inductive Phase := AtFlush | AtSelect | AtLastFlush | Ended (o : outcome DriveError unit).

(** Ending: the value is decided, the variables are dropped. *)
Definition end_with (o : outcome DriveError unit) (v : Serve) : Phase * Serve :=
  (Ended o, drop_all v).

(** What follows an arm that ends in [f]. *)
Definition after_arm (next : Phase) (r : outcome DriveError Flow * Serve) : Phase * Serve :=
  match r with
  | (Ok Continue, v) => (next, v)
  | (Ok Return, v) => end_with (Ok tt) v
  | (Ok FlushReturn, v) => (AtLastFlush, v)
  | (Err e, v) => end_with (Err e) v
  | (Panic, v) => end_with Panic v
  | (OutOfFuel, v) => end_with OutOfFuel v
  end.

Definition last_flush (w : WriteOutcome) (v : Serve) : Phase * Serve :=
  after_arm (Ended (Ok tt)) ((on_driver (Driver.flush w) ;;; ret Return) v).

(** A handler's call on its channel, whatever it comes to. *)
Definition on_endpoint {B} (i : nat) (m : M ErrorKind (Endpoint Hd) B) (v : Serve) : Serve :=
  match v_tasks v !! i with
  | Some k =>
      let e := snd (m (mkEndpoint k (v_out_rx v) (v_out_open v))) in
      v <| v_tasks ::= <[i := e_task e]> |> <| v_out_rx := e_out e |>
  | None => v
  end.

(** The calls that a handler, or a task that it has given a writer to, can make. *)
Inductive handler_op :=
| HRead (room : Z)
| HWrite (writer : nat) (data : bytes)
| HChunks (ext : bool) (data : bytes)
| HClone
| HDropReader.

Definition handler_run (o : handler_op) : M ErrorKind (Endpoint Hd) unit :=
  match o with
  | HRead room => let* _ := ChannelSession.poll_read room in ret tt
  | HWrite j data => let* _ := ChannelSession.poll_write j data in ret tt
  | HChunks ext data => let* _ := ChannelSession.reserve_and_send data ext in ret tt
  | HClone => ChannelSession.clone_writer
  | HDropReader => ChannelSession.drop_reader
  end.

(** What a read may bring: octets, at most a buffer of them.  The counters that a
    connection can hardly exhaust are not at their limits: the [u32] of authentication
    requests, the semaphores' permits ([MAX_PERMITS] is of the order of 2^61), the clock,
    for the timers and for the retry policy. *)
Definition permits_max : Z := Z.min MAX_PERMITS U64_MAX.
Definition read_ok (now : Z) (r : ReadOutcome) (v : Serve) : Prop :=
  match r with
  | Read data =>
      is_bytes data /\ len data <= READ_BUF /\
      s_auth_requests (session v) +
        len (t_events (snd (Transport.on_input data (s_transport (session v))))) <= U32_MAX /\
      out_limit * (len (v_tasks v) + len (s_events (snd (ServerConnection.on_input data (session v)))))
        <= permits_max /\
      match idle_timeout config with Some d => 0 <= now + d <= instant_max | None => True end /\
      retry_ready now (v_retry v)
  | ReadFailed _ => True
  end.

Definition now_phase : Type := Z * Phase * Serve.

(** The connection and its tasks.  A round's timers are armed while it flushes and while it
    selects (a flush that one of them cuts short may have written a part).  An aborted task
    stops at its next suspension, at the latest. *)
Inductive serve_step : now_phase -> now_phase -> Prop :=
| S_flush now w v p v' :
    after_arm AtSelect (flush_arm w v) = (p, v') ->
    serve_step (now, AtFlush, v) (now, p, v')
| S_login now ph v :
    ph = AtFlush \/ ph = AtSelect -> v_authenticated v = false -> v_login_deadline v <= now ->
    serve_step (now, ph, v) (now, fst (end_with (Ok tt) v), snd (end_with (Ok tt) v))
| S_idle now ph v :
    ph = AtFlush \/ ph = AtSelect -> is_Some (idle_timeout config) -> v_idle_deadline v <= now ->
    serve_step (now, ph, v) (now, fst (end_with (Ok tt) v), snd (end_with (Ok tt) v))
| S_consumed now i k alive v p v' :
    v_consumed_rx v = Some i -> v_tasks v !! i = Some k -> watch_changed (k_consumed k) = Ready alive ->
    after_arm AtFlush (consumed_arm i alive v) = (p, v') ->
    serve_step (now, AtSelect, v) (now, p, v')
| S_read now r v p v' :
    read_ok now r v ->
    after_arm AtFlush (read_arm now r v) = (p, v') ->
    serve_step (now, AtSelect, v) (now, p, v')
| S_out now o q v p v' :
    fifo_recv (v_out_rx v) = Some (o, q) ->
    after_arm AtFlush (out_arm o q v) = (p, v') ->
    serve_step (now, AtSelect, v) (now, p, v')
| S_last now w v :
    serve_step (now, AtLastFlush, v) (now, fst (last_flush w v), snd (last_flush w v))
| S_handler now ph i o v :
    serve_step (now, ph, v) (now, ph, on_endpoint i (handler_run o) v)
| S_exit now ph i k status v :
    v_tasks v !! i = Some k -> k_running k = true ->
    serve_step (now, ph, v) (now, ph, on_endpoint i (ChannelSession.exit status) v)
| S_aborted now ph i k v :
    v_tasks v !! i = Some k -> k_aborted k = true ->
    serve_step (now, ph, v) (now, ph, v <| v_tasks ::= <[i := k <| k_running := false |>]> |>)
| S_time now now' ph v :
    now <= now' -> serve_step (now, ph, v) (now', ph, v).
End Serve.
End Serve.
