(* ===== verification/ServeFrame.v ===== *)
(** What one connection does to the state around its loop: the retry policy's state
    changes by the hooks alone, called for the connection's peer, and the session by the
    calls of its interface alone. *)
From stdpp Require Import gmap.
From S2P Require Import Prelude Errors Wire Packet Version Crypto Kex Algo Cipher Compress.
From S2P Require Import Connection Auth Transport Server ServerSteps Client Limits Policy Driver Exec Serve.

Section Frame.
Context `{C : Crypto} {H : Type} `{A : !ServerAuthHandler H}.
Context {RP : Type} `{R : !RetryPolicy RP} `{!RetryOk RP} `{T : Tokio} {Hd : Type}.
Context (config : ServeConfig) (ctx : ExecContext Hd) (peer : option SocketAddr) (instant_max : Z).
Implicit Types (v : Serve H RP Hd).
Import Serve.

(** A relation that the hooks respect, at [now], and one that the calls respect. *)
Context (now : Z) (Rr : RP -> RP -> Prop) `{!PreOrder Rr}.
Context (Rs : ServerConnection H -> ServerConnection H -> Prop) `{!PreOrder Rs}.
Definition hooks_respect : Prop := forall p, peer = Some p ->
  stays Rr (on_auth_exhausted now p) /\ stays Rr (on_authenticated p).
Definition calls_respect : Prop := forall o, stays Rs (s_run o).

Definition moved v v' : Prop := Rr (v_retry v) (v_retry v') /\ Rs (session v) (session v').
#[export] Instance moved_preorder : PreOrder moved.
Proof. split; [by intros v|]. intros v1 v2 v3 [] []. split; by etransitivity. Qed.

(** The parts that the ends and the tasks have nothing to do with. *)
Definition outside v := (v_retry v, v_driver v).
Lemma moved_outside v v' : outside v' = outside v -> moved v v'.
Proof. intros [= E1 E2]. unfold moved, session. by rewrite E1, E2. Qed.

Lemma outside_drops v :
  outside (drop_stdin v) = outside v /\ outside (drop_budget v) = outside v /\
  outside (drop_resize v) = outside v /\ outside (drop_handler v) = outside v.
Proof.
  unfold drop_stdin, drop_budget, drop_resize, drop_handler.
  split_and!; [destruct (v_stdin_tx v)|destruct (v_out_budget v)|destruct (v_resize_tx v)|destruct (v_handler_task v)]; done.
Qed.
Lemma outside_stdin v : outside (drop_stdin v) = outside v.
Proof. apply outside_drops. Qed.
Lemma outside_budget v : outside (drop_budget v) = outside v.
Proof. apply outside_drops. Qed.
Lemma outside_resize v : outside (drop_resize v) = outside v.
Proof. apply outside_drops. Qed.
Lemma outside_handler v : outside (drop_handler v) = outside v.
Proof. apply outside_drops. Qed.

Lemma outside_wire i v : outside (wire_handler i v) = outside v.
Proof.
  change (outside (drop_resize (drop_stdin (drop_handler (drop_budget v)))) = outside v).
  by rewrite outside_resize, outside_stdin, outside_handler, outside_budget.
Qed.
Lemma outside_close v : outside (drop_handler (drop_budget (drop_resize (drop_stdin v)))) = outside v.
Proof. by rewrite outside_handler, outside_budget, outside_resize, outside_stdin. Qed.
Lemma outside_drop_all v : outside (drop_all v) = outside v.
Proof.
  change (outside (drop_stdin (drop_budget (drop_resize (drop_handler v)))) = outside v).
  by rewrite outside_stdin, outside_budget, outside_resize, outside_handler.
Qed.

(** ** The session *)
Context (Hh : hooks_respect) (Hc : calls_respect).

Lemma respects_discard {V} (m : M SshError (ServerConnection H) V) : stays Rs (s_discard m) -> stays Rs m.
Proof. intros Hm s. specialize (Hm s). unfold s_discard, bind in Hm. by destruct (m s) as [[]]. Qed.

Lemma moved_driver {B} (m : M DriveError (Driver (ServerConnection H)) B) :
  stays (fun d d' => Rs (dv_session d) (dv_session d')) m -> stays moved (on_driver m).
Proof. intros Hm. eapply stays_zoom_rel; [exact Hm|]. by split. Qed.
Lemma moved_session {B} (m : M SshError (ServerConnection H) B) : stays Rs m -> stays moved (on_session m).
Proof. intros Hm. by apply moved_driver, stays_on_session. Qed.

Lemma respects_flushed ch : stays Rs (ServerConnection.take_flushed_output ch).
Proof. exact (respects_discard _ (Hc (SOp_take_flushed ch))). Qed.
Lemma respects_poll : stays Rs ServerConnection.poll_event.
Proof. exact (respects_discard _ (Hc SOp_poll)). Qed.

Lemma moved_flush w : stays moved (on_driver (Driver.flush w)).
Proof.
  apply moved_driver. unfold Driver.flush.
  assert (Hp : PreOrder (fun d d' : Driver (ServerConnection H) => Rs (dv_session d) (dv_session d'))).
  { split; [by intros d|]. intros d1 d2 d3. by etransitivity. }
  pose proof (stays_on_session Rs _ (Hc SOp_clear_output)) as Hs.
  repeat first [exact Hs | lazymatch goal with |- stays _ (modify _) => by refine (stays_modify _ _ _) end | keeps_step].
Qed.

Lemma moved_read_once r : stays moved (on_driver (Driver.read_once r)).
Proof.
  apply moved_driver. unfold Driver.read_once.
  assert (Hp : PreOrder (fun d d' : Driver (ServerConnection H) => Rs (dv_session d) (dv_session d'))).
  { split; [by intros d|]. intros d1 d2 d3. by etransitivity. }
  destruct r as [data|e]; [|keeps_auto].
  pose proof (stays_on_session Rs _ (Hc (SOp_input data))) as Hs.
  repeat first [exact Hs | keeps_step].
Qed.

(** ** The arms *)
#[local] Ltac moved_step :=
  first
  [ lazymatch goal with
    | |- stays moved (on_driver (Driver.flush _)) => apply moved_flush
    | |- stays moved (on_driver (Driver.read_once _)) => apply moved_read_once
    | |- stays moved (on_session (ServerConnection.take_flushed_output _)) => apply moved_session, respects_flushed
    | |- stays moved (on_session ServerConnection.poll_event) => apply moved_session, respects_poll
    | |- stays moved (on_session (ServerConnection.channel_stdout ?c ?d)) => apply moved_session; exact (Hc (SOp_stdout c d))
    | |- stays moved (on_session (ServerConnection.channel_stderr ?c ?d)) => apply moved_session; exact (Hc (SOp_stderr c d))
    | |- stays moved (on_session (ServerConnection.channel_exit ?c ?n)) => apply moved_session; exact (Hc (SOp_exit c n))
    | |- stays moved (on_session (ServerConnection.channel_consumed ?c ?n)) => apply moved_session; exact (Hc (SOp_consumed c n))
    | |- stays moved (on_session (ServerConnection.accept_channel ?c)) => apply moved_session; exact (Hc (SOp_accept c))
    | |- stays moved (on_session (ServerConnection.reject_channel ?c)) => apply moved_session; exact (Hc (SOp_reject c))
    | |- stays moved (modify _) =>
        refine (stays_modify _ _ _); intros; apply moved_outside;
        first [done | apply outside_wire | apply outside_close | apply outside_stdin]
    end
  | keeps_step ].
#[local] Ltac moved_auto := repeat moved_step.

Lemma moved_start_program channel h command : stays moved (start_program config channel h command).
Proof. unfold start_program, spawn_handler. moved_auto. Qed.

Lemma moved_for_peer f :
  (forall p, peer = Some p -> stays Rr (f p)) -> stays moved (for_peer peer f).
Proof.
  intros Hf. unfold for_peer. destruct peer as [p|]; [|apply stays_ret; typeclasses eauto].
  intros v. unfold on_retry, moved. specialize (Hf p eq_refl (v_retry v)).
  by destruct (f p (v_retry v)) as [[[]|e| |] r].
Qed.

Lemma moved_event e : stays moved (serve_event config ctx peer now e).
Proof.
  destruct e; cbn [serve_event]; unfold update_task;
    repeat first [ apply moved_start_program
                 | apply moved_for_peer; intros p Hp; apply (Hh p Hp) | moved_step ].
Qed.

Lemma moved_drain fuel : stays moved (drain_events config ctx peer fuel now).
Proof.
  induction fuel as [|fuel IH]; cbn [drain_events]; repeat first [by apply moved_event | exact IH | moved_step].
Qed.

Lemma moved_read r : stays moved (read_arm config ctx peer instant_max now r).
Proof. unfold read_arm. repeat first [ moved_step | intros v; by apply moved_drain ]. Qed.

Lemma moved_flush_arm w : stays moved (flush_arm w).
Proof. unfold flush_arm, credit_flushed, update_task. moved_auto. Qed.
Lemma moved_consumed i alive : stays moved (consumed_arm i alive).
Proof. unfold consumed_arm, update_task. moved_auto. Qed.
Lemma moved_out o q : stays moved (out_arm o q).
Proof. unfold out_arm. moved_auto. Qed.

Lemma moved_end o v : moved v (snd (end_with o v)).
Proof. apply moved_outside. cbn. apply outside_drop_all. Qed.

Lemma moved_after m next v p v' :
  stays moved m -> after_arm next (m v) = (p, v') -> moved v v'.
Proof.
  intros Hm E. specialize (Hm v). destruct (m v) as [[f|e| |] v1]; cbn [after_arm snd] in *;
    [destruct f|..]; injection E as _ <-; try done; etransitivity; try exact Hm; apply moved_outside, outside_drop_all.
Qed.

Lemma moved_endpoint {B} i (m : M ErrorKind (Endpoint Hd) B) v : moved v (on_endpoint i m v).
Proof. unfold on_endpoint. destruct (v_tasks v !! i); by apply moved_outside. Qed.

(** Whatever a connection does at [now]. *)
Lemma serve_step_moved ph v c' :
  serve_step config ctx peer instant_max (now, ph, v) c' -> moved v (snd c').
Proof.
  intros Hst. inversion Hst; subst; cbn [snd].
  - by eapply moved_after; [apply moved_flush_arm|].
  - apply moved_end.
  - apply moved_end.
  - by eapply moved_after; [apply moved_consumed|].
  - by eapply moved_after; [apply moved_read|].
  - by eapply moved_after; [apply moved_out|].
  - unfold last_flush. destruct (after_arm _ _) as [p v1] eqn:E. cbn [snd].
    eapply moved_after; [|exact E]. apply stays_bind; [typeclasses eauto|apply moved_flush|]. intros _.
    apply stays_ret. typeclasses eauto.
  - apply moved_endpoint.
  - apply moved_endpoint.
  - by apply moved_outside.
  - reflexivity.
Qed.
End Frame.

(** Of the policy's state alone, and of the session alone. *)
Definition anything {S : Type} (_ _ : S) : Prop := True.
#[export] Instance anything_preorder {S} : PreOrder (@anything S).
Proof. by split. Qed.
Lemma calls_anything `{C : Crypto} {H} `{!ServerAuthHandler H} : calls_respect (H := H) anything.
Proof. by intros o s. Qed.
Lemma hooks_anything {RP} `{!RetryPolicy RP} peer now : hooks_respect (RP := RP) peer now anything.
Proof. by intros p _. Qed.
