(* ===== verification/ServeCalls.v ===== *)
(** The calls of the serve loop on its session: what they do to the invariant, to the
    output that the channel holds, and to who is authenticated. *)
From S2P Require Import Prelude Errors Wire Packet Version Crypto Kex Algo Cipher Compress.
From S2P Require Import Connection Auth Transport TransportFrames TransportBytes TransportInv.
From S2P Require Import TransportSteps Server ServerInv ServerSteps.
Import ServerConnection.

(** * Who is authenticated *)
Section Announced.
Context `{C : Crypto} {H : Type} `{A : !ServerAuthHandler H}.
Implicit Types s : ServerConnection H.

(** A user once authenticated stays; one that becomes so is announced by an event. *)
Definition announced s s' : Prop :=
  exists l, s_events s' = s_events s ++ l /\
    (s_authenticated s' = s_authenticated s \/
     is_Some (s_authenticated s') /\ exists u, SE_Authenticated u ∈ l).

#[export] Instance announced_preorder : PreOrder announced.
Proof.
  split; [intros s; exists []; rewrite app_nil_r; auto|].
  intros s1 s2 s3 (l1 & E1 & A1) (l2 & E2 & A2). exists (l1 ++ l2).
  rewrite E2, E1, app_assoc. split; [done|].
  destruct A2 as [A2|[H2 [u A2]]]; [|right; split; [done|]; exists u; apply elem_of_app; by right].
  destruct A1 as [A1|[H1 [u A1]]]; [left; congruence|right].
  split; [by rewrite A2|]. exists u. apply elem_of_app. by left.
Qed.

Lemma announced_same s s' :
  s_events s' = s_events s -> s_authenticated s' = s_authenticated s -> announced s s'.
Proof. intros He Ha. exists []. rewrite app_nil_r. auto. Qed.

Ltac announced_step :=
  first
    [ lazymatch goal with
      | |- stays _ (modify (set s_events _)) =>
          refine (stays_modify _ _ _); intros ?; eexists [_]; split; [reflexivity|by left]
      | |- stays _ (modify _) => refine (stays_modify _ _ _); intros; by apply announced_same
      | |- stays _ (on_transport _) => apply stays_zoom; intros; by apply announced_same
      | |- stays _ (on_channel _ _) => apply stays_zoom; intros; by apply announced_same
      | |- stays _ (on_handler ?f) => intros ?; unfold on_handler; destruct (f _); by apply announced_same
      end
    | keeps_step ].
Ltac announced_auto := repeat announced_step.

Lemma announced_finish u g : stays announced (finish_auth (H := H) u g).
Proof.
  unfold finish_auth. destruct g.
  - apply stays_bind; [typeclasses eauto|unfold send_packet; announced_auto|]. intros _ s.
    exists [SE_Authenticated u]. split; [done|]. right. split; [by eexists|].
    exists u. by apply list_elem_of_singleton.
  - unfold send_failure, disconnect, push, send_packet. announced_auto.
Qed.
#[local] Hint Resolve announced_finish : frame.

Lemma announced_event e : stays announced (handle_event (H := H) e).
Proof.
  unfold handle_event, handle_preauth, handle_service_request, handle_userauth, handle_publickey,
    handle_connection, handle_channel_open, handle_channel_request, dispatch_request,
    session_request, reply, handle_channel_data, handle_window_adjust, handle_channel_close,
    flush_channel, send_failure, parse, push, send_packet, disconnect.
  destruct e; announced_auto.
Qed.

Lemma announced_pump fuel : stays announced (pump_loop (H := H) fuel).
Proof.
  induction fuel as [|fuel IH]; cbn [pump_loop]; announced_auto. apply announced_event.
Qed.

Lemma announced_input data : stays announced (on_input (H := H) data).
Proof.
  unfold on_input. announced_auto. intros s. apply announced_pump.
Qed.

(** The other calls neither raise events nor change who is authenticated. *)
Definition told s := (s_events s, s_authenticated s).

Lemma told_flush : keeps told (flush_channel (H := H)).
Proof. unfold flush_channel, send_packet, on_channel, on_transport. keeps_auto. Qed.
#[local] Hint Resolve told_flush : frame.

Definition makes_events (o : s_op) : bool :=
  match o with SOp_input _ | SOp_poll => true | _ => false end.

Lemma told_run o : makes_events o = false -> keeps told (s_run (H := H) o).
Proof.
  destruct o; intros Ho; try done; cbn [s_run];
    unfold s_discard, channel_stdout, channel_stderr, channel_exit, channel_consumed,
      take_flushed_output, accept_channel, reject_channel, answer_request, reply, send_raw_packet,
      clear_output, initiate_rekey, send_chaff, set_allow_pty, set_obfuscation, send_packet,
      on_channel, on_transport; keeps_auto.
Qed.
End Announced.

(** * The output that the channel holds *)
Section Held.
Context `{C : Crypto} `{!CryptoOk C} `{!FlateOk C} `{!OctetsOk C}.
Context {H : Type} `{A : !ServerAuthHandler H} `{!SteadyCaps H}.
Implicit Types s : ServerConnection H.
Abbreviation any := (fun (_ : SshError) (_ : ServerConnection H) => True).
Abbreviation sinv := (sinv U64_MAX).

Definition chan_held s : Z := match s_channel s with Some ch => held ch | None => 0 end.

Lemma chan_held_nonneg bd s : ServerInv.sinv bd s -> 0 <= chan_held s.
Proof.
  intros [Hb _]. unfold chan_held. destruct (s_channel s) as [ch|] eqn:Hc; [|lia].
  destruct (b_channel _ _ Hb _ Hc) as ((_&_&_&_&_&_&K) & _ & _). unfold held.
  pose proof (queued_nonneg (ch_out ch)). lia.
Qed.

Lemma chan_held_le bd s : 0 <= bd -> ServerInv.sinv bd s -> chan_held s <= bd.
Proof.
  intros Hd [Hb _]. unfold chan_held. destruct (s_channel s) as [ch|] eqn:Hc; [|lia].
  by destruct (b_channel _ _ Hb _ Hc) as (_ & _ & K).
Qed.

(** The invariant with another bound on the output. *)
Lemma sinv_rebound bd bd' s : ServerInv.sinv bd s -> chan_held s <= bd' -> ServerInv.sinv bd' s.
Proof.
  intros [Hb Hg] Hh. split; [|exact Hg]. destruct Hb as [B1 B2 B3 B4 B5]. constructor; try done.
  intros ch Hc. destruct (B3 _ Hc) as (K1 & K2 & K3). unfold chan_held in Hh. rewrite Hc in Hh.
  by split_and!.
Qed.

(** What a call adds to the output. *)
Definition growth (o : s_op) : Z :=
  match o with SOp_stdout _ d | SOp_stderr _ d => len d | _ => 0 end.
Definition args_ok (o : s_op) s : Prop :=
  match o with SOp_stdout _ _ | SOp_stderr _ _ => True | _ => s_op_ok o s end.

Lemma call_wp o s :
  sinv s -> args_ok o s -> chan_held s + growth o <= U64_MAX ->
  wp (s_run o) (fun _ s' => sinv s' /\ chan_held s' <= chan_held s + growth o) any s.
Proof.
  intros Hs Ho Hg. pose proof (chan_held_nonneg _ _ Hs) as H0.
  assert (Hn : 0 <= growth o) by (destruct o; cbn; try lia; apply len_nonneg).
  set (bd := chan_held s + growth o) in *.
  assert (Hbd : OutBound bd) by (unfold OutBound; lia).
  assert (Hs' : ServerInv.sinv bd s) by (apply (sinv_rebound U64_MAX); [done|unfold bd; lia]).
  eapply wp_mono; [apply (s_run_wp bd o s); [|exact Hs']| |done].
  - destruct o; try exact Ho; cbn [s_op_within]; intros ch Hc;
      (assert (Hh : held ch = chan_held s);
       [unfold chan_held, channel_for in *; by repeat case_match; simplify_eq|]);
      rewrite Hh; cbn in bd; lia.
  - cbv beta. intros _ s' Hw. pose proof (chan_held_le bd s' ltac:(lia) Hw). split; [|lia].
    apply (sinv_rebound bd); [done|lia].
Qed.

(** A call that is not an input or a poll. *)
Lemma quiet_call_wp o s :
  sinv s -> makes_events o = false -> args_ok o s -> chan_held s + growth o <= U64_MAX ->
  wp (s_run o) (fun _ s' => (sinv s' /\ chan_held s' <= chan_held s + growth o) /\ told s' = told s)
    any s.
Proof.
  intros Hs Hm Ho Hg. eapply wp_mono; [exact (wp_stays _ _ _ _ _ (told_run o Hm) (call_wp o s Hs Ho Hg))|done|done].
Qed.

Lemma flushed_wp ch s :
  sinv s ->
  wp (take_flushed_output ch)
    (fun n s' => sinv s' /\ told s' = told s /\ 0 <= n /\ chan_held s' + n = chan_held s) any s.
Proof.
  intros Hs. pose proof (chan_held_le U64_MAX s ltac:(unfold U64_MAX; lia) Hs) as Hu.
  assert (Hw := quiet_call_wp (SOp_take_flushed ch) s Hs eq_refl I ltac:(cbn; lia)).
  cbn [s_run] in Hw. unfold s_discard in Hw. apply wp_bind_inv in Hw.
  destruct Hs as [Hb Hg].
  unfold wp in *. destruct (take_flushed_output ch s) as [[n|e| |] s'] eqn:E; try done.
  cbn in Hw. destruct Hw as [[Hs' _] Ht]. split; [done|]. split; [done|].
  unfold take_flushed_output, bind, get in E. unfold chan_held.
  destruct (channel_for ch s) as [c|] eqn:Hc; [|injection E as <- <-; split; lia].
  assert (Hch : s_channel s = Some c) by (unfold channel_for in Hc; by repeat case_match; simplify_eq).
  destruct (b_channel _ _ Hb _ Hch) as ((_&_&_&_&_&_&K) & _ & _).
  unfold on_channel, zoom, Channel.take_flushed_out, bind, gets, modify, ret in E.
  injection E as <- <-. rewrite Hch. split; [exact K|].
  change (0 + queued (ch_out c) + ch_flushed_out c = held c). unfold held. lia.
Qed.

Lemma poll_wp s :
  sinv s ->
  wp poll_event (fun oe s' => sinv s' /\ chan_held s' = chan_held s /\
    s_authenticated s' = s_authenticated s /\
    match oe with
    | None => s_events s = [] /\ s_events s' = []
    | Some e => s_events s = e :: s_events s' /\ (before_auth e \/ is_Some (s_authenticated s))
    end) any s.
Proof.
  intros Hs. assert (Hw := s_run_wp U64_MAX SOp_poll s I Hs). cbn [s_run] in Hw.
  unfold s_discard in Hw. apply wp_bind_inv in Hw. unfold wp in *.
  destruct (poll_event s) as [[oe|e| |] s'] eqn:E; try done. cbn in Hw. split; [done|].
  unfold poll_event, bind, get in E. destruct (s_events s) as [|e q] eqn:He.
  { injection E as <- <-. by rewrite He. }
  unfold modify, ret in E. injection E as <- <-. split_and!; try done.
  destruct (s_authenticated s) eqn:Ha; [right; by eauto|left].
  destruct Hs as [_ Hg]. destruct (Hg Ha) as (_&_&_&Hf). rewrite He in Hf.
  by apply List.Forall_cons_iff in Hf as [? _].
Qed.

(** An input: what it adds to the events of the session. *)
Lemma input_wp data s :
  sinv s -> s_op_ok (SOp_input data) s ->
  wp (on_input data) (fun _ s' => sinv s' /\ chan_held s' <= chan_held s /\ announced s s') any s.
Proof.
  intros Hs Ho. pose proof (chan_held_le U64_MAX s ltac:(unfold U64_MAX; lia) Hs) as Hu.
  assert (Hw := call_wp (SOp_input data) s Hs Ho ltac:(cbn; lia)). cbn [s_run growth] in Hw.
  eapply wp_mono; [exact (wp_stays _ _ _ _ _ (announced_input data) Hw)| |done].
  cbv beta. intros _ s' [[H1 H2] H3]. split_and!; [done|lia|done].
Qed.
End Held.
