(* ===== verification/ServeTasks.v ===== *)
(** The tasks of the serve loop as a list: the budget they hold, the ends that the loop
    holds or has dropped, and the updates of a task that charge nothing. *)
From stdpp Require Import gmap.
From S2P Require Import Prelude Errors Wire Connection Driver Exec ExecInv.

Section Tasks.
Context `{T : Tokio} `{!TokioOk T} {Hd : Type}.
Implicit Types (k : Task Hd) (ks : list (Task Hd)).

(** The permits that the tasks' budgets still have. *)
Definition granted ks : Z := fold_right (fun k n => permits (k_budget k) + n) 0 ks.

Lemma granted_app ks1 ks2 : granted (ks1 ++ ks2) = granted ks1 + granted ks2.
Proof. unfold granted. induction ks1 as [|k ks1 IH]; cbn [app fold_right]; [done|]. rewrite IH. lia. Qed.

Lemma granted_insert i k k' ks :
  ks !! i = Some k -> granted (<[i := k']> ks) = granted ks - permits (k_budget k) + permits (k_budget k').
Proof.
  intros Hi. rewrite <- (take_drop_middle ks i k Hi) at 2.
  rewrite insert_take_drop by (by eapply lookup_lt_Some).
  rewrite !granted_app. unfold granted. cbn [fold_right]. lia.
Qed.

Lemma alter_insert (u : Task Hd -> Task Hd) i k ks : ks !! i = Some k -> alter u i ks = <[i := u k]> ks.
Proof.
  intros Hi. apply list_eq. intros j. destruct (decide (i = j)) as [->|Hj].
  - rewrite list_lookup_alter_eq, list_lookup_insert_eq by (by eapply lookup_lt_Some). by rewrite Hi.
  - by rewrite list_lookup_alter_ne, list_lookup_insert_ne.
Qed.
Lemma alter_none (u : Task Hd -> Task Hd) i ks : ks !! i = None -> alter u i ks = ks.
Proof.
  intros Hi. apply list_eq. intros j. destruct (decide (i = j)) as [->|Hj].
  - by rewrite list_lookup_alter_eq, Hi.
  - by rewrite list_lookup_alter_ne.
Qed.

(** A task whose end a variable holds, or that has the mark of a dropped end. *)
Definition owned (n : nat) (held_by : option nat) (mark : Task Hd -> Prop) ks : Prop :=
  forall i k, ks !! i = Some k -> (i < n)%nat -> held_by = Some i \/ mark k.

Lemma owned_alter n f (P : Task Hd -> Prop) u i ks :
  (forall k, P k -> P (u k)) -> owned n f P ks -> owned n f P (alter u i ks).
Proof.
  intros Hu Ho j k Hj Hn. destruct (decide (i = j)) as [->|Hij].
  - rewrite list_lookup_alter_eq in Hj. destruct (ks !! j) as [k0|] eqn:E; [|done].
    injection Hj as <-. destruct (Ho _ _ E Hn); auto.
  - rewrite list_lookup_alter_ne in Hj by done. eauto.
Qed.

Lemma owned_drop n (P : Task Hd -> Prop) u i ks :
  (forall k, P (u k)) -> owned n (Some i) P ks -> owned n None P (alter u i ks).
Proof.
  intros Hu Ho j k Hj Hn. right. destruct (decide (i = j)) as [->|Hij].
  - rewrite list_lookup_alter_eq in Hj. destruct (ks !! j) as [k0|] eqn:E; [|done].
    by injection Hj as <-.
  - rewrite list_lookup_alter_ne in Hj by done. destruct (Ho _ _ Hj Hn); [congruence|done].
Qed.

Lemma owned_insert n f (P : Task Hd -> Prop) i k k' ks :
  ks !! i = Some k -> (P k -> P k') -> owned n f P ks -> owned n f P (<[i := k']> ks).
Proof.
  intros Hi Hk Ho. intros j k0 Hj Hn. destruct (decide (i = j)) as [->|Hij].
  - rewrite list_lookup_insert_eq in Hj by (by eapply lookup_lt_Some). injection Hj as <-.
    destruct (Ho _ _ Hi Hn); auto.
  - rewrite list_lookup_insert_ne in Hj by done. eauto.
Qed.

(** The newest task takes over from tasks that have all been dropped. *)
Lemma owned_take n (P : Task Hd -> Prop) ks :
  length ks = S n -> owned n None P ks -> owned (S n) (Some n) P ks.
Proof.
  intros Hl Ho i k Hi Hn. destruct (decide (i = n)) as [->|Hne]; [by left|right].
  destruct (Ho i k Hi ltac:(lia)); [done|done].
Qed.

Definition aborted k : Prop := k_aborted k = true.
Definition refused k : Prop := budget_closed (k_budget k) = true.
Definition at_eof k : Prop := k_stdin_open k = false.

(** An update that the budgets do not notice and that revives nothing. *)
Definition tame k k' : Prop :=
  (k_handler k', k_command k', k_writers k') = (k_handler k, k_command k, k_writers k) /\
  permits (k_budget k') = permits (k_budget k) /\
  (aborted k -> aborted k') /\ (refused k -> refused k') /\ (at_eof k -> at_eof k').

Lemma tame_granted u i ks : (forall k, tame k (u k)) -> granted (alter u i ks) = granted ks.
Proof.
  intros Hu. destruct (ks !! i) as [k|] eqn:Hi; [|by rewrite alter_none].
  rewrite (alter_insert _ _ k), (granted_insert _ k) by done.
  destruct (Hu k) as (_ & -> & _). lia.
Qed.

Lemma tame_Forall (P : Task Hd -> Prop) u i ks :
  (forall k, P k -> P (u k)) -> Forall P ks -> Forall P (alter u i ks).
Proof.
  intros Hu Hf. destruct (ks !! i) as [k|] eqn:Hi; [|by rewrite alter_none].
  rewrite (alter_insert _ _ k) by done. apply Forall_insert; [done|].
  apply Hu. by eapply Forall_lookup_1.
Qed.

Lemma tame_task_ok k k' : tame k k' -> task_ok k -> task_ok k'.
Proof. intros (E & P & _) [K1 K2]. injection E as _ _ E. unfold task_ok. by rewrite P, E. Qed.
End Tasks.
