(* ===== verification/ServeInv.v ===== *)
(** The serve loop's invariant: the ends of its tasks that it holds, the programs that it
    started, and the conservation of the output budget.  Every arm of the loop and every
    call of a handler preserves it, and no arm panics. *)
From stdpp Require Import gmap.
From S2P Require Import Prelude Errors Wire Packet Version Crypto Kex Algo Cipher Compress.
From S2P Require Import Connection Auth Transport TransportFrames TransportBytes TransportInv.
From S2P Require Import TransportSteps Server ServerInv ServerSteps Client Limits Policy Driver.
From S2P Require Import Exec ExecInv Serve ServeFrame ServeCalls ServeTasks.

(** * The invariant *)
Section Loop.
Context `{C : Crypto} `{!CryptoOk C} `{!FlateOk C} `{!OctetsOk C}.
Context {H : Type} `{A : !ServerAuthHandler H} `{!SteadyCaps H}.
Context {RP : Type} `{R : !RetryPolicy RP} `{!RetryOk RP} `{T : Tokio} `{!TokioOk T} {Hd : Type}.
Context (config : ServeConfig) (ctx : ExecContext Hd) (peer : option SocketAddr) (instant_max : Z).
Implicit Types (v : Serve H RP Hd) (k : Task Hd).
Import Serve.
Abbreviation sinv := (sinv U64_MAX).
Abbreviation out_limit := (out_limit config).

(** The first [n] tasks have been dropped, unless the loop holds them. *)
Definition ends_ok (n : nat) v : Prop :=
  owned n (v_handler_task v) aborted (v_tasks v) /\
  owned n (v_out_budget v) refused (v_tasks v) /\
  owned n (v_stdin_tx v) at_eof (v_tasks v).

(** The registry allows what runs. *)
Definition registered k : Prop :=
  ExecContext.exec_handler (k_command k) ctx = Some (k_handler k) \/
  (ExecContext.shell_handler ctx = Some (k_handler k) /\ k_command k = []) \/
  ExecContext.subsystem_handler (k_command k) ctx = Some (k_handler k).

Definition programs_ok v : Prop :=
  Forall registered (v_tasks v) /\
  (v_tasks v <> [] -> is_Some (s_authenticated (session v))).

(** What still holds when the loop has stopped with an error. *)
Definition dead v : Prop := ends_ok (length (v_tasks v)) v /\ programs_ok v.

(** Output between the handlers and the wire. *)
Definition buffered v : Z :=
  load (fifo_items (v_out_rx v)) + Z.max (v_out_inflight v) (chan_held (session v)).

Record live v : Prop := {
  l_session : sinv (session v);
  l_budget : granted (v_tasks v) + buffered v <= out_limit * len (v_tasks v);
  l_fits : out_limit * len (v_tasks v) <= permits_max;
  l_inflight : 0 <= v_out_inflight v;
  l_tasks : Forall task_ok (v_tasks v);
  l_index : forall i, v_out_budget v = Some i \/ v_consumed_rx v = Some i ->
              (i < length (v_tasks v))%nat;
  l_dead : dead v
}.

Lemma out_limit_pos : MAX_RESERVE <= out_limit.
Proof. unfold Serve.out_limit. lia. Qed.

(** What waits for the client is bounded by what the programs were granted. *)
Lemma live_output v :
  live v -> load (fifo_items (v_out_rx v)) + chan_held (session v) <= out_limit * len (v_tasks v).
Proof.
  intros [L1 L2 L3 L4 L5 L6 L7]. unfold buffered in L2.
  assert (Hg : 0 <= granted (v_tasks v)); [|lia].
  clear -L5. induction L5 as [|k ks [K _] _ IH]; [done|]. cbn [granted fold_right]. unfold granted in IH. lia.
Qed.

(** ** Updates of the loop's variables *)

(** The tasks are trimmed: some ends dropped, cells updated, nothing charged. *)
Record trimmed v v' : Prop := {
  tr_driver : v_driver v' = v_driver v;
  tr_out : v_out_rx v' = v_out_rx v;
  tr_inflight : v_out_inflight v' = v_out_inflight v;
  tr_auth : v_authenticated v' = v_authenticated v;
  tr_length : length (v_tasks v') = length (v_tasks v);
  tr_granted : granted (v_tasks v') = granted (v_tasks v);
  tr_tasks : Forall task_ok (v_tasks v) -> Forall task_ok (v_tasks v');
  tr_registered : Forall registered (v_tasks v) -> Forall registered (v_tasks v')
}.
#[export] Instance trimmed_preorder : PreOrder trimmed.
Proof.
  split; [by constructor|]. intros v1 v2 v3 [] []. constructor; try congruence; auto.
Qed.

Lemma trimmed_alter u i v v' :
  (forall k, tame k (u k)) -> v_tasks v' = alter u i (v_tasks v) ->
  v_driver v' = v_driver v -> v_out_rx v' = v_out_rx v -> v_out_inflight v' = v_out_inflight v ->
  v_authenticated v' = v_authenticated v -> trimmed v v'.
Proof.
  intros Hu Ht H1 H2 H3 H4. constructor; try done; rewrite Ht.
  - apply length_alter.
  - by apply tame_granted.
  - apply tame_Forall. intros k. by apply tame_task_ok.
  - apply tame_Forall. intros k. destruct (Hu k) as (E & _). injection E as E1 E2 _.
    unfold registered. by rewrite E1, E2.
Qed.

Lemma tame_close k : tame k (k <| k_budget ::= budget_close |>).
Proof.
  destruct (budget_close_ok (k_budget k)) as [P1 P2]. split; [done|]. split; [done|].
  split; [done|]. split; [|done]. intros _. exact P2.
Qed.

Ltac trim_with i :=
  eapply (trimmed_alter _ i); [|reflexivity..];
  intros ?; first [apply tame_close | by split_and!].

Lemma trimmed_budget v : trimmed v (drop_budget v).
Proof. unfold drop_budget. destruct (v_out_budget v) as [i|]; [trim_with i|reflexivity]. Qed.
Lemma trimmed_stdin v : trimmed v (drop_stdin v).
Proof. unfold drop_stdin. destruct (v_stdin_tx v) as [i|]; [trim_with i|reflexivity]. Qed.
Lemma trimmed_resize v : trimmed v (drop_resize v).
Proof. unfold drop_resize. destruct (v_resize_tx v) as [i|]; [trim_with i|reflexivity]. Qed.
Lemma trimmed_handler v : trimmed v (drop_handler v).
Proof. unfold drop_handler. destruct (v_handler_task v) as [i|]; [trim_with i|reflexivity]. Qed.

(** An update of a task that revives nothing. *)
Lemma ends_alter n u i v v' :
  (forall k, tame k (u k)) -> v_tasks v' = alter u i (v_tasks v) ->
  v_handler_task v' = v_handler_task v -> v_out_budget v' = v_out_budget v ->
  v_stdin_tx v' = v_stdin_tx v -> ends_ok n v -> ends_ok n v'.
Proof.
  intros Hu Ht H1 H2 H3 (E1 & E2 & E3). unfold ends_ok. rewrite Ht, H1, H2, H3.
  split_and!; apply owned_alter; try done; intros k; by destruct (Hu k) as (_ & _ & ? & ? & ?).
Qed.

Lemma ends_budget n v : ends_ok n v -> ends_ok n (drop_budget v).
Proof.
  unfold drop_budget. destruct (v_out_budget v) as [i|] eqn:Hi; [|done]. intros (E1 & E2 & E3).
  rewrite Hi in E2. split_and!; [by apply owned_alter| |by apply owned_alter].
  apply owned_drop; [|exact E2]. intros k. apply budget_close_ok.
Qed.
Lemma ends_stdin n v : ends_ok n v -> ends_ok n (drop_stdin v).
Proof.
  unfold drop_stdin. destruct (v_stdin_tx v) as [i|] eqn:Hi; [|done]. intros (E1 & E2 & E3).
  rewrite Hi in E3. split_and!; [by apply owned_alter..|]. by apply owned_drop.
Qed.
Lemma ends_resize n v : ends_ok n v -> ends_ok n (drop_resize v).
Proof.
  unfold drop_resize. destruct (v_resize_tx v) as [i|] eqn:Hi; [|done]. intros (E1 & E2 & E3).
  split_and!; by apply owned_alter.
Qed.
Lemma ends_handler n v : ends_ok n v -> ends_ok n (drop_handler v).
Proof.
  unfold drop_handler. destruct (v_handler_task v) as [i|] eqn:Hi; [|done]. intros (E1 & E2 & E3).
  rewrite Hi in E1. split_and!; [|by apply owned_alter..]. by apply owned_drop.
Qed.

(** ** Starting a program *)

(** The ends that the loop holds, after each drop. *)
Definition holds v := (v_handler_task v, v_out_budget v, v_stdin_tx v).
Lemma holds_resize v : holds (drop_resize v) = holds v.
Proof. unfold drop_resize. by destruct (v_resize_tx v). Qed.
Lemma holds_stdin v : holds (drop_stdin v) = (v_handler_task v, v_out_budget v, None).
Proof. unfold drop_stdin, holds. by destruct (v_stdin_tx v) eqn:E; [|rewrite E]. Qed.
Lemma holds_handler v : holds (drop_handler v) = (None, v_out_budget v, v_stdin_tx v).
Proof. unfold drop_handler, holds. by destruct (v_handler_task v) eqn:E; [|rewrite E]. Qed.
Lemma holds_budget v : holds (drop_budget v) = (v_handler_task v, None, v_stdin_tx v).
Proof. unfold drop_budget, holds. by destruct (v_out_budget v) eqn:E; [|rewrite E]. Qed.

Lemma holds_wire v : holds (drop_resize (drop_stdin (drop_handler (drop_budget v)))) = (None, None, None).
Proof.
  rewrite holds_resize, holds_stdin. pose proof (holds_handler (drop_budget v)) as E1.
  pose proof (holds_budget v) as E2. unfold holds in *. congruence.
Qed.

Lemma trimmed_wire v :
  trimmed v (drop_resize (drop_stdin (drop_handler (drop_budget v)))).
Proof.
  etransitivity; [apply trimmed_budget|]. etransitivity; [apply trimmed_handler|].
  etransitivity; [apply trimmed_stdin|apply trimmed_resize].
Qed.

(** The loop takes the ends of the newest task. *)
Definition take_ends (n : nat) (channel : Z) v : Serve H RP Hd :=
  v <| v_stdin_tx := Some n |> <| v_out_budget := Some n |> <| v_consumed_rx := Some n |>
    <| v_resize_tx := Some n |> <| v_handler_task := Some n |>
    <| v_active_channel := channel |> <| v_out_inflight := 0 |> <| v_last_consumed := 0 |>.

Lemma ends_take n channel v :
  length (v_tasks v) = S n -> ends_ok n v -> holds v = (None, None, None) ->
  ends_ok (S n) (take_ends n channel v).
Proof.
  intros Hl (W1 & W2 & W3) Hn. injection Hn as N1 N2 N3. rewrite N1 in W1. rewrite N2 in W2.
  rewrite N3 in W3. split_and!; by apply owned_take.
Qed.

Lemma ends_wire k v :
  ends_ok (length (v_tasks v)) v ->
  ends_ok (length (v_tasks v))
    (drop_resize (drop_stdin (drop_handler (drop_budget (v <| v_tasks ::= fun ks => ks ++ [k] |>))))).
Proof.
  intros He. apply ends_resize, ends_stdin, ends_handler, ends_budget.
  destruct He as (E1 & E2 & E3).
  assert (Happ : forall f P, owned (length (v_tasks v)) f P (v_tasks v) ->
    owned (length (v_tasks v)) f P (v_tasks v ++ [k])).
  { intros f P Ho i k0 Hi Hn. apply (Ho i k0); [|done]. by rewrite lookup_app_l in Hi. }
  split_and!; by apply Happ.
Qed.

(** ** Changes of the session behind the loop *)
Definition with_session v s : Serve H RP Hd := v <| v_driver ::= set dv_session (fun _ => s) |>.

Lemma on_session_wp_v {V} (m : M SshError (ServerConnection H) V) v (Q : V -> Serve H RP Hd -> Prop) X :
  wp m (fun a s => Q a (with_session v s)) (fun e s => X (De_Protocol e) (with_session v s)) (session v) ->
  wp (on_session m) Q X v.
Proof. intros Hw. unfold on_session, on_driver. apply wp_zoom, on_session_wp. exact Hw. Qed.

Lemma dead_session v v' :
  v_tasks v' = v_tasks v -> v_handler_task v' = v_handler_task v -> v_out_budget v' = v_out_budget v ->
  v_stdin_tx v' = v_stdin_tx v ->
  s_authenticated (session v') = s_authenticated (session v) -> dead v -> dead v'.
Proof. unfold dead, ends_ok, programs_ok. by intros -> -> -> -> ->. Qed.

(** The invariant, when only the session and the bytes on their way have changed. *)
Lemma live_session v v' :
  live v -> v_tasks v' = v_tasks v -> v_handler_task v' = v_handler_task v ->
  v_out_budget v' = v_out_budget v -> v_stdin_tx v' = v_stdin_tx v ->
  (v_consumed_rx v' = v_consumed_rx v \/ v_consumed_rx v' = None) ->
  s_authenticated (session v') = s_authenticated (session v) ->
  sinv (session v') -> buffered v' <= buffered v -> 0 <= v_out_inflight v' -> live v'.
Proof.
  intros [L1 L2 L3 L4 L5 L6 L7] H1 H2 H3 H4 H5 H6 H7 H8 H9. constructor; rewrite ?H1; try done.
  - lia.
  - intros i Hi. apply L6. rewrite H3 in Hi. destruct Hi as [Hi|Hi]; [by left|].
    destruct H5 as [H5|H5]; rewrite H5 in Hi; [by right|done].
  - by apply (dead_session v).
Qed.

(** A call that is not an input or a poll, and sends no output. *)
Lemma quiet_serve o v (Q : unit -> Serve H RP Hd -> Prop) X :
  live v -> makes_events o = false -> growth o = 0 -> args_ok o (session v) ->
  (forall s, live (with_session v s) -> told s = told (session v) -> Q tt (with_session v s)) ->
  (forall e s, dead (with_session v s) -> X e (with_session v s)) ->
  wp (on_session (s_run o)) Q X v.
Proof.
  intros Hv Hm Hg Ha HQ HX. apply on_session_wp_v.
  pose proof (chan_held_le U64_MAX _ ltac:(unfold U64_MAX; lia) (l_session _ Hv)) as Hu.
  pose proof (quiet_call_wp o _ (l_session _ Hv) Hm Ha ltac:(lia)) as Hw.
  eapply wp_mono; [exact (wp_stays _ _ _ _ _ (told_run o Hm) Hw)| |]; cbv beta.
  - intros [] s [[[H1 H2] H3] _]. apply HQ; [|done]. unfold told in H3. injection H3 as E1 E2.
    apply (live_session v); try done; [by left| |apply (l_inflight _ Hv)].
    unfold buffered. cbn. unfold session in *. cbn. lia.
  - intros e s [_ H3]. apply HX. unfold same, told in H3. injection H3 as E1 E2.
    by apply (dead_session v); [..|apply Hv].
Qed.

Lemma session_driver v v' : v_driver v' = v_driver v -> session v' = session v.
Proof. unfold session. by intros ->. Qed.

Lemma nonempty_length {X} (l l' : list X) : length l' = length l -> l' <> [] -> l <> [].
Proof. destruct l, l'; done. Qed.

(** The invariant, when tasks have been trimmed. *)
Lemma live_trimmed v v' :
  live v -> trimmed v v' -> ends_ok (length (v_tasks v')) v' ->
  (forall i, v_out_budget v' = Some i \/ v_consumed_rx v' = Some i -> v_out_budget v = Some i \/ v_consumed_rx v = Some i) ->
  live v'.
Proof.
  intros [L1 L2 L3 L4 L5 L6 [L7 L8]] [T1 T2 T3 T4 T5 T6 T7 T8] He Hi.
  assert (Hl : len (v_tasks v') = len (v_tasks v)) by (unfold len; by rewrite T5).
  constructor; rewrite ?(session_driver _ _ T1), ?Hl, ?T3; try done; auto.
  - unfold buffered. rewrite (session_driver _ _ T1), T6, T2, T3. exact L2.
  - intros i Hx. rewrite T5. auto.
  - split; [done|]. destruct L8 as [P1 P2]. split; [auto|]. rewrite (session_driver _ _ T1).
    intros Hn. apply P2. by eapply nonempty_length.
Qed.

(** A handler is started, with the budget of one. *)
Lemma live_taken k channel v v1 w :
  live v -> task_ok k -> permits (k_budget k) = out_limit -> registered k ->
  is_Some (s_authenticated (session v)) ->
  out_limit * (len (v_tasks v) + 1) <= permits_max ->
  v1 = v <| v_tasks ::= fun ks => ks ++ [k] |> -> trimmed v1 w ->
  ends_ok (length (v_tasks v)) w -> holds w = (None, None, None) ->
  live (take_ends (length (v_tasks v)) channel w).
Proof.
  intros [L1 L2 L3 L4 L5 L6 [L7 [P1 P2]]] Hk Hp Hr Ha Hf -> [T1 T2 T3 T4 T5 T6 T7 T8] He Hn.
  cbn in T1, T2. change (length (v_tasks w) = length (v_tasks v ++ [k])) in T5.
  change (granted (v_tasks w) = granted (v_tasks v ++ [k])) in T6.
  change (Forall task_ok (v_tasks v ++ [k]) -> Forall task_ok (v_tasks w)) in T7.
  change (Forall registered (v_tasks v ++ [k]) -> Forall registered (v_tasks w)) in T8.
  assert (Hl : length (v_tasks w) = S (length (v_tasks v))) by (rewrite T5, length_app; cbn; lia).
  assert (Hlen : len (v_tasks w) = len (v_tasks v) + 1) by (unfold len; rewrite Hl; lia).
  assert (Hs : session w = session v) by by apply session_driver.
  rewrite granted_app in T6. unfold granted at 3 in T6. cbn [fold_right] in T6.
  constructor.
  - change (sinv (session w)). by rewrite Hs.
  - change (granted (v_tasks w) + (load (fifo_items (v_out_rx w)) + Z.max 0 (chan_held (session w)))
      <= out_limit * len (v_tasks w)).
    rewrite Hlen, Hs, T6, T2. unfold buffered in L2. lia.
  - change (out_limit * len (v_tasks w) <= permits_max). by rewrite Hlen.
  - done.
  - apply T7, Forall_app_2; [done|by apply Forall_singleton].
  - intros i [Hi|Hi]; injection Hi as <-; change ((length (v_tasks v) < length (v_tasks w))%nat); lia.
  - split; [change (ends_ok (length (v_tasks w)) (take_ends (length (v_tasks v)) channel w));
            rewrite Hl; by apply ends_take|].
    split; [apply T8, Forall_app_2; [done|by apply Forall_singleton]|].
    intros _. change (is_Some (s_authenticated (session w))). by rewrite Hs.
Qed.

Lemma start_program_wp channel h command v (Q : unit -> Serve H RP Hd -> Prop) :
  live v -> is_Some (s_authenticated (session v)) ->
  (forall h', h = Some h' -> forall k, k_handler k = h' -> k_command k = command -> registered k) ->
  out_limit * (len (v_tasks v) + 1) <= permits_max ->
  (forall v', live v' -> told (session v') = told (session v) ->
     (length (v_tasks v') <= S (length (v_tasks v)))%nat -> v_authenticated v' = v_authenticated v -> Q tt v') ->
  wp (start_program config channel h command) Q (fun _ => dead) v.
Proof.
  intros Hv Ha Hr Hf HQ. unfold start_program. destruct h as [h|].
  2:{ apply (quiet_serve (SOp_reject channel)); try done. intros s Hs Ht. apply HQ; try done. cbn. lia. }
  apply wp_bind, (quiet_serve (SOp_accept channel)); try done. intros s Hs Ht.
  set (v1 := with_session v s) in *.
  apply wp_bind, wp_gets, wp_bind. unfold spawn_handler.
  destruct (budget_new_ok out_limit) as (b & Hb & Hp & _).
  { pose proof out_limit_pos. unfold permits_max, MAX_RESERVE in *. pose proof (len_nonneg (v_tasks v)). nia. }
  apply wp_bind. rewrite Hb. apply wp_ret. do 4 wp_step. apply wp_ret.
  set (k := ChannelSession.new _ _ _ _ _). do 4 wp_step.
  apply wp_bind, wp_modify, wp_modify.
  assert (Hk : task_ok k).
  { pose proof out_limit_pos. unfold MAX_RESERVE in *. split; [cbn; lia|]. cbn. by repeat constructor. }
  unfold told in Ht. injection Ht as Ht1 Ht2.
  pose proof (trimmed_wire (v1 <| v_tasks ::= fun ks => ks ++ [k] |>)) as Htr.
  pose proof (ends_wire k v1 (proj1 (l_dead _ Hs))) as He.
  pose proof (holds_wire (v1 <| v_tasks ::= fun ks => ks ++ [k] |>)) as Hn.
  unfold wire_handler. set (w := drop_resize _) in *. clearbody w.
  change (length (v_tasks v)) with (length (v_tasks v1)).
  match goal with |- Q tt ?x => change x with (take_ends (length (v_tasks v1)) channel w) end.
  apply HQ.
  - apply (live_taken k channel v1 _ w) in Htr; try done; [by apply (Hr h)|].
    change (is_Some (s_authenticated s)). by rewrite Ht2.
  - change (told (session w) = told (session v)). rewrite (session_driver _ _ (tr_driver _ _ Htr)).
    unfold told. change (session (set v_tasks _ v1)) with s. congruence.
  - change (length (v_tasks w) <= S (length (v_tasks v)))%nat. rewrite (tr_length _ _ Htr).
    change (length (v_tasks v ++ [k]) <= S (length (v_tasks v)))%nat. rewrite length_app. cbn. lia.
  - exact (tr_auth _ _ Htr).
Qed.

(** ** The events *)
Definition announces (e : ServerEvent) : bool :=
  match e with SE_Authenticated _ => true | _ => false end.

(** What the handling of an event leaves. *)
Record after_event (e : ServerEvent) v v' : Prop := {
  ae_live : live v';
  ae_told : told (session v') = told (session v);
  ae_length : (length (v_tasks v') <= S (length (v_tasks v)))%nat;
  ae_auth : v_authenticated v' = v_authenticated v || announces e
}.

Lemma after_trimmed e v v' :
  announces e = false -> live v -> trimmed v v' -> ends_ok (length (v_tasks v')) v' ->
  (forall i, v_out_budget v' = Some i \/ v_consumed_rx v' = Some i ->
     v_out_budget v = Some i \/ v_consumed_rx v = Some i) ->
  after_event e v v'.
Proof.
  intros Hn Hv Ht He Hi. constructor.
  - by apply (live_trimmed v).
  - by rewrite (session_driver _ _ (tr_driver _ _ Ht)).
  - rewrite (tr_length _ _ Ht). lia.
  - by rewrite (tr_auth _ _ Ht), Hn, orb_false_r.
Qed.

(** A tame update of one task. *)
Lemma after_update e u i v :
  announces e = false -> live v -> (forall k, tame k (u k)) ->
  after_event e v (v <| v_tasks ::= alter u i |>).
Proof.
  intros Hn Hv Hu. apply after_trimmed; try done.
  - by eapply (trimmed_alter u i).
  - change (v_tasks (set v_tasks _ v)) with (alter u i (v_tasks v)). rewrite length_alter.
    apply (ends_alter _ u i v); try done. apply (l_dead _ Hv).
Qed.

Lemma index_stdin v : v_out_budget (drop_stdin v) = v_out_budget v /\ v_consumed_rx (drop_stdin v) = v_consumed_rx v.
Proof. unfold drop_stdin. by destruct (v_stdin_tx v). Qed.
Lemma index_resize v : v_out_budget (drop_resize v) = v_out_budget v /\ v_consumed_rx (drop_resize v) = v_consumed_rx v.
Proof. unfold drop_resize. by destruct (v_resize_tx v). Qed.
Lemma index_handler v : v_out_budget (drop_handler v) = v_out_budget v /\ v_consumed_rx (drop_handler v) = v_consumed_rx v.
Proof. unfold drop_handler. by destruct (v_handler_task v). Qed.
Lemma index_budget v : v_out_budget (drop_budget v) = None /\ v_consumed_rx (drop_budget v) = v_consumed_rx v.
Proof. unfold drop_budget. by destruct (v_out_budget v) eqn:E. Qed.

Lemma after_close e v :
  announces e = false -> live v ->
  after_event e v (drop_handler (drop_budget (drop_resize (drop_stdin v)))).
Proof.
  intros Hn Hv.
  assert (Ht : trimmed v (drop_handler (drop_budget (drop_resize (drop_stdin v))))).
  { etransitivity; [apply trimmed_stdin|]. etransitivity; [apply trimmed_resize|].
    etransitivity; [apply trimmed_budget|apply trimmed_handler]. }
  apply after_trimmed; try done.
  - rewrite (tr_length _ _ Ht). apply ends_handler, ends_budget, ends_resize, ends_stdin, (l_dead _ Hv).
  - intros i. destruct (index_handler (drop_budget (drop_resize (drop_stdin v)))) as [-> ->].
    destruct (index_budget (drop_resize (drop_stdin v))) as [-> ->].
    destruct (index_resize (drop_stdin v)) as [_ ->]. destruct (index_stdin v) as [_ ->].
    intros [?|?]; [done|by right].
Qed.

Lemma after_stdin e v : announces e = false -> live v -> after_event e v (drop_stdin v).
Proof.
  intros Hn Hv. pose proof (trimmed_stdin v) as Ht. apply after_trimmed; try done.
  - rewrite (tr_length _ _ Ht). apply ends_stdin, (l_dead _ Hv).
  - intros i. by destruct (index_stdin v) as [-> ->].
Qed.

(** Fields that the invariant does not mention. *)
Lemma live_flag b v : live v -> live (v <| v_authenticated := b |>).
Proof. intros []. by constructor. Qed.
Lemma live_retry r v : live v -> live (v <| v_retry := r |>).
Proof. intros []. by constructor. Qed.

Lemma on_retry_wp (m : M unit RP unit) v (Q : unit -> Serve H RP Hd -> Prop) X :
  (exists r, m (v_retry v) = (Ok tt, r)) -> (forall r, Q tt (v <| v_retry := r |>)) ->
  wp (on_retry m) Q X v.
Proof. intros [r Hr] HQ. unfold wp, on_retry. rewrite Hr. apply HQ. Qed.

Lemma for_peer_wp f v (Q : unit -> Serve H RP Hd -> Prop) X :
  (forall p, exists r', f p (v_retry v) = (Ok tt, r')) -> Q tt v -> (forall r, Q tt (v <| v_retry := r |>)) ->
  wp (for_peer peer f) Q X v.
Proof.
  intros Hf H0 HQ. unfold for_peer. destruct peer as [p|]; [|done].
  apply on_retry_wp; [apply Hf|exact HQ].
Qed.

(** Being ready is kept by the hooks. *)
Definition stays_ready (now : Z) (r r' : RP) : Prop := retry_ready now r -> retry_ready now r'.
#[export] Instance stays_ready_preorder now : PreOrder (stays_ready now).
Proof. split; [by intros r Hr|]. intros r1 r2 r3 H1 H2 Hr. by apply H2, H1. Qed.
Lemma hooks_stay_ready now : hooks_respect peer now (stays_ready now).
Proof.
  intros p _. split; intros r Hr.
  - destruct (exhausted_returns now p r Hr) as (r' & -> & ?). done.
  - destruct (authenticated_returns now p r Hr) as (r' & -> & ?). done.
Qed.

Lemma serve_event_wp now e v :
  live v -> retry_ready now (v_retry v) -> before_auth e \/ is_Some (s_authenticated (session v)) ->
  out_limit * (len (v_tasks v) + 1) <= permits_max ->
  wp (serve_event config ctx peer now e) (fun _ => after_event e v) (fun _ => dead) v.
Proof.
  intros Hv Hy Ha Hf.
  assert (Hq : forall v', announces e = false -> live v' -> told (session v') = told (session v) ->
    (length (v_tasks v') <= S (length (v_tasks v)))%nat -> v_authenticated v' = v_authenticated v ->
    after_event e v v').
  { intros v' Hn H1 H2 H3 H4. constructor; try done. by rewrite Hn, orb_false_r. }
  assert (Hp : forall channel h command, ~ before_auth e -> announces e = false ->
    (forall h', h = Some h' -> forall k, k_handler k = h' -> k_command k = command -> registered k) ->
    wp (start_program config channel h command ;;; ret Continue) (fun _ => after_event e v) (fun _ => dead) v).
  { intros channel h command Hb Hn Hr. apply wp_bind, start_program_wp; try done.
    - by destruct Ha.
    - intros v' H1 H2 H3 H4. apply wp_ret. by apply Hq. }
  destruct e as [u|ch c|ch|ch n|ch cols rows|ch d|ch|ch|r d|]; cbn [serve_event].
  - do 3 wp_step. apply for_peer_wp;
      [intros p; destruct (authenticated_returns now p _ Hy) as (r' & Hr & _); by exists r'|..]; intros; wp_step;
      (constructor; [|done|cbn; lia|cbn; by rewrite orb_true_r]);
      try apply live_retry; by apply live_flag.
  - apply Hp; [tauto|done|]. intros h' Hh k <- <-. by left.
  - apply Hp; [tauto|done|]. intros h' Hh k <- Hc. right. left. by split.
  - apply Hp; [tauto|done|]. intros h' Hh k <- <-. right. by right.
  - do 2 wp_step. apply wp_bind. destruct (v_resize_tx v) as [i|].
    + apply wp_modify, wp_ret, after_update; try done; intros k; by split_and!.
    + apply wp_ret, wp_ret, Hq; try done. lia.
  - do 2 wp_step. apply wp_bind, wp_if; intros _; [destruct (v_stdin_tx v) as [i|]|].
    + apply wp_modify, wp_ret, after_update; try done; intros k; by split_and!.
    + apply wp_ret, wp_ret, Hq; try done. lia.
    + apply wp_ret, wp_ret, Hq; try done. lia.
  - apply wp_bind, wp_modify, wp_ret. by apply after_stdin.
  - apply wp_bind, wp_modify, wp_ret. by apply after_close.
  - apply wp_ret, Hq; try done. lia.
  - apply wp_bind, for_peer_wp;
      [intros p; destruct (exhausted_returns now p _ Hy) as (r' & Hr & _); by exists r'|..]; intros; apply wp_ret;
      (apply Hq; [done| |done|cbn; lia|done]); [done|by apply live_retry].
Qed.

(** The loop's flag and the session agree, up to the events that wait. *)
Definition login_pending v : Prop :=
  (v_authenticated v = true -> is_Some (s_authenticated (session v))) /\
  (is_Some (s_authenticated (session v)) ->
   v_authenticated v = true \/ exists u, SE_Authenticated u ∈ s_events (session v)).
Definition login_ok v : Prop :=
  v_authenticated v = ServerConnection.is_authenticated (session v) /\ s_events (session v) = [].

Lemma login_settled v : login_pending v -> s_events (session v) = [] -> login_ok v.
Proof.
  intros [H1 H2] He. split; [|done]. unfold ServerConnection.is_authenticated. case_bool_decide as Ha.
  - destruct (H2 Ha) as [?|[u Hu]]; [done|]. rewrite He in Hu. by apply not_elem_of_nil in Hu.
  - apply not_true_is_false. tauto.
Qed.

Lemma poll_serve v (Q : option ServerEvent -> Serve H RP Hd -> Prop) :
  live v ->
  (forall oe s, live (with_session v s) -> s_authenticated s = s_authenticated (session v) ->
     match oe with
     | None => s_events (session v) = [] /\ s_events s = []
     | Some e => s_events (session v) = e :: s_events s /\
                 (before_auth e \/ is_Some (s_authenticated (session v)))
     end -> Q oe (with_session v s)) ->
  wp (on_session ServerConnection.poll_event) Q (fun _ => dead) v.
Proof.
  intros Hv HQ. apply on_session_wp_v.
  assert (Hk : keeps s_authenticated (ServerConnection.poll_event (H := H))).
  { unfold ServerConnection.poll_event. keeps_auto. }
  eapply wp_mono; [exact (wp_stays _ _ _ _ _ Hk (poll_wp _ (l_session _ Hv)))| |]; cbv beta.
  - intros oe s0 [(P1 & P2 & P3 & P4) _]. apply HQ; try done.
    apply (live_session v); try done; [by left| |apply (l_inflight _ Hv)].
    unfold buffered. change (session (with_session v s0)) with s0. cbn. lia.
  - intros e s0 [_ Hs]. by apply (dead_session v); [..|apply Hv].
Qed.

Lemma drain_events_wp fuel now v :
  live v -> retry_ready now (v_retry v) -> login_pending v -> (length (s_events (session v)) <= fuel)%nat ->
  out_limit * (len (v_tasks v) + len (s_events (session v))) <= permits_max ->
  wp (drain_events config ctx peer fuel now)
    (fun f v' => live v' /\ (f = Continue -> login_ok v')) (fun _ => dead) v.
Proof.
  pose proof out_limit_pos as Hpos. unfold MAX_RESERVE in Hpos.
  revert v. induction fuel as [|fuel IH]; intros v Hv Hy Hl Hn Hf; cbn [drain_events];
    apply wp_bind, poll_serve; try done; intros [e|] s0 Hv' P3 P4.
  2, 4: destruct P4 as [E1 E2]; apply wp_ret; split; [done|]; intros _; apply login_settled; [|done];
    destruct Hl as [H1 H2]; split; change (session (with_session v s0)) with s0; rewrite P3;
    [exact H1|]; intros Hs; destruct (H2 Hs) as [Hx|[u Hu]]; [by left|];
    rewrite E1 in Hu; by apply not_elem_of_nil in Hu.
  - destruct P4 as [E _]. rewrite E in Hn. cbn in Hn. lia.
  - destruct P4 as [E Hb].
    assert (Hlen : len (s_events (session v)) = len (s_events s0) + 1) by (rewrite E, len_cons; lia).
    pose proof (len_nonneg (s_events s0)) as N1. pose proof (len_nonneg (v_tasks v)) as N2.
    assert (Hw : wp (serve_event config ctx peer now e) (fun _ => after_event e (with_session v s0))
      (fun _ => dead) (with_session v s0)).
    { apply serve_event_wp; [done|exact Hy| |change (v_tasks (with_session v s0)) with (v_tasks v); nia].
      destruct Hb as [?|[u Hu]]; [by left|right]. exists u. by rewrite <- Hu, <- P3. }
    pose proof (moved_event (C := C) (H := H) (T := T) config ctx peer now (stays_ready now) anything
      (hooks_stay_ready now) calls_anything e) as Hk.
    apply wp_bind. eapply wp_mono; [exact (wp_stays _ _ _ _ _ Hk Hw)| |by intros ? ? [? _]].
    + cbv beta. intros f v' [[A1 A2 A3 A4] A5]. destruct f; [|by apply wp_ret..].
      change (session (with_session v s0)) with s0 in A2. injection A2 as A2 A2'.
      change (v_tasks (with_session v s0)) with (v_tasks v) in A3. apply IH; [done|by apply A5| | |].
      * destruct Hl as [H1 H2]. split; rewrite A4, ?A2, A2', P3.
        -- intros [?|He]%orb_prop; [by apply H1|]. destruct Hb as [Hb|Hb]; [|done].
           by destruct e.
        -- intros Hs. destruct (H2 Hs) as [Hx|[u Hu]]; [left; change (v_authenticated (with_session v s0)) with (v_authenticated v); by rewrite Hx|].
           rewrite E in Hu. apply elem_of_cons in Hu as [<-|Hu]; [left; apply orb_true_r|eauto].
      * rewrite A2. rewrite E in Hn. cbn in Hn. lia.
      * rewrite A2. unfold len in *. nia.
Qed.

(** ** The arms *)
Abbreviation settled := (fun v => live v /\ login_ok v).

Lemma login_told v v' :
  v_authenticated v' = v_authenticated v -> told (session v') = told (session v) ->
  login_ok v -> login_ok v'.
Proof.
  unfold login_ok, told, ServerConnection.is_authenticated. intros -> [= -> ->]. done.
Qed.

Lemma driver_flush_wp w v (Q : unit -> Serve H RP Hd -> Prop) :
  live v ->
  (forall d, live (v <| v_driver := d |>) -> told (dv_session d) = told (session v) ->
     Q tt (v <| v_driver := d |>)) ->
  wp (on_driver (Driver.flush w)) Q (fun _ => dead) v.
Proof.
  intros Hv HQ. apply wp_zoom. unfold Driver.flush. do 2 wp_step.
  assert (Hs : forall d, session (v <| v_driver := d |>) = dv_session d) by done.
  assert (Hlive : forall d, sinv (dv_session d) -> chan_held (dv_session d) <= chan_held (session v) ->
    told (dv_session d) = told (session v) -> live (v <| v_driver := d |>)).
  { intros d H1 H2 H3. injection H3 as E1 E2.
    apply (live_session v); try done; [by left| |apply (l_inflight _ Hv)].
    unfold buffered. rewrite Hs. cbn. lia. }
  destruct (negb _).
  2:{ apply wp_ret. specialize (HQ (v_driver v)). destruct v. by apply HQ. }
  destruct w as [|n e].
  - do 2 wp_step. apply on_session_wp.
    pose proof (chan_held_le U64_MAX _ ltac:(unfold U64_MAX; lia) (l_session _ Hv)) as Hu.
    pose proof (quiet_call_wp SOp_clear_output _ (l_session _ Hv) eq_refl I ltac:(cbn; lia)) as Hw.
    eapply wp_mono; [exact (wp_stays _ _ _ _ _ (told_run SOp_clear_output eq_refl) Hw)| |]; cbv beta.
    + intros [] s0 [[[H1 H2] H3] _]. cbn in H2. apply HQ; [apply Hlive; [done|cbn; lia|done]|done].
    + intros e s0 [_ H3]. injection H3 as E1 E2. by apply (dead_session v); [..|apply Hv].
  - do 2 wp_step. apply wp_err. apply (dead_session v); [done..|apply Hv].
Qed.

Lemma granted_ge i k ks :
  Forall (task_ok (Hd := Hd)) ks -> ks !! i = Some k -> permits (k_budget k) <= granted ks.
Proof.
  revert i. induction ks as [|k0 ks IH]; intros i Hf Hi; [done|].
  apply List.Forall_cons_iff in Hf as [[K0 _] Hf]. cbn [granted fold_right].
  destruct i as [|i]; cbn in Hi.
  - injection Hi as ->. assert (0 <= granted ks); [|unfold granted in *; lia]. clear IH.
    induction Hf as [|k1 ks [K1 _] _ IH]; [done|]. cbn [granted fold_right]. unfold granted in IH. lia.
  - specialize (IH i Hf Hi). unfold granted in IH. lia.
Qed.

(** A task replaced by one that differs in its budget. *)
Lemma dead_insert i k k' v v' :
  v_tasks v !! i = Some k -> v_tasks v' = <[i := k']> (v_tasks v) ->
  (k_handler k', k_command k', k_aborted k', k_stdin_open k', budget_closed (k_budget k')) =
  (k_handler k, k_command k, k_aborted k, k_stdin_open k, budget_closed (k_budget k)) ->
  holds v' = holds v -> s_authenticated (session v') = s_authenticated (session v) ->
  dead v -> dead v'.
Proof.
  intros Hi Ht He Hh Ha [(E1 & E2 & E3) [P1 P2]]. injection He as F1 F2 F3 F4 F5.
  injection Hh as G1 G2 G3. unfold dead, ends_ok, programs_ok.
  rewrite Ht, length_insert, Ha, G1, G2, G3. split.
  - split_and!; (eapply owned_insert; [exact Hi| |done]); unfold aborted, refused, at_eof; congruence.
  - split.
    + apply Forall_insert; [done|]. pose proof (Forall_lookup_1 _ _ _ _ P1 Hi) as Hr.
      unfold registered in *. by rewrite F1, F2.
    + intros Hn. apply P2. eapply nonempty_length; [|exact Hn]. apply length_insert.
Qed.

(** Budget handed back for output that has left the channel. *)
Lemma live_credited i k b credit n v v' :
  live v -> v_tasks v !! i = Some k -> 0 <= credit <= v_out_inflight v ->
  credit = Z.min n (v_out_inflight v) ->
  permits b = permits (k_budget k) + credit -> budget_closed b = budget_closed (k_budget k) ->
  v_tasks v' = <[i := k <| k_budget := b |>]> (v_tasks v) -> sinv (session v') ->
  0 <= n -> chan_held (session v') + n = chan_held (session v) ->
  s_authenticated (session v') = s_authenticated (session v) ->
  v_out_rx v' = v_out_rx v -> v_out_inflight v' = v_out_inflight v - credit ->
  holds v' = holds v -> v_consumed_rx v' = v_consumed_rx v -> live v'.
Proof.
  intros [L1 L2 L3 L4 L5 L6 L7] Hi Hc Hn B1 B2 Ht S1 S2 S3 S4 Ho Hf Hh Hr.
  pose proof (Forall_lookup_1 _ _ _ _ L5 Hi) as [K0 K1].
  pose proof (chan_held_nonneg _ _ S1) as Hch.
  assert (Hl : len (v_tasks v') = len (v_tasks v)) by (unfold len; by rewrite Ht, length_insert).
  assert (P : permits (k_budget (k <| k_budget := b |>)) = permits b) by done.
  constructor; rewrite ?Hl; try done.
  - rewrite Ht, (granted_insert i k), P by done. unfold buffered in *. rewrite Ho, Hf. lia.
  - lia.
  - rewrite Ht. apply Forall_insert; [done|]. split; [rewrite P; lia|exact K1].
  - rewrite Ht, length_insert, Hr. injection Hh as _ -> _. exact L6.
  - apply (dead_insert i k (k <| k_budget := b |>) v); try done.
    change (budget_closed (k_budget (k <| k_budget := b |>))) with (budget_closed b). by rewrite B2.
Qed.

Lemma credit_flushed_wp v :
  live v -> wp credit_flushed (fun _ v' => live v' /\ told (session v') = told (session v) /\
                                v_authenticated v' = v_authenticated v) (fun _ => dead) v.
Proof.
  intros Hv. unfold credit_flushed. do 2 wp_step.
  destruct (v_out_budget v) as [i|] eqn:Hb; [|done].
  apply wp_bind, on_session_wp_v.
  assert (Hk : keeps told (ServerConnection.take_flushed_output (H := H) (v_active_channel v))).
  { unfold ServerConnection.take_flushed_output, ServerConnection.on_channel. keeps_auto. }
  eapply wp_mono; [exact (wp_stays _ _ _ _ _ Hk (flushed_wp (v_active_channel v) _ (l_session _ Hv)))| |]; cbv beta.
  2:{ intros e s0 [_ Ht]. injection Ht as E1 E2. by apply (dead_session v); [..|apply Hv]. }
  intros n s0 [(S1 & S2 & S3 & S4) _]. pose proof S2 as Ht. injection Ht as E1 E2.
  pose proof Hv as [L1 L2 L3 L4 L5 L6 L7]. pose proof (chan_held_nonneg _ _ S1) as Hch.
  pose proof (load_nonneg (fifo_items (v_out_rx v))) as Hld.
  destruct (lookup_lt_is_Some_2 (v_tasks v) i (L6 i (or_introl Hb))) as [k Hi].
  pose proof (granted_ge i k _ L5 Hi) as Hge. pose proof (Forall_lookup_1 _ _ _ _ L5 Hi) as [K0 K1].
  unfold buffered in L2. unfold permits_max in L3.
  change (v_tasks (with_session v s0)) with (v_tasks v).
  apply wp_if; intros Hc.
  2:{ split; [|by split]. apply (live_session v); try done; [by left|]. unfold buffered.
      change (session (with_session v s0)) with s0. cbn. lia. }
  destruct (budget_add_ok (Z.min n (v_out_inflight v)) (k_budget k)) as [b Hadd]; [lia|lia|].
  pose proof (budget_added _ _ _ Hadd) as [B1 B2].
  apply wp_bind, wp_checked; [lia|]. cbv beta. apply wp_bind, wp_modify.
  apply wp_bind, wp_unwrap. exists k. split; [exact Hi|].
  apply wp_bind, wp_unwrap. exists b. split; [exact Hadd|]. apply wp_modify.
  split; [|by split].
  apply (live_credited i k b (Z.min n (v_out_inflight v)) n v); try done; [lia|].
  exact (alter_insert _ i k _ Hi).
Qed.

Lemma flush_arm_wp w v :
  settled v -> wp (flush_arm w) (fun _ => settled) (fun _ => dead) v.
Proof.
  intros [Hv Hl]. unfold flush_arm. apply wp_bind, driver_flush_wp; [done|]. intros d Hdr Ht.
  apply wp_bind. eapply wp_mono; [exact (credit_flushed_wp _ Hdr)| |done].
  cbv beta. intros _ v' (H1 & H2 & H3). apply wp_ret. split; [done|].
  apply (login_told v); [by rewrite H3|rewrite H2; exact Ht|done].
Qed.

Lemma last_flush_wp w v :
  live v -> wp (on_driver (Driver.flush w) ;;; ret Return) (fun f v' => f = Return /\ live v') (fun _ => dead) v.
Proof. intros Hv. apply wp_bind, driver_flush_wp; [done|]. intros d Hdr _. by apply wp_ret. Qed.

(** A quiet call at the end of an arm. *)
Lemma quiet_arm o v v1 :
  live v1 -> login_ok v -> v_authenticated v1 = v_authenticated v -> told (session v1) = told (session v) ->
  makes_events o = false -> growth o = 0 -> args_ok o (session v1) ->
  wp (on_session (s_run o)) (fun _ v' => settled v' /\ v_consumed_rx v' = v_consumed_rx v1) (fun _ => dead) v1.
Proof.
  intros Hv Hl Ha Ht Hm Hg Ho. apply quiet_serve; try done. intros s0 Hs0 Ht0. split; [|done].
  split; [done|]. apply (login_told v); [done| |done]. rewrite <- Ht. exact Ht0.
Qed.

Lemma live_consumed_rx v : live v -> live (v <| v_consumed_rx := None |>).
Proof. intros Hv. apply (live_session v); try done; [by right|apply (l_session _ Hv)|apply (l_inflight _ Hv)]. Qed.

Lemma consumed_arm_wp i alive v :
  settled v -> v_consumed_rx v = Some i ->
  wp (consumed_arm i alive) (fun _ => settled) (fun _ => dead) v.
Proof.
  intros [Hv Hl] Hi. unfold consumed_arm. do 2 wp_step.
  destruct (lookup_lt_is_Some_2 (v_tasks v) i (l_index _ Hv i (or_intror Hi))) as [k Hk].
  apply wp_bind, wp_unwrap. exists k. split; [exact Hk|].
  destruct (watch_borrow (k_consumed k)) as [total w]. apply wp_bind, wp_modify, wp_bind, wp_modify.
  set (delta := Z.max _ 0).
  assert (Hup : after_event AuthExhausted v (v <| v_tasks ::= alter (fun k => k <| k_consumed := w |>) i |>)).
  { apply after_update; try done; intros ?; by split_and!. }
  destruct Hup as [U1 U2 _ U4]. set (v0 := set v_tasks _ v) in *. clearbody v0. cbn in U4. rewrite orb_false_r in U4.
  assert (Hv1 : live (v0 <| v_last_consumed := total |>)) by (destruct U1; by constructor).
  set (v1 := set v_last_consumed _ v0) in *.
  assert (Hl1 : login_ok v1) by by apply (login_told v).
  apply wp_bind. eapply (wp_mono _ (fun _ => settled) _ (fun _ => dead)); [| |done].
  - apply wp_when; intros Hd0; [|done].
    eapply wp_mono; [apply (quiet_arm (SOp_consumed (v_active_channel v)
      (if delta <=? U32_MAX then delta else U32_MAX)) v1 v1); try done| |done].
    + cbn. unfold U32_MAX. destruct (_ <=? _); lia.
    + cbv beta. tauto.
  - cbv beta. intros _ v2 [H1 H2]. apply wp_bind, wp_when; intros _; [apply wp_modify|]; apply wp_ret;
      (split; [|done]); [by apply live_consumed_rx|done].
Qed.

(** Output that arrives: its bytes are in flight. *)
Lemma out_data_wp o q (data : bytes) v :
  settled v -> fifo_items (v_out_rx v) = o :: fifo_items q -> out_bytes o = len data ->
  forall op, makes_events op = false -> growth op = len data -> args_ok op (session v) ->
  wp (let* n := checked U64_MAX (v_out_inflight v + len data) in
      v_out_inflight <-! n ;;;
      on_session (s_run op) ;;;
      ret Continue) (fun _ => settled) (fun _ => dead) (v <| v_out_rx := q |>).
Proof.
  intros [Hv Hl] Hq Ho op Hm Hg Ha. pose proof (len_nonneg data) as Hn.
  pose proof Hv as [L1 L2 L3 L4 L5 L6 L7]. unfold buffered in L2. rewrite Hq in L2.
  change (load (o :: fifo_items q)) with (out_bytes o + load (fifo_items q)) in L2.
  pose proof (load_nonneg (fifo_items q)) as Hld. pose proof (chan_held_nonneg _ _ L1) as Hch.
  assert (Hgr : 0 <= granted (v_tasks v)).
  { clear -L5. induction L5 as [|k ks [K _] _ IH]; [done|]. cbn [granted fold_right]. unfold granted in IH. lia. }
  unfold permits_max in L3.
  apply wp_bind, wp_checked; [lia|]. cbv beta. apply wp_bind, wp_modify, wp_bind, on_session_wp_v.
  set (v1 := set v_out_inflight _ _). change (session v1) with (session v).
  assert (Hw := quiet_call_wp op _ L1 Hm Ha ltac:(lia)).
  eapply wp_mono; [exact (wp_stays _ _ _ _ _ (told_run op Hm) Hw)| |]; cbv beta.
  - intros [] s0 [[[S1 S2] S3] _]. apply wp_ret. pose proof S3 as Ht. injection Ht as E1 E2.
    split; [|by apply (login_told v)].
    apply (live_session v); try done; [by left| |].
    + unfold buffered. rewrite Hq. change (session (with_session v1 s0)) with s0.
      change (v_out_rx (with_session v1 s0)) with q.
      change (v_out_inflight (with_session v1 s0)) with (v_out_inflight v + len data).
      change (load (o :: fifo_items q)) with (out_bytes o + load (fifo_items q)). lia.
    + change (v_out_inflight (with_session v1 s0)) with (v_out_inflight v + len data). lia.
  - intros e s0 [_ Ht]. injection Ht as E1 E2. by apply (dead_session v).
Qed.

Lemma out_arm_wp o q v :
  settled v -> fifo_recv (v_out_rx v) = Some (o, q) ->
  wp (out_arm o q) (fun _ => settled) (fun _ => dead) v.
Proof.
  intros Hs Hq. apply items_recv in Hq. unfold out_arm. do 4 wp_step.
  change (v_out_inflight (v <| v_out_rx := q |>)) with (v_out_inflight v).
  change (v_active_channel (v <| v_out_rx := q |>)) with (v_active_channel v).
  destruct o as [data|data|status].
  - by apply (out_data_wp (O_Stdout data) q data v Hs Hq eq_refl (SOp_stdout (v_active_channel v) data)).
  - by apply (out_data_wp (O_Stderr data) q data v Hs Hq eq_refl (SOp_stderr (v_active_channel v) data)).
  - destruct Hs as [Hv Hl].
    assert (Hv1 : live (v <| v_out_rx := q |>)).
    { apply (live_session v); try done; [by left|apply (l_session _ Hv)| |apply (l_inflight _ Hv)].
      unfold buffered. rewrite Hq.
      change (load (O_Exit status :: fifo_items q)) with (0 + load (fifo_items q)).
      change (v_out_rx (v <| v_out_rx := q |>)) with q.
      change (session (v <| v_out_rx := q |>)) with (session v).
      change (v_out_inflight (v <| v_out_rx := q |>)) with (v_out_inflight v). lia. }
    apply wp_bind. eapply wp_mono; [apply (quiet_arm (SOp_exit (v_active_channel v) status) v _ Hv1); done| |done].
    cbv beta. intros _ v' [? _]. by apply wp_ret.
Qed.

(** Input: the session's events are all there, and the loop has not looked yet. *)
Lemma announced_auth (s s' : ServerConnection H) :
  announced s s' -> is_Some (s_authenticated s) -> is_Some (s_authenticated s').
Proof. intros (l & _ & [->|[? _]]); done. Qed.

Lemma dead_announced v s :
  announced (session v) s -> dead v -> dead (with_session v s).
Proof.
  intros Ha [He [P1 P2]]. split; [exact He|]. split; [exact P1|]. intros Hn.
  apply (announced_auth (session v)); auto.
Qed.

Lemma input_serve data v (Q : unit -> Serve H RP Hd -> Prop) :
  settled v -> s_op_ok (SOp_input data) (session v) ->
  (forall s, ServerConnection.on_input data (session v) = (Ok tt, s) ->
     live (with_session v s) -> login_pending (with_session v s) -> Q tt (with_session v s)) ->
  wp (on_session (ServerConnection.on_input data)) Q (fun _ => dead) v.
Proof.
  intros [Hv [Hl1 Hl2]] Ho HQ. apply on_session_wp_v.
  pose proof (announced_input data (session v)) as Ha.
  pose proof (input_wp data _ (l_session _ Hv) Ho) as Hw. unfold wp in *.
  destruct (ServerConnection.on_input data (session v)) as [[[]|e| |] s] eqn:E; try done; cbn in Ha.
  2:{ apply dead_announced; [exact Ha|apply Hv]. }
  destruct Hw as (S1 & S2 & _). apply HQ; [done| |].
  - pose proof (dead_announced v s Ha (l_dead _ Hv)) as Hdead.
    destruct Hv as [L1 L2 L3 L4 L5 L6 L7]. constructor; try done.
    unfold buffered in *. change (session (with_session v s)) with s.
    change (v_tasks (with_session v s)) with (v_tasks v). cbn. lia.
  - destruct Ha as (l & E1 & E2). rewrite Hl2 in E1. split; change (session (with_session v s)) with s;
      change (v_authenticated (with_session v s)) with (v_authenticated v); rewrite Hl1;
      unfold ServerConnection.is_authenticated; case_bool_decide as Hs; try done.
    + intros _. destruct E2 as [->|[? _]]; done.
    + by left.
    + intros Hx. destruct E2 as [E2|[_ [u Hu]]]; [by rewrite E2 in Hx|]. right. exists u. by rewrite E1.
Qed.

Lemma read_arm_wp now r v :
  settled v -> read_ok config instant_max now r v ->
  wp (read_arm config ctx peer instant_max now r)
    (fun f v' => live v' /\ (f = Continue -> login_ok v')) (fun _ => dead) v.
Proof.
  intros Hs Hr. unfold read_arm. pose proof Hs as [Hv Hl].
  assert (Hstop : wp (E := DriveError) (ret Return) (fun f v' => live v' /\ (f = Continue -> login_ok v')) (fun _ => dead) v)
    by by split.
  unfold Driver.read_once. destruct r as [data|e]; cbn [read_ok] in Hr.
  2:{ unfold bind, on_driver, zoom. destruct (is_disconnect e); cbn; destruct v; [exact Hstop|apply Hv]. }
  destruct Hr as (R1 & R2 & R3 & R4 & R5 & R6). destruct (len data =? 0).
  { unfold bind, on_driver, zoom. cbn. by destruct v. }
  assert (Hsplit : forall (k : bool -> M DriveError (Serve H RP Hd) Flow) Q,
    wp (on_session (ServerConnection.on_input data) ;;; k true) Q (fun _ => dead) v ->
    wp (let* more := on_driver (Driver.on_session (session_on_input data) ;;; ret true) in k more)
      Q (fun _ => dead) v).
  { intros k Q Hw. unfold wp, bind, on_session, on_driver, zoom in *. cbn in *.
    by destruct (Driver.on_session (ServerConnection.on_input data) (v_driver v)) as [[[]|e| |] d]. }
  apply Hsplit, wp_bind, input_serve; [done|by split|]. intros s Hi Hv1 Hl1. cbn [negb].
  rewrite Hi in R4. cbn in R4. apply wp_bind.
  assert (Hidle : forall t, live ((with_session v s) <| v_idle_deadline := t |>)).
  { intros t. destruct Hv1. by constructor. }
  eapply (wp_mono _ (fun _ v1 => live v1 /\ login_pending v1 /\ session v1 = s /\ v_tasks v1 = v_tasks v /\
    v_retry v1 = v_retry v) _ (fun _ => dead)); [| |done].
  { destruct (idle_timeout config) as [d|]; [|by split_and!].
    apply wp_bind, wp_checked; [lia|]. cbv beta. apply wp_modify. split_and!; [apply Hidle|exact Hl1|done..]. }
  cbv beta. intros _ v1 (Hv2 & Hl2 & Hs2 & Ht2 & Hy2). apply wp_bind.
  eapply wp_mono; [apply (drain_events_wp _ now v1 Hv2)| |done].
  - by rewrite Hy2.
  - exact Hl2.
  - by rewrite Hs2.
  - by rewrite Hs2, Ht2.
  - cbv beta. intros f v2 [Hv3 Hc]. destruct f; [|by apply wp_ret..]. do 2 wp_step. apply wp_ret.
    split; [done|]. intros _. by apply Hc.
Qed.

(** ** The handlers *)
Lemma endpoint_live {B} i (m : M ErrorKind (Endpoint Hd) B) v :
  stays handled m -> (live v -> live (on_endpoint i m v)) /\ (dead v -> dead (on_endpoint i m v)).
Proof.
  intros Hm. unfold on_endpoint. destruct (v_tasks v !! i) as [k|] eqn:Hk; [|done].
  set (e := mkEndpoint k (v_out_rx v) (v_out_open v)). destruct (Hm e) as [F Hc].
  set (e' := snd (m e)) in *. clearbody e'. unfold fixed in F. cbn in F. injection F as F1 F2 F3 F4 F5 _.
  set (v1 := set v_out_rx _ _).
  assert (Ht : v_tasks v1 = <[i := e_task e']> (v_tasks v)) by done.
  assert (Hdead : dead v -> dead v1).
  { apply (dead_insert i k (e_task e')); try done. by rewrite F1, F2, F3, F4, F5. }
  split; [|exact Hdead]. intros [L1 L2 L3 L4 L5 L6 L7].
  destruct (Hc (Forall_lookup_1 _ _ _ _ L5 Hk)) as [K C1]. unfold charge in C1. cbn in C1.
  assert (Hl : len (v_tasks v1) = len (v_tasks v)) by (unfold len; by rewrite Ht, length_insert).
  constructor; rewrite ?Hl; try done; [| | |by apply Hdead].
  - rewrite Ht, (granted_insert i k) by done. unfold buffered in *.
    change (session v1) with (session v). change (v_out_rx v1) with (e_out e').
    change (v_out_inflight v1) with (v_out_inflight v). lia.
  - rewrite Ht. by apply Forall_insert.
  - rewrite Ht, length_insert. exact L6.
Qed.

Lemma endpoint_login {B} i (m : M ErrorKind (Endpoint Hd) B) v :
  (login_ok v -> login_ok (on_endpoint i m v)) /\ holds (on_endpoint i m v) = holds v.
Proof. unfold on_endpoint. by destruct (v_tasks v !! i). Qed.

Lemma handled_run o : stays handled (handler_run (Hd := Hd) o).
Proof.
  destruct o; cbn [handler_run].
  - apply stays_bind; [typeclasses eauto|apply handled_read|]. intros. apply stays_ret. typeclasses eauto.
  - apply stays_bind; [typeclasses eauto|apply handled_write|]. intros. apply stays_ret. typeclasses eauto.
  - apply stays_bind; [typeclasses eauto|apply handled_chunks|]. intros. apply stays_ret. typeclasses eauto.
  - apply handled_clone.
  - apply handled_drop_reader.
Qed.

(** ** Every step *)
Lemma dead_trimmed v v' :
  trimmed v v' -> ends_ok (length (v_tasks v')) v' -> dead v -> dead v'.
Proof.
  intros Ht He [_ [P1 P2]]. split; [done|]. split; [by apply (tr_registered _ _ Ht)|].
  rewrite (session_driver _ _ (tr_driver _ _ Ht)). intros Hn. apply P2.
  eapply nonempty_length; [apply (tr_length _ _ Ht)|done].
Qed.

Lemma dead_drop_all v : dead v -> dead (drop_all v) /\ holds (drop_all v) = (None, None, None).
Proof.
  intros Hd0. unfold drop_all. set (w := drop_stdin _).
  assert (Ht : trimmed v w).
  { unfold w. etransitivity; [apply trimmed_handler|]. etransitivity; [apply trimmed_resize|].
    etransitivity; [apply trimmed_budget|apply trimmed_stdin]. }
  assert (Hw : dead w).
  { apply (dead_trimmed v); [done| |done]. rewrite (tr_length _ _ Ht).
    apply ends_stdin, ends_budget, ends_resize, ends_handler, Hd0. }
  split; [by apply (dead_session w)|]. change (holds w = (None, None, None)). unfold w.
  rewrite holds_stdin. pose proof (holds_budget (drop_resize (drop_handler v))) as E1.
  pose proof (holds_resize (drop_handler v)) as E2. pose proof (holds_handler v) as E3.
  unfold holds in *. congruence.
Qed.

Definition vinv (c : now_phase) : Prop :=
  let '(_, ph, v) := c in
  match ph with
  | AtFlush | AtSelect => settled v
  | AtLastFlush => live v
  | Ended o => dead v /\ holds v = (None, None, None) /\ (o = Ok tt \/ exists e, o = Err e)
  end.

Lemma vinv_end now o v : (o = Ok tt \/ exists e, o = Err e) -> dead v -> vinv (now, fst (end_with o v), snd (end_with o v)).
Proof. intros Ho Hv. cbn. by destruct (dead_drop_all v Hv). Qed.

Lemma vinv_after now (m : M DriveError (Serve H RP Hd) Flow) next v p v' :
  wp m (fun f v' => live v' /\ (f = Continue -> login_ok v')) (fun _ => dead) v ->
  next = AtFlush \/ next = AtSelect -> after_arm next (m v) = (p, v') -> vinv (now, p, v').
Proof.
  intros Hw Hn. unfold wp in Hw. destruct (m v) as [[f|e| |] v1]; try done; cbn [after_arm].
  - destruct Hw as [Hv Hl]. destruct f; intros E.
    + injection E as <- <-. specialize (Hl eq_refl). by destruct Hn as [-> | ->].
    + injection E as <- <-. apply (vinv_end now (Ok tt)); [by left|apply Hv].
    + by injection E as <- <-.
  - intros E. injection E as <- <-. apply (vinv_end now (Err e)); [by right; eexists|done].
Qed.

Lemma settled_arm (m : M DriveError (Serve H RP Hd) Flow) v :
  wp m (fun _ => settled) (fun _ => dead) v ->
  wp m (fun f v' => live v' /\ (f = Continue -> login_ok v')) (fun _ => dead) v.
Proof. intros Hw. eapply wp_mono; [exact Hw| |done]. cbv beta. intros f v' [? ?]. by split. Qed.

Lemma serve_step_vinv c c' :
  serve_step config ctx peer instant_max c c' -> vinv c -> vinv c'.
Proof.
  intros Hst Hv. destruct Hst as
    [now w v p v' E|now ph v Hp _ _|now ph v Hp _ _|now i k alive v p v' Hi Hk Hw E|now r v p v' Hr E
    |now o q v p v' Hq E|now w v|now ph i o v|now ph i k status v Hi Hk|now ph i k v Hi Hk|now now' ph v Hn].
  - refine (vinv_after now _ _ v _ _ _ _ E); [|by right]. by apply settled_arm, flush_arm_wp.
  - apply vinv_end; [by left|]. destruct Hp as [-> | ->]; apply Hv.
  - apply vinv_end; [by left|]. destruct Hp as [-> | ->]; apply Hv.
  - refine (vinv_after now _ _ v _ _ _ _ E); [|by left]. by apply settled_arm, consumed_arm_wp.
  - refine (vinv_after now _ _ v _ _ _ _ E); [|by left]. by apply read_arm_wp.
  - refine (vinv_after now _ _ v _ _ _ _ E); [|by left]. by apply settled_arm, out_arm_wp.
  - unfold last_flush. pose proof (last_flush_wp w v Hv) as Hw. unfold wp in Hw.
    destruct ((on_driver (Driver.flush w) ;;; ret Return) v) as [[f|e| |] v1]; try done; cbn [after_arm].
    + destruct Hw as [-> Hl]. apply vinv_end; [by left|apply Hl].
    + apply vinv_end; [by right; eexists|done].
  - pose proof (endpoint_live i _ v (handled_run o)) as [E1 E2].
    pose proof (endpoint_login i (handler_run o) v) as [E3 E4].
    destruct ph; cbn in *; rewrite ?E4; intuition.
  - pose proof (endpoint_live i _ v (handled_exit status)) as [E1 E2].
    pose proof (endpoint_login i (ChannelSession.exit status) v) as [E3 E4].
    destruct ph; cbn in *; rewrite ?E4; intuition.
  - assert (E1 : dead v -> dead (v <| v_tasks ::= <[i := k <| k_running := false |>]> |>)).
    { by apply (dead_insert i k (k <| k_running := false |>)). }
    assert (E2 : live v -> live (v <| v_tasks ::= <[i := k <| k_running := false |>]> |>)).
    { intros Hl. apply (live_trimmed v); [done| | |done].
      - eapply (trimmed_alter (fun k => k <| k_running := false |>) i); [intros ?; by split_and!| |done..].
        symmetry. exact (alter_insert (fun k => k <| k_running := false |>) i k (v_tasks v) Hi).
      - by apply E1, Hl. }
    destruct ph; cbn in *; intuition.
  - exact Hv.
Qed.

(** ** Reachable states *)

(** A connection that has not been fed yet. *)
Definition fresh (s : ServerConnection H) : Prop :=
  sreachable s /\ s_channel s = None /\ s_authenticated s = None /\ s_events s = [].

Definition serve_reachable (c : now_phase) : Prop :=
  exists now s r, fresh s /\ steps (serve_step config ctx peer instant_max) (now, AtFlush, start config now s r) c.

Lemma start_settled now s r : 0 <= permits_max -> fresh s -> settled (start (T := T) (Hd := Hd) config now s r).
Proof.
  intros Hp (F1 & F2 & F3 & F4). split.
  - constructor; try done.
    + by apply sreachable_sinv.
    + change (0 + (load (fifo_items fifo_new) + Z.max 0 (chan_held s)) <= out_limit * 0).
      rewrite items_new. unfold chan_held. rewrite F2. cbn. lia.
    + change (out_limit * 0 <= permits_max). lia.
    + intros i [Hi|Hi]; done.
  - split; [|exact F4]. cbn. unfold ServerConnection.is_authenticated. cbn. by rewrite F3.
Qed.

Lemma serve_reachable_vinv c : 0 <= permits_max -> serve_reachable c -> vinv c.
Proof.
  intros Hp (now & s & r & Hf & Hst). eapply steps_invariant; [apply serve_step_vinv|exact Hst|].
  exact (start_settled now s r Hp Hf).
Qed.
End Loop.
