(* ===== verification/ServeDemo.v ===== *)
(** Executed connections of the serve loop, over the toy algorithms and the plain queues:
    the client of [SessionDemo] logs in and runs programs.  The states are recorded values;
    the kernel replays the arms of the loop, which shows each state reachable. *)
From stdpp Require Import gmap.
From S2P Require Import Prelude Errors Wire Packet Version Crypto Kex Algo Cipher Compress.
From S2P Require Import Connection Auth Transport TransportFrames TransportBytes TransportInv.
From S2P Require Import TransportSteps Server ServerInv ServerSteps Client ClientSteps SessionDemo.
From S2P Require Import Limits Policy Driver Exec ExecInv Serve ServeCalls ServeTasks ServeInv.

Module Serving.
Import Toy.
(** Two programs; a handler is its number. *)
Definition ctx : ExecContext nat := Eval vm_compute in
  ExecContext.on_exec (str "one") 1%nat (ExecContext.on_exec (str "two") 2%nat ExecContext.new).
Definition instant_max : Z := seconds 1000000.
Definition state : Type := Serve (T := plain_tokio) unit NoRetryReaction nat.

Definition flush (v : state) : Serve.Phase * state :=
  Serve.after_arm Serve.AtSelect (Serve.flush_arm Written v).
Definition read (data : bytes) (v : state) : Serve.Phase * state :=
  Serve.after_arm Serve.AtFlush (Serve.read_arm default_config ctx None instant_max 0 (Read data) v).
Definition out (v : state) : Serve.Phase * state :=
  match fifo_recv (v_out_rx v) with
  | Some (o, q) => Serve.after_arm Serve.AtFlush (Serve.out_arm o q v)
  | None => (Serve.AtSelect, v)
  end.

(** The handshake and the login of [Session], with a flush between the reads. *)
Definition v0 : state := Eval vm_compute in Serve.start default_config 0 Session.s0 no_retry_reaction.
Definition f0 : state := Eval vm_compute in snd (flush v0).
Definition v1 : state := Eval vm_compute in snd (read (Session.c_out Session.c0) f0).
Definition f1 : state := Eval vm_compute in snd (flush v1).
Definition v2 : state := Eval vm_compute in snd (read (Session.c_out Session.c1) f1).
Definition f2 : state := Eval vm_compute in snd (flush v2).
Definition v3 : state := Eval vm_compute in snd (read (Session.c_out Session.c2) f2).
Definition f3 : state := Eval vm_compute in snd (flush v3).
Definition v4 : state := Eval vm_compute in snd (read (Session.c_out Session.c3) f3).
Definition f4 : state := Eval vm_compute in snd (flush v4).

(** Packets of the client that has logged in. *)
Definition c_send (ps : list bytes) (c : ClientConnection (DemoUser crypto)) : ClientConnection (DemoUser crypto) :=
  snd (mfor ps ClientConnection.send_raw_packet (snd (ClientConnection.clear_output c))).

(** A program; it ends, and before the loop looks the client has closed the channel,
    opened another one and started a second program on it. *)
Definition c_one : ClientConnection (DemoUser crypto) := Eval vm_compute in
  c_send [channel_open_session 0; channel_request_exec 0 true (str "one")] Session.c4.
Definition v5 : state := Eval vm_compute in snd (read (Session.c_out c_one) f4).
Definition x5 : state := Eval vm_compute in Serve.on_endpoint 0 (ChannelSession.exit 7) v5.
Definition f5 : state := Eval vm_compute in snd (flush x5).
Definition c_two : ClientConnection (DemoUser crypto) := Eval vm_compute in
  c_send [channel_close 0; channel_open_session 0; channel_request_exec 0 true (str "two")] c_one.
Definition v6 : state := Eval vm_compute in snd (read (Session.c_out c_two) f5).
Definition f6 : state := Eval vm_compute in snd (flush v6).
Definition v7 : state := Eval vm_compute in snd (out f6).

(** A program and input for it, without a channel. *)
Definition c_stray : ClientConnection (DemoUser crypto) := Eval vm_compute in
  c_send [channel_request_exec 0 true (str "one"); channel_data 0 [1; 2; 3]] Session.c4.
Definition w5 : state := Eval vm_compute in snd (read (Session.c_out c_stray) f4).
End Serving.

(** * The states are reachable *)
Section Reach.
Context `{C : Crypto} {H : Type} `{A : !ServerAuthHandler H}.
Context {RP : Type} `{R : !RetryPolicy RP} `{!RetryOk RP} `{T : Tokio} {Hd : Type}.
Context (config : ServeConfig) (ctx : ExecContext Hd) (peer : option SocketAddr) (instant_max : Z).
Implicit Types v : Serve H RP Hd.
Import Serve.
Abbreviation reach := (serve_reachable config ctx peer instant_max).

Lemma reach_step c c' : reach c -> serve_step config ctx peer instant_max c c' -> reach c'.
Proof.
  intros (now & s & r & Hf & Hst) Hs. exists now, s, r. split; [done|]. by eapply steps_snoc.
Qed.

Lemma reach_flush now v v' :
  reach (now, AtFlush, v) -> after_arm AtSelect (flush_arm Written v) = (AtSelect, v') ->
  reach (now, AtSelect, v').
Proof. intros Hv E. by eapply reach_step; [|econstructor]. Qed.

Definition read_okb (now : Z) (data : bytes) v : bool :=
  all_bytes data && (len data <=? READ_BUF) &&
  (s_auth_requests (session v) +
     len (t_events (snd (Transport.on_input data (s_transport (session v))))) <=? U32_MAX) &&
  (out_limit config *
     (len (v_tasks v) + len (s_events (snd (ServerConnection.on_input data (session v)))))
   <=? permits_max) &&
  match idle_timeout config with Some d => (0 <=? now + d) && (now + d <=? instant_max) | None => true end.

Lemma read_okb_ok now data v : read_okb now data v = true -> retry_ready now (v_retry v) -> read_ok config instant_max now (Read data) v.
Proof.
  unfold read_okb. rewrite !andb_true_iff. intros ((((R1 & R2) & R3) & R4) & R5) Hy.
  unfold read_ok. split_and!; [by apply all_bytes_ok|lia..| |exact Hy].
  destruct (idle_timeout config); [|done]. apply andb_true_iff in R5. lia.
Qed.

Lemma reach_read now data v v' :
  reach (now, AtSelect, v) -> read_okb now data v = true -> retry_ready now (v_retry v) ->
  after_arm AtFlush (read_arm config ctx peer instant_max now (Read data) v) = (AtFlush, v') ->
  reach (now, AtFlush, v').
Proof.
  intros Hv Hr Hy E. eapply reach_step; [exact Hv|]. eapply S_read; [by apply read_okb_ok|exact E].
Qed.

Lemma reach_out now o q v v' :
  reach (now, AtSelect, v) -> fifo_recv (v_out_rx v) = Some (o, q) ->
  after_arm AtFlush (out_arm o q v) = (AtFlush, v') -> reach (now, AtFlush, v').
Proof. intros Hv Hq E. eapply reach_step; [exact Hv|]. by eapply S_out. Qed.
End Reach.

Ltac ran ph v := vm_cast_no_check (@eq_refl (Serve.Phase * Serving.state) (ph, v)).
Ltac step_flush ctx v v' :=
  apply (reach_flush (C := Toy.crypto) default_config ctx None Serving.instant_max 0 v v');
  [|ran Serve.AtSelect v'].
Ltac step_read ctx data v v' :=
  apply (reach_read (C := Toy.crypto) default_config ctx None Serving.instant_max 0 data v v');
  [|vm_cast_no_check (@eq_refl bool true)|exact I|ran Serve.AtFlush v'].

Abbreviation serving_with ctx := (serve_reachable (C := Toy.crypto) (RP := NoRetryReaction) (T := plain_tokio)
  default_config ctx None Serving.instant_max).
Abbreviation serving := (serving_with Serving.ctx).

Lemma session_s0 : sreachable (C := Toy.crypto) Session.s0.
Proof.
  exists 9, Session.host_key, tt, Session.s0. split; [|apply steps_refl].
  vm_cast_no_check (@eq_refl (outcome SshError unit * ServerConnection (C := Toy.crypto) unit) (Ok tt, Session.s0)).
Qed.

(** The login does not depend on the registry. *)
Lemma serving_f4 (ctx : ExecContext nat) : serving_with ctx (0, Serve.AtSelect, Serving.f4).
Proof.
  step_flush ctx Serving.v4 Serving.f4. step_read ctx (Session.c_out Session.c3) Serving.f3 Serving.v4.
  step_flush ctx Serving.v3 Serving.f3. step_read ctx (Session.c_out Session.c2) Serving.f2 Serving.v3.
  step_flush ctx Serving.v2 Serving.f2. step_read ctx (Session.c_out Session.c1) Serving.f1 Serving.v2.
  step_flush ctx Serving.v1 Serving.f1. step_read ctx (Session.c_out Session.c0) Serving.f0 Serving.v1.
  step_flush ctx Serving.v0 Serving.f0.
  exists 0, Session.s0, no_retry_reaction. split; [|apply steps_refl].
  split; [exact session_s0|]. by split_and!.
Qed.

Lemma serving_v5 : serving (0, Serve.AtFlush, Serving.v5).
Proof. step_read Serving.ctx (Session.c_out Serving.c_one) Serving.f4 Serving.v5. exact (serving_f4 _). Qed.

Lemma serving_v7 : serving (0, Serve.AtFlush, Serving.v7).
Proof.
  apply (reach_out (C := Toy.crypto) default_config Serving.ctx None Serving.instant_max 0 (O_Exit 7) fifo_new Serving.f6);
    [|reflexivity|ran Serve.AtFlush Serving.v7].
  step_flush Serving.ctx Serving.v6 Serving.f6. step_read Serving.ctx (Session.c_out Serving.c_two) Serving.f5 Serving.v6.
  step_flush Serving.ctx Serving.x5 Serving.f5.
  eapply reach_step; [exact serving_v5|].
  change Serving.x5 with (Serve.on_endpoint 0 (ChannelSession.exit 7) Serving.v5).
  by eapply Serve.S_exit.
Qed.

Lemma serving_w5 : serving (0, Serve.AtFlush, Serving.w5).
Proof. step_read Serving.ctx (Session.c_out Serving.c_stray) Serving.f4 Serving.w5. exact (serving_f4 _). Qed.
