(* ===== verification/ServeProps.v ===== *)
(** What the serve loop guarantees: it never panics, a client that stops reading bounds the
    output that waits for it, only registered programs of an authenticated user run, no
    handler outlives the connection, and the login timer guards the right connections; and
    two ways in which what belongs to one program reaches another or escapes its window. *)
From stdpp Require Import gmap.
From S2P Require Import Prelude Errors Wire Packet Version Crypto Kex Algo Cipher Compress.
From S2P Require Import Connection Auth Transport TransportFrames TransportBytes TransportInv.
From S2P Require Import TransportSteps Server ServerInv ServerSteps Client ClientSteps SessionDemo.
From S2P Require Import Limits Policy Driver Exec ExecInv Serve ServeCalls ServeTasks ServeInv ServeDemo.

Section Reachable.
Context `{C : Crypto} `{!CryptoOk C} `{!FlateOk C} `{!OctetsOk C}.
Context {H : Type} `{A : !ServerAuthHandler H} `{!SteadyCaps H}.
Context {RP : Type} `{R : !RetryPolicy RP} `{!RetryOk RP} `{T : Tokio} `{!TokioOk T} {Hd : Type}.
Context (config : ServeConfig) (ctx : ExecContext Hd) (peer : option SocketAddr) (instant_max : Z).
Implicit Types v : Serve H RP Hd.
Import Serve.
Abbreviation reach := (serve_reachable config ctx peer instant_max).


(** C24. Only what the registry allows runs, and only for an authenticated user: every task
    that the loop has ever spawned is the handler that the context gives for its command,
    for a shell or for its subsystem, and when there is one a user has been authenticated. *)
Theorem programs_authorized now ph v k :
  0 <= permits_max -> reach (now, ph, v) -> k ∈ v_tasks v ->
  registered ctx k /\ is_Some (s_authenticated (session v)).
Proof.
  intros Hp Hr Hk. pose proof (serve_reachable_vinv _ _ _ _ _ Hp Hr) as Hv.
  assert (Hd0 : dead ctx v) by (destruct ph; cbn in Hv; apply Hv).
  destruct Hd0 as [_ [P1 P2]]. split.
  { apply list_elem_of_lookup in Hk as [i Hk]. by eapply Forall_lookup_1. }
  apply P2. intros E. rewrite E in Hk. by apply not_elem_of_nil in Hk.
Qed.

(** C25. No handler outlives what it serves: at any time each task that the loop does not
    hold any more has been aborted, the budgets it does not hold are closed and the inputs
    it does not hold have ended; and when the loop has ended, for whatever reason, this
    is so for every task. *)
Theorem handlers_torn_down now ph v i k :
  0 <= permits_max -> reach (now, ph, v) -> v_tasks v !! i = Some k ->
  (v_handler_task v = Some i \/ k_aborted k = true) /\
  (v_out_budget v = Some i \/ budget_closed (k_budget k) = true) /\
  (v_stdin_tx v = Some i \/ k_stdin_open k = false) /\
  (forall o, ph = Ended o ->
     k_aborted k = true /\ budget_closed (k_budget k) = true /\ k_stdin_open k = false).
Proof.
  intros Hp Hr Hk. pose proof (serve_reachable_vinv _ _ _ _ _ Hp Hr) as Hv.
  assert (Hd0 : dead ctx v) by (destruct ph; cbn in Hv; apply Hv).
  destruct Hd0 as [(E1 & E2 & E3) _]. apply lookup_lt_Some in Hk as Hi.
  pose proof (E1 i k Hk Hi) as M1. pose proof (E2 i k Hk Hi) as M2. pose proof (E3 i k Hk Hi) as M3.
  split_and!; try done. intros o ->. cbn in Hv. destruct Hv as (_ & Hn & _). injection Hn as N1 N2 N3.
  rewrite N1 in M1. rewrite N2 in M2. rewrite N3 in M3.
  destruct M1 as [?|M1], M2 as [?|M2], M3 as [?|M3]; done.
Qed.

(** C26. The loop never panics: whatever the peer sends, the socket does and the handlers
    write, a connection ends by returning, with [Ok] or with the error of the socket or
    of the protocol. *)
Theorem serve_never_panics now o v :
  0 <= permits_max -> reach (now, Ended o, v) -> o = Ok tt \/ exists e, o = Err e.
Proof. intros Hp Hr. by pose proof (serve_reachable_vinv _ _ _ _ _ Hp Hr) as (_ & _ & Ho). Qed.

(** The login timer guards the connections that it should: wherever the loop waits, its
    flag says whether the session has a user; so the connection of a client that has not
    logged in can be ended by the timer once its time is over, and no other can. *)
Lemma login_timer_exact now ph v :
  0 <= permits_max -> reach (now, ph, v) -> ph = AtFlush \/ ph = AtSelect ->
  v_authenticated v = ServerConnection.is_authenticated (session v) /\
  (s_authenticated (session v) = None -> v_login_deadline v <= now ->
   serve_step config ctx peer instant_max (now, ph, v) (now, Ended (Ok tt), drop_all v)).
Proof.
  intros Hp Hr Hph. pose proof (serve_reachable_vinv _ _ _ _ _ Hp Hr) as Hv.
  assert (Hl : login_ok v) by (destruct Hph as [-> | ->]; apply Hv).
  destruct Hl as [Hl _]. split; [done|]. intros Hn Hd0.
  apply (S_login config ctx peer instant_max now ph v); [done| |done].
  rewrite Hl. unfold ServerConnection.is_authenticated. by rewrite Hn.
Qed.
End Reachable.

(** * Two defects *)

(** A program's leftovers reach the next one: in a reachable state a second program runs,
    not aborted and not ended, on a channel of its own, and this channel has been closed
    with the exit status that the first program left in the shared queue. *)
Lemma stale_output_crosses :
  exists v : Serving.state, serving (0, Serve.AtFlush, v) /\
    (exists k1 k2, v_tasks v = [k1; k2] /\ k_command k2 = str "two" /\ k_running k2 = true /\
       k_aborted k2 = false /\ v_handler_task v = Some 1%nat) /\
    (exists ch, s_channel (Serve.session v) = Some ch /\ ch_exit_status ch = Some 7 /\ ch_sent_close ch = true).
Proof.
  exists Serving.v7. split; [exact serving_v7|]. split; [|by eexists].
  do 2 eexists. split; [reflexivity|]. by split_and!.
Qed.

(** Input without a window: in a reachable state there is no channel, so no receive window
    limits the client, and yet bytes that it has sent are queued for a running program. *)
Lemma stdin_without_window :
  exists v : Serving.state, serving (0, Serve.AtFlush, v) /\ s_channel (Serve.session v) = None /\
    exists k, v_tasks v = [k] /\ k_running k = true /\ unread k = [1; 2; 3] /\ v_stdin_tx v = Some 0%nat.
Proof.
  exists Serving.w5. split; [exact serving_w5|]. split; [done|].
  eexists. split; [reflexivity|]. by split_and!.
Qed.


Lemma programs_authorized_witness :
  exists k, k ∈ v_tasks Serving.v5 /\ registered Serving.ctx k /\
    is_Some (s_authenticated (Serve.session Serving.v5)).
Proof.
  destruct (v_tasks Serving.v5) as [|k ks] eqn:E; [discriminate E|]. exists k.
  assert (Hk : k ∈ v_tasks Serving.v5) by (rewrite E; by left).
  split; [by left|]. apply (@programs_authorized Toy.crypto Toy.crypto_ok Toy.flate_ok Toy.octets_ok unit demo_policy
    demo_policy_steady NoRetryReaction no_retry_policy no_retry_ok plain_tokio plain_tokio_ok nat default_config
    Serving.ctx None Serving.instant_max 0 Serve.AtFlush);
    [vm_compute; congruence|exact serving_v5|exact Hk].
Defined.

Lemma handlers_torn_down_witness :
  exists k, v_tasks Serving.v7 !! 0%nat = Some k /\ k_aborted k = true.
Proof.
  destruct (v_tasks Serving.v7 !! 0%nat) as [k|] eqn:E; [|discriminate E]. exists k. split; [done|].
  assert (Hw := @handlers_torn_down Toy.crypto Toy.crypto_ok Toy.flate_ok Toy.octets_ok unit demo_policy
    demo_policy_steady NoRetryReaction no_retry_policy no_retry_ok plain_tokio plain_tokio_ok nat default_config
    Serving.ctx None Serving.instant_max 0 Serve.AtFlush Serving.v7 0%nat k ltac:(vm_compute; congruence)
    serving_v7 E).
  destruct Hw as [[Hw|Hw] _]; [discriminate Hw|exact Hw].
Defined.

Lemma serve_never_panics_witness :
  (Ok tt : outcome DriveError unit) = Ok tt \/ exists e, (Ok tt : outcome DriveError unit) = Err e.
Proof.
  apply (@serve_never_panics Toy.crypto Toy.crypto_ok Toy.flate_ok Toy.octets_ok unit demo_policy
    demo_policy_steady NoRetryReaction no_retry_policy no_retry_ok plain_tokio plain_tokio_ok nat default_config
    Serving.ctx None Serving.instant_max 0 (Ok tt) (Serve.drop_all Serving.f4));
    [vm_compute; congruence|].
  eapply reach_step; [exact (serving_f4 _)|].
  apply (Serve.S_read default_config Serving.ctx None Serving.instant_max 0 (ReadFailed ConnectionReset) Serving.f4);
    [exact I|reflexivity].
Defined.

Lemma login_timer_exact_witness :
  v_authenticated Serving.f4 = true.
Proof.
  assert (Hw := @login_timer_exact Toy.crypto Toy.crypto_ok Toy.flate_ok Toy.octets_ok unit demo_policy
    demo_policy_steady NoRetryReaction no_retry_policy no_retry_ok plain_tokio plain_tokio_ok nat default_config
    Serving.ctx None Serving.instant_max 0 Serve.AtSelect Serving.f4 ltac:(vm_compute; congruence)
    (serving_f4 _) (or_intror eq_refl)).
  destruct Hw as [Hw _]. rewrite Hw. reflexivity.
Defined.
