(* ===== verification/Listener.v ===== *)
(** The accept loop: [Defense] and [serve_listener] of [ssh-io/serve.rs].  The whole server is
    a step relation: a connection arrives and passes the gates or does not, a connection
    that is being served takes a step of its loop, one that has ended gives its slot back.
    The policies are handles on a store that all of them share. *)
From stdpp Require Import gmap.
From S2P Require Import Prelude Errors Wire Packet Version Crypto Kex Algo Cipher Compress.
From S2P Require Import Connection Auth Transport Server ServerSteps Client Limits Policy Float64 Rate Driver.
From S2P Require Import Exec ExecInv Serve ServeFrame ServeCalls ServeTasks ServeInv.

(** [Defense]; [D] is what the clones of its policies share. *)
Record Defense `{S : Semaphore} {D : Type} := mkDefense {
  d_serve : ServeConfig;
  d_connections : ConnectionLimiter;
  d_rate : RateLimiter;
  d_policy : ConnectionPolicy D;
  d_retry : RetryPolicy D
}.
Arguments Defense {S} D.
Arguments mkDefense {S D} _ _ _ _ _.
#[export] Instance eta_Defense `{S : Semaphore} {D} : Eta (Defense D) := fun d =>
  mkDefense (d_serve d) (d_connections d) (d_rate d) (d_policy d) (d_retry d).

Module Defense.
Section Defense.
Context `{S : Semaphore} {D : Type}.

(** [AllowAll] and [NoRetryReaction] hold no state. *)
Definition new (connections : ConnectionLimiter) (rate : RateLimiter) : Defense D :=
  mkDefense default_config connections rate (fun _ _ => ret Accept)
    {| on_auth_exhausted _ _ := ret tt; on_authenticated _ := ret tt |}.
Definition with_serve_config (serve : ServeConfig) (d : Defense D) : Defense D := d <| d_serve := serve |>.
Definition with_policy (policy : ConnectionPolicy D) (d : Defense D) : Defense D := d <| d_policy := policy |>.
Definition with_retry (retry : RetryPolicy D) (d : Defense D) : Defense D := d <| d_retry := retry |>.
End Defense.
End Defense.

(** A spawned task: its guard and its [serve_with]. *)
Record Served `{C : Crypto} {H D : Type} `{T : Tokio} {Hd : Type} := mkServed {
  sv_peer : SocketAddr;
  sv_guard : ConnectionGuard;
  sv_phase : Serve.Phase;
  sv_loop : Serve H D Hd
}.
Arguments Served {C} H D {T} Hd.
Arguments mkServed {C H D T Hd} _ _ _ _.
#[export] Instance eta_Served `{C : Crypto} {H D} `{T : Tokio} {Hd} : Eta (Served H D Hd) := fun c =>
  mkServed (sv_peer c) (sv_guard c) (sv_phase c) (sv_loop c).

(** The state behind the handles, the tasks, and whether [accept] has not failed. *)
Record Listener `{C : Crypto} {H D : Type} `{T : Tokio} {Hd : Type} `{S : Semaphore} := mkListener {
  ln_connections : ConnectionLimiter;
  ln_rate : RateLimiter;
  ln_shared : D;
  ln_served : list (Served H D Hd);
  ln_accepting : bool
}.
Arguments Listener {C} H D {T} Hd {S}.
Arguments mkListener {C H D T Hd S} _ _ _ _ _.
#[export] Instance eta_Listener `{C : Crypto} {H D} `{T : Tokio} {Hd} `{S : Semaphore} : Eta (Listener H D Hd) :=
  fun l => mkListener (ln_connections l) (ln_rate l) (ln_shared l) (ln_served l) (ln_accepting l).

Module Listener.
Section Listener.
Context `{C : Crypto} {H : Type} `{A : !ServerAuthHandler H} `{S : Semaphore} {D : Type}.
Context (d : Defense D) {RO : RetryOk (R := d_retry d) D} `{T : Tokio} {Hd : Type}.
Context (ctx : ExecContext Hd) (instant_max : Z) (make_connection : SocketAddr -> ServerConnection H -> Prop).
Abbreviation Listener := (Listener H D Hd).
Abbreviation LM := (M unit Listener).

Definition on_connections {B} (m : M unit ConnectionLimiter B) : LM B :=
  zoom ln_connections (fun c l => l <| ln_connections := c |>) m.
Definition on_rate {B} (m : M unit RateLimiter B) : LM B :=
  zoom ln_rate (fun r l => l <| ln_rate := r |>) m.
Definition on_shared {B} (m : M unit D B) : LM B :=
  zoom ln_shared (fun s l => l <| ln_shared := s |>) m.

(** The gates; [None] is a [continue]. *)
Definition gates (now : Z) (peer : SocketAddr) : LM (option ConnectionGuard) :=
  let* acquired := on_rate (RateLimiter.try_acquire now) in
  if negb acquired then ret None
  else
    let* decision := on_shared (d_policy d now peer) in
    match decision with
    | Reject => ret None
    | Accept => on_connections (ConnectionLimiter.try_admit (sa_ip peer))
    end.

(** The task of an admitted connection. *)
Definition spawn (now : Z) (peer : SocketAddr) (guard : ConnectionGuard) (s : ServerConnection H) (l : Listener)
  : Listener :=
  l <| ln_served ::= cons (mkServed peer guard Serve.AtFlush (Serve.start (d_serve d) now s (ln_shared l))) |>.

Definition serve_listener (shared : D) : Listener :=
  mkListener (d_connections d) (d_rate d) shared [] true.

(** A connection arrives at least once in 285 million years. *)
Definition clock_ok (now : Z) (l : Listener) : Prop :=
  bk_last (rl_inner (ln_rate l)) <= now < bk_last (rl_inner (ln_rate l)) + LONGEST.

(** The server.  A task works on the shared store, and drops its guard when its future ends. *)
Inductive listener_step : Z * Listener -> Z * Listener -> Prop :=
| L_refused now peer l l' :
    ln_accepting l = true -> clock_ok now l -> gates now peer l = (Ok None, l') ->
    listener_step (now, l) (now, l')
| L_admitted now peer guard s l l' :
    ln_accepting l = true -> clock_ok now l -> gates now peer l = (Ok (Some guard), l') ->
    make_connection peer s ->
    listener_step (now, l) (now, spawn now peer guard s l')
| L_failed now l :
    listener_step (now, l) (now, l <| ln_accepting := false |>)
| L_serve now i c ph v l :
    ln_served l !! i = Some c ->
    Serve.serve_step (R := d_retry d) (d_serve d) ctx (Some (sv_peer c)) instant_max
      (now, sv_phase c, (sv_loop c) <| v_retry := ln_shared l |>) (now, ph, v) ->
    listener_step (now, l)
      (now, l <| ln_shared := v_retry v |>
              <| ln_served ::= <[i := c <| sv_phase := ph |> <| sv_loop := v |>]> |>)
| L_ended now i c o k l :
    ln_served l !! i = Some c -> sv_phase c = Serve.Ended o ->
    ConnectionLimiter.drop_guard (sv_guard c) (ln_connections l) = (Ok tt, k) ->
    listener_step (now, l) (now, l <| ln_connections := k |> <| ln_served ::= delete i |>)
| L_time now now' l :
    now <= now' -> listener_step (now, l) (now', l).
End Listener.
End Listener.
