(* ===== verification/ListenerProps.v ===== *)
(** What the accept loop guarantees for the server as a whole: its caps and its memory, that
    a banned address stays out, and that a peer that nothing speaks against is served. *)
From stdpp Require Import gmap.
From Stdlib Require Import QArith Lqa.
From S2P Require Import Prelude Errors Wire Packet Version Crypto Kex Algo Cipher Compress.
From S2P Require Import Connection Auth Transport TransportFrames TransportBytes TransportInv TransportSteps.
From S2P Require Import Server ServerInv ServerSteps Client Limits Policy Float64 Rate Driver.
From S2P Require Import Exec ExecInv Serve ServeFrame ServeCalls ServeTasks ServeInv SessionDemo ServeDemo Listener.
#[local] Open Scope Z_scope.

(** What the loop relies on: a policy's decision is returned. *)
Class PolicyReturns {D : Type} (policy : ConnectionPolicy D) : Prop :=
  policy_returns now peer s : exists decision s', policy now peer s = (Ok decision, s').

(** * The sessions *)
Section Sessions.
Context `{C : Crypto} {H : Type} `{A : !ServerAuthHandler H} `{S : Semaphore} {D : Type}.
Context (d : Defense D) {RO : RetryOk (R := d_retry d) D} `{T : Tokio} {Hd : Type}.
Context (ctx : ExecContext Hd) (instant_max : Z) (make_connection : SocketAddr -> ServerConnection H -> Prop).
Context (Rs : ServerConnection H -> ServerConnection H -> Prop) `{!PreOrder Rs} (Hc : calls_respect Rs).
Implicit Types l : Listener H D Hd.
Import Listener.

Lemma gates_served now peer : keeps (fun l => (ln_served l, ln_accepting l)) (gates (Hd := Hd) (H := H) d now peer).
Proof. unfold gates, on_rate, on_shared, on_connections. keeps_auto. Qed.

(** The session of a task is one that was made for its peer, some calls later. *)
Definition from_made (c : Served H D Hd) : Prop :=
  exists s, make_connection (sv_peer c) s /\ Rs s (Serve.session (sv_loop c)).

Lemma Forall_delete {B} (P : B -> Prop) i (cs : list B) : Forall P cs -> Forall P (delete i cs).
Proof. intros HP. rewrite delete_take_drop. apply Forall_app_2; [by apply Forall_take|by apply Forall_drop]. Qed.

Lemma listener_step_made x x' :
  listener_step d ctx instant_max make_connection x x' ->
  Forall from_made (ln_served (snd x)) -> Forall from_made (ln_served (snd x')).
Proof.
  intros Hst Hf. inversion Hst; subst; cbn [snd] in *; try done.
  - match goal with Hg : gates _ _ _ _ = _ |- _ => pose proof (gates_served now peer l) as Hk; rewrite Hg in Hk end.
    injection Hk as -> _. done.
  - match goal with Hg : gates _ _ _ _ = _ |- _ => pose proof (gates_served now peer l) as Hk; rewrite Hg in Hk end.
    injection Hk as Hk _. cbn. rewrite Hk. constructor; [|done]. by exists s.
  - apply Forall_insert; [done|].
    destruct (Forall_lookup_1 _ _ i c Hf) as (s & Hm & Hs); [done|]. exists s. split; [done|].
    match goal with Hv : Serve.serve_step _ _ _ _ _ _ |- _ =>
      apply (serve_step_moved (R := d_retry d) _ _ _ _ _ anything Rs) in Hv;
        [etransitivity; [exact Hs|apply Hv]|apply hooks_anything|done] end.
  - by apply Forall_delete.
Qed.

Lemma sessions_made shared now0 x :
  steps (listener_step d ctx instant_max make_connection) (now0, serve_listener d shared) x ->
  Forall from_made (ln_served (snd x)).
Proof.
  intros Hst. eapply (steps_invariant (listener_step d ctx instant_max make_connection)
    (fun x => Forall from_made (ln_served (snd x)))); [|exact Hst|by apply Forall_nil].
  intros x1 x2 Hs Hf. by eapply listener_step_made.
Qed.
End Sessions.

Section Whole.
Context `{C : Crypto} `{!CryptoOk C} `{!FlateOk C} `{!OctetsOk C}.
Context {H : Type} `{A : !ServerAuthHandler H} `{!SteadyCaps H} `{S : Semaphore} `{!SemaphoreOk S} {D : Type}.
Context (d : Defense D) {RO : RetryOk (R := d_retry d) D} `{!PolicyReturns (d_policy d)}.
Context `{T : Tokio} `{!TokioOk T} {Hd : Type}.
Context (ctx : ExecContext Hd) (instant_max : Z) (make_connection : SocketAddr -> ServerConnection H -> Prop).
Context (max_global : Z) (per_ip_max : option Z).
Implicit Types l : Listener H D Hd.
Import Listener.

(** The configuration is sensible, and a connection is fresh. *)
Record sound_start (now : Z) : Prop := {
  ss_connections : d_connections d = ConnectionLimiter.new max_global per_ip_max;
  ss_global : 0 <= max_global <= U64_MAX;
  ss_per_ip : forall max, per_ip_max = Some max -> 0 <= max;
  ss_bucket : bucket_ok (d_rate d);
  ss_clock : bk_last (rl_inner (d_rate d)) = now;
  ss_made : forall peer s, make_connection peer s -> fresh s;
  ss_permits : 0 <= Serve.permits_max
}.

(** The guards that are alive, and the loops. *)
Definition guards l : list ConnectionGuard := List.map sv_guard (ln_served l).
Definition loop_ok (c : Served H D Hd) : Prop := vinv (d_serve d) ctx (0, sv_phase c, sv_loop c).

Record linv (now : Z) l : Prop := {
  li_world : world_inv max_global (mkWorld _ (ln_connections l) (guards l));
  li_per_ip : l_per_ip_max (ln_connections l) = per_ip_max;
  li_ip : Forall (fun c => g_ip (sv_guard c) = sa_ip (sv_peer c)) (ln_served l);
  li_loops : Forall loop_ok (ln_served l);
  li_bucket : bucket_ok (ln_rate l);
  li_capacity : rl_capacity (ln_rate l) = rl_capacity (d_rate d);
  li_rate : rl_rate_per_sec (ln_rate l) = rl_rate_per_sec (d_rate d);
  li_clock : bk_last (rl_inner (ln_rate l)) <= now
}.

(** ** The gates *)

Lemma try_admit_ip ip k g k' : ConnectionLimiter.try_admit ip k = (Ok (Some g), k') -> g_ip g = ip.
Proof.
  unfold ConnectionLimiter.try_admit, ConnectionLimiter.acquire, bind, get, modify, ret, checked.
  destruct (l_per_ip_max k) as [max|]; [destruct (max <=? _); [done|]|]; cbn;
    destruct (try_acquire _); cbn; try done; [|by intros [= <-]].
  destruct (_ && _); cbn; [|done]. by intros [= <-].
Qed.

(** What passing the gates, or not, leaves. *)
Record gated (now : Z) (peer : SocketAddr) l (o : option ConnectionGuard) l' : Prop := {
  ga_served : ln_served l' = ln_served l;
  ga_accepting : ln_accepting l' = ln_accepting l;
  ga_world : world_inv max_global
    (mkWorld _ (ln_connections l') (match o with Some g => g :: guards l | None => guards l end));
  ga_per_ip : l_per_ip_max (ln_connections l') = per_ip_max;
  ga_ip : forall g, o = Some g -> g_ip g = sa_ip peer;
  ga_bucket : bucket_ok (ln_rate l');
  ga_capacity : rl_capacity (ln_rate l') = rl_capacity (d_rate d);
  ga_rate : rl_rate_per_sec (ln_rate l') = rl_rate_per_sec (d_rate d);
  ga_last : bk_last (rl_inner (ln_rate l')) = now
}.

Lemma acquire_at now0 now l :
  linv now0 l -> clock_ok now l ->
  exists b r, RateLimiter.try_acquire now (ln_rate l) = (Ok b, r) /\ bucket_ok r /\
    rl_capacity r = rl_capacity (d_rate d) /\ rl_rate_per_sec r = rl_rate_per_sec (d_rate d) /\
    bk_last (rl_inner r) = now.
Proof.
  intros Hi Hc. destruct (try_acquire_spec 52 now (ln_rate l) (li_bucket _ _ Hi)) as (b & r & E & H1 & H2 & H3 & H4 & _);
    [lia|apply (li_bucket _ _ Hi)|exact Hc|].
  exists b, r. rewrite H3, H4, (li_capacity _ _ Hi), (li_rate _ _ Hi). done.
Qed.

Lemma gates_spec now0 now peer l :
  max_global <= U64_MAX -> linv now0 l -> clock_ok now l ->
  exists o l', gates d now peer l = (Ok o, l') /\ gated now peer l o l'.
Proof.
  intros Hmax Hi Hc. destruct (acquire_at now0 now l Hi Hc) as (b & r & Er & B1 & B2 & B3 & B4).
  unfold gates, bind, on_rate, zoom. rewrite Er. destruct b; cbn [negb].
  2:{ eexists None, _. split; [reflexivity|]. destruct Hi. by constructor. }
  unfold on_shared, zoom. cbn [ln_shared set].
  destruct (policy_returns (policy := d_policy d) now peer (ln_shared l)) as (dec & s' & Ep). rewrite Ep.
  destruct dec.
  2:{ eexists None, _. split; [reflexivity|]. destruct Hi. by constructor. }
  unfold on_connections, zoom. cbn [ln_connections set].
  pose proof (try_admit_wp max_global (sa_ip peer) (ln_connections l) (guards l) Hmax (li_world _ _ Hi)) as Hw.
  unfold wp in Hw. destruct (ConnectionLimiter.try_admit (sa_ip peer) (ln_connections l)) as [[o|?| |] k] eqn:Ea; try done.
  destruct Hw as [W1 W2]. eexists o, _. split; [reflexivity|]. constructor; try done.
  - cbn. rewrite W1. apply (li_per_ip _ _ Hi).
  - intros g ->. by eapply try_admit_ip.
Qed.

(** ** Every step *)

Lemma vinv_retry ph (v : Serve H D Hd) r : vinv (d_serve d) ctx (0, ph, v) -> vinv (d_serve d) ctx (0, ph, v <| v_retry := r |>).
Proof.
  assert (Hd0 : dead ctx v -> dead ctx (v <| v_retry := r |>)) by by apply dead_session.
  destruct ph as [| | |o]; cbn.
  1, 2: intros [Hl Hg]; split; [by apply live_retry|exact Hg].
  - by apply live_retry.
  - intros (Hv & Hh & Ho). by split_and!; [apply Hd0|..].
Qed.

Lemma serve_keeps_loop now (c : Served H D Hd) ph v r :
  loop_ok c ->
  Serve.serve_step (R := d_retry d) (d_serve d) ctx (Some (sv_peer c)) instant_max
    (now, sv_phase c, (sv_loop c) <| v_retry := r |>) (now, ph, v) ->
  loop_ok (c <| sv_phase := ph |> <| sv_loop := v |>).
Proof.
  intros Hc Hs. unfold loop_ok in *. cbn.
  exact (serve_step_vinv (R := d_retry d) _ _ _ _ _ _ Hs (vinv_retry _ _ r Hc)).
Qed.

Lemma guards_insert i c c' (cs : list (Served H D Hd)) :
  cs !! i = Some c -> sv_guard c' = sv_guard c -> List.map sv_guard (<[i := c']> cs) = List.map sv_guard cs.
Proof.
  intros Hi Hg. change (sv_guard <$> <[i := c']> cs = sv_guard <$> cs).
  rewrite list_fmap_insert, Hg. apply list_insert_id. by rewrite list_lookup_fmap, Hi.
Qed.

Lemma listener_step_linv now l now' l' :
  max_global <= U64_MAX -> 0 <= Serve.permits_max -> (forall peer s, make_connection peer s -> fresh s) ->
  listener_step d ctx instant_max make_connection (now, l) (now', l') -> linv now l -> linv now' l'.
Proof.
  intros Hmax Hp Hmk Hst Hi. inversion Hst; subst; clear Hst.
  - destruct (gates_spec now' now' peer l Hmax Hi) as (o & l1 & E & G); [done|].
    match goal with Hg : gates _ _ _ _ = _ |- _ => rewrite E in Hg; injection Hg as -> -> end.
    destruct G, Hi. constructor; try congruence; unfold guards in *; try lia; by rewrite ga_served0.
  - destruct (gates_spec now' now' peer l Hmax Hi) as (o & l1 & E & G); [done|].
    match goal with Hg : gates _ _ _ _ = _ |- _ => rewrite E in Hg; injection Hg as -> -> end.
    destruct G, Hi. unfold guards, spawn in *.
    constructor; cbn; rewrite ?ga_served0; try done; try lia.
    + constructor; [by apply ga_ip0|done].
    + constructor; [|done].
      exact (start_settled (d_serve d) ctx now' s _ Hp (Hmk _ _ ltac:(eassumption))).
  - destruct Hi. by constructor.
  - destruct Hi as [W P I L B1 B2 B3 B4]. constructor; unfold guards in *; cbn; try done.
    + by rewrite (guards_insert i c).
    + apply Forall_insert; [done|]. by eapply (Forall_lookup_1 _ _ _ c) in I.
    + apply Forall_insert; [done|]. eapply serve_keeps_loop; [|eassumption]. by eapply Forall_lookup_1.
  - destruct Hi as [W P I L B1 B2 B3 B4].
    match goal with Hc : ln_served l !! i = Some c |- _ => pose proof (take_drop_middle _ _ _ Hc) as Hsp; rename Hc into Hi end.
    assert (Hg : guards l = List.map sv_guard (take i (ln_served l)) ++ sv_guard c :: List.map sv_guard (drop (Datatypes.S i) (ln_served l))).
    { unfold guards. rewrite <- Hsp at 1. by rewrite List.map_app. }
    rewrite Hg in W. pose proof (drop_guard_wp max_global (sv_guard c) _ _ _ Hmax W) as Hw. unfold wp in Hw.
    match goal with Hd0 : ConnectionLimiter.drop_guard _ _ = _ |- _ => rewrite Hd0 in Hw end. destruct Hw as [Hw1 Hw2].
    constructor; unfold guards in *; cbn; try done; [|congruence|by apply Forall_delete|by apply Forall_delete].
    rewrite delete_take_drop, List.map_app. exact Hw2.
  - destruct Hi. constructor; try done. lia.
Qed.

Definition reaches (now0 : Z) (shared : D) (now : Z) l : Prop :=
  sound_start now0 /\ steps (listener_step d ctx instant_max make_connection) (now0, serve_listener d shared) (now, l).

Lemma reaches_linv now0 shared now l : reaches now0 shared now l -> linv now l.
Proof.
  intros [[S1 S2 S3 S4 S5 S6 S7] Hst].
  change (let x := (now, l) in linv (fst x) (snd x)). cbv zeta.
  eapply (steps_invariant (listener_step d ctx instant_max make_connection) (fun x => linv (fst x) (snd x)));
    [|exact Hst|].
  - intros [n1 l1] [n2 l2] Hs. apply listener_step_linv; [lia|done|done|exact Hs].
  - cbn. constructor; cbn; try done; [|by rewrite S1|lia].
    rewrite S1. by destruct (admission_inv max_global per_ip_max [] _ S2 S3 (steps_refl _ _)).
Qed.

(** ** The whole server *)

(** The connections of an address; what waits for a client; the programs of a connection. *)
Definition served_from (ip : IpAddr) l : Z :=
  len (List.filter (fun c => bool_decide (sa_ip (sv_peer c) = ip)) (ln_served l)).
Definition waiting (c : Served H D Hd) : Z :=
  match sv_phase c with
  | Serve.Ended _ => 0
  | _ => load (fifo_items (v_out_rx (sv_loop c))) + chan_held (Serve.session (sv_loop c))
  end.
Definition programs (c : Served H D Hd) : Z := len (v_tasks (sv_loop c)).
Definition total (f : Served H D Hd -> Z) l : Z := fold_right (fun c n => f c + n) 0 (ln_served l).

Lemma served_from_guards ip l :
  Forall (fun c => g_ip (sv_guard c) = sa_ip (sv_peer c)) (ln_served l) -> served_from ip l = from_ip ip (guards l).
Proof.
  unfold served_from, from_ip, guards. induction 1 as [|c cs Hc _ IH]; [done|].
  cbn [List.map List.filter]. rewrite Hc. destruct (bool_decide _); [|done]. len_lia.
Qed.

Lemma total_le (f g : Served H D Hd -> Z) l :
  (forall c, c ∈ ln_served l -> f c <= g c) -> total f l <= total g l.
Proof.
  unfold total. induction (ln_served l) as [|c cs IH]; intros Hf; cbn [fold_right]; [lia|].
  pose proof (Hf c ltac:(by left)). specialize (IH ltac:(intros; apply Hf; by right)). lia.
Qed.
Lemma total_scale (f : Served H D Hd -> Z) n l : total (fun c => n * f c) l = n * total f l.
Proof. unfold total. induction (ln_served l) as [|c cs IH]; cbn [fold_right]; lia. Qed.
Lemma total_const n l : total (fun _ => n) l = n * len (ln_served l).
Proof.
  unfold total. induction (ln_served l) as [|c cs IH]; cbn [fold_right]; [len_lia|]. rewrite len_cons. lia.
Qed.

Lemma waiting_le (c : Served H D Hd) : loop_ok c -> waiting c <= Serve.out_limit (d_serve d) * programs c.
Proof.
  unfold loop_ok, waiting, programs. pose proof (out_limit_pos (d_serve d)) as Ho. unfold MAX_RESERVE in Ho.
  pose proof (len_nonneg (v_tasks (sv_loop c))) as Hn.
  destruct (sv_phase c); cbn; [intros [Hl _]|intros [Hl _]|intros Hl|intros _; nia]; by apply live_output in Hl.
Qed.

Lemma linv_bounded now l :
  linv now l ->
  len (ln_served l) <= max_global /\
  (forall max ip, per_ip_max = Some max -> served_from ip l <= max) /\
  total waiting l <= Serve.out_limit (d_serve d) * total programs l.
Proof.
  intros [(_ & Hn & _ & Hm) P I L _ _ _ _].
  cbn [w_guards w_limiter] in *. assert (Hlen : len (guards l) = len (ln_served l)) by (unfold guards, len; by rewrite List.length_map).
  split; [lia|]. split.
  - intros max ip ->. rewrite served_from_guards by done. rewrite P in Hm. by apply Hm.
  - rewrite <- total_scale. apply total_le. intros c Hc. apply waiting_le.
    apply list_elem_of_lookup in Hc as [i Hc]. by eapply Forall_lookup_1.
Qed.


(** ** Nobody is kept out without a reason *)

Lemma try_admit_free ip k gs :
  max_global <= U64_MAX -> world_inv max_global (mkWorld _ k gs) -> len gs < max_global ->
  (forall max, l_per_ip_max k = Some max -> from_ip ip gs < max) ->
  exists g k', ConnectionLimiter.try_admit ip k = (Ok (Some g), k').
Proof.
  intros Hmax (Ha & _ & _ & Hm) Hn Hf. cbn in Ha, Hm.
  unfold ConnectionLimiter.try_admit, ConnectionLimiter.acquire, bind, get, modify, ret.
  assert (Hs : exists s, try_acquire (l_global k) = Some s).
  { destruct (try_acquire (l_global k)) eqn:E; [by eexists|]. apply try_acquire_none in E. lia. }
  destruct Hs as [s Hs]. destruct (l_per_ip_max k) as [max|].
  - destruct Hm as [_ Hm]. destruct (Hm ip) as [Hc _]. rewrite Hc. specialize (Hf max eq_refl).
    pose proof (from_ip_bound ip gs). destruct (Z.leb_spec max (from_ip ip gs)); [lia|].
    cbn [l_global set]. rewrite Hs. cbn [negb]. unfold checked.
    replace ((0 <=? from_ip ip gs + 1) && (from_ip ip gs + 1 <=? U64_MAX)) with true by lia. by eexists _, _.
  - rewrite Hs. by eexists _, _.
Qed.

(** C21. A peer is served unless something speaks against it: in every reachable state of a
    server whose burst is at least one, a connection that the policy accepts is admitted
    when a slot is free, in all and for its address, and one token has accrued since the
    last connection. *)
Theorem free_slot_served now0 shared now l t peer :
  reaches now0 shared now l -> now <= t -> clock_ok t l ->
  (1 <= val (rl_capacity (d_rate d)))%Q ->
  (1 + p2 (-49) <= secs (t - bk_last (rl_inner (ln_rate l))) * val (rl_rate_per_sec (d_rate d)))%Q ->
  fst (d_policy d t peer (ln_shared l)) = Ok Accept ->
  len (ln_served l) < max_global ->
  (forall max, per_ip_max = Some max -> served_from (sa_ip peer) l < max) ->
  exists guard l', gates d t peer l = (Ok (Some guard), l').
Proof.
  intros Hr Ht Hc H1 Hw Hd0 Hn Hf. pose proof (reaches_linv _ _ _ _ Hr) as Hi. destruct Hr as [[S1 S2 S3 S4 S5 S6 S7] _].
  destruct (try_acquire_spec 52 t (ln_rate l) (li_bucket _ _ Hi)) as (b & r & E & _ & _ & _ & _ & _ & Hb);
    [lia|apply (li_bucket _ _ Hi)|exact Hc|]. rewrite (li_capacity _ _ Hi), (li_rate _ _ Hi) in Hb.
  unfold gates, bind, on_rate, zoom. rewrite E, (Hb H1 Hw). cbn [negb].
  unfold on_shared, zoom. cbn [ln_shared set].
  destruct (d_policy d t peer (ln_shared l)) as [o s']. cbn in Hd0. subst o.
  unfold on_connections, zoom. cbn [ln_connections set].
  destruct (try_admit_free (sa_ip peer) (ln_connections l) (guards l)) as (g & k & ->);
    [lia|apply (li_world _ _ Hi)| | |by eexists _, _].
  - unfold guards, len in *. by rewrite List.length_map.
  - intros max. rewrite (li_per_ip _ _ Hi). intros E2.
    rewrite <- served_from_guards by apply (li_ip _ _ Hi). by apply Hf.
Qed.
End Whole.

#[export] Instance fail2ban_returns : PolicyReturns fail2ban_connection.
Proof.
  intros now peer f. destruct (is_banned_eq now (sa_ip peer) f) as (f' & E & _).
  exists (if rejected now (sa_ip peer) f then Reject else Accept), f'.
  unfold fail2ban_connection, bind. by rewrite E.
Qed.

(** * Bans *)
Section Bans.
Context `{C : Crypto} {H : Type} `{A : !ServerAuthHandler H} `{S : Semaphore} (base : Defense Fail2Ban).
Context `{T : Tokio} {Hd : Type}.
Context (ctx : ExecContext Hd) (instant_max : Z) (make_connection : SocketAddr -> ServerConnection H -> Prop).
Implicit Types (l : Listener H Fail2Ban Hd) (f : Fail2Ban).
Import Listener.

(** A [Fail2Ban] wired in twice: both handles work on its one table. *)
Definition with_fail2ban : Defense Fail2Ban :=
  Defense.with_retry (fail2ban_retry instant_max) (Defense.with_policy fail2ban_connection base).

(** The table bans the address until [until] at least. *)
Definition banned (ip : IpAddr) (until : Z) f : Prop :=
  exists r u, fb_state f !! ip = Some r /\ banned_until r = Some u /\ until <= u.

Definition still_banned (ip : IpAddr) (until : Z) f f' : Prop := banned ip until f -> banned ip until f'.
#[export] Instance still_banned_preorder ip until : PreOrder (still_banned ip until).
Proof. split; [by intros f Hf|]. intros f1 f2 f3 H1 H2 Hf. by apply H2, H1. Qed.

(** The connections of other addresses change nothing about it. *)
Lemma exhausted_isolated now ip until p :
  now < until -> sa_ip p <> ip -> stays (still_banned ip until) (Fail2Ban.exhausted instant_max now p).
Proof.
  intros Hn Hp f (r & u & Hr & Hb & Hu).
  assert (Hst : fb_state (snd (Fail2Ban.exhausted instant_max now p f)) !! ip =
    Fail2Ban.gc now (fb_ban_duration f) (fb_state f) !! ip).
  { unfold Fail2Ban.exhausted, bind, get, modify, checked, ret, panic.
    destruct (_ <=? _); [destruct (_ && _)|]; cbn; by rewrite ?lookup_insert_ne by done. }
  exists r, u. split; [|done]. rewrite Hst, gc_lookup, Hr. unfold Fail2Ban.live. rewrite Hb.
  by replace (now <? u) with true by lia.
Qed.

Lemma hooks_isolated now ip until p :
  now < until -> sa_ip p <> ip ->
  hooks_respect (R := fail2ban_retry instant_max) (Some p) now (still_banned ip until).
Proof.
  intros Hn Hp q [= <-]. split; [by apply exhausted_isolated|].
  intros f (r & u & Hr & Hb & Hu). exists r, u. split; [|done]. cbn. by rewrite lookup_delete_ne.
Qed.

(** A banned address does not pass the gates, whoever knocks the ban stays. *)
Lemma evaluate_banned now ip until p f :
  now < until -> banned ip until f ->
  exists decision f', evaluate now p f = (Ok decision, f') /\ banned ip until f' /\ (sa_ip p = ip -> decision = Reject).
Proof.
  intros Hn (r & u & Hr & Hb & Hu).
  unfold evaluate, fail2ban_connection, Fail2Ban.is_banned, bind, get, modify, ret.
  destruct (decide (sa_ip p = ip)) as [->|Hp].
  - rewrite Hr, Hb. replace (now <? u) with true by lia. eexists _, _. split; [reflexivity|].
    split; [by exists r, u|done].
  - destruct (fb_state f !! sa_ip p) as [r'|]; [|eexists _, _; split; [reflexivity|]; by split; [exists r, u|]].
    destruct (banned_until r') as [u'|]; [|eexists _, _; split; [reflexivity|]; by split; [exists r, u|]].
    destruct (now <? u'); (eexists _, _; split; [reflexivity|]; split; [|done]); exists r, u; [done|].
    split; [|done]. cbn. by rewrite lookup_delete_ne.
Qed.

Lemma gates_banned now ip until p l o l' :
  now < until -> banned ip until (ln_shared l) -> gates with_fail2ban now p l = (Ok o, l') ->
  ln_served l' = ln_served l /\ banned ip until (ln_shared l') /\ (sa_ip p = ip -> o = None).
Proof.
  intros Hn Hb. unfold gates, bind, on_rate, on_shared, on_connections, zoom.
  destruct (RateLimiter.try_acquire now (ln_rate l)) as [[[]|?| |] r]; cbn [negb]; try done; [|by intros [= <- <-]].
  cbn [ln_shared set]. change (d_policy with_fail2ban now p (ln_shared l)) with (evaluate now p (ln_shared l)).
  destruct (evaluate_banned now ip until p (ln_shared l) Hn Hb) as (dec & f' & -> & Hb' & Hr).
  destruct dec; [|by intros [= <- <-]]. cbn [ln_connections set].
  destruct (ConnectionLimiter.try_admit (sa_ip p) (ln_connections l)) as [o' k]. intros [= -> <-].
  split; [done|]. split; [done|]. intros Hp. by specialize (Hr Hp).
Qed.

(** None of its connections is open. *)
Definition away (ip : IpAddr) l : Prop := Forall (fun c => sa_ip (sv_peer c) <> ip) (ln_served l).

(** C22. A ban keeps an address out: once none of its connections is open and the table bans
    it, then whatever everybody else does, as long as the ban lasts none of its connections
    is admitted and the ban stands. *)
Theorem banned_stay_out ip until now1 l1 now2 l2 :
  away ip l1 -> banned ip until (ln_shared l1) ->
  steps (listener_step with_fail2ban (RO := fail2ban_ok instant_max) ctx instant_max make_connection) (now1, l1) (now2, l2) ->
  now2 < until -> away ip l2 /\ banned ip until (ln_shared l2).
Proof.
  intros Ha Hb Hst.
  change (let x := (now2, l2) in fst x < until -> away ip (snd x) /\ banned ip until (ln_shared (snd x))). cbv zeta.
  eapply (steps_invariant (listener_step with_fail2ban (RO := fail2ban_ok instant_max) ctx instant_max make_connection)
    (fun x => fst x < until -> away ip (snd x) /\ banned ip until (ln_shared (snd x)))); [|exact Hst|done].
  clear. intros [n1 l] [n2 l'] Hs Hp Hn. cbn [fst snd] in *. unfold away in *.
  inversion Hs; subst; clear Hs; try (destruct (Hp ltac:(lia)) as [Ha Hb]; clear Hp).
  - match goal with Hg : gates _ _ _ _ = _ |- _ => destruct (gates_banned _ _ _ _ _ _ _ Hn Hb Hg) as (-> & ? & _) end. done.
  - match goal with Hg : gates _ _ _ _ = _ |- _ => destruct (gates_banned _ _ _ _ _ _ _ Hn Hb Hg) as (E & ? & Hip) end.
    split; [|done]. unfold spawn. cbn. rewrite E. constructor; [|done]. cbn. intros Hx. by specialize (Hip Hx).
  - done.
  - match goal with Hc : ln_served l !! i = Some c |- _ => pose proof (Forall_lookup_1 _ _ _ _ Ha Hc) as Hne end.
    split; [by apply Forall_insert|]. cbn.
    match goal with Hv : Serve.serve_step _ _ _ _ _ _ |- _ =>
      apply (serve_step_moved (R := fail2ban_retry instant_max) _ _ _ _ _ (still_banned ip until) anything) in Hv;
        [apply Hv, Hb|by apply hooks_isolated|apply calls_anything] end.
  - split; [|done]. by apply Forall_delete.
  - done.
Qed.
End Bans.

(** * A server with two slots *)
Module Accepting.
Import Toy Counting.
Definition start_time : Z := seconds 10.
Definition defense : Defense Fail2Ban :=
  with_fail2ban (Defense.new (ConnectionLimiter.new 2 (Some 1))
    (RateLimiter.new start_time (f64_of_Z 2) (f64_of_Z 1))) Serving.instant_max.
(** [SocketAddr]s of three hosts. *)
Definition alice : SocketAddr := mkSocketAddr (V4 1) 1000.
Definition bob : SocketAddr := mkSocketAddr (V4 2) 2000.
Definition mallory : SocketAddr := mkSocketAddr (V4 3) 3000.
Definition made (peer : SocketAddr) (s : ServerConnection unit) : Prop := s = Session.s0.
Definition table : Fail2Ban :=
  mkFail2Ban {[ V4 3 := mkBanRecord 3 (Some (seconds 60)) (seconds 5) ]} 6 3 (seconds 55).
Definition server : Type := Listener (C := crypto) unit Fail2Ban (T := plain_tokio) nat (S := Counting.semaphore).

Definition l0 : server := Listener.serve_listener defense table.
Definition l1 : server := Listener.spawn defense start_time alice (mkGuard (V4 1) true) Session.s0
  (snd (Listener.gates defense start_time alice l0)).
Definition l2 : server := snd (Listener.gates defense (seconds 20) mallory l1).
End Accepting.
Import Toy Counting Accepting.

Abbreviation accept_step := (Listener.listener_step defense (RO := fail2ban_ok Serving.instant_max)
  (A := demo_policy) (T := plain_tokio) Serving.ctx Serving.instant_max made).
#[local] Ltac gates_ran o l := vm_cast_no_check (@eq_refl (outcome unit (option ConnectionGuard) * server) (Ok o, l)).

Lemma accepting_l1 : accept_step (start_time, l0) (start_time, l1).
Proof.
  apply (Listener.L_admitted defense Serving.ctx Serving.instant_max made start_time alice (mkGuard (V4 1) true) Session.s0 l0).
  - done.
  - split; vm_compute; congruence.
  - reflexivity.
  - done.
Qed.

Lemma accepting_l2 : accept_step (seconds 20, l1) (seconds 20, l2).
Proof.
  apply (Listener.L_refused defense Serving.ctx Serving.instant_max made (seconds 20) mallory l1);
    [done|split; vm_compute; congruence|reflexivity].
Qed.

Lemma accepting_start : sound_start (A := demo_policy) defense made 2 (Some 1) start_time.
Proof.
  constructor.
  - done.
  - done.
  - by intros max [= <-].
  - apply (new_bucket_ok start_time (f64_of_Z 2) (f64_of_Z 1)); [done|done|vm_compute; discriminate].
  - done.
  - intros peer s ->. split; [exact session_s0|]. by split_and!.
  - vm_compute. congruence.
Qed.

Lemma accepting_reaches_l1 : reaches defense (A := demo_policy) (RO := fail2ban_ok Serving.instant_max) (T := plain_tokio)
  Serving.ctx Serving.instant_max made 2 (Some 1) start_time table start_time l1.
Proof. split; [exact accepting_start|]. eapply steps_cons; [exact accepting_l1|apply steps_refl]. Qed.


Lemma free_slot_served_witness : exists guard l', Listener.gates defense (seconds 20) bob l1 = (Ok (Some guard), l').
Proof.
  apply (free_slot_served (RO := fail2ban_ok Serving.instant_max) defense (T := plain_tokio) Serving.ctx Serving.instant_max made
    2 (Some 1) start_time table start_time l1 (seconds 20) bob accepting_reaches_l1).
  - vm_compute. congruence.
  - split; vm_compute; congruence.
  - vm_compute. discriminate.
  - vm_compute. discriminate.
  - reflexivity.
  - reflexivity.
  - intros max [= <-]. reflexivity.
Defined.

Lemma banned_stay_out_witness :
  away (T := plain_tokio) (V4 3) l2 /\ banned (V4 3) (seconds 60) (ln_shared l2).
Proof.
  apply (banned_stay_out (Defense.new (ConnectionLimiter.new 2 (Some 1)) (RateLimiter.new start_time (f64_of_Z 2) (f64_of_Z 1)))
    (T := plain_tokio) Serving.ctx Serving.instant_max made (V4 3) (seconds 60) start_time l0 (seconds 20) l2).
  - by apply Forall_nil.
  - exists (mkBanRecord 3 (Some (seconds 60)) (seconds 5)), (seconds 60). split_and!; [reflexivity|done|lia].
  - eapply steps_cons; [exact accepting_l1|]. apply (steps_cons _ _ (seconds 20, l1)); [by apply Listener.L_time|].
    eapply steps_cons; [exact accepting_l2|apply steps_refl].
  - reflexivity.
Defined.

(** The token is taken before the policy is asked: while a banned host knocks, nobody else
    passes. *)
Example banned_host_starves :
  fst (Listener.gates defense (seconds 20) bob l2) = Ok None /\
  is_Some (match fst (Listener.gates defense (seconds 20) bob l1) with Ok o => o | _ => None end).
Proof. split; [reflexivity|]. by eexists. Qed.
