(* ===== verification/Cli.v ===== *)
(** The two command-line programs, [ssh-client/main.rs] and [ssh-server/main.rs], down to
    their arguments and environment: the policies they give to the sessions, the registry
    of the server, and the client's loops.  They join the parts: what the key files say is
    what the sessions trust. *)
From stdpp Require Import gmap.
From S2P Require Import Prelude Errors Wire Text Packet Version Crypto Kex Algo Cipher Compress.
From S2P Require Import Connection Auth Keystore Transport TransportFrames TransportBytes TransportInv.
From S2P Require Import TransportSteps Server ServerInv ServerSteps Client ClientSteps SessionDemo.
From S2P Require Import ClientTrust ServerLogin Limits Policy Driver Exec ExecInv.
From S2P Require Import Serve ServeCalls ServeTasks ServeInv ServeDemo.

(** * The client's policy *)

(** [DemoClient]; warnings on stderr apart. *)
Record DemoClient `{C : Crypto} := mkDemoClient {
  dc_user : bytes;
  dc_password : option bytes;
  dc_known_hosts : option KnownHosts.t;
  dc_host : bytes
}.
Arguments DemoClient _ : clear implicits.
#[export] Instance eta_DemoClient `{C : Crypto} : Eta (DemoClient C) := fun d =>
  mkDemoClient C (dc_user d) (dc_password d) (dc_known_hosts d) (dc_host d).

#[export] Instance demo_client `{K : SshKey} : ClientAuthHandler (DemoClient _) := {|
  username d := dc_user d;
  verify_host_key key d :=
    match dc_known_hosts d with
    | Some kh => (KnownHosts.is_trusted (dc_host d) key kh, d)
    | None => (true, d)
    end;
  next_auth _ d :=
    match dc_password d with
    | Some password => (Some (Attempt_Password password), d <| dc_password := None |>)
    | None => (None, d)
    end
|}.

(** [SSH_KNOWN_HOSTS]: unset, or the path of the file in the store. *)
Definition env_known_hosts `{K : SshKey} (set fault : bool) (s : Store) : option KnownHosts.t :=
  if set then match fst (load_known_hosts fault s) with Ok kh => Some kh | _ => None end else None.

(** * The client's loops *)

(** [crlf_to_lf], over an index as in the code. *)
Fixpoint crlf_to_lf_loop (fuel : nat) (i : nat) (data out : bytes) : bytes :=
  match fuel with
  | O => out
  | S fuel' =>
      match data !! i with
      | None => out
      | Some b =>
          crlf_to_lf_loop fuel' (S i) data
            (if (b =? 13) && bool_decide (data !! S i = Some 10) then out else out ++ [b])
      end
  end.
Definition crlf_to_lf (data : bytes) : bytes := crlf_to_lf_loop (length data) 0 data [].

(** [status as i32] of a [u32]. *)
Definition as_i32 (x : Z) : Z := if x <? 2 ^ 31 then x else x - 2 ^ 32.

Inductive CliError := Ce_Drive (e : DriveError) | Ce_Protocol (e : SshError) | Ce_Print.

(** The driver and the session, the locals of [run_session], what was printed. *)
Record Cli `{C : Crypto} {H : Type} := mkCli {
  cli_driver : Driver (ClientConnection H);
  cli_stdin_open : bool;
  cli_exit_status : option Z;
  cli_stdout : bytes;
  cli_stderr : bytes
}.
Arguments Cli {C} H.
#[export] Instance eta_Cli `{C : Crypto} {H} : Eta (Cli H) := fun c =>
  mkCli C H (cli_driver c) (cli_stdin_open c) (cli_exit_status c) (cli_stdout c) (cli_stderr c).

Module Cli.
Section Cli.
Context `{C : Crypto} {H : Type} `{A : !ClientAuthHandler H}.
Abbreviation DM := (M DriveError (Driver (ClientConnection H))).
Abbreviation IM := (M CliError (Cli H)).

(** [authenticate]: each call of [next_event] with the outcomes of its socket calls;
    [Some] is the exit code of a session that ends here. *)
Fixpoint authenticate (calls : list (list (WriteOutcome * ReadOutcome))) : DM (option Z) :=
  match calls with
  | [] => out_of_fuel
  | script :: calls' =>
      let* e := (@Driver.next_event _ client_session script : DM (option ClientEvent)) in
      match e with
      | Some CE_Authenticated => ret None
      | Some (CE_AuthFailed _) => ret (Some 1)
      | Some CE_HostKeyRejected => ret (Some 1)
      | Some (CE_Disconnect _ _) => ret (Some 1)
      | None => ret (Some 1)
      | Some _ => authenticate calls'
      end
  end.

Definition convert {E V} (f : E -> CliError) (o : outcome E V) : outcome CliError V :=
  match o with Ok a => Ok a | Err e => Err (f e) | Panic => Panic | OutOfFuel => OutOfFuel end.
Definition on_driver {V} (m : DM V) : IM V := fun c =>
  let '(o, d) := m (cli_driver c) in (convert Ce_Drive o, c <| cli_driver := d |>).
Definition on_session {V} (m : M SshError (ClientConnection H) V) : IM V := fun c =>
  let '(o, s) := m (dv_session (cli_driver c)) in
  (convert Ce_Protocol o, c <| cli_driver ::= fun d => d <| dv_session := s |> |>).

(** [write_all(..)?; flush()?] on the local streams, which work for some more writes, or
    for good. *)
Definition print (works : option nat) (stderr : bool) (data : bytes) : IM (option nat) :=
  match works with
  | Some O => err Ce_Print
  | _ =>
      (if stderr then cli_stderr <-~ (fun out => out ++ data) else cli_stdout <-~ (fun out => out ++ data)) ;;;
      ret (pred <$> works)
  end.

(** The [while let] over the events; [Some] is a [return]. *)
Fixpoint drain (fuel : nat) (works : option nat) : IM (option Z) :=
  let* e := on_session ClientConnection.poll_event in
  match e with
  | None => ret None
  | Some e =>
      match fuel with
      | O => out_of_fuel
      | S fuel' =>
          match e with
          | CE_Stdout data => let* works := print works false data in drain fuel' works
          | CE_Stderr data => let* works := print works true data in drain fuel' works
          | CE_ExitStatus status => cli_exit_status <-! Some status ;;; drain fuel' works
          | CE_RequestFailed => cli_exit_status <-! Some 1 ;;; drain fuel' works
          | CE_ChannelClosed =>
              let* c := get in ret (Some (as_i32 (default 0 (cli_exit_status c))))
          | CE_ChannelOpenFailure _ _ => ret (Some 1)
          | CE_Disconnect _ _ =>
              let* c := get in ret (Some (as_i32 (default 1 (cli_exit_status c))))
          | _ => drain fuel' works
          end
      end
  end.

(** One iteration of [run_session]: the arm of [select] that is taken, the local streams. *)
Inductive Arm := Arm_read (r : ReadOutcome) (works : option nat) | Arm_stdin (chunk : option bytes).

Definition read_arm (r : ReadOutcome) (works : option nat) : IM (option Z) :=
  let* more := on_driver (Driver.read_once r) in
  if negb more then
    let* c := get in ret (Some (as_i32 (default 0 (cli_exit_status c))))
  else fun c => drain (length (c_events (dv_session (cli_driver c)))) works c.

Definition stdin_arm (chunk : option bytes) : IM (option Z) :=
  match chunk with
  | Some chunk => on_session (ClientConnection.write_stdin (crlf_to_lf chunk)) ;;; ret None
  | None =>
      cli_stdin_open <-! false ;;;
      on_session ClientConnection.send_eof ;;;
      ret None
  end.

(** The loop, for a script of its iterations; the arm of stdin is only enabled while it is
    open, so a script that takes it later is none. *)
Fixpoint run_loop (script : list (WriteOutcome * Arm)) : IM Z :=
  match script with
  | [] => out_of_fuel
  | (w, arm) :: script' =>
      on_driver (Driver.flush w) ;;;
      let* c := get in
      let* code :=
        match arm with
        | Arm_read r works => read_arm r works
        | Arm_stdin chunk => if cli_stdin_open c then stdin_arm chunk else out_of_fuel
        end in
      match code with
      | Some code => ret code
      | None => run_loop script'
      end
  end.
Definition run_session (script : list (WriteOutcome * Arm)) (d : Driver (ClientConnection H))
  : outcome CliError Z * Cli H :=
  run_loop script (mkCli C H d true None [] []).
End Cli.
End Cli.

(** * The server's policy and registry *)

(** [dp_u32] is the type of [max_auth_attempts]. *)
Record DemoPolicy `{C : Crypto} := mkDemoPolicy {
  dp_username : bytes;
  dp_password : bytes;
  dp_authorized_keys : AuthorizedKeys.t;
  dp_max_auth_attempts : Z;
  dp_u32 : is_u32 dp_max_auth_attempts
}.
Arguments DemoPolicy _ : clear implicits.

#[export] Instance demo_server `{K : SshKey} : ServerAuthHandler (DemoPolicy _) := {|
  banner d := (Some (str "rust_ssh demo server" ++ [10]), d);
  allow_none _ d := (false, d);
  verify_password user password d :=
    (constant_time_eq user (dp_username d) && constant_time_eq password (dp_password d), d);
  is_authorized_key _ key d := (AuthorizedKeys.contains key (dp_authorized_keys d), d);
  methods _ := default_methods;
  max_auth_attempts d := dp_max_auth_attempts d;
  max_auth_requests _ := default_max_auth_requests
|}.

(** [SSH_AUTHORIZED_KEYS]: a file that cannot be read counts as empty. *)
Definition env_authorized_keys `{K : SshKey} (set fault : bool) (s : Store) : AuthorizedKeys.t :=
  if set then match fst (load_authorized_keys fault s) with Ok keys => keys | _ => [] end else [].

(** [build_context], for the two handlers; [restricted] is whether SSH_RESTRICTED is set. *)
Definition build_context {Hd} (cat runner : Hd) (restricted : bool) : ExecContext Hd :=
  let ctx := ExecContext.on_exec (str "cat") cat ExecContext.new in
  if restricted then ctx
  else ExecContext.on_shell runner (ExecContext.on_unmatched_exec runner ctx).

(** * What the key files decide *)
Section Files.
Context `{K : SshKey} {O : SshKeyOk}.

(** The client trusts its host once a line of the file records a key for it; without a file
    it trusts any key. *)
#[export] Instance demo_client_trusting : Trusting (DemoClient _).
Proof.
  refine {| trusts d := match dc_known_hosts d with
                        | Some kh => exists k, KnownHosts.is_trusted (dc_host d) k kh = true
                        | None => True
                        end |}.
  - intros k d. cbn. destruct (dc_known_hosts d) as [kh|] eqn:E; cbn; rewrite E; [by exists k|done].
  - intros k d. cbn. destruct (dc_known_hosts d) as [kh|] eqn:E; cbn; by rewrite E.
  - intros l d. cbn. by destruct (dc_password d).
Defined.


(** A file that cannot be read, or is not text, is as good as none: every key is accepted. *)
Lemma unreadable_known_hosts_trusts_all user password host key set fault (s : Store) :
  (forall kh, fst (load_known_hosts fault s) <> Ok kh) ->
  fst (verify_host_key key (mkDemoClient _ user password (env_known_hosts set fault s) host)) = true.
Proof.
  intros Hf. unfold env_known_hosts. destruct set; [|done].
  destruct (fst (load_known_hosts fault s)) as [kh|e| |] eqn:E; try done. by destruct (Hf kh).
Qed.

(** A connection that is lost before any exit status is a success. *)
Lemma lost_connection_is_success r works (c : Cli (DemoClient _)) d :
  cli_exit_status c = None -> Driver.read_once r (cli_driver c) = (Ok false, d) ->
  fst (Cli.read_arm r works c) = Ok (Some 0).
Proof.
  intros Hx Hr. unfold Cli.read_arm, Cli.on_driver, bind. rewrite Hr. cbn. by rewrite Hx.
Qed.

(** ** The server *)
#[export] Instance demo_server_constant : ConstantPolicy (DemoPolicy _).
Proof. by constructor. Qed.
#[export] Instance demo_server_steady : SteadyCaps (DemoPolicy _).
Proof. constructor; try by intros. intros d. apply dp_u32. Qed.

(** Whom the policy admits. *)
Lemma demo_admits name password contents n Hn u :
  admits (mkDemoPolicy _ name password (AuthorizedKeys.parse contents) n Hn) u ->
  u = name \/ exists line k, line ∈ lines contents /\ parse_user_key line = Some k.
Proof.
  intros [Ha|[[p Ha]|[k Ha]]]; cbn in Ha; [done| |].
  - apply andb_true_iff in Ha as [Ha _]. left. by apply beq_true.
  - right. apply contains_records in Ha as (line & k' & Hl & Hp & _). by exists line, k'.
Qed.

(** Over a whole session of the demo server, whatever the peer sends, the only users that
    are ever authenticated are the configured one, or a user (of any name) for whom the
    authorized_keys file has a line with a key. *)
Lemma demo_login rng hk name password contents n Hn s0 s u :
  ServerConnection.new rng hk (mkDemoPolicy _ name password (AuthorizedKeys.parse contents) n Hn) = (Ok tt, s0) ->
  steps sstep s0 s -> s_authenticated s = Some u ->
  u = name \/ exists line k, line ∈ lines contents /\ parse_user_key line = Some k.
Proof.
  intros Hnew Hst Hu. destruct (authenticated_admitted _ _ _ _ _ _ Hnew Hst Hu) as [_ Ha].
  by eapply demo_admits.
Qed.
End Files.

(** * What the restricted server runs *)
Section Restricted.
Context `{C : Crypto} `{!CryptoOk C} `{!FlateOk C} `{!OctetsOk C}.
Context {H : Type} `{A : !ServerAuthHandler H} `{!SteadyCaps H}.
Context {RP : Type} `{R : !RetryPolicy RP} `{!RetryOk RP} `{T : Tokio} `{!TokioOk T} {Hd : Type}.
Context (config : ServeConfig) (cat runner : Hd) (peer : option SocketAddr) (instant_max : Z).

Lemma restricted_registered k :
  registered (build_context cat runner true) k -> k_handler k = cat /\ first_word (k_command k) = str "cat".
Proof.
  intros [Hg|[[Hg _]|Hg]]; [|done|done].
  unfold ExecContext.exec_handler in Hg. cbn -[str first_word] in Hg.
  destruct (decide (first_word (k_command k) = str "cat")) as [E|E].
  - rewrite E, lookup_insert_eq in Hg. by injection Hg as ->.
  - rewrite lookup_insert_ne, lookup_empty in Hg by congruence. done.
Qed.

(** No system access: whatever a client asks for, the tasks of a connection to a server
    that was started with SSH_RESTRICTED are all the in-process [cat], asked for by a command
    whose first word is cat, by a user who has logged in; the system runner is never among
    them, for no command, shell or subsystem. *)
Lemma restricted_runs_cat now ph (v : Serve H RP Hd) k :
  0 <= Serve.permits_max ->
  serve_reachable config (build_context cat runner true) peer instant_max (now, ph, v) ->
  k ∈ v_tasks v ->
  k_handler k = cat /\ first_word (k_command k) = str "cat" /\
  is_Some (s_authenticated (Serve.session v)).
Proof.
  intros Hp Hr Hk. pose proof (serve_reachable_vinv _ _ _ _ _ Hp Hr) as Hv.
  assert (Hd0 : dead (build_context cat runner true) v) by (destruct ph; cbn in Hv; apply Hv).
  destruct Hd0 as [_ [P1 P2]]. apply list_elem_of_lookup in Hk as [i Hk].
  destruct (restricted_registered k (Forall_lookup_1 _ _ _ _ P1 Hk)) as [E1 E2].
  split; [exact E1|]. split; [exact E2|]. apply P2. intros E. by rewrite E in Hk.
Qed.
End Restricted.

(** The code's loop over the input, as a list function. *)
Fixpoint drop_cr (data : bytes) : bytes :=
  match data with
  | [] => []
  | x :: r => if (x =? 13) && bool_decide (list.head r = Some 10) then drop_cr r else x :: drop_cr r
  end.

Lemma crlf_to_lf_spec data : crlf_to_lf data = drop_cr data.
Proof.
  enough (Hl : forall fuel i out, (length data <= i + fuel)%nat ->
    crlf_to_lf_loop fuel i data out = out ++ drop_cr (drop i data)) by (by apply Hl).
  induction fuel as [|fuel IH]; intros i out Hf; cbn [crlf_to_lf_loop].
  - rewrite drop_ge by lia. by rewrite app_nil_r.
  - destruct (data !! i) as [b|] eqn:Hi.
    2: { apply lookup_ge_None in Hi. rewrite drop_ge by lia. by rewrite app_nil_r. }
    rewrite (drop_S _ _ _ Hi), IH by lia. cbn [drop_cr].
    assert (list.head (drop (S i) data) = data !! S i) as ->.
    { rewrite head_lookup, lookup_drop. by rewrite Nat.add_0_r. }
    destruct ((b =? 13) && bool_decide (data !! S i = Some 10)); [done|].
    by rewrite <- app_assoc.
Qed.

(** * Executions *)
Module Files.
Import Toy ToyKeys Session.
Definition known : bytes := Eval vm_compute in str "example:22,alias " ++ key_text (verifying (HostKey.public host_key)) ++ [10].
Definition authorized : bytes := Eval vm_compute in str "# keys" ++ [10] ++ key_text (upk_verifying (UserKeypair.public alice_key)) ++ [10].

Definition client (host : bytes) : DemoClient crypto :=
  mkDemoClient crypto (str "alice") (Some (str "secret")) (Some (KnownHosts.parse known)) host.
Definition feed {H} `{!ClientAuthHandler H} (data : bytes) (s : ClientConnection H) : ClientConnection H :=
  snd (ClientConnection.on_transport (Transport.on_input data) (snd (ClientConnection.clear_output s))).
Definition p0 : ClientConnection (DemoClient crypto) := Eval vm_compute in
  snd (ClientConnection.new 5 (client (str "alias"))).
Definition p1 : ClientConnection (DemoClient crypto) := Eval vm_compute in feed (s_out s0) p0.
Definition p2 : ClientConnection (DemoClient crypto) := Eval vm_compute in feed (s_out s2) p1.
Definition p2_key : Event := Eval vm_compute in hd Ev_Established (t_events (c_transport p2)).
Definition p3 : ClientConnection (DemoClient crypto) := Eval vm_compute in
  snd (ClientConnection.handle_event p2_key (popped [Ev_Established] p2)).
Definition p4 : ClientConnection (DemoClient crypto) := Eval vm_compute in
  snd (ClientConnection.handle_event Ev_Established (popped [] p3)).
End Files.

Import Toy ToyKeys.
#[local] Ltac p_ran s := vm_cast_no_check
  (@eq_refl (outcome SshError unit * ClientConnection (DemoClient crypto)) (Ok tt, s)).

Lemma staged_p3 : staged Files.p3.
Proof.
  apply (staged_event Files.p2_key [Ev_Established] Files.p2); [|reflexivity|p_ran Files.p3].
  apply (staged_feed (Session.s_out Session.s2) Files.p1);
    [|vm_cast_no_check (@eq_refl bool true)|p_ran Files.p2].
  apply (staged_feed (Session.s_out Session.s0) Files.p0);
    [|vm_cast_no_check (@eq_refl bool true)|p_ran Files.p1].
  apply (staged_new (C := Toy.crypto) 5 None None (Files.client (str "alias"))). p_ran Files.p0.
Qed.


(** ** A restricted server *)
Module Cat.
Import Serving.
Definition ctx : ExecContext nat := build_context 1%nat 2%nat true.
Definition c_cat : ClientConnection (DemoUser crypto) := Eval vm_compute in
  c_send [channel_open_session 0; channel_request_exec 0 true (str "cat file")] Session.c4.
Definition v5 : state := Eval vm_compute in snd (Serve.after_arm Serve.AtFlush
  (Serve.read_arm default_config ctx None instant_max 0 (Read (Session.c_out c_cat)) f4)).
End Cat.

Lemma serving_cat : serving_with Cat.ctx (0, Serve.AtFlush, Cat.v5).
Proof. step_read Cat.ctx (Session.c_out Cat.c_cat) Serving.f4 Cat.v5. exact (serving_f4 _). Qed.

Lemma cat_runs :
  exists k, k ∈ v_tasks Cat.v5 /\ k_handler k = 1%nat /\ first_word (k_command k) = str "cat".
Proof.
  destruct (v_tasks Cat.v5) as [|k ks] eqn:E; [discriminate E|]. exists k.
  assert (Hk : k ∈ v_tasks Cat.v5) by (rewrite E; by left).
  split; [by left|].
  assert (Hw := @restricted_runs_cat crypto crypto_ok flate_ok octets_ok unit demo_policy
    demo_policy_steady NoRetryReaction no_retry_policy no_retry_ok plain_tokio plain_tokio_ok nat
    default_config 1%nat 2%nat None Serving.instant_max 0 Serve.AtFlush Cat.v5 k
    ltac:(vm_compute; congruence) serving_cat Hk).
  by destruct Hw as (? & ? & _).
Defined.
