(* ===== verification/ServerMain.v ===== *)
(** The server program: [main] of [ssh-server/main.rs], with the whole crate stack below it.
    The key files, the admission policies, the registry and the sessions are put together as
    the program does, and what holds of the running server is a theorem about all of them. *)
From stdpp Require Import gmap.
From Stdlib Require Import QArith.
From S2P Require Import Prelude Errors Wire Text Packet Version Crypto Kex Algo Cipher Compress.
From S2P Require Import Connection Auth Keystore Transport TransportFrames TransportBytes TransportInv.
From S2P Require Import TransportSteps Server ServerInv ServerSteps ServerLogin Client ClientSteps SessionDemo.
From S2P Require Import Limits Policy Float64 Rate Driver Exec ExecInv.
From S2P Require Import Serve ServeFrame ServeCalls ServeTasks ServeInv ServeDemo Listener ListenerProps Cli.
#[local] Open Scope Z_scope.

(** The environment: SSH_AUTHORIZED_KEYS (set or not, with the file it names, which may fail
    to be read) and whether SSH_RESTRICTED is set. *)
Record ServerEnv `{C : Crypto} := mkServerEnv {
  se_keys_set : bool;
  se_keys_fault : bool;
  se_keys : Store;
  se_restricted : bool
}.
Arguments ServerEnv _ : clear implicits.

Module ServerMain.
Section ServerMain.
Context `{K : SshKey} `{S : Semaphore} `{T : Tokio} {Hd : Type}.
Context (cat runner : Hd) (instant_max : Z) (env : ServerEnv _).

Definition authorized_keys : AuthorizedKeys.t :=
  env_authorized_keys (se_keys_set env) (se_keys_fault env) (se_keys env).
Definition context : ExecContext Hd := build_context cat runner (se_restricted env).

Definition fail2ban : Fail2Ban := Fail2Ban.new 6 3 (seconds 300).
Definition defense (now : Z) : Defense Fail2Ban :=
  Defense.with_retry (fail2ban_retry instant_max)
    (Defense.with_policy fail2ban_connection
      (Defense.new (ConnectionLimiter.new 256 (Some 8)) (RateLimiter.new now (f64_of_Z 50) (f64_of_Z 100)))).

(** The closure over the loaded keys; the random generator of a connection is its own. *)
Definition policy : DemoPolicy _ :=
  mkDemoPolicy _ (str "myuser") (str "mysecretpassword") authorized_keys (fb_max_auth_attempts fail2ban)
    ltac:(unfold is_u32, U32_MAX; cbn; lia).
Definition make_connection (host_key : HostKey) (peer : SocketAddr) (s : ServerConnection (DemoPolicy _)) : Prop :=
  exists rng, ServerConnection.new rng host_key policy = (Ok tt, s).

(** Up to the accept loop: the host key, and the listener that is entered; the store holds
    the host key's file.  Binding the address is the operating system's. *)
Definition main (read_fault : bool) (write_fault : option Z) (now : Z)
  : M FileError Store (HostKey * Listener (DemoPolicy _) Fail2Ban Hd) :=
  let* host_key := load_or_create_host_key read_fault write_fault in
  ret (host_key, Listener.serve_listener (defense now) fail2ban).

(** The running server. *)
Definition main_step (host_key : HostKey) (start : Z) :=
  Listener.listener_step (Hd := Hd) (T := T) (defense start) (RO := fail2ban_ok instant_max) context instant_max
    (make_connection host_key).
End ServerMain.
End ServerMain.

(** * What holds of it *)
Section Program.
Context `{K : SshKey} {O : SshKeyOk} `{!CryptoOk C} `{!FlateOk C} `{!OctetsOk C}.
Context `{S : Semaphore} `{!SemaphoreOk S} `{T : Tokio} `{!TokioOk T} {Hd : Type}.
Context (cat runner : Hd) (instant_max : Z) (env : ServerEnv C).
Implicit Types (l : Listener (DemoPolicy C) Fail2Ban Hd) (c : Served (DemoPolicy C) Fail2Ban Hd).
Import ServerMain.

Lemma made_fresh host_key peer s : make_connection env host_key peer s -> fresh s.
Proof.
  intros [rng E]. split; [exists rng, host_key, (policy env), s; split; [exact E|apply steps_refl]|].
  unfold ServerConnection.new in E. destruct (Transport.new_server rng host_key) as [o t]. injection E as _ <-. by split_and!.
Qed.
Lemma made_login host_key peer s s' :
  make_connection env host_key peer s -> login s s' ->
  s_handler s' = policy env /\ (forall u, s_authenticated s' = Some u -> admits (policy env) u).
Proof.
  intros [rng E] [L1 L2]. assert (E0 : s_handler s = policy env /\ s_authenticated s = None).
  { unfold ServerConnection.new in E. destruct (Transport.new_server rng host_key) as [o t]. by injection E as _ <-. }
  destruct E0 as [E1 E2]. rewrite E1, E2 in *. split; [done|]. intros u Hu. by destruct (L2 u Hu).
Qed.

Lemma main_sound host_key start :
  0 <= Serve.permits_max ->
  sound_start (defense instant_max start) (make_connection env host_key) 256 (Some 8) start.
Proof.
  intros Hp. constructor; try done.
  - by intros max [= <-].
  - intros peer s. apply made_fresh.
Qed.

(** A line of the file that SSH_AUTHORIZED_KEYS names holds a key. *)
Definition some_key_listed : Prop :=
  se_keys_set env = true /\ exists contents line k,
    st_file (se_keys env) = Some contents /\ line ∈ lines contents /\ parse_user_key line = Some k.

Lemma policy_admits u : admits (policy env) u -> u = str "myuser" \/ some_key_listed.
Proof.
  assert (He : forall n Hn, admits (mkDemoPolicy C (str "myuser") (str "mysecretpassword") [] n Hn) u -> u = str "myuser").
  { intros n Hn Ha. destruct (demo_admits (str "myuser") (str "mysecretpassword") [] n Hn u Ha) as [?|(line & k & Hl & _)]; [done|].
    by apply elem_of_nil in Hl. }
  unfold policy, authorized_keys, env_authorized_keys, some_key_listed.
  destruct (se_keys_set env); [|by intros ?%He; left].
  unfold load_authorized_keys, read_to_string, bind, get, ret, err.
  destruct (se_keys_fault env); [by intros ?%He; left|].
  destruct (st_file (se_keys env)) as [contents|]; [|by intros ?%He; left].
  destruct (utf8_valid contents); [|by intros ?%He; left].
  intros Ha. destruct (demo_admits _ _ _ _ _ _ Ha) as [?|(line & k & ? & ?)]; [by left|right].
  split; [done|]. by exists contents, line, k.
Qed.

(** What is true of one connection. *)
Record connection_ok c : Prop := {
  (** Its user, if any, is the configured one, or the file has a key. *)
  co_user u : s_authenticated (Serve.session (sv_loop c)) = Some u -> u = str "myuser" \/ some_key_listed;
  (** Fewer than six of its logins have failed, if it is not on its way out. *)
  co_failures : (forall o, sv_phase c <> Serve.Ended o) ->
    t_closing (s_transport (Serve.session (sv_loop c))) = false -> s_auth_failures (Serve.session (sv_loop c)) < 6;
  (** Its programs run for a user; when access is restricted they are the in-process [cat]. *)
  co_tasks k : k ∈ v_tasks (sv_loop c) ->
    is_Some (s_authenticated (Serve.session (sv_loop c))) /\
    (se_restricted env = true -> k_handler k = cat /\ first_word (k_command k) = str "cat")
}.

End Program.
(** * A login at the server *)
Module Running.
Import Toy ToyKeys Counting Session.
Definition authorized : bytes := Files.authorized.
Definition instant_max : Z := Serving.instant_max.
Definition env : ServerEnv crypto := mkServerEnv crypto true false (mkStore crypto 0 (Some authorized)) true.
(** The host key has been saved in an earlier run. *)
Definition store : Store (C := crypto) := mkStore crypto 0 (Some [1; 2; 3]).
Definition start : Z := Accepting.start_time.
Definition alice : SocketAddr := Accepting.alice.
Abbreviation server := (Listener (C := crypto) (DemoPolicy crypto) Fail2Ban (T := plain_tokio) nat (S := Counting.semaphore)).
Abbreviation loop := (Serve (C := crypto) (DemoPolicy crypto) Fail2Ban (T := plain_tokio) nat).
Abbreviation ctx := (ServerMain.context 1%nat 2%nat env).
Abbreviation retry := (fail2ban_retry instant_max).

Definition flush (v : loop) : loop := snd (Serve.after_arm Serve.AtSelect (Serve.flush_arm Written v)).
Definition read (data : bytes) (v : loop) : loop :=
  snd (Serve.after_arm Serve.AtFlush (Serve.read_arm (R := retry) default_config ctx (Some alice) instant_max start (Read data) v)).

Definition l0 : server := Listener.serve_listener (ServerMain.defense instant_max start) ServerMain.fail2ban.
Definition s0 : ServerConnection (DemoPolicy crypto) := snd (ServerConnection.new 9 host_key (ServerMain.policy env)).
Definition l1 : server := snd (Listener.gates (ServerMain.defense instant_max start) start alice l0).
(** The server with this one connection. *)
Definition one (ph : Serve.Phase) (v : loop) : server :=
  mkListener (ln_connections l1) (ln_rate l1) (v_retry v) [mkServed alice (mkGuard (V4 1) true) ph v] true.

Definition v0 : loop := Eval vm_compute in Serve.start default_config start s0 ServerMain.fail2ban.
Definition f0 : loop := Eval vm_compute in flush v0.
Definition v1 : loop := Eval vm_compute in read (c_out c0) f0.
Definition f1 : loop := Eval vm_compute in flush v1.
Definition v2 : loop := Eval vm_compute in read (c_out c1) f1.
Definition f2 : loop := Eval vm_compute in flush v2.
Definition v3 : loop := Eval vm_compute in read (c_out c2) f2.
Definition f3 : loop := Eval vm_compute in flush v3.
Definition v4 : loop := Eval vm_compute in read (c_out c3) f3.
Definition f4 : loop := Eval vm_compute in flush v4.
Definition v5 : loop := Eval vm_compute in read (c_out Cat.c_cat) f4.
End Running.
Import Toy ToyKeys Counting.

Abbreviation running_step := (ServerMain.main_step (T := plain_tokio) (S := Counting.semaphore) 1%nat 2%nat
  Running.instant_max Running.env Session.host_key Running.start).
Abbreviation running ph v := (steps running_step (Running.start, Running.l0) (Running.start, Running.one ph v)).

Lemma running_serve ph v ph' v' :
  running ph v ->
  Serve.serve_step (R := Running.retry) (RO := fail2ban_ok Running.instant_max) default_config Running.ctx (Some Running.alice)
    Running.instant_max (Running.start, ph, v) (Running.start, ph', v') ->
  running ph' v'.
Proof.
  intros Hr Hs. eapply steps_snoc; [exact Hr|].
  refine (Listener.L_serve (ServerMain.defense Running.instant_max Running.start) (RO := fail2ban_ok Running.instant_max)
    Running.ctx Running.instant_max (ServerMain.make_connection Running.env Session.host_key) Running.start 0%nat
    (mkServed Running.alice (mkGuard (V4 1) true) ph v) ph' v' (Running.one ph v) eq_refl _).
  by destruct v.
Qed.

Lemma running_flush v v' :
  running Serve.AtFlush v ->
  Serve.after_arm Serve.AtSelect (Serve.flush_arm Written v) = (Serve.AtSelect, v') -> running Serve.AtSelect v'.
Proof. intros Hr E. eapply running_serve; [exact Hr|]. by econstructor. Qed.

Lemma running_read data v v' :
  running Serve.AtSelect v -> read_okb default_config Running.instant_max Running.start data v = true ->
  (Running.start + fb_ban_duration (v_retry v) <=? Running.instant_max) = true ->
  (0 <=? Running.start + fb_ban_duration (v_retry v)) = true ->
  Serve.after_arm Serve.AtFlush (Serve.read_arm (R := Running.retry) default_config Running.ctx (Some Running.alice)
    Running.instant_max Running.start (Read data) v) = (Serve.AtFlush, v') ->
  running Serve.AtFlush v'.
Proof.
  intros Hr Hb H1 H2 E. eapply running_serve; [exact Hr|].
  eapply (Serve.S_read (R := Running.retry)); [|exact E]. apply read_okb_ok; [exact Hb|].
  split; [by apply Z.leb_le|by apply Z.leb_le].
Qed.

#[local] Ltac loop_ran ph v := vm_cast_no_check (@eq_refl (Serve.Phase * Running.loop) (ph, v)).
#[local] Ltac run_flush v v' := apply (running_flush v v'); [|loop_ran Serve.AtSelect v'].
#[local] Ltac run_read data v v' :=
  apply (running_read data v v'); [|vm_cast_no_check (@eq_refl bool true)..|loop_ran Serve.AtFlush v'].

Lemma running_v0 : running Serve.AtFlush Running.v0.
Proof.
  eapply steps_cons; [|apply steps_refl].
  apply (Listener.L_admitted (ServerMain.defense Running.instant_max Running.start) (RO := fail2ban_ok Running.instant_max)
    Running.ctx Running.instant_max (ServerMain.make_connection Running.env Session.host_key) Running.start Running.alice
    (mkGuard (V4 1) true) Running.s0 Running.l0 Running.l1).
  - done.
  - split; vm_compute; congruence.
  - reflexivity.
  - exists 9. reflexivity.
Qed.

Lemma running_v5 : running Serve.AtFlush Running.v5.
Proof.
  run_read (Session.c_out Cat.c_cat) Running.f4 Running.v5. run_flush Running.v4 Running.f4.
  run_read (Session.c_out Session.c3) Running.f3 Running.v4. run_flush Running.v3 Running.f3.
  run_read (Session.c_out Session.c2) Running.f2 Running.v3. run_flush Running.v2 Running.f2.
  run_read (Session.c_out Session.c1) Running.f1 Running.v2. run_flush Running.v1 Running.f1.
  run_read (Session.c_out Session.c0) Running.f0 Running.v1. run_flush Running.v0 Running.f0.
  exact running_v0.
Qed.

