(* ===== verification/ClientMain.v ===== *)
(** The client program: [main] of [ssh-client/main.rs].  The arguments, the key file and the
    session are put together as the program does; what a host that the file does not know can
    learn about the user is a theorem about two runs of the whole program. *)
From stdpp Require Import gmap.
From S2P Require Import Prelude Errors Wire Text Packet Version Crypto Kex Algo Cipher Compress.
From S2P Require Import Connection Auth Keystore Transport TransportFrames TransportBytes TransportInv.
From S2P Require Import TransportSteps Server ServerInv Client ClientSteps SessionDemo ClientTrust.
From S2P Require Import Driver Cli.

(** The arguments after the program's name; SSH_KNOWN_HOSTS (set or not, with the file that it
    names, which may fail to be read); whether SSH_COMPRESSION and SSH_REKEY are set. *)
Record ClientEnv `{C : Crypto} := mkClientEnv {
  ce_args : list bytes;
  ce_known_set : bool;
  ce_known_fault : bool;
  ce_known : Store;
  ce_compression : bool;
  ce_rekey : bool
}.
Arguments ClientEnv _ : clear implicits.

Module ClientMain.
Section ClientMain.
Context `{K : SshKey} (env : ClientEnv C).

Definition addr : bytes := default (str "127.0.0.1:2222") (ce_args env !! 0%nat).
Definition user : bytes := default (str "myuser") (ce_args env !! 1%nat).
Definition password : bytes := default (str "mysecretpassword") (ce_args env !! 2%nat).
Definition command : option bytes := ce_args env !! 3%nat.

Definition demo : DemoClient C :=
  mkDemoClient C user (Some password)
    (env_known_hosts (ce_known_set env) (ce_known_fault env) (ce_known env)) addr.

Definition session (rng : Rng) : outcome SshError unit * ClientConnection (DemoClient C) :=
  if ce_compression env
  then ClientConnection.with_compression_preference rng demo [str "zlib@openssh.com"; str "none"]
  else ClientConnection.new rng demo.

(** The three phases, for the outcomes of the socket calls of [authenticate] and of the rounds
    of [run_session]; the value is the exit code. *)
Definition phases (calls : list (list (WriteOutcome * ReadOutcome))) (script : list (WriteOutcome * Cli.Arm))
  : M CliError (Cli (DemoClient C)) Z :=
  let* early := Cli.on_driver (Cli.authenticate calls) in
  match early with
  | Some code => ret code
  | None =>
      (match command with
       | Some cmd => Cli.on_session (ClientConnection.exec cmd)
       | None => Cli.on_session ClientConnection.shell
       end) ;;;
      when (ce_rekey env) (Cli.on_session ClientConnection.initiate_rekey) ;;;
      fun c => Cli.run_session script (cli_driver c)
  end.

Definition main (rng : Rng) (calls : list (list (WriteOutcome * ReadOutcome)))
  (script : list (WriteOutcome * Cli.Arm)) : outcome CliError Z * Cli (DemoClient C) :=
  let '(o, s) := session rng in
  let c := mkCli _ _ (Driver.new s) true None [] [] in
  match o with
  | Ok _ => phases calls script c
  | Err e => (Err (Ce_Protocol e), c)
  | Panic => (Panic, c)
  | OutOfFuel => (OutOfFuel, c)
  end.
End ClientMain.
End ClientMain.

(** * Two runs side by side *)
Section Agree.
Context {E S : Type} (R : S -> S -> Prop).

(** From these two states the computations come to the same, in states that are related when
    they return. *)
Definition agree {A} (m1 m2 : M E S A) (s1 s2 : S) : Prop :=
  fst (m1 s1) = fst (m2 s2) /\ forall a, fst (m1 s1) = Ok a -> R (snd (m1 s1)) (snd (m2 s2)).

Lemma agree_bind {A B} (m1 m2 : M E S A) (f1 f2 : A -> M E S B) s1 s2 :
  agree m1 m2 s1 s2 -> (forall a t1 t2, R t1 t2 -> agree (f1 a) (f2 a) t1 t2) ->
  agree (bind m1 f1) (bind m2 f2) s1 s2.
Proof.
  intros [E1 HR] Hf. unfold agree, bind in *. destruct (m1 s1) as [o1 t1], (m2 s2) as [o2 t2]. cbn in *. subst o2.
  destruct o1 as [a|e| |]; [|by split..]. by apply Hf, (HR a).
Qed.
Lemma agree_ret {A} (a : A) s1 s2 : R s1 s2 -> agree (ret a) (ret a) s1 s2.
Proof. by split. Qed.
Lemma agree_err {A} e s1 s2 : agree (A := A) (err e) (err e) s1 s2.
Proof. by split. Qed.
Lemma agree_modify f1 f2 s1 s2 : R (f1 s1) (f2 s2) -> agree (modify f1) (modify f2) s1 s2.
Proof. by split. Qed.
Lemma agree_lift {A} (o : outcome E A) s1 s2 : R s1 s2 -> agree (lift o) (lift o) s1 s2.
Proof. intros HR. unfold agree, lift. by destruct o. Qed.
Lemma agree_local {U A} (m : M E U A) (u : U) s1 s2 : R s1 s2 -> agree (on_local m u) (on_local m u) s1 s2.
Proof. intros HR. unfold agree, on_local. by destruct (m u) as [[]]. Qed.
(** Reading the state. *)
Lemma agree_get {A} (f1 f2 : S -> M E S A) s1 s2 :
  agree (f1 s1) (f2 s2) s1 s2 -> agree (bind get f1) (bind get f2) s1 s2.
Proof. done. Qed.
End Agree.

(** * A host that is not known *)

(** What a closing transport still shows; a packet that is sent on it changes none of it. *)
Section Closed.
Context `{C : Crypto}.
Implicit Types t : Transport.

Definition shown t := (t_closing t, t_tx t, t_phase t, t_events t).

Lemma closed_write p t : t_closing t = true -> Transport.write_packet p t = (Ok tt, t).
Proof. intros Hc. unfold Transport.write_packet, bind, get. by rewrite Hc. Qed.

Lemma closed_kexinit t :
  t_closing t = true -> exists t', Transport.send_kexinit t = (Ok tt, t') /\ shown t' = shown t.
Proof.
  intros Hc. unfold Transport.send_kexinit. unfold bind at 1, get.
  unfold Transport.with_rng. unfold bind at 1, zoom, KexInit.ours_with, bind, draw. cbn [ret].
  destruct (fill_bytes 32 (t_rng t)) as [seed r]. cbn [ret].
  match goal with |- context [Transport.write_packet ?p ?t0] => rewrite (closed_write p t0) by exact Hc end.
  by eexists.
Qed.

Lemma closed_rekey t :
  t_closing t = true -> exists t', Transport.initiate_rekey t = (Ok tt, t') /\ shown t' = shown t.
Proof.
  intros Hc. unfold Transport.initiate_rekey, bind at 1, get, when.
  destruct (Transport.is_established t && negb (t_rekeying t)); [|by eexists].
  unfold Transport.begin_rekey_round, bind, modify.
  match goal with |- context [Transport.send_kexinit ?t0] => destruct (closed_kexinit t0 Hc) as (t' & -> & Hv) end.
  by exists t'.
Qed.

Lemma closed_send p t :
  t_closing t = true -> Transport.is_established t = true ->
  exists t', Transport.send_packet p t = (Ok tt, t') /\ shown t' = shown t.
Proof.
  intros Hc He. unfold Transport.send_packet, bind at 1, get. rewrite He. cbn [negb].
  destruct (t_rekeying t); [by eexists|]. unfold bind at 1. rewrite closed_write by done.
  unfold bind, modify, when.
  match goal with |- context [if ?b then _ else _] => destruct b end; [|by eexists].
  match goal with |- context [Transport.initiate_rekey ?t0] => destruct (closed_rekey t0 Hc) as (t' & -> & Hv) end.
  by exists t'.
Qed.
End Closed.

Section Unknown.
Context `{K : SshKey}.
Import ClientConnection.
Abbreviation Client := (ClientConnection (DemoClient C)).
Implicit Types s : Client.

(** Two users of the program at the same host, which their file does not know. *)
Definition alike (d1 d2 : DemoClient C) : Prop :=
  dc_known_hosts d1 = dc_known_hosts d2 /\ dc_host d1 = dc_host d2 /\
  (dc_password d1 = None <-> dc_password d2 = None).
Definition unknown (d : DemoClient C) : Prop :=
  exists kh, dc_known_hosts d = Some kh /\ forall k, KnownHosts.is_trusted (dc_host d) k kh = false.

Definition gone (e : ClientEvent) : Prop := match e with CE_Disconnect _ _ => True | _ => False end.
Definition refused (l : list ClientEvent) : Prop :=
  exists ds rest, l = ds ++ CE_HostKeyRejected :: rest /\ Forall gone ds.
Lemma refused_app l l' : refused l -> refused (l ++ l').
Proof. intros (ds & rest & -> & Hd). exists ds, (rest ++ l'). by rewrite <- app_assoc. Qed.

(** After the refusal: the two states show the same. *)
Record dim s1 s2 : Prop := {
  dm_closing : t_closing (c_transport s1) = true;
  dm_shown : shown (c_transport s2) = shown (c_transport s1);
  dm_channel1 : c_channel s1 = None;
  dm_channel2 : c_channel s2 = None;
  dm_same : (c_state s2, c_host_rejected s2, c_reply_queue s2, c_events s2) =
            (c_state s1, c_host_rejected s1, c_reply_queue s1, c_events s1);
  dm_refused : refused (c_events s1);
  dm_alike : alike (c_handler s1) (c_handler s2);
  dm_unknown : unknown (c_handler s1)
}.

Lemma dim_set s1 s2 s1' s2' :
  dim s1 s2 ->
  (c_transport s1', c_channel s1', c_handler s1') = (c_transport s1, None, c_handler s1) ->
  (c_transport s2', c_channel s2', c_handler s2') = (c_transport s2, None, c_handler s2) ->
  (c_state s2', c_host_rejected s2', c_reply_queue s2', c_events s2') =
    (c_state s1', c_host_rejected s1', c_reply_queue s1', c_events s1') ->
  (exists l, c_events s1' = c_events s1 ++ l) -> dim s1' s2'.
Proof.
  intros [D1 D2 D3 D4 D5 D6 D7 D8] [= E1 E2 E3] [= F1 F2 F3] Hs [l Hl].
  constructor; rewrite ?E1, ?E2, ?E3, ?F1, ?F2, ?F3; try done. rewrite Hl. by apply refused_app.
Qed.

Lemma dim_transport s1 s2 t1 t2 :
  dim s1 s2 -> shown t1 = shown (c_transport s1) -> shown t2 = shown (c_transport s2) ->
  dim (s1 <| c_transport := t1 |>) (s2 <| c_transport := t2 |>).
Proof.
  intros [D1 D2 D3 D4 D5 D6 D7 D8] E1 E2. constructor; try done.
  - cbn. unfold shown in E1. injection E1 as -> _ _ _. done.
  - cbn. congruence.
Qed.

Lemma dim_send p1 p2 s1 s2 : dim s1 s2 -> agree dim (send_packet p1) (send_packet p2) s1 s2.
Proof.
  intros Hd. pose proof (dm_closing _ _ Hd) as Hc. pose proof (dm_shown _ _ Hd) as Hv.
  unfold shown in Hv. injection Hv as V1 V2 V3 V4. rewrite Hc in V1.
  assert (He : Transport.is_established (c_transport s2) = Transport.is_established (c_transport s1)).
  { unfold Transport.is_established. by rewrite V3. }
  unfold agree, send_packet, on_transport, zoom.
  destruct (Transport.is_established (c_transport s1)) eqn:E1.
  - destruct (closed_send p1 _ Hc E1) as (t1 & -> & S1). destruct (closed_send p2 _ V1 He) as (t2 & -> & S2).
    split; [done|]. intros _ _. by apply dim_transport.
  - unfold Transport.send_packet, bind, get. rewrite E1, He. by split.
Qed.

Ltac dim_field :=
  match goal with Hd : dim ?s1 ?s2 |- dim _ _ =>
    let E := fresh in pose proof (dm_same _ _ Hd) as E; injection E as ? ? ? ?;
    apply (dim_set s1 s2); [exact Hd|..]; cbn; rewrite ?(dm_channel1 _ _ Hd), ?(dm_channel2 _ _ Hd);
    first [reflexivity|congruence|by eexists|by exists []; rewrite app_nil_r]
  end.

Lemma dim_push e s1 s2 : dim s1 s2 -> agree dim (push e) (push e) s1 s2.
Proof. intros Hd. apply agree_modify. dim_field. Qed.
Lemma dim_disconnect r d s1 s2 : dim s1 s2 -> agree dim (disconnect r d) (disconnect r d) s1 s2.
Proof.
  intros Hd. pose proof (dm_closing _ _ Hd) as Hc. pose proof (dm_shown _ _ Hd) as Hv.
  unfold shown in Hv. injection Hv as V1 V2 V3 V4. rewrite Hc in V1.
  unfold agree, disconnect, on_transport, zoom, Transport.disconnect, bind, get. rewrite Hc, V1.
  split; [done|]. intros _ _. by apply dim_transport.
Qed.

(** The client of the program offers its password once. *)
Lemma demo_try l s :
  try_next_auth l s =
    match dc_password (c_handler s) with
    | Some p =>
        send_packet (password_request (dc_user (c_handler s)) SERVICE_CONNECTION p)
          (s <| c_handler := (c_handler s) <| dc_password := None |> |>)
    | None => (push (CE_AuthFailed l) ;;; c_state <-! CS_Done) (s <| c_handler := c_handler s |>)
    end.
Proof.
  unfold try_next_auth. unfold bind at 1, get. unfold bind at 1, on_handler. cbn [next_auth demo_client].
  by destruct (dc_password (c_handler s)).
Qed.

(** Whether or not there is a password to offer, it goes nowhere. *)
Lemma dim_try l s1 s2 : dim s1 s2 -> agree dim (try_next_auth l) (try_next_auth l) s1 s2.
Proof.
  intros Hd. unfold agree. rewrite !demo_try. pose proof (dm_alike _ _ Hd) as (A1 & A2 & A3).
  destruct (dc_password (c_handler s1)) as [p1|] eqn:E1, (dc_password (c_handler s2)) as [p2|] eqn:E2.
  - apply dim_send. destruct Hd as [D1 D2 D3 D4 D5 D6 D7 D8]. by constructor.
  - by destruct A3 as [_ A3]; specialize (A3 eq_refl).
  - by destruct A3 as [A3 _]; specialize (A3 eq_refl).
  - assert (Hd' : dim (s1 <| c_handler := c_handler s1 |>) (s2 <| c_handler := c_handler s2 |>)).
    { destruct Hd as [D1 D2 D3 D4 D5 D6 D7 D8]. constructor; done. }
    apply (agree_bind dim (push _) (push _)); [by apply dim_push|]. intros _ t1 t2 Ht. apply agree_modify. dim_field.
Qed.

(** ** Every event *)
Ltac dim_step :=
  first
    [ lazymatch goal with
      | |- agree dim (bind get _) (bind get _) _ _ => apply agree_get
      | |- agree dim (bind _ _) (bind _ _) _ _ => apply agree_bind; [|intros ? ? ? ?]
      | |- agree dim (ret _) (ret _) _ _ => by apply agree_ret
      | |- agree dim (lift _) (lift _) _ _ => by apply agree_lift
      | |- agree dim (on_local _ _) (on_local _ _) _ _ => by apply agree_local
      | |- agree dim (push _) (push _) _ _ => by apply dim_push
      | |- agree dim (send_packet _) (send_packet _) _ _ => by apply dim_send
      | |- agree dim (disconnect _ _) (disconnect _ _) _ _ => by apply dim_disconnect
      | |- agree dim (try_next_auth _) (try_next_auth _) _ _ => by apply dim_try
      | |- agree dim (modify _) (modify _) _ _ => apply agree_modify; dim_field
      end
    | match goal with
      | Hd : dim ?s1 ?s2 |- agree dim _ _ ?s1 ?s2 =>
          progress rewrite ?(dm_channel1 _ _ Hd), ?(dm_channel2 _ _ Hd)
      end
    | match goal with |- agree dim (if ?b then _ else _) (if ?b then _ else _) _ _ => destruct b end
    | match goal with |- agree dim (match ?x with _ => _ end) (match ?x with _ => _ end) _ _ => destruct x end ].
Ltac dim_auto := repeat dim_step.

Lemma dim_close s1 s2 : dim s1 s2 -> agree dim close_channel close_channel s1 s2.
Proof. intros Hd. unfold close_channel. dim_auto. Qed.

Lemma dim_parse {A} (r : RM A) p s1 s2 : dim s1 s2 -> agree dim (parse r p) (parse r p) s1 s2.
Proof. apply agree_lift. Qed.
Lemma dim_text {A} (r : RM A) p s1 s2 : dim s1 s2 -> agree dim (parse_with_text r p) (parse_with_text r p) s1 s2.
Proof. intros Hd. unfold parse_with_text. dim_auto. Qed.
Lemma dim_pop s1 s2 : dim s1 s2 -> agree dim pop_reply pop_reply s1 s2.
Proof.
  intros Hd. unfold pop_reply. apply agree_get. pose proof (dm_same _ _ Hd) as E. injection E as E1 E2 E3 E4.
  rewrite E3. destruct (c_reply_queue s1) as [|r q]; dim_auto.
Qed.

Lemma dim_packet p s1 s2 : dim s1 s2 -> agree dim (handle_packet p) (handle_packet p) s1 s2.
Proof.
  intros Hd. destruct p as [|id p]; [by apply agree_ret|]. unfold handle_packet.
  apply agree_get. pose proof (dm_same _ _ Hd) as E. injection E as E1 E2 E3 E4. rewrite E1.
  unfold handle_open_confirmation, handle_open_failure, handle_request_failure, handle_channel_data, handle_extended_data,
    replenish_window, handle_window_adjust, on_open_channel, flush_channel, handle_channel_request, handle_channel_close.
  repeat first [by apply dim_parse | by apply dim_text | by apply dim_pop | by apply dim_close | dim_step].
Qed.

Lemma alike_verify (d1 d2 : DemoClient C) k : alike d1 d2 -> fst (verify_host_key k d2) = fst (verify_host_key k d1).
Proof. intros (E1 & E2 & _). cbn. rewrite E1, E2. by destruct (dc_known_hosts d2). Qed.
Lemma verify_same (d : DemoClient C) k : snd (verify_host_key k d) = d.
Proof. cbn. by destruct (dc_known_hosts d). Qed.
Lemma unknown_refuses (d : DemoClient C) k : unknown d -> fst (verify_host_key k d) = false.
Proof. intros (kh & E & Hk). cbn. rewrite E. apply Hk. Qed.

Lemma dim_verify k s1 s2 :
  dim s1 s2 -> agree dim (on_handler (verify_host_key k)) (on_handler (verify_host_key k)) s1 s2.
Proof.
  intros Hd. pose proof (alike_verify _ _ k (dm_alike _ _ Hd)) as Hv.
  pose proof (verify_same (c_handler s1) k) as V1. pose proof (verify_same (c_handler s2) k) as V2.
  unfold agree, on_handler. destruct (verify_host_key k (c_handler s1)) as [g1 h1], (verify_host_key k (c_handler s2)) as [g2 h2].
  cbn in *. subst. split; [done|]. intros _ _. destruct Hd. by constructor.
Qed.

Lemma dim_event e s1 s2 : dim s1 s2 -> agree dim (handle_event e) (handle_event e) s1 s2.
Proof.
  intros Hd. destruct e; cbn [handle_event].
  - apply agree_bind; [by apply dim_verify|]. intros g t1 t2 Ht. destruct g; cbn [negb]; dim_auto.
  - apply agree_get. pose proof (dm_same _ _ Hd) as E. injection E as E1 E2 E3 E4. rewrite E2. dim_auto.
  - by apply dim_packet.
  - by apply dim_push.
Qed.

(** ** Up to the refusal *)

(** Two runs that differ in the user alone; the key is still to come. *)
Record twins s1 s2 : Prop := {
  tw_same : s2 = s1 <| c_handler := c_handler s2 |>;
  tw_channel : c_channel s1 = None;
  tw_key : (fresh_client (c_transport s1) /\ Forall ended (t_events (c_transport s1))) \/
           keyed (t_events (c_transport s1));
  tw_events : Forall gone (c_events s1);
  tw_alike : alike (c_handler s1) (c_handler s2);
  tw_unknown : unknown (c_handler s1)
}.
Definition veiled s1 s2 : Prop := twins s1 s2 \/ dim s1 s2.

Lemma twins_transport s1 s2 : twins s1 s2 -> c_transport s2 = c_transport s1.
Proof. intros [-> _ _ _ _ _]. done. Qed.
Lemma twins_events s1 s2 : twins s1 s2 -> c_events s2 = c_events s1.
Proof. intros [-> _ _ _ _ _]. done. Qed.

(** An update of both that the handlers do not notice. *)
Lemma twins_set (u : Client -> Client) s1 s2 :
  twins s1 s2 -> u s2 = (u s1) <| c_handler := c_handler s2 |> -> c_handler (u s1) = c_handler s1 ->
  c_handler (u s2) = c_handler s2 -> c_channel (u s1) = None ->
  (fresh_client (c_transport (u s1)) /\ Forall ended (t_events (c_transport (u s1))) \/ keyed (t_events (c_transport (u s1)))) ->
  Forall gone (c_events (u s1)) -> twins (u s1) (u s2).
Proof.
  intros [T1 T2 T3 T4 T5 T6] E H1 H2 H3 H4 H5. constructor; rewrite ?H1, ?H2; try done.
Qed.

Lemma veiled_receive data s1 s2 :
  veiled s1 s2 ->
  agree veiled (on_transport (Transport.on_input data)) (on_transport (Transport.on_input data)) s1 s2.
Proof.
  intros [Ht|Hd]; unfold agree, on_transport, zoom.
  - pose proof (keying_on_input data (c_transport s1)) as Hk. rewrite (twins_transport _ _ Ht).
    destruct (Transport.on_input data (c_transport s1)) as [o t]. cbn [fst snd] in *. split; [done|]. intros _ _. left.
    apply (twins_set (fun s => s <| c_transport := t |>)); try done; [|by destruct Ht| |by destruct Ht].
    + destruct Ht as [T1 _ _ _ _ _]. rewrite T1 at 1. done.
    + cbn. destruct Hk as (l & El & Hl). rewrite El. destruct Ht as [_ _ [[F D]|Hy] _ _ _]; [|right; by apply keyed_app].
      destruct (Hl F) as [[F' D']|Hy]; [left; split; [done|by apply Forall_app_2]|right; by apply keyed_after].
  - pose proof (dm_closing _ _ Hd) as Hc. pose proof (dm_shown _ _ Hd) as Hv. unfold shown in Hv. injection Hv as V1 _ _ _.
    rewrite Hc in V1. unfold Transport.on_input, bind, get. rewrite Hc, V1. split; [done|]. intros _ _. right.
    by apply dim_transport.
Qed.

(** The key is refused. *)
Lemma refuse_eq k s :
  unknown (c_handler s) ->
  handle_event (ServerHostKey k) s =
    (disconnect msg.KEY_EXCHANGE_FAILED (str "host key rejected") ;;; c_state <-! CS_Done)
      (s <| c_host_rejected := true |> <| c_events := c_events s ++ [CE_HostKeyRejected] |>).
Proof.
  intros Hu. cbn [handle_event]. unfold bind at 1, on_handler.
  pose proof (unknown_refuses (c_handler s) k Hu) as Hf. pose proof (verify_same (c_handler s) k) as Hs.
  destruct (verify_host_key k (c_handler s)) as [g h]. cbn [fst snd] in *. subst g h. by destruct s.
Qed.

Lemma alike_unknown d1 d2 : alike d1 d2 -> unknown d1 -> unknown d2.
Proof. intros (E1 & E2 & _) (kh & E & Hk). exists kh. by rewrite <- E1, <- E2. Qed.

Lemma veiled_refuse k s1 s2 :
  s2 = s1 <| c_handler := c_handler s2 |> -> c_channel s1 = None -> Forall gone (c_events s1) ->
  alike (c_handler s1) (c_handler s2) -> unknown (c_handler s1) ->
  agree veiled (handle_event (ServerHostKey k)) (handle_event (ServerHostKey k)) s1 s2.
Proof.
  intros Hs Hc Hg Ha Hu. unfold agree. rewrite !refuse_eq by (eauto using alike_unknown).
  assert (Et : c_transport s2 = c_transport s1) by by rewrite Hs.
  unfold bind, disconnect, on_transport, zoom. cbn [c_transport set]. rewrite Et.
  pose proof (disconnect_closes msg.KEY_EXCHANGE_FAILED (str "host key rejected") (c_transport s1)) as Hcl.
  destruct (Transport.disconnect _ _ (c_transport s1)) as [[[]|e| |] t]; [|by split..]. split; [done|].
  intros _ _. right. assert (Hd : t_closing t = true) by by apply Hcl.
  rewrite Hs. constructor; try done. cbn. by exists (c_events s1), [].
Qed.

Lemma key_next t e q :
  (fresh_client t /\ Forall ended (e :: q)) \/ keyed (e :: q) ->
  (exists k, e = ServerHostKey k) \/ (ended e /\ ((fresh_client t /\ Forall ended q) \/ keyed q)).
Proof.
  intros [[F D]|([|d ds] & k & l & El & D)].
  - apply List.Forall_cons_iff in D as [? ?]. right. split; [done|by left].
  - injection El as -> ->. left. by exists k.
  - injection El as -> ->. apply List.Forall_cons_iff in D as [? ?]. right. split; [done|right; by exists ds, k, l].
Qed.

Lemma veiled_event e q s1 s2 :
  veiled s1 s2 -> t_events (c_transport s1) = e :: q ->
  agree veiled (handle_event e) (handle_event e) (popped q s1) (popped q s2).
Proof.
  intros [Ht|Hd] He.
  - destruct Ht as [T1 T2 T3 T4 T5 T6]. rewrite He in T3.
    assert (Hs : popped q s2 = (popped q s1) <| c_handler := c_handler (popped q s2) |>) by (rewrite T1 at 1; done).
    destruct (key_next _ _ _ T3) as [[k ->]|[Hend Hk]]; [by apply veiled_refuse|].
    destruct e as [k| |p|r d]; try done. cbn [handle_event]. apply agree_modify. left.
    constructor; try done; [by rewrite Hs|]. cbn. apply Forall_app_2; [done|by repeat constructor].
  - assert (Hp : dim (popped q s1) (popped q s2)).
    { destruct Hd as [D1 D2 D3 D4 D5 D6 D7 D8]. unfold shown in D2. injection D2 as V1 V2 V3 V4. constructor; try done.
      unfold shown. cbn. congruence. }
    pose proof (dim_event e _ _ Hp) as [E1 E2]. split; [exact E1|]. intros a Ho. right. by apply (E2 a).
Qed.

Lemma veiled_events s1 s2 :
  veiled s1 s2 -> t_events (c_transport s2) = t_events (c_transport s1) /\ c_events s2 = c_events s1 /\
    t_tx (c_transport s2) = t_tx (c_transport s1).
Proof.
  intros [Ht|Hd].
  - by rewrite (twins_transport _ _ Ht), (twins_events _ _ Ht).
  - pose proof (dm_shown _ _ Hd) as Hv. pose proof (dm_same _ _ Hd) as Hs. unfold shown in Hv. by injection Hv; injection Hs.
Qed.

Lemma pump_eq fuel s :
  pump_loop fuel s =
    match t_events (c_transport s) with
    | [] => (Ok tt, s)
    | e :: q => match fuel with
                | O => (OutOfFuel, popped q s)
                | S fuel' => (handle_event e ;;; pump_loop fuel') (popped q s)
                end
    end.
Proof.
  destruct fuel; cbn [pump_loop]; unfold bind at 1, on_transport, zoom, Transport.poll_event, bind at 1, get;
    destruct (t_events (c_transport s)) as [|e q] eqn:He; try done; cbn [ret]; by destruct s.
Qed.

Lemma veiled_pump fuel s1 s2 : veiled s1 s2 -> agree veiled (pump_loop fuel) (pump_loop fuel) s1 s2.
Proof.
  revert s1 s2. induction fuel as [|fuel IH]; intros s1 s2 Hv; destruct (veiled_events _ _ Hv) as (E1 & _);
    unfold agree; rewrite !pump_eq, E1; destruct (t_events (c_transport s1)) as [|e q] eqn:He; try by split.
  refine (agree_bind veiled (handle_event e) (handle_event e) (fun _ => pump_loop fuel) (fun _ => pump_loop fuel) _ _ _ _);
    [by apply veiled_event|]. intros _ t1 t2 Ht. by apply IH.
Qed.

Lemma veiled_input data s1 s2 : veiled s1 s2 -> agree veiled (on_input data) (on_input data) s1 s2.
Proof.
  intros Hv. unfold on_input. apply agree_bind; [by apply veiled_receive|]. intros _ t1 t2 Ht.
  destruct (veiled_events _ _ Ht) as (E1 & _). unfold agree, pump. rewrite E1. by apply veiled_pump.
Qed.

Lemma veiled_clear s1 s2 : veiled s1 s2 -> agree veiled clear_output clear_output s1 s2.
Proof.
  intros Hv. split; [done|]. intros _ _. destruct Hv as [Ht|Hd].
  - left. apply (twins_set (fun s => snd (clear_output s))); try done; try by destruct Ht.
    destruct Ht as [T1 _ _ _ _ _]. by rewrite T1 at 1.
  - right. destruct Hd as [D1 D2 D3 D4 D5 D6 D7 D8]. unfold shown in D2. injection D2 as V1 V2 V3 V4. constructor; try done.
    unfold shown. cbn. congruence.
Qed.

(** ** The program *)

(** What the drivers have written is the same, and their sessions are related. *)
Definition parted (d1 d2 : Driver Client) : Prop :=
  dv_stream d1 = dv_stream d2 /\ veiled (dv_session d1) (dv_session d2).
(** The outcome and what was written are the same; when it returns the sessions are related. *)
Definition lockstep {A} (m : M DriveError (Driver Client) A) d1 d2 : Prop :=
  fst (m d1) = fst (m d2) /\ dv_stream (snd (m d1)) = dv_stream (snd (m d2)) /\
  forall a, fst (m d1) = Ok a -> parted (snd (m d1)) (snd (m d2)).

Lemma lockstep_bind {A B} (m : M DriveError (Driver Client) A) (f : A -> M DriveError (Driver Client) B) d1 d2 :
  lockstep m d1 d2 -> (forall a e1 e2, m d1 = (Ok a, e1) -> parted e1 e2 -> lockstep (f a) e1 e2) -> lockstep (bind m f) d1 d2.
Proof.
  intros (E1 & E2 & HR) Hf. unfold lockstep, bind in *. destruct (m d1) as [o1 e1], (m d2) as [o2 e2]. cbn in *. subst o2.
  destruct o1 as [a|e| |]; [|by split_and!..]. by apply (Hf a e1 e2), (HR a).
Qed.
Lemma lockstep_ret {A} (a : A) d1 d2 : parted d1 d2 -> lockstep (ret a) d1 d2.
Proof. intros Hp. split; [done|]. split; [apply Hp|by intros _ _]. Qed.
Lemma lockstep_err {A} e d1 d2 : parted d1 d2 -> lockstep (A := A) (err e) d1 d2.
Proof. intros Hp. split; [done|]. split; [apply Hp|done]. Qed.

Lemma lockstep_session {A} (m : M SshError Client A) d1 d2 :
  (forall s1 s2, veiled s1 s2 -> agree veiled m m s1 s2) -> parted d1 d2 -> lockstep (Driver.on_session m) d1 d2.
Proof.
  intros Hm [E Hv]. destruct (Hm _ _ Hv) as [E1 E2]. unfold lockstep, Driver.on_session.
  destruct (m (dv_session d1)) as [o1 s1], (m (dv_session d2)) as [o2 s2]. cbn in *. subst o2.
  destruct o1 as [a|e| |]; cbn; (split; [done|]); (split; [done|]); try done.
  intros _ _. split; [done|]. by apply (E2 a).
Qed.

(** [flush], by what there is to write. *)
Lemma flush_eq w (d : Driver Client) :
  Driver.flush w d =
    if negb (len (t_tx (c_transport (dv_session d))) =? 0) then
      match w with
      | Written => (Ok tt, mkDriver (dv_stream d ++ t_tx (c_transport (dv_session d))) (snd (clear_output (dv_session d))))
      | WriteFailed n e =>
          (Err (De_Io e), mkDriver (dv_stream d ++ ztake n (t_tx (c_transport (dv_session d)))) (dv_session d))
      end
    else (Ok tt, d).
Proof.
  unfold Driver.flush, bind at 1, get. cbn [session_pending_output client_session]. unfold pending_output, Transport.pending_output.
  by destruct (negb _), w.
Qed.

Lemma flush_same w (d1 d2 : Driver Client) :
  dv_stream d1 = dv_stream d2 -> t_tx (c_transport (dv_session d2)) = t_tx (c_transport (dv_session d1)) ->
  fst (Driver.flush w d1) = fst (Driver.flush w d2) /\ dv_stream (snd (Driver.flush w d1)) = dv_stream (snd (Driver.flush w d2)).
Proof.
  intros E1 E2. rewrite !flush_eq, E1, E2. by destruct (negb _), w.
Qed.

Lemma lockstep_flush w d1 d2 : parted d1 d2 -> lockstep (Driver.flush w) d1 d2.
Proof.
  intros [E Hv]. destruct (veiled_events _ _ Hv) as (_ & _ & E3). destruct (flush_same w d1 d2 E E3) as [F1 F2].
  split; [done|]. split; [done|]. intros a _. split; [done|]. rewrite !flush_eq, E3.
  destruct (negb _), w; cbn; try done. by apply (veiled_clear _ _ Hv) with (a := tt).
Qed.

Lemma poll_eq (s : Client) :
  poll_event s = match c_events s with [] => (Ok None, s) | e :: q => (Ok (Some e), s <| c_events := q |>) end.
Proof. unfold poll_event, bind, get. destruct (c_events s); done. Qed.

(** What the program can be told of a session whose host is not known. *)
Definition bad_news (r : option ClientEvent) : Prop :=
  match r with Some e => gone e \/ e = CE_HostKeyRejected | None => True end.
Lemma veiled_news e q s1 s2 : veiled s1 s2 -> c_events s1 = e :: q -> bad_news (Some e).
Proof.
  intros [[_ _ _ T _ _]|[_ _ _ _ _ D _ _]] E; rewrite E in *.
  - left. by apply List.Forall_cons_iff in T as [? _].
  - destruct D as ([|d ds] & rest & El & Hf); injection El as -> ->; [by right|].
    left. by apply List.Forall_cons_iff in Hf as [? _].
Qed.

(** The outcome and what was written are the same, and the value is as said. *)
Definition sealed {A} (P : A -> Prop) (m : M DriveError (Driver Client) A) d1 d2 : Prop :=
  fst (m d1) = fst (m d2) /\ dv_stream (snd (m d1)) = dv_stream (snd (m d2)) /\
  forall a, fst (m d1) = Ok a -> P a.
Lemma sealed_bind {A B} (P : B -> Prop) (m : M DriveError (Driver Client) A) (f : A -> M DriveError (Driver Client) B) d1 d2 :
  lockstep m d1 d2 -> (forall a e1 e2, m d1 = (Ok a, e1) -> parted e1 e2 -> sealed P (f a) e1 e2) -> sealed P (bind m f) d1 d2.
Proof.
  intros (E1 & E2 & HR) Hf. unfold sealed, bind in *. destruct (m d1) as [o1 e1], (m d2) as [o2 e2]. cbn in *. subst o2.
  destruct o1 as [a|e| |]; [|by split_and!..]. by apply (Hf a e1 e2), (HR a).
Qed.
Lemma sealed_ret {A} (P : A -> Prop) (a : A) d1 d2 : parted d1 d2 -> P a -> sealed P (ret a) d1 d2.
Proof. intros Hp Ha. split; [done|]. split; [apply Hp|]. by intros ? [= <-]. Qed.

(** An event that was waiting: what there is to write goes out, and the event is the value. *)
Lemma sealed_told e w (m : M DriveError (Driver Client) (option ClientEvent)) (f : M DriveError (Driver Client) (option ClientEvent))
  (d1 d2 f1 f2 : Driver Client) :
  m d1 = (Ok (Some e), f1) -> m d2 = (Ok (Some e), f2) -> dv_stream f1 = dv_stream f2 ->
  t_tx (c_transport (dv_session f2)) = t_tx (c_transport (dv_session f1)) -> bad_news (Some e) ->
  sealed bad_news (let* e := m in match e with Some event => Driver.flush w ;;; ret (Some event) | None => f end) d1 d2.
Proof.
  intros H1 H2 E E3 Hn. destruct (flush_same w f1 f2 E E3) as [F1 F2].
  assert (Hm : forall d g, m d = (Ok (Some e), g) ->
    (let* e := m in match e with Some event => Driver.flush w ;;; ret (Some event) | None => f end) d =
    (match fst (Driver.flush w g) with Ok _ => Ok (Some e) | Err x => Err x | Panic => Panic | OutOfFuel => OutOfFuel end,
     snd (Driver.flush w g))).
  { intros d g Hg. unfold bind. rewrite Hg. by destruct (Driver.flush w g) as [[]]. }
  unfold sealed. rewrite (Hm _ _ H1), (Hm _ _ H2). cbn [fst snd]. rewrite F1. split; [done|]. split; [done|].
  destruct (fst (Driver.flush w f2)); by intros ? [= <-].
Qed.

Lemma sealed_next script d1 d2 :
  parted d1 d2 -> sealed bad_news (@Driver.next_event _ client_session script : M DriveError (Driver Client) (option ClientEvent)) d1 d2.
Proof.
  revert d1 d2. induction script as [|[w r] script IH]; intros d1 d2 Hp; [split; [done|]; split; [apply Hp|done]|].
  cbn [Driver.next_event]. pose proof Hp as [E Hv]. destruct (veiled_events _ _ Hv) as (_ & E2 & E3).
  assert (Hd : forall (d : Driver Client), c_events (dv_session d) = [] ->
    Driver.on_session session_poll_event d = (Ok None, d)).
  { intros d H0. unfold Driver.on_session. cbn [session_poll_event client_session]. rewrite poll_eq, H0. by destruct d. }
  destruct (c_events (dv_session d1)) as [|e q] eqn:E1.
  - apply sealed_bind.
    { unfold lockstep. rewrite !Hd by done. split; [done|]. split; [apply Hp|]. by intros _ _. }
    intros a e1 e2. rewrite Hd by done. intros [= <- <-] Hp1. apply sealed_bind; [by apply lockstep_flush|].
    intros [] f1 f2 _ Hf. destruct r as [data|k].
    + destruct (len data =? 0); [by apply sealed_ret|]. apply sealed_bind; [|by intros [] ? ? _; apply IH].
      by apply lockstep_session; [apply veiled_input|].
    + destruct (is_disconnect k); [by apply sealed_ret|]. split; [done|]. by split; [apply Hf|].
  - assert (Hq : forall (d : Driver Client), c_events (dv_session d) = e :: q -> Driver.on_session session_poll_event d =
      (Ok (Some e), d <| dv_session := (dv_session d) <| c_events := q |> |>)).
    { intros d H0. unfold Driver.on_session. cbn [session_poll_event client_session]. by rewrite poll_eq, H0. }
    lazymatch goal with |- sealed _ (bind ?m (fun e => match e with Some _ => _ | None => ?f end)) _ _ =>
      apply (sealed_told e w m f _ _ _ _ (Hq d1 E1) (Hq d2 E2)) end; [done..|]. by apply (veiled_news e q _ _ Hv).
Qed.

Lemma bad_news_ends (r : option ClientEvent) calls : bad_news r ->
  match r with
  | Some CE_Authenticated => ret None
  | Some (CE_AuthFailed _) | Some CE_HostKeyRejected | Some (CE_Disconnect _ _) | None => ret (Some 1)
  | Some _ => Cli.authenticate calls
  end = (ret (Some 1) : M DriveError (Driver Client) (option Z)).
Proof. destruct r as [[]|]; cbn; try done; by intros [?|?]. Qed.

Lemma sealed_authenticate calls d1 d2 :
  parted d1 d2 -> sealed (fun r => r = Some 1) (Cli.authenticate calls) d1 d2.
Proof.
  intros Hp. destruct calls as [|script calls]; [split; [done|]; split; [apply Hp|done]|].
  cbn [Cli.authenticate]. destruct (sealed_next script d1 d2 Hp) as (E1 & E2 & HP). unfold sealed, bind.
  destruct (Driver.next_event script d1) as [o1 f1], (Driver.next_event script d2) as [o2 f2]. cbn [fst snd] in *. subst o2.
  destruct o1 as [r|x| |]; [|by split_and!..]. specialize (HP r eq_refl).
  rewrite (bad_news_ends r calls HP). cbn. split; [done|]. split; [done|]. by intros a [= <-].
Qed.

Lemma twins_new rng ocomp d1 d2 :
  alike d1 d2 -> unknown d1 ->
  let st := Transport.start Transport.Client rng None None ocomp in
  fst (with_transport st d1) = fst (with_transport st d2) /\
  twins (snd (with_transport st d1)) (snd (with_transport st d2)).
Proof.
  intros Ha Hu. cbn zeta. unfold with_transport, Transport.start. set (t0 := Transport.initial _ _ _ _ _).
  pose proof (key_view_send_kexinit t0) as Hv. destruct (Transport.send_kexinit t0) as [o t]. split; [done|].
  constructor; try done. left. unfold same, key_view in Hv. cbn in Hv. injection Hv as E1 E2 E3 E4 E5.
  unfold fresh_client. cbn. rewrite E1, E2, E3, E4, E5. split; [done|constructor].
Qed.

End Unknown.

(** * The program *)
Section Stranger.
Context `{K : SshKey} {O : SshKeyOk}.
Import ClientConnection.

(** The file of known hosts can be read, and no line of it records a key for the host. *)
Definition stranger (env : ClientEnv C) : Prop :=
  ce_known_set env = true /\ ce_known_fault env = false /\
  exists text, st_file (ce_known env) = Some text /\ utf8_valid text = true /\
    forall line k, line ∈ lines text -> ~ records line (ClientMain.addr env) k.
(** The same host, the same file, the same offer of compression; the user, the password, the
    command and the wish to re-key may differ. *)
Definition same_place (env1 env2 : ClientEnv C) : Prop :=
  ClientMain.addr env1 = ClientMain.addr env2 /\
  (ce_known_set env1, ce_known_fault env1, ce_known env1, ce_compression env1) =
  (ce_known_set env2, ce_known_fault env2, ce_known env2, ce_compression env2).

Lemma stranger_unknown env : stranger env -> unknown (ClientMain.demo env).
Proof.
  intros (E1 & E2 & text & E3 & E4 & Hn). unfold unknown, ClientMain.demo, env_known_hosts. cbn [dc_known_hosts dc_host].
  rewrite E1, E2. unfold load_known_hosts, read_to_string, bind, get. rewrite E3, E4. cbn.
  eexists. split; [reflexivity|]. intros k. apply not_true_iff_false. intros Ht.
  destruct (proj1 (trusted_records text (ClientMain.addr env) k) Ht) as (_ & line & Hl & Hr).
  by apply (Hn line k).
Qed.
Lemma same_place_alike env1 env2 : same_place env1 env2 -> alike (ClientMain.demo env1) (ClientMain.demo env2).
Proof.
  intros (E & [= E1 E2 E3 E4]). unfold alike, ClientMain.demo. cbn. by rewrite E, E1, E2, E3.
Qed.

Lemma session_twins env1 env2 rng :
  same_place env1 env2 -> stranger env1 ->
  fst (ClientMain.session env1 rng) = fst (ClientMain.session env2 rng) /\
  twins (snd (ClientMain.session env1 rng)) (snd (ClientMain.session env2 rng)).
Proof.
  intros Hs Hu. pose proof (twins_new rng) as Hn. pose proof (same_place_alike _ _ Hs) as Ha.
  destruct Hs as (_ & [= _ _ _ E]). unfold ClientMain.session. rewrite <- E.
  destruct (ce_compression env1); apply Hn; auto using stranger_unknown.
Qed.

(** What the file says, by what is read from it. *)
Lemma stranger_entries env text :
  ce_known_set env = true -> ce_known_fault env = false -> st_file (ce_known env) = Some text -> utf8_valid text = true ->
  ClientMain.addr env <> [] -> existsb (fun '(h, _) => beq h (ClientMain.addr env)) (KnownHosts.parse text) = false ->
  stranger env.
Proof.
  intros E1 E2 E3 E4 Hn Hx. split; [done|]. split; [done|]. exists text. split; [done|]. split; [done|]. intros line k Hl Hr.
  assert (Ht : KnownHosts.is_trusted (ClientMain.addr env) k (KnownHosts.parse text) = true).
  { apply trusted_records. split; [done|]. by exists line. }
  unfold KnownHosts.is_trusted in Ht. apply existsb_exists in Ht as ([h v] & Hin & [Hb _]%andb_true_iff).
  enough (existsb (fun '(h, _) => beq h (ClientMain.addr env)) (KnownHosts.parse text) = true) by congruence.
  apply existsb_exists. by exists (h, v).
Qed.

(** When the first phase can only come to exit code 1, so does the program. *)
Lemma phases_early (env : ClientEnv C) calls script (c : Cli (DemoClient C)) :
  (forall r, fst (Cli.authenticate calls (cli_driver c)) = Ok r -> r = Some 1) ->
  ClientMain.phases env calls script c =
    (match fst (Cli.authenticate calls (cli_driver c)) with
     | Ok _ => Ok 1 | Err e => Err (Ce_Drive e) | Panic => Panic | OutOfFuel => OutOfFuel end,
     c <| cli_driver := snd (Cli.authenticate calls (cli_driver c)) |>).
Proof.
  intros Hr. unfold ClientMain.phases, bind at 1, Cli.on_driver.
  destruct (Cli.authenticate calls (cli_driver c)) as [[r|e| |] d]; cbn [Cli.convert fst snd] in *; try done.
  by rewrite (Hr r eq_refl).
Qed.

(** C17. A host that is not known learns nothing: for any two runs of the client program on a
    host for which the file of known hosts records no key, with the same random numbers and
    the same input from the network, the bytes that are written to the stream and the outcome
    are the same, whatever the user, the password, the command and the wish to re-key are, and
    whatever is typed; a run that returns ends in exit code 1. *)
Theorem unknown_host_learns_nothing env1 env2 rng calls script1 script2 :
  same_place env1 env2 -> stranger env1 ->
  let r1 := ClientMain.main env1 rng calls script1 in
  let r2 := ClientMain.main env2 rng calls script2 in
  fst r1 = fst r2 /\ dv_stream (cli_driver (snd r1)) = dv_stream (cli_driver (snd r2)) /\
  forall code, fst r1 = Ok code -> code = 1.
Proof.
  intros Hs Hu. cbn zeta. destruct (session_twins env1 env2 rng Hs Hu) as [E1 Ht]. unfold ClientMain.main.
  destruct (ClientMain.session env1 rng) as [o1 s1], (ClientMain.session env2 rng) as [o2 s2]. cbn [fst snd] in *. subst o2.
  destruct o1 as [[]|e| |]; [|by split_and!..].
  assert (Hp : parted (Driver.new s1) (Driver.new s2)) by (split; [done|by left]).
  destruct (sealed_authenticate calls _ _ Hp) as (F1 & F2 & HP).
  assert (HP2 : forall r, fst (Cli.authenticate calls (Driver.new s2)) = Ok r -> r = Some 1) by (intros r; rewrite <- F1; apply HP).
  rewrite !phases_early by done. cbn [cli_driver fst snd set]. rewrite <- F1. split; [done|]. split; [done|].
  intros code. destruct (fst (Cli.authenticate calls (Driver.new s1))); by intros [= <-].
Qed.
End Stranger.

(** * Two users at a host that is not in the file *)
Module Strangers.
Import Toy ToyKeys Session.
Definition env (args : list bytes) (rekey : bool) : ClientEnv crypto :=
  mkClientEnv crypto args true false (mkStore crypto (1 : Z) (Some Files.known)) false rekey.
Definition alice : ClientEnv crypto := env [str "nobody:22"; str "alice"; str "secret"] false.
Definition bob : ClientEnv crypto := env [str "nobody:22"; str "bob"; str "hunter2"; str "ls"] true.
(** What a server answers, up to its host key. *)
Definition calls : list (list (WriteOutcome * ReadOutcome)) :=
  [[(Written, Read (s_out s0)); (Written, Read (s_out s2)); (Written, Read [])]].
Abbreviation run e := (ClientMain.main (K := _) e (5 : Z) calls []).
End Strangers.

Import Toy ToyKeys.

Lemma strangers_alice : stranger Strangers.alice.
Proof. by apply (stranger_entries Strangers.alice Files.known); try done; vm_compute. Qed.
Lemma strangers_alike : same_place Strangers.alice Strangers.bob.
Proof. by split. Qed.

(** The key exchange goes out, and no more, whoever asked for it. *)
Lemma unknown_host_learns_nothing_witness :
  ClientMain.password Strangers.alice <> ClientMain.password Strangers.bob /\
  fst (Strangers.run Strangers.alice) = Ok 1 /\ fst (Strangers.run Strangers.bob) = Ok 1 /\
  len (dv_stream (cli_driver (snd (Strangers.run Strangers.alice)))) = 1684 /\
  dv_stream (cli_driver (snd (Strangers.run Strangers.alice))) = dv_stream (cli_driver (snd (Strangers.run Strangers.bob))).
Proof.
  pose proof (unknown_host_learns_nothing Strangers.alice Strangers.bob (5 : Z) Strangers.calls [] []
    strangers_alike strangers_alice) as Hu. cbv zeta in Hu. destruct Hu as (E1 & E2 & _). rewrite <- E1, <- E2.
  split; [discriminate|]. split; [vm_cast_no_check (@eq_refl (outcome CliError Z) (Ok 1))|].
  split; [vm_cast_no_check (@eq_refl (outcome CliError Z) (Ok 1))|].
  split; [vm_cast_no_check (@eq_refl Z 1684)|reflexivity].
Defined.
