(* ===== verification/TuiInput.v ===== *)
(** Terminal input: the incremental key decoder of [ssh-tui/input.rs]. *)
From S2P Require Import Prelude Errors Wire.

(** [KeyModifiers]: a bit set. *)
Definition NONE : Z := 0.
Definition SHIFT : Z := 1.
Definition ALT : Z := 2.
Definition CTRL : Z := 4.

(** A [char] is its scalar value. *)
Inductive KeyCode :=
| Char (c : Z) | Enter | Tab | BackTab | Backspace | Esc | Up | Down | Left | Right | Home | End_
| PageUp | PageDown | Insert | Delete | F (n : Z).
#[export] Instance KeyCode_eq_dec : EqDecision KeyCode.
Proof. solve_decision. Defined.

Record KeyEvent := mkKeyEvent { code : KeyCode; modifiers : Z }.
#[export] Instance KeyEvent_eq_dec : EqDecision KeyEvent.
Proof. solve_decision. Defined.
#[export] Instance eta_KeyEvent : Eta KeyEvent := fun e => mkKeyEvent (code e) (modifiers e).

Definition plain (c : KeyCode) : KeyEvent := mkKeyEvent c NONE.
Definition contains (m other : Z) : bool := Z.land m other =? other.
Definition is_interrupt (e : KeyEvent) : bool :=
  bool_decide (code e = Char 99) && contains (modifiers e) CTRL.
Definition from_csi_param (param : Z) : Z := as_u8 (Z.land (saturating_sub param 1) 7).

Inductive Step :=
| Step_Key (n : Z) (e : KeyEvent)
| Step_Skip (n : Z)
| Step_Incomplete.

(** [control]: C0 bytes and DEL. *)
Definition control (b : Z) : option KeyEvent :=
  let ctrl c := Some (mkKeyEvent (Char c) CTRL) in
  if (b =? 13) || (b =? 10) then Some (plain Enter)
  else if b =? 9 then Some (plain Tab)
  else if (b =? 8) || (b =? 127) then Some (plain Backspace)
  else if b =? 0 then ctrl 32
  else if (1 <=? b) && (b <=? 26) then ctrl (97 + b - 1)
  else if b =? 28 then ctrl 92
  else if b =? 29 then ctrl 93
  else if b =? 30 then ctrl 94
  else if b =? 31 then ctrl 95
  else None.

(** [str::parse::<u16>]: an optional plus sign and at least one digit. *)
Definition digit (b : Z) : option Z := if (48 <=? b) && (b <=? 57) then Some (b - 48) else None.
Fixpoint parse_digits (acc : Z) (l : bytes) : option Z :=
  match l with
  | [] => Some acc
  | b :: l' =>
      match digit b with
      | Some d => if acc * 10 + d <=? U16_MAX then parse_digits (acc * 10 + d) l' else None
      | None => None
      end
  end.
Definition parse_u16 (l : bytes) : option Z :=
  match (match l with 43 :: l' => l' | _ => l end) with
  | [] => None
  | l' => parse_digits 0 l'
  end.

(** The key of a [~]-terminated sequence. *)
Definition tilde_key (first : option Z) : option KeyCode :=
  match first with
  | Some n =>
      if (n =? 1) || (n =? 7) then Some Home
      else if n =? 2 then Some Insert
      else if n =? 3 then Some Delete
      else if (n =? 4) || (n =? 8) then Some End_
      else if n =? 5 then Some PageUp
      else if n =? 6 then Some PageDown
      else if (11 <=? n) && (n <=? 15) then Some (F (as_u8 (n - 10)))
      else if (17 <=? n) && (n <=? 21) then Some (F (as_u8 (n - 11)))
      else if (23 <=? n) && (n <=? 24) then Some (F (as_u8 (n - 12)))
      else None
  | None => None
  end.

(** The first byte that ends a CSI sequence. *)
Fixpoint final_position (l : bytes) : option Z :=
  match l with
  | [] => None
  | b :: l' => if within 64 126 b then Some 0 else Z.succ <$> final_position l'
  end.

Definition csi (buf : bytes) : Step :=
  match final_position (zdrop 2 buf) with
  | None => Step_Incomplete
  | Some fin =>
      let params_raw := slice 2 (2 + fin) buf in
      let final_byte := znth buf (2 + fin) in
      let n := fin + 3 in
      let params := map (fun p => if utf8_valid p then parse_u16 p else None) (split_on 59 params_raw) in
      let first := match params with x :: _ => x | [] => None end in
      let mods := match params with
                  | _ :: Some p :: _ => from_csi_param p
                  | _ => NONE
                  end in
      let key c := Step_Key n (mkKeyEvent c mods) in
      if final_byte =? 65 then key Up
      else if final_byte =? 66 then key Down
      else if final_byte =? 67 then key Right
      else if final_byte =? 68 then key Left
      else if final_byte =? 72 then key Home
      else if final_byte =? 70 then key End_
      else if final_byte =? 90 then Step_Key n (mkKeyEvent BackTab SHIFT)
      else if final_byte =? 126 then
        match tilde_key first with Some c => key c | None => Step_Skip n end
      else Step_Skip n
  end.

Definition ss3 (buf : bytes) : Step :=
  match buf with
  | _ :: _ :: final_byte :: _ =>
      let key c := Step_Key 3 (plain c) in
      if final_byte =? 65 then key Up
      else if final_byte =? 66 then key Down
      else if final_byte =? 67 then key Right
      else if final_byte =? 68 then key Left
      else if final_byte =? 72 then key Home
      else if final_byte =? 70 then key End_
      else if final_byte =? 80 then key (F 1)
      else if final_byte =? 81 then key (F 2)
      else if final_byte =? 82 then key (F 3)
      else if final_byte =? 83 then key (F 4)
      else Step_Skip 3
  | _ => Step_Incomplete
  end.

(** [utf8]: one character from the front of a non-empty buffer. *)
Definition lead_width (b : Z) : option Z :=
  if within 0 127 b then Some 1
  else if within 194 223 b then Some 2
  else if within 224 239 b then Some 3
  else if within 240 244 b then Some 4
  else None.

Definition utf8_step (b : Z) (buf : bytes) : Step :=
  match lead_width b with
  | None => Step_Skip 1
  | Some want =>
      if len buf <? want then Step_Incomplete
      else
        let s := ztake want buf in
        if utf8_valid s then
          match utf8_char s with
          | Some (c, _) => Step_Key want (plain (Char c))
          | None => Step_Skip want
          end
        else Step_Skip 1
  end.

(** [step] and [esc], which call each other; [step] indexes the first byte. *)
Fixpoint step (buf : bytes) : outcome unit Step :=
  match buf with
  | [] => Panic
  | b :: rest =>
      if b =? 27 then
        match rest with
        | [] => Ok (Step_Key 1 (plain Esc))
        | x :: _ =>
            if x =? 91 then Ok (csi buf)
            else if x =? 79 then Ok (ss3 buf)
            else if x =? 27 then Ok (Step_Key 1 (plain Esc))
            else omap_ok (fun s => match s with
                                   | Step_Key n e => Step_Key (n + 1) (e <| modifiers ::= Z.lor ALT |>)
                                   | Step_Skip n => Step_Skip (n + 1)
                                   | Step_Incomplete => Step_Incomplete
                                   end) (step rest)
        end
      else match control b with
           | Some event => Ok (Step_Key 1 event)
           | None => Ok (utf8_step b buf)
           end
  end.

(** [InputParser]: the buffered bytes. *)
Record InputParser := mkInputParser { ip_pending : bytes }.
#[export] Instance eta_InputParser : Eta InputParser := fun p => mkInputParser (ip_pending p).

Module InputParser.
Definition new : InputParser := mkInputParser [].

(** The loop of [feed] from the index [at]; what is left and the events so far. *)
Fixpoint feed_loop (fuel : nat) (pending : bytes) (at_ : Z) (events : list KeyEvent)
  : outcome unit (Z * list KeyEvent) :=
  if len pending <=? at_ then Ok (at_, events)
  else
    match fuel with
    | O => OutOfFuel
    | S fuel' =>
        match step (zdrop at_ pending) with
        | Ok (Step_Key n e) => feed_loop fuel' pending (at_ + n) (events ++ [e])
        | Ok (Step_Skip n) => feed_loop fuel' pending (at_ + n) events
        | Ok Step_Incomplete => Ok (at_, events)
        | Err e => Err e
        | Panic => Panic
        | OutOfFuel => OutOfFuel
        end
    end.

(** Every round but the last consumes a byte. *)
Definition feed (input : bytes) : M unit InputParser (list KeyEvent) :=
  ip_pending <-~ (fun p => p ++ input) ;;;
  let* p := get in
  let* '(at_, events) := lift (feed_loop (length (ip_pending p)) (ip_pending p) 0 []) in
  (if at_ <=? len (ip_pending p) then ip_pending <-! zdrop at_ (ip_pending p) else panic) ;;;
  ret events.
End InputParser.

(** * Properties *)

Lemma lead_width_bound b w : lead_width b = Some w -> 1 <= w <= 4.
Proof. unfold lead_width. repeat case_match; intros; simplify_eq; lia. Qed.

Lemma final_position_bound l p : final_position l = Some p -> 0 <= p < len l.
Proof.
  revert p. induction l as [|b l IH]; intros p; cbn [final_position]; [done|].
  rewrite len_cons. pose proof (len_nonneg l).
  destruct (within 64 126 b); [intros [= <-]; lia|].
  destruct (final_position l) as [q|]; [|done]. specialize (IH q eq_refl). intros [= <-]. lia.
Qed.

Lemma final_position_app l more p :
  final_position l = Some p -> final_position (l ++ more) = Some p.
Proof.
  revert p. induction l as [|b l IH]; intros p; cbn [final_position app]; [done|].
  destruct (within 64 126 b); [done|]. destruct (final_position l) as [q|]; [|done].
  by rewrite (IH q eq_refl).
Qed.

(** What a step consumes. *)
Definition step_size (s : Step) : option Z :=
  match s with Step_Key n _ | Step_Skip n => Some n | Step_Incomplete => None end.

Lemma csi_size buf n : 2 <= len buf -> step_size (csi buf) = Some n -> 1 <= n <= len buf.
Proof.
  intros Hl. unfold csi. destruct (final_position _) as [p|] eqn:Hp; [|done].
  apply final_position_bound in Hp. rewrite len_zdrop in Hp by lia.
  repeat case_match; cbn; intros; simplify_eq; lia.
Qed.

Lemma ss3_size buf n : step_size (ss3 buf) = Some n -> 1 <= n <= len buf.
Proof.
  unfold ss3. destruct buf as [|a [|b [|c buf]]]; try done. pose proof (len_nonneg buf).
  rewrite !len_cons. repeat case_match; cbn; intros; simplify_eq; lia.
Qed.

Lemma utf8_size b buf n : 1 <= len buf -> step_size (utf8_step b buf) = Some n -> 1 <= n <= len buf.
Proof.
  intros Hl. unfold utf8_step. destruct (lead_width b) as [w|] eqn:Hw; [|intros [= <-]; lia].
  apply lead_width_bound in Hw. destruct (Z.ltb_spec (len buf) w); [done|].
  repeat case_match; cbn; intros; simplify_eq; lia.
Qed.

(** A step on a non-empty buffer returns, and what it consumes is in the buffer. *)
Lemma step_total buf :
  buf <> [] -> exists s, step buf = Ok s /\ forall n, step_size s = Some n -> 1 <= n <= len buf.
Proof.
  induction buf as [|b rest IH]; intros Hne; [done|]. cbn [step]. pose proof (len_nonneg rest).
  destruct (b =? 27).
  - destruct rest as [|x rest']; [eexists; split; [done|]; intros n [= <-]; len_lia|].
    assert (Hl : 2 <= len (b :: x :: rest')) by (rewrite !len_cons; pose proof (len_nonneg rest'); lia).
    destruct (x =? 91); [eexists; split; [done|]; intros n; by apply csi_size|].
    destruct (x =? 79); [eexists; split; [done|]; intros n; apply ss3_size|].
    destruct (x =? 27); [eexists; split; [done|]; intros n [= <-]; lia|].
    destruct (IH ltac:(done)) as (s & -> & Hs). cbn [omap_ok]. eexists. split; [reflexivity|].
    rewrite len_cons. destruct s as [k e|k|]; cbn; intros n Hn; simplify_eq;
      specialize (Hs _ eq_refl); lia.
  - destruct (control b); [eexists; split; [done|]; intros n [= <-]; len_lia|].
    eexists. split; [reflexivity|]. intros n. apply utf8_size. len_lia.
Qed.

Lemma csi_app buf more s :
  2 <= len buf -> csi buf = s -> s <> Step_Incomplete -> csi (buf ++ more) = s.
Proof.
  intros Hl Hs Hn. unfold csi in *. rewrite zdrop_app_l by lia.
  destruct (final_position (zdrop 2 buf)) as [p|] eqn:Hp; [|congruence].
  rewrite (final_position_app _ more p Hp).
  apply final_position_bound in Hp. rewrite len_zdrop in Hp by lia.
  assert (Hsl : slice 2 (2 + p) (buf ++ more) = slice 2 (2 + p) buf).
  { unfold slice. rewrite zdrop_app_l by lia. unfold ztake. rewrite take_app_le; [done|].
    unfold zdrop. rewrite length_drop. unfold len in *. lia. }
  assert (Hz : znth (buf ++ more) (2 + p) = znth buf (2 + p)).
  { unfold znth, len in *. rewrite app_nth1; [done|lia]. }
  by rewrite Hsl, Hz.
Qed.

(** Later bytes do not change a decision, but for the lone escape. *)
Lemma step_app buf more s :
  buf <> [27] -> step buf = Ok s -> s <> Step_Incomplete -> step (buf ++ more) = Ok s.
Proof.
  revert s. induction buf as [|b rest IH]; intros s Hne Hs Hn; [done|].
  cbn [step app] in *. destruct (b =? 27) eqn:Hb.
  - destruct rest as [|x rest']; [apply Z.eqb_eq in Hb; congruence|]. cbn [app].
    assert (Hl : 2 <= len (b :: x :: rest')) by (rewrite !len_cons; pose proof (len_nonneg rest'); lia).
    destruct (x =? 91); [injection Hs as Hs; f_equal; exact (csi_app (b :: x :: rest') more s Hl Hs Hn)|].
    destruct (x =? 79).
    { injection Hs as Hs. f_equal. unfold ss3 in *. by destruct rest'; cbn in *; subst. }
    destruct (x =? 27) eqn:Hx; [done|].
    destruct (step (x :: rest')) as [s'|e| |] eqn:Hs'; try done. cbn [omap_ok] in Hs.
    assert (Hs2 : step (x :: rest' ++ more) = Ok s').
    { apply (IH s'); [intros [= -> ->]; done|done|]. intros ->. by injection Hs as <-. }
    rewrite Hs2. exact Hs.
  - destruct (control b); [done|]. injection Hs as Hs. f_equal. unfold utf8_step in *.
    destruct (lead_width b) as [w|] eqn:Hw; [|done]. apply lead_width_bound in Hw.
    change (b :: rest ++ more) with ((b :: rest) ++ more).
    destruct (Z.ltb_spec (len (b :: rest)) w); [congruence|].
    rewrite len_app. pose proof (len_nonneg more).
    destruct (Z.ltb_spec (len (b :: rest) + len more) w); [lia|].
    assert (Ht : ztake w ((b :: rest) ++ more) = ztake w (b :: rest)).
    { unfold ztake, len in *. rewrite take_app_le; [done|lia]. }
    by rewrite Ht.
Qed.

(** ** The specification of [feed]

    The whole stream, decoded key by key: the events, and the bytes of an unfinished
    sequence at its end. *)
Fixpoint decode (fuel : nat) (l : bytes) : list KeyEvent * bytes :=
  match fuel, l with
  | S fuel', _ :: _ =>
      match step l with
      | Ok (Step_Key n e) => let '(es, r) := decode fuel' (zdrop n l) in (e :: es, r)
      | Ok (Step_Skip n) => decode fuel' (zdrop n l)
      | _ => ([], l)
      end
  | _, _ => ([], l)
  end.
Definition decoded (l : bytes) : list KeyEvent * bytes := decode (length l) l.

Lemma decode_cons fuel b l :
  decode (S fuel) (b :: l) =
  match step (b :: l) with
  | Ok (Step_Key n e) => let '(es, r) := decode fuel (zdrop n (b :: l)) in (e :: es, r)
  | Ok (Step_Skip n) => decode fuel (zdrop n (b :: l))
  | _ => ([], b :: l)
  end.
Proof. done. Qed.

Lemma zdrop_shorter n (l : bytes) fuel :
  1 <= n <= len l -> (length l <= S fuel)%nat -> (length (zdrop n l) <= fuel)%nat.
Proof. intros Hn Hf. unfold zdrop, len in *. rewrite length_drop. lia. Qed.

Lemma decode_fuel fuel l : (length l <= fuel)%nat -> decode fuel l = decoded l.
Proof.
  unfold decoded. remember (length l) as k eqn:Hk. revert l Hk fuel.
  induction k as [k IH] using lt_wf_ind. intros l -> fuel Hf.
  destruct l as [|b l]; [by destruct fuel|]. destruct fuel as [|fuel]; [cbn in Hf; lia|].
  destruct (step_total (b :: l) ltac:(done)) as (s & Hs & Hn).
  cbn [length]. rewrite !decode_cons, Hs.
  assert (Hrec : forall n, step_size s = Some n ->
    decode fuel (zdrop n (b :: l)) = decode (length l) (zdrop n (b :: l))).
  { intros n Hsz. specialize (Hn n Hsz).
    pose proof (zdrop_shorter n (b :: l) (length l) Hn ltac:(done)) as H1.
    pose proof (zdrop_shorter n (b :: l) fuel Hn Hf) as H2.
    rewrite (IH (length (zdrop n (b :: l))) ltac:(cbn; lia) _ eq_refl fuel H2).
    by rewrite (IH (length (zdrop n (b :: l))) ltac:(cbn; lia) _ eq_refl (length l) H1). }
  destruct s as [n e|n|]; [by rewrite (Hrec n eq_refl)|by rewrite (Hrec n eq_refl)|done].
Qed.

(** One unfolding of the specification. *)
Lemma decoded_step l s :
  l <> [] -> step l = Ok s ->
  decoded l = match s with
              | Step_Key n e => (e :: fst (decoded (zdrop n l)), snd (decoded (zdrop n l)))
              | Step_Skip n => decoded (zdrop n l)
              | Step_Incomplete => ([], l)
              end.
Proof.
  intros Hne Hs. destruct l as [|b l]; [done|].
  destruct (step_total (b :: l) Hne) as (s' & Hs' & Hn). rewrite Hs in Hs'. injection Hs' as <-.
  unfold decoded at 1. cbn [length]. rewrite decode_cons, Hs.
  destruct s as [n e|n|]; [..|done];
    (rewrite (decode_fuel (length l)); [|apply (zdrop_shorter n); [by apply Hn|done]]); [|done].
  by destruct (decoded _).
Qed.

Lemma feed_loop_decoded fuel l at_ events :
  0 <= at_ <= len l -> len l - at_ <= Z.of_nat fuel ->
  exists at', InputParser.feed_loop fuel l at_ events = Ok (at', events ++ fst (decoded (zdrop at_ l))) /\
    at_ <= at' <= len l /\ zdrop at' l = snd (decoded (zdrop at_ l)).
Proof.
  revert at_ events. induction fuel as [|fuel IH]; intros at_ events Ha Hf; cbn [InputParser.feed_loop].
  1, 2: destruct (Z.leb_spec (len l) at_).
  1, 3: assert (at_ = len l) as -> by lia; exists (len l);
    rewrite (zdrop_all l); cbn; rewrite app_nil_r; split; [done|split; [lia|done]].
  - lia.
  - assert (Hne : zdrop at_ l <> []).
    { intros Hz. assert (Hl : len (zdrop at_ l) = 0) by by rewrite Hz. rewrite len_zdrop in Hl; lia. }
    destruct (step_total _ Hne) as (s & Hs & Hn). rewrite Hs, (decoded_step _ s Hne Hs).
    rewrite len_zdrop in Hn by lia.
    destruct s as [n e|n|].
    + specialize (Hn n eq_refl).
      destruct (IH (at_ + n) (events ++ [e])) as (at' & Hl & Hb & Hd); [lia..|].
      rewrite zdrop_zdrop by lia. exists at'. rewrite Hl, <- app_assoc. split; [done|]. by split; [lia|].
    + specialize (Hn n eq_refl).
      destruct (IH (at_ + n) events) as (at' & Hl & Hb & Hd); [lia..|].
      rewrite zdrop_zdrop by lia. exists at'. rewrite Hl. split; [done|]. by split; [lia|].
    + exists at_. cbn. rewrite app_nil_r. split; [done|]. by split; [lia|].
Qed.

Lemma feed_decoded input p :
  InputParser.feed input p =
    (Ok (fst (decoded (ip_pending p ++ input))), mkInputParser (snd (decoded (ip_pending p ++ input)))).
Proof.
  unfold InputParser.feed, bind at 1, modify at 1. unfold bind at 1, get. cbn [ip_pending set].
  set (l := ip_pending p ++ input).
  destruct (feed_loop_decoded (length l) l 0 []) as (at' & Hl & Hb & Hd).
  { pose proof (len_nonneg l). lia. }
  { unfold len. lia. }
  unfold bind at 1, lift. change (ip_pending (set ip_pending _ p)) with l. rewrite Hl.
  replace (at' <=? len l) with true by lia. unfold bind, modify, ret. cbn. by rewrite Hd.
Qed.

(** C39. Feeding always returns, and returns the keys of the stream: the events are those of
    the buffered bytes followed by the new ones, decoded key by key, and what stays
    buffered is the unfinished sequence at their end, which the decoder cannot step. *)
Theorem feed_refines_decoded input p :
  InputParser.feed input p =
    (Ok (fst (decoded (ip_pending p ++ input))), mkInputParser (snd (decoded (ip_pending p ++ input)))) /\
  (snd (decoded (ip_pending p ++ input)) = [] \/
   step (snd (decoded (ip_pending p ++ input))) = Ok Step_Incomplete).
Proof.
  split; [apply feed_decoded|]. generalize (ip_pending p ++ input). intros l.
  remember (length l) as k eqn:Hk. revert l Hk. induction k as [k IH] using lt_wf_ind. intros l ->.
  destruct l as [|b l]; [by left|].
  destruct (step_total (b :: l) ltac:(done)) as (s & Hs & Hn).
  rewrite (decoded_step (b :: l) s ltac:(done) Hs).
  destruct s as [n e|n|]; [..|by right]; cbn [snd];
    (eapply IH; [|reflexivity]);
    pose proof (zdrop_shorter n (b :: l) (length l) (Hn n eq_refl) ltac:(cbn; lia)); cbn [length]; lia.
Qed.

(** Bytes that do not end in an escape. *)
Definition no_trailing_esc (l : bytes) : Prop := forall l', l <> l' ++ [27].

Lemma decoded_app a b :
  no_trailing_esc a ->
  decoded (a ++ b) = (fst (decoded a) ++ fst (decoded (snd (decoded a) ++ b)),
                      snd (decoded (snd (decoded a) ++ b))).
Proof.
  remember (length a) as k eqn:Hk. revert a Hk. induction k as [k IH] using lt_wf_ind. intros a -> He.
  destruct a as [|x a]; [by apply surjective_pairing|].
  destruct (step_total (x :: a) ltac:(done)) as (s & Hs & Hn).
  rewrite (decoded_step (x :: a) s ltac:(done) Hs).
  assert (Hi : s = Step_Incomplete \/ s <> Step_Incomplete) by (destruct s; [by right|by right|by left]).
  destruct Hi as [->|Hi]; [by apply surjective_pairing|].
  assert (Hs' : step ((x :: a) ++ b) = Ok s).
  { apply step_app; [|done|done]. intros Hx. by apply (He []). }
  rewrite (decoded_step ((x :: a) ++ b) s ltac:(done) Hs').
  assert (Hrec : forall n, step_size s = Some n ->
    decoded (zdrop n ((x :: a) ++ b)) =
      (fst (decoded (zdrop n (x :: a))) ++ fst (decoded (snd (decoded (zdrop n (x :: a))) ++ b)),
       snd (decoded (snd (decoded (zdrop n (x :: a))) ++ b)))).
  { intros n Hsz. specialize (Hn n Hsz). rewrite zdrop_app_l by lia.
    eapply IH; [|reflexivity|].
    - pose proof (zdrop_shorter n (x :: a) (length a) Hn ltac:(cbn; lia)). cbn [length]. lia.
    - intros l' Hl'. apply (He (ztake n (x :: a) ++ l')). rewrite <- app_assoc, <- Hl'.
      by rewrite ztake_zdrop. }
  destruct s as [n e|n|]; [..|done]; rewrite (Hrec n eq_refl); done.
Qed.

(** C40. Chunking is invisible: wherever the bytes are cut between two feeds, inside an
    escape sequence or a character, the events are the same and so is what stays buffered,
    unless the cut comes right after an escape byte. *)
Theorem feed_chunking a b p :
  no_trailing_esc (ip_pending p ++ a) ->
  InputParser.feed (a ++ b) p =
    (let* e1 := InputParser.feed a in let* e2 := InputParser.feed b in ret (e1 ++ e2)) p.
Proof.
  intros He. unfold bind. rewrite !feed_decoded.
  cbn [ip_pending]. unfold ret. rewrite app_assoc, decoded_app by done. done.
Qed.

(** A cut right after an escape byte is visible: the documentation says that a split
    escape sequence is buffered, but an arrow key whose escape arrives alone is reported as
    the Esc key followed by two characters. *)
Lemma split_escape_misread :
  run (InputParser.feed [27; 91; 65]) InputParser.new = Ok [plain Up] /\
  run (let* e1 := InputParser.feed [27] in let* e2 := InputParser.feed [91; 65] in ret (e1 ++ e2))
    InputParser.new = Ok [plain Esc; plain (Char 91); plain (Char 65)].
Proof. split; vm_compute; reflexivity. Qed.

(** * Witnesses *)

Lemma feed_chunking_witness :
  InputParser.feed ([27; 91] ++ [65; 113]) InputParser.new =
    (let* e1 := InputParser.feed [27; 91] in let* e2 := InputParser.feed [65; 113] in ret (e1 ++ e2))
      InputParser.new.
Proof.
  apply (feed_chunking [27; 91] [65; 113] InputParser.new). intros l' Hl.
  apply (f_equal (fun l => List.last l 0)) in Hl. rewrite last_last in Hl. done.
Defined.
