(* ===== verification/TuiBackend.v ===== *)
(** The drawing backend: [ssh-tui/backend.rs].  It renders cells into escape sequences and
    skips the cursor moves and the style changes that the terminal does not need. *)
From stdpp Require Import gmap.
From S2P Require Import Prelude Errors Wire.

(** * The data of ratatui *)
Inductive Color :=
| Reset | Black | Red | Green | Yellow | Blue | Magenta | Cyan | Gray
| DarkGray | LightRed | LightGreen | LightYellow | LightBlue | LightMagenta | LightCyan | White
| Rgb (r g b : Z) | Indexed (i : Z).
#[export] Instance Color_eq_dec : EqDecision Color.
Proof. solve_decision. Defined.

(** [Modifier]: a set of flags. *)
Inductive Flag := BOLD | DIM | ITALIC | UNDERLINED | SLOW_BLINK | RAPID_BLINK | REVERSED | HIDDEN | CROSSED_OUT.
#[export] Instance Flag_eq_dec : EqDecision Flag.
Proof. solve_decision. Defined.
Definition flag_index (f : Flag) : nat :=
  match f with
  | BOLD => 0 | DIM => 1 | ITALIC => 2 | UNDERLINED => 3 | SLOW_BLINK => 4 | RAPID_BLINK => 5
  | REVERSED => 6 | HIDDEN => 7 | CROSSED_OUT => 8
  end%nat.
#[export] Instance Flag_countable : Countable Flag.
Proof.
  refine (inj_countable flag_index
    ([BOLD; DIM; ITALIC; UNDERLINED; SLOW_BLINK; RAPID_BLINK; REVERSED; HIDDEN; CROSSED_OUT] !!.) _).
  by intros [].
Defined.
Abbreviation Modifier := (gset Flag).

Record Cell := mkCell { cell_symbol : bytes; cell_fg : Color; cell_bg : Color; cell_modifier : Modifier }.
Record Position := mkPosition { px : Z; py : Z }.
#[export] Instance Position_eq_dec : EqDecision Position.
Proof. solve_decision. Defined.
Record Size := mkSize { width : Z; height : Z }.
Record WindowSize := mkWindowSize { columns_rows : Size; pixels : Size }.
Inductive ClearType := Clear_All | AfterCursor | BeforeCursor | CurrentLine | UntilNewLine.

Abbreviation Style := (Color * Color * Modifier)%type.
Definition plain : Style := (Reset, Reset, ∅).

(** * The backend *)
Record SshBackend := mkBackend {
  b_buf : bytes;
  b_size : Size;
  b_cursor : option Position;
  b_style : Style
}.
#[export] Instance eta_SshBackend : Eta SshBackend := fun b =>
  mkBackend (b_buf b) (b_size b) (b_cursor b) (b_style b).

(** An unsigned number in decimal; twenty digits are enough for 64 bits. *)
Fixpoint decimal_loop (fuel : nat) (n : Z) (digits : bytes) : bytes :=
  match fuel with
  | O => digits
  | S fuel' =>
      let digits := (48 + n mod 10) :: digits in
      if n <? 10 then digits else decimal_loop fuel' (n / 10) digits
  end.
Definition decimal (n : Z) : bytes := decimal_loop 20 n [].

Definition ESC : Z := 27.
Definition CSI : bytes := [ESC; 91].

(** [sgr_num]: the numbers of its table, anything else is unreachable. *)
Definition sgr_num (n : Z) : option bytes :=
  match n with
  | 30 => Some (str "30") | 31 => Some (str "31") | 32 => Some (str "32") | 33 => Some (str "33")
  | 34 => Some (str "34") | 35 => Some (str "35") | 36 => Some (str "36") | 37 => Some (str "37")
  | 39 => Some (str "39")
  | 40 => Some (str "40") | 41 => Some (str "41") | 42 => Some (str "42") | 43 => Some (str "43")
  | 44 => Some (str "44") | 45 => Some (str "45") | 46 => Some (str "46") | 47 => Some (str "47")
  | 49 => Some (str "49")
  | 90 => Some (str "90") | 91 => Some (str "91") | 92 => Some (str "92") | 93 => Some (str "93")
  | 94 => Some (str "94") | 95 => Some (str "95") | 96 => Some (str "96") | 97 => Some (str "97")
  | 100 => Some (str "100") | 101 => Some (str "101") | 102 => Some (str "102") | 103 => Some (str "103")
  | 104 => Some (str "104") | 105 => Some (str "105") | 106 => Some (str "106") | 107 => Some (str "107")
  | _ => None
  end.

Definition ansi_color (c : Color) (base : Z) (extended : bytes) : option bytes :=
  let simple offset := sgr_num (base + offset) in
  let bright offset := sgr_num (base + 60 + offset) in
  match c with
  | Reset => sgr_num (base + 9)
  | Black => simple 0
  | Red => simple 1
  | Green => simple 2
  | Yellow => simple 3
  | Blue => simple 4
  | Magenta => simple 5
  | Cyan => simple 6
  | Gray => simple 7
  | DarkGray => bright 0
  | LightRed => bright 1
  | LightGreen => bright 2
  | LightYellow => bright 3
  | LightBlue => bright 4
  | LightMagenta => bright 5
  | LightCyan => bright 6
  | White => bright 7
  | Rgb r g b => Some (extended ++ str ";2;" ++ decimal r ++ str ";" ++ decimal g ++ str ";" ++ decimal b)
  | Indexed i => Some (extended ++ str ";5;" ++ decimal i)
  end.
Definition fg_code (c : Color) : option bytes := ansi_color c 30 (str "38").
Definition bg_code (c : Color) : option bytes := ansi_color c 40 (str "48").

Definition MODIFIER_TABLE : list (Flag * bytes) :=
  [(BOLD, str "1"); (DIM, str "2"); (ITALIC, str "3"); (UNDERLINED, str "4"); (SLOW_BLINK, str "5");
   (RAPID_BLINK, str "6"); (REVERSED, str "7"); (HIDDEN, str "8"); (CROSSED_OUT, str "9")].
Definition modifier_codes (m : Modifier) : list bytes :=
  List.map snd (List.filter (fun '(flag, _) => bool_decide (flag ∈ m)) MODIFIER_TABLE).

Module SshBackend.
Abbreviation BM := (M unit SshBackend).

Definition new (cols rows : Z) : SshBackend := mkBackend [] (mkSize cols rows) None plain.
Definition set_size (cols rows : Z) : BM unit := b_size <-! mkSize cols rows.
Definition take_frame : BM bytes :=
  let* b := get in b_buf <-! [] ;;; ret (b_buf b).

Definition emit (data : bytes) : BM unit := b_buf <-~ (fun buf => buf ++ data).

Definition move_to (pos : Position) : BM unit :=
  let* row := checked U16_MAX (py pos + 1) in
  let* column := checked U16_MAX (px pos + 1) in
  emit (CSI ++ decimal row ++ str ";" ++ decimal column ++ str "H") ;;;
  b_cursor <-! Some pos.

Definition sgr (code : bytes) : BM unit :=
  emit CSI ;;; emit code ;;; emit (str "m").

Definition set_style (fg bg : Color) (modifier : Modifier) : BM unit :=
  let* b := get in
  let '(cur_fg, cur_bg, cur_mod) := b_style b in
  (if bool_decide (modifier <> cur_mod) then
     emit (CSI ++ str "0m") ;;;
     mfor (modifier_codes modifier) sgr ;;;
     when (bool_decide (fg <> Reset)) (let* code := unwrap (fg_code fg) in sgr code) ;;;
     when (bool_decide (bg <> Reset)) (let* code := unwrap (bg_code bg) in sgr code)
   else
     when (bool_decide (fg <> cur_fg)) (let* code := unwrap (fg_code fg) in sgr code) ;;;
     when (bool_decide (bg <> cur_bg)) (let* code := unwrap (bg_code bg) in sgr code)) ;;;
  b_style <-! (fg, bg, modifier).

Definition draw_cell (x y : Z) (cell : Cell) : BM unit :=
  let pos := mkPosition x y in
  let* b := get in
  when (bool_decide (b_cursor b <> Some pos)) (move_to pos) ;;;
  set_style (cell_fg cell) (cell_bg cell) (cell_modifier cell) ;;;
  emit (cell_symbol cell) ;;;
  match cell_symbol cell with
  | [b] =>
      if (32 <=? b) && (b <? 127) then
        let* x' := checked U16_MAX (x + 1) in
        b_cursor <-! Some (mkPosition x' y)
      else b_cursor <-! None
  | _ => b_cursor <-! None
  end.

Definition draw (content : list (Z * Z * Cell)) : BM unit :=
  mfor content (fun '(x, y, cell) => draw_cell x y cell) ;;;
  let* b := get in
  when (bool_decide (b_style b <> plain))
    (emit (CSI ++ str "0m") ;;;
     b_style <-! plain).

Definition append_lines (n : Z) : BM unit :=
  emit (replicate (Z.to_nat n) 10) ;;;
  let* b := get in
  match b_cursor b with
  | Some pos =>
      let* row := checked U16_MAX (py pos + n) in
      b_cursor <-! Some (mkPosition 0 (Z.min row (Z.max (height (b_size b) - 1) 0)))
  | None => ret tt
  end.

Definition hide_cursor : BM unit := emit (CSI ++ str "?25l").
Definition show_cursor : BM unit := emit (CSI ++ str "?25h").
Definition get_cursor_position (b : SshBackend) : Position := default (mkPosition 0 0) (b_cursor b).
Definition set_cursor_position (p : Position) : BM unit := move_to p.
Definition clear : BM unit := emit (CSI ++ str "2J").
Definition clear_region (t : ClearType) : BM unit :=
  emit (match t with
        | Clear_All => CSI ++ str "2J"
        | AfterCursor => CSI ++ str "0J"
        | BeforeCursor => CSI ++ str "1J"
        | CurrentLine => CSI ++ str "2K"
        | UntilNewLine => CSI ++ str "0K"
        end).
Definition size (b : SshBackend) : Size := b_size b.
Definition window_size (b : SshBackend) : WindowSize := mkWindowSize (b_size b) (mkSize 0 0).
Definition flush : BM unit := ret tt.
End SshBackend.
