(* ===== verification/TuiScreen.v ===== *)
(** What the client's terminal shows of the frames of [TuiBackend]: skipping is not seen.
    The terminal is the client's: a parameter ([Terminal]) with the documented effect of the
    control functions that the backend uses (ECMA-48) as laws ([TerminalOk]); [Vt] is one. *)
From stdpp Require Import gmap.
From S2P Require Import Prelude Errors Wire TuiBackend.

(** * The terminal

    [term_feed] takes one byte.  [idle]: between control sequences.  [at_cursor]: where
    the next symbol goes, when that is certain (not behind the last column).  The other
    operations are the effects that ECMA-48 gives to the sequences. *)
Class Terminal := {
  screen : Type;
  term_feed : screen -> Z -> screen;
  idle : screen -> Prop;
  extent : screen -> Size;
  at_cursor : screen -> option Position;
  pen : screen -> Style;
  goto : Position -> screen -> screen;
  set_pen : Style -> screen -> screen;
  put : bytes -> screen -> screen;
  printable : bytes -> Prop
}.
Definition feed `{T : Terminal} (t : screen) (data : bytes) : screen := fold_left term_feed data t.

(** The parameters of SGR: the code of a color from 30 or 40, the code of a flag. *)
Definition color_params (base : Z) (c : Color) : list Z :=
  match c with
  | Black => [base] | Red => [base + 1] | Green => [base + 2] | Yellow => [base + 3]
  | Blue => [base + 4] | Magenta => [base + 5] | Cyan => [base + 6] | Gray => [base + 7]
  | Indexed i => [base + 8; 5; i] | Rgb r g b => [base + 8; 2; r; g; b]
  | Reset => [base + 9]
  | DarkGray => [base + 60] | LightRed => [base + 61] | LightGreen => [base + 62]
  | LightYellow => [base + 63] | LightBlue => [base + 64] | LightMagenta => [base + 65]
  | LightCyan => [base + 66] | White => [base + 67]
  end.
Definition flag_params (f : Flag) : list Z := [Z.of_nat (flag_index f) + 1].

Definition join_params (ps : list Z) : bytes :=
  match ps with
  | [] => []
  | p :: ps => decimal p ++ List.concat (List.map (fun q => 59 :: decimal q) ps)
  end.
Definition control (ps : list Z) (final : Z) : bytes := CSI ++ join_params ps ++ [final].

Definition on_screen (s : Size) (p : Position) : Prop := 0 <= px p < width s /\ 0 <= py p < height s.
Definition color_ok (c : Color) : Prop :=
  match c with
  | Rgb r g b => is_u8 r /\ is_u8 g /\ is_u8 b
  | Indexed i => is_u8 i
  | _ => True
  end.
Definition with_fg (c : Color) (s : Style) : Style := (c, s.1.2, s.2).
Definition with_bg (c : Color) (s : Style) : Style := (s.1.1, c, s.2).
Definition with_flag (f : Flag) (s : Style) : Style := (s.1, {[f]} ∪ s.2).

Class TerminalOk (T : Terminal) : Prop := {
  idle_goto p t : idle t -> idle (goto p t);
  idle_pen s t : idle t -> idle (set_pen s t);
  idle_put x t : idle t -> printable x -> idle (put x t);
  extent_goto p t : extent (goto p t) = extent t;
  extent_pen s t : extent (set_pen s t) = extent t;
  extent_put x t : extent (put x t) = extent t;
  pen_goto p t : pen (goto p t) = pen t;
  pen_pen s t : pen (set_pen s t) = s;
  pen_put x t : pen (put x t) = pen t;
  pen_again s s' t : set_pen s' (set_pen s t) = set_pen s' t;
  pen_same t : set_pen (pen t) t = t;
  cursor_goto p t : on_screen (extent t) p -> at_cursor (goto p t) = Some p;
  cursor_pen s t : at_cursor (set_pen s t) = at_cursor t;
  cursor_put b p t : 32 <= b < 127 -> at_cursor t = Some p -> px p + 1 < width (extent t) ->
    at_cursor (put [b] t) = Some (mkPosition (px p + 1) (py p));
  goto_here p t : at_cursor t = Some p -> goto p t = t;
  feed_cup p t : idle t -> on_screen (extent t) p -> px p < U16_MAX -> py p < U16_MAX ->
    feed t (control [py p + 1; px p + 1] 72) = goto p t;
  feed_sgr_reset t : idle t -> feed t (control [0] 109) = set_pen plain t;
  feed_sgr_flag f t : idle t -> feed t (control (flag_params f) 109) = set_pen (with_flag f (pen t)) t;
  feed_sgr_fg c t : idle t -> color_ok c -> feed t (control (color_params 30 c) 109) = set_pen (with_fg c (pen t)) t;
  feed_sgr_bg c t : idle t -> color_ok c -> feed t (control (color_params 40 c) 109) = set_pen (with_bg c (pen t)) t;
  feed_text x t : idle t -> printable x -> feed t x = put x t
}.

(** * What drawing does to the terminal *)
Section Draw.
Import SshBackend.
Context `{T : Terminal} `{O : !TerminalOk T}.
Implicit Types (b : SshBackend) (t : screen).

Definition cell_style (c : Cell) : Style := (cell_fg c, cell_bg c, cell_modifier c).

(** A cell, the expensive way: go there, take its style, show its symbol. *)
Definition paint t (x y : Z) (c : Cell) : screen :=
  put (cell_symbol c) (set_pen (cell_style c) (goto (mkPosition x y) t)).
Definition paint_all (content : list (Z * Z * Cell)) t : screen :=
  fold_left (fun t '(x, y, c) => paint t x y c) content t.

Definition cell_ok (s : Size) (e : Z * Z * Cell) : Prop :=
  let '(x, y, c) := e in
  on_screen s (mkPosition x y) /\ printable (cell_symbol c) /\
  color_ok (cell_fg c) /\ color_ok (cell_bg c).

(** The terminal is where the backend takes it to be; a cursor behind the last column is
    not where anything is drawn. *)
Record synced b t : Prop := {
  sy_idle : idle t;
  sy_pen : pen t = b_style b;
  sy_cursor p : b_cursor b = Some p -> px p < width (extent t) -> at_cursor t = Some p
}.

Lemma feed_app t l1 l2 : feed t (l1 ++ l2) = feed (feed t l1) l2.
Proof. apply fold_left_app. Qed.

(** ** What the methods emit *)

(** [m] returns, appends [data] to the frame and changes nothing else. *)
Definition emits (m : BM unit) (data : bytes) : Prop :=
  forall b, m b = (Ok tt, b <| b_buf ::= fun buf => buf ++ data |>).

Lemma emits_emit data : emits (emit data) data.
Proof. by intros b. Qed.
Lemma emits_seq m1 m2 d1 d2 : emits m1 d1 -> emits m2 d2 -> emits (m1 ;;; m2) (d1 ++ d2).
Proof. intros H1 H2 b. unfold bind. rewrite H1, H2. unfold set. cbn. by rewrite app_assoc. Qed.
Lemma emits_when (c : bool) m d : emits m d -> emits (when c m) (if c then d else []).
Proof. destruct c; [done|]. intros _ b. destruct b. unfold set, when, ret. cbn. by rewrite app_nil_r. Qed.
Lemma emits_unwrap (o : option bytes) code (k : bytes -> BM unit) d :
  o = Some code -> emits (k code) d -> emits (let* c := unwrap o in k c) d.
Proof. intros -> Hk b. apply Hk. Qed.
Lemma emits_mfor {A} (l : list A) (k : A -> BM unit) d :
  (forall x, emits (k x) (d x)) -> emits (mfor l k) (List.concat (List.map d l)).
Proof.
  intros Hk. induction l as [|x l IH]; cbn [mfor List.map List.concat].
  - intros b. destruct b. unfold set, ret. cbn. by rewrite app_nil_r.
  - by apply emits_seq.
Qed.
Lemma emits_sgr ps : emits (sgr (join_params ps)) (control ps 109).
Proof. unfold sgr, control. repeat apply emits_seq; apply emits_emit. Qed.

(** The tables of the code are the parameters of the standard. *)
Lemma fg_code_params c : fg_code c = Some (join_params (color_params 30 c)).
Proof. destruct c; cbn; by rewrite ?app_nil_r. Qed.
Lemma bg_code_params c : bg_code c = Some (join_params (color_params 40 c)).
Proof. destruct c; cbn; by rewrite ?app_nil_r. Qed.

Definition all_flags : list Flag :=
  [BOLD; DIM; ITALIC; UNDERLINED; SLOW_BLINK; RAPID_BLINK; REVERSED; HIDDEN; CROSSED_OUT].
Definition flags_of (m : Modifier) : list Flag := List.filter (fun f => bool_decide (f ∈ m)) all_flags.
Definition flag_text (f : Flag) : bytes := join_params (flag_params f).

Lemma modifier_codes_flags m : modifier_codes m = List.map flag_text (flags_of m).
Proof.
  unfold modifier_codes, flags_of. change MODIFIER_TABLE with (List.map (fun f => (f, flag_text f)) all_flags).
  induction all_flags as [|f l IH]; [done|]. cbn [List.map List.filter].
  destruct (bool_decide (f ∈ m)); cbn [List.map]; [|done]. by f_equal.
Qed.

Definition fg_data (c : Color) : bytes := control (color_params 30 c) 109.
Definition bg_data (c : Color) : bytes := control (color_params 40 c) 109.
Definition style_data (cur new : Style) : bytes :=
  let '(cur_fg, cur_bg, cur_mod) := cur in
  let '(fg, bg, modifier) := new in
  if bool_decide (modifier <> cur_mod) then
    control [0] 109 ++ List.concat (List.map (fun f => control (flag_params f) 109) (flags_of modifier)) ++
    (if bool_decide (fg <> Reset) then fg_data fg else []) ++ (if bool_decide (bg <> Reset) then bg_data bg else [])
  else
    (if bool_decide (fg <> cur_fg) then fg_data fg else []) ++
    (if bool_decide (bg <> cur_bg) then bg_data bg else []).

Lemma emits_fg (c : bool) fg :
  emits (when c (let* code := unwrap (fg_code fg) in sgr code)) (if c then fg_data fg else []).
Proof. apply emits_when. by eapply emits_unwrap; [apply fg_code_params|apply emits_sgr]. Qed.
Lemma emits_bg (c : bool) bg :
  emits (when c (let* code := unwrap (bg_code bg) in sgr code)) (if c then bg_data bg else []).
Proof. apply emits_when. by eapply emits_unwrap; [apply bg_code_params|apply emits_sgr]. Qed.

Lemma set_style_eq fg bg m b :
  set_style fg bg m b =
    (Ok tt, b <| b_buf ::= fun buf => buf ++ style_data (b_style b) (fg, bg, m) |> <| b_style := (fg, bg, m) |>).
Proof.
  unfold set_style, bind at 1, get. destruct (b_style b) as [[cf cb] cm]. unfold style_data.
  unfold bind at 1.
  match goal with |- context [(if _ then ?m1 else ?m2) b] =>
    assert (emits m1 (control [0] 109 ++
      List.concat (List.map (fun f => control (flag_params f) 109) (flags_of m)) ++
      (if bool_decide (fg <> Reset) then fg_data fg else []) ++
      (if bool_decide (bg <> Reset) then bg_data bg else []))) as H1;
    [|assert (emits m2 ((if bool_decide (fg <> cf) then fg_data fg else []) ++
      (if bool_decide (bg <> cb) then bg_data bg else []))) as H2] end.
  - repeat apply emits_seq; [apply emits_emit| |apply emits_fg|apply emits_bg].
    rewrite modifier_codes_flags. generalize (flags_of m). intros l.
    replace (mfor (List.map flag_text l) sgr) with (mfor l (fun f => sgr (flag_text f))).
    + apply emits_mfor. intros f. apply emits_sgr.
    + induction l as [|f l IH]; [done|]. cbn [mfor List.map]. by rewrite IH.
  - apply emits_seq; [apply emits_fg|apply emits_bg].
  - by destruct (bool_decide (m <> cm)); rewrite ?H1, ?H2.
Qed.

(** ** What the terminal makes of it *)

Lemma feed_flags fl t :
  idle t -> feed t (List.concat (List.map (fun f => control (flag_params f) 109) fl)) =
    set_pen ((pen t).1, (list_to_set fl : gset Flag) ∪ (pen t).2) t.
Proof.
  revert t. induction fl as [|f fl IH]; intros t Ht; cbn [List.map List.concat list_to_set].
  - replace ((pen t).1, (∅ : gset Flag) ∪ (pen t).2) with (pen t); [by rewrite pen_same|].
    destruct (pen t) as [p m]. cbn. by rewrite union_empty_l_L.
  - rewrite feed_app, feed_sgr_flag, IH by (done || by apply idle_pen).
    rewrite pen_again, pen_pen. f_equal. unfold with_flag. cbn. f_equal.
    by rewrite (union_assoc_L (list_to_set fl)), (union_comm_L (list_to_set fl)).
Qed.

Lemma flags_of_set (m : gset Flag) : (list_to_set (flags_of m) : gset Flag) = m.
Proof.
  apply set_eq. intros f. rewrite elem_of_list_to_set, list_elem_of_In. unfold flags_of.
  rewrite filter_In, bool_decide_eq_true.
  assert (In f all_flags) by (destruct f; cbn; tauto). tauto.
Qed.

Lemma feed_fg (c : bool) fg t :
  idle t -> color_ok fg -> (c = false -> (pen t).1.1 = fg) ->
  feed t (if c then fg_data fg else []) = set_pen (with_fg fg (pen t)) t.
Proof.
  intros Ht Hc Hn. destruct c; [by apply feed_sgr_fg|]. rewrite <- Hn by done.
  unfold with_fg. destruct (pen t) as [[f g] m] eqn:E. cbn. rewrite <- E. by rewrite pen_same.
Qed.
Lemma feed_bg (c : bool) bg t :
  idle t -> color_ok bg -> (c = false -> (pen t).1.2 = bg) ->
  feed t (if c then bg_data bg else []) = set_pen (with_bg bg (pen t)) t.
Proof.
  intros Ht Hc Hn. destruct c; [by apply feed_sgr_bg|]. rewrite <- Hn by done.
  unfold with_bg. destruct (pen t) as [[f g] m] eqn:E. cbn. rewrite <- E. by rewrite pen_same.
Qed.

Lemma feed_style t fg bg m :
  idle t -> color_ok fg -> color_ok bg ->
  feed t (style_data (pen t) (fg, bg, m)) = set_pen (fg, bg, m) t.
Proof.
  intros Ht Hf Hb. unfold style_data. destruct (pen t) as [[cf cb] cm] eqn:E.
  case_bool_decide as Hm.
  - rewrite !feed_app, feed_sgr_reset by done.
    rewrite feed_flags, flags_of_set by by apply idle_pen.
    rewrite pen_pen, pen_again. cbn [fst snd plain].
    rewrite union_empty_r_L.
    rewrite feed_fg; [|by apply idle_pen|done|].
    2: { rewrite pen_pen. cbn. intros Hn%bool_decide_eq_false. by destruct (decide (fg = Reset)). }
    rewrite pen_pen, pen_again, feed_bg; [|by apply idle_pen|done|].
    2: { rewrite pen_pen. cbn. intros Hn%bool_decide_eq_false. by destruct (decide (bg = Reset)). }
    by rewrite pen_pen, pen_again.
  - assert (m = cm) as -> by by destruct (decide (m = cm)).
    rewrite feed_app, feed_fg; [|done..|].
    2: { rewrite E. cbn. intros Hn%bool_decide_eq_false. by destruct (decide (fg = cf)). }
    rewrite feed_bg; [|by apply idle_pen|done|].
    2: { rewrite pen_pen, E. cbn. intros Hn%bool_decide_eq_false. by destruct (decide (bg = cb)). }
    by rewrite pen_pen, pen_again, E.
Qed.

(** ** Drawing *)

Definition small (s : Size) : Prop := width s <= U16_MAX /\ height s <= U16_MAX.

Lemma move_to_eq p b :
  0 <= px p < U16_MAX -> 0 <= py p < U16_MAX ->
  move_to p b = (Ok tt, b <| b_buf ::= fun buf => buf ++ control [py p + 1; px p + 1] 72 |>
                          <| b_cursor := Some p |>).
Proof.
  intros Hx Hy. unfold move_to, bind, checked.
  assert ((0 <=? py p + 1) && (py p + 1 <=? U16_MAX) = true) as -> by lia.
  assert ((0 <=? px p + 1) && (px p + 1 <=? U16_MAX) = true) as -> by lia.
  unfold emit, modify, control. cbn [join_params List.map List.concat].
  change (str "H") with [72]. change (str ";") with [59].
  by rewrite app_nil_r, <- !app_assoc.
Qed.

(** One cell: the terminal shows it where it belongs, wherever the cursor and the style
    were before. *)
Lemma draw_cell_ok x y c b t :
  synced b t -> small (extent t) -> cell_ok (extent t) (x, y, c) ->
  exists b' out, draw_cell x y c b = (Ok tt, b') /\ b_buf b' = b_buf b ++ out /\
    feed t out = paint t x y c /\ synced b' (feed t out) /\ b_size b' = b_size b.
Proof.
  intros [S1 S2 S3] [Hw Hh] (Hp & Hc & Hf & Hb). pose proof Hp as [Hx Hy]. cbn in Hx, Hy.
  unfold draw_cell, bind at 1, get.
  set (moved := bool_decide (b_cursor b <> Some (mkPosition x y))).
  set (d1 := if moved then control [y + 1; x + 1] 72 else []).
  set (b1 := b <| b_buf ::= fun buf => buf ++ d1 |> <| b_cursor := Some (mkPosition x y) |>).
  assert (H1 : when moved (move_to (mkPosition x y)) b = (Ok tt, b1)).
  { unfold moved, b1, d1. case_bool_decide as Hd; [by apply move_to_eq; cbn; lia|].
    destruct (decide (b_cursor b = Some (mkPosition x y))) as [E|]; [|done].
    destruct b. cbn in E. subst. unfold when, ret, set. cbn. by rewrite app_nil_r. }
  assert (T1 : feed t d1 = goto (mkPosition x y) t).
  { unfold d1, moved. case_bool_decide as Hd.
    - by apply (feed_cup (mkPosition x y)); cbn; [| |lia..].
    - destruct (decide (b_cursor b = Some (mkPosition x y))) as [E|]; [|done].
      symmetry. apply goto_here. apply S3; [done|]. cbn. lia. }
  set (t1 := goto (mkPosition x y) t) in *.
  assert (I1 : idle t1) by by apply idle_goto.
  assert (P1 : pen t1 = b_style b1) by (unfold t1; rewrite pen_goto; by rewrite S2).
  set (d2 := style_data (b_style b1) (cell_style c)).
  set (b2 := b1 <| b_buf ::= fun buf => buf ++ d2 |> <| b_style := cell_style c |>).
  assert (T2 : feed t1 d2 = set_pen (cell_style c) t1).
  { unfold d2. rewrite <- P1. by apply feed_style. }
  set (t2 := set_pen (cell_style c) t1) in *.
  assert (I2 : idle t2) by by apply idle_pen.
  assert (C2 : at_cursor t2 = Some (mkPosition x y)).
  { unfold t2, t1. rewrite cursor_pen. by apply cursor_goto. }
  assert (E2 : extent t2 = extent t) by (unfold t2, t1; by rewrite extent_pen, extent_goto).
  assert (T3 : feed t (d1 ++ d2 ++ cell_symbol c) = paint t x y c).
  { by rewrite !feed_app, T1, T2, feed_text. }
  unfold bind at 1. rewrite H1. unfold bind at 1. rewrite set_style_eq.
  fold (cell_style c). fold d2. fold b2.
  unfold bind at 1, emit, modify. set (b3 := b2 <| b_buf ::= _ |>).
  assert (B3 : b_buf b3 = b_buf b ++ d1 ++ d2 ++ cell_symbol c) by (cbn; by rewrite <- !app_assoc).
  assert (Hend : forall cur, (forall p, cur = Some p -> px p < width (extent t) -> at_cursor (paint t x y c) = Some p) ->
    synced (b3 <| b_cursor := cur |>) (paint t x y c)).
  { intros cur Hcur. constructor.
    - unfold paint. by apply idle_put.
    - unfold paint. by rewrite pen_put, pen_pen.
    - unfold paint. rewrite extent_put, extent_pen, extent_goto. exact Hcur. }
  assert (Hn : synced (b3 <| b_cursor := None |>) (paint t x y c)) by by apply Hend.
  exists (match cell_symbol c with
          | [a] => if (32 <=? a) && (a <? 127) then b3 <| b_cursor := Some (mkPosition (x + 1) y) |>
                   else b3 <| b_cursor := None |>
          | _ => b3 <| b_cursor := None |>
          end), (d1 ++ d2 ++ cell_symbol c).
  rewrite T3. destruct (cell_symbol c) as [|a [|a' l]] eqn:Es; [by split_and!| |by split_and!].
  destruct ((32 <=? a) && (a <? 127)) eqn:Ea; [|by split_and!].
  unfold bind, checked. assert ((0 <=? x + 1) && (x + 1 <=? U16_MAX) = true) as -> by lia.
  split_and!; try done. apply Hend. intros p [= <-] Hpx. cbn in Hpx.
  unfold paint. rewrite Es. fold t1. fold t2. apply (cursor_put a (mkPosition x y)); [lia|done|].
  rewrite E2. cbn. lia.
Qed.

Lemma extent_paint t x y c : extent (paint t x y c) = extent t.
Proof. unfold paint. by rewrite extent_put, extent_pen, extent_goto. Qed.

Lemma draw_cells_ok content b t :
  synced b t -> small (extent t) -> Forall (cell_ok (extent t)) content ->
  exists b' out, mfor content (fun '(x, y, cell) => draw_cell x y cell) b = (Ok tt, b') /\
    b_buf b' = b_buf b ++ out /\ feed t out = paint_all content t /\ synced b' (feed t out).
Proof.
  revert b t. induction content as [|[[x y] c] content IH]; intros b t Hs Hm Hc; cbn [mfor].
  - exists b, []. rewrite app_nil_r. by split_and!.
  - apply List.Forall_cons_iff in Hc as [Hc Hrest].
    destruct (draw_cell_ok x y c b t Hs Hm Hc) as (b1 & o1 & H1 & B1 & F1 & S1 & _).
    rewrite F1 in S1. destruct (IH b1 (paint t x y c) S1) as (b2 & o2 & H2 & B2 & F2 & S2).
    { by rewrite extent_paint. }
    { by rewrite extent_paint. }
    exists b2, (o1 ++ o2). rewrite feed_app, F1. split_and!.
    + unfold bind. by rewrite H1, H2.
    + by rewrite B2, B1, app_assoc.
    + exact F2.
    + exact S2.
Qed.

(** Drawing is exact: whatever the cells of a frame, the bytes that the backend emits for
    them, with the cursor moves and style changes it leaves out, take the terminal where
    moving to each cell, setting its whole style and showing its symbol would have taken it,
    with a plain pen at the end; and the backend still knows where the terminal is.  So no
    stray attribute and no misplaced cell can come from what it skips. *)
Lemma draw_exact content b t :
  synced b t -> small (extent t) -> Forall (cell_ok (extent t)) content ->
  exists b' out, draw content b = (Ok tt, b') /\ b_buf b' = b_buf b ++ out /\
    feed t out = set_pen plain (paint_all content t) /\ synced b' (feed t out) /\ b_style b' = plain.
Proof.
  intros Hs Hm Hc. destruct (draw_cells_ok content b t Hs Hm Hc) as (b1 & o1 & H1 & B1 & F1 & [S1 S2 S3]).
  unfold draw. unfold bind at 1. rewrite H1. unfold bind at 1, get.
  destruct (decide (b_style b1 = plain)) as [E|E].
  - exists b1, o1. rewrite bool_decide_false by (intros Hn; by apply Hn). cbn [when].
    assert (set_pen plain (paint_all content t) = feed t o1) as ->.
    { rewrite F1, <- E, <- S2, F1. by rewrite pen_same. }
    by split_and!.
  - rewrite bool_decide_true by done. cbn [when]. unfold bind, emit, modify.
    eexists _, (o1 ++ control [0] 109). split; [reflexivity|].
    rewrite feed_app, feed_sgr_reset, F1 by done. split_and!; [cbn; by rewrite B1, app_assoc|done| |done].
    rewrite F1 in S1, S2, S3. constructor.
    + by apply idle_pen.
    + by rewrite pen_pen.
    + cbn. rewrite extent_pen, cursor_pen. exact S3.
Qed.
End Draw.

(** * A terminal

    It knows ASCII, moves, SGR and the line feed, which leaves the column as it is; other
    control sequences are ignored. *)
Module Vt.
Inductive Mode := Ground | Escaped | Collecting (text : bytes).
Record Vt := mkVt {
  vt_mode : Mode;
  vt_size : Size;
  vt_pos : Position;
  vt_pen : Style;
  vt_cells : list (Position * bytes * Style)
}.
#[export] Instance eta_Vt : Eta Vt := fun v =>
  mkVt (vt_mode v) (vt_size v) (vt_pos v) (vt_pen v) (vt_cells v).

Definition blank (cols rows : Z) : Vt := mkVt Ground (mkSize cols rows) (mkPosition 0 0) plain [].
Definition move (p : Position) (v : Vt) : Vt := v <| vt_pos := p |>.
Definition style (s : Style) (v : Vt) : Vt := v <| vt_pen := s |>.
Definition cursor (v : Vt) : option Position :=
  if px (vt_pos v) <? width (vt_size v) then Some (vt_pos v) else None.
Definition down (y : Z) (v : Vt) : Z := Z.min (y + 1) (height (vt_size v) - 1).

(** A symbol in the last column leaves the cursor behind it; the next one wraps. *)
Definition show (x : bytes) (v : Vt) : Vt :=
  let p := match cursor v with Some p => p | None => mkPosition 0 (down (py (vt_pos v)) v) end in
  v <| vt_cells ::= fun cells => (p, x, vt_pen v) :: cells |>
    <| vt_pos := mkPosition (px p + 1) (py p) |>.

(** The symbol and the style at a position. *)
Definition cell_at (p : Position) (v : Vt) : option (bytes * Style) :=
  match List.find (fun '(q, _, _) => bool_decide (q = p)) (vt_cells v) with
  | Some (_, x, s) => Some (x, s)
  | None => None
  end.

Definition number (digits : bytes) : Z := fold_left (fun n d => n * 10 + (d - 48)) digits 0.

Definition basic (n : Z) : option Color :=
  [Black; Red; Green; Yellow; Blue; Magenta; Cyan; Gray] !! Z.to_nat n.
Definition bright (n : Z) : option Color :=
  [DarkGray; LightRed; LightGreen; LightYellow; LightBlue; LightMagenta; LightCyan; White] !! Z.to_nat n.
Definition color_of (base : Z) (ps : list Z) : option Color :=
  match ps with
  | [n] =>
      if within base (base + 7) n then basic (n - base)
      else if n =? base + 9 then Some Reset
      else if within (base + 60) (base + 67) n then bright (n - base - 60)
      else None
  | [n; 5; i] => if n =? base + 8 then Some (Indexed i) else None
  | [n; 2; r; g; b] => if n =? base + 8 then Some (Rgb r g b) else None
  | _ => None
  end.
Definition flag_of (ps : list Z) : option Flag :=
  match ps with
  | [n] => if within 1 9 n then all_flags !! Z.to_nat (n - 1) else None
  | _ => None
  end.
Definition rendition (ps : list Z) (s : Style) : Style :=
  match flag_of ps, color_of 30 ps, color_of 40 ps with
  | Some f, _, _ => with_flag f s
  | None, Some c, _ => with_fg c s
  | None, None, Some c => with_bg c s
  | None, None, None => if bool_decide (ps = [0]) then plain else s
  end.

Definition obey (text : bytes) (final : Z) (v : Vt) : Vt :=
  let ps := List.map number (split_on 59 text) in
  if final =? 109 then style (rendition ps (vt_pen v)) v
  else match ps with
       | [row; column] => if final =? 72 then move (mkPosition (column - 1) (row - 1)) v else v
       | _ => v
       end.

Definition receive (v : Vt) (b : Z) : Vt :=
  match vt_mode v with
  | Ground =>
      if b =? 27 then v <| vt_mode := Escaped |>
      else if b =? 10 then move (mkPosition (px (vt_pos v)) (down (py (vt_pos v)) v)) v
      else if (32 <=? b) && (b <? 127) then show [b] v
      else v
  | Escaped => v <| vt_mode := if b =? 91 then Collecting [] else Ground |>
  | Collecting text =>
      if (64 <=? b) && (b <? 127) then obey text b (v <| vt_mode := Ground |>)
      else v <| vt_mode := Collecting (text ++ [b]) |>
  end.

#[export] Instance vt : Terminal := {|
  screen := Vt;
  term_feed := receive;
  idle v := vt_mode v = Ground;
  extent := vt_size;
  at_cursor := cursor;
  pen := vt_pen;
  goto := move;
  set_pen := style;
  put := show;
  printable x := exists b, x = [b] /\ 32 <= b < 127
|}.

(** ** It keeps the laws *)
Abbreviation tens := (fun n d => n * 10 + (d - 48)).
Lemma number_decimal_loop fuel n acc :
  0 <= n < 10 ^ Z.of_nat fuel -> (1 <= fuel)%nat ->
  fold_left tens (decimal_loop fuel n acc) 0 = fold_left tens acc n.
Proof.
  revert n acc. induction fuel as [|fuel IH]; intros n acc Hn Hf; [lia|]. cbn [decimal_loop].
  pose proof (Z.div_mod n 10 ltac:(lia)) as Hd. pose proof (Z.mod_pos_bound n 10 ltac:(lia)).
  rewrite Nat2Z.inj_succ, Z.pow_succ_r in Hn by lia.
  destruct (Z.ltb_spec n 10) as [Hs|Hs].
  - cbn [fold_left]. f_equal. rewrite Z.mod_small; lia.
  - rewrite IH; [cbn [fold_left]; f_equal; lia| |destruct fuel; [cbn in Hn|]; lia].
    split; [apply Z.div_pos; lia|apply Z.div_lt_upper_bound; lia].
Qed.

Definition digit (b : Z) : Prop := 48 <= b < 58.
Lemma decimal_digits_loop fuel n acc :
  Forall digit acc -> Forall digit (decimal_loop fuel n acc).
Proof.
  revert n acc. induction fuel as [|fuel IH]; intros n acc Ha; cbn [decimal_loop]; [done|].
  assert (Forall digit ((48 + n mod 10) :: acc)).
  { constructor; [|done]. unfold digit. pose proof (Z.mod_pos_bound n 10 ltac:(lia)). lia. }
  destruct (n <? 10); auto.
Qed.
Lemma decimal_digits n : Forall digit (decimal n).
Proof. apply decimal_digits_loop. constructor. Qed.

(** A parameter of sixteen bits survives. *)
Lemma number_decimal n : 0 <= n <= U16_MAX -> number (decimal n) = n.
Proof. intros Hn. unfold number, decimal. rewrite number_decimal_loop; unfold U16_MAX in *; cbn; lia. Qed.

Lemma split_params ps : ps <> [] -> split_on 59 (join_params ps) = List.map decimal ps.
Proof.
  destruct ps as [|p ps]; [done|]. intros _. cbn [join_params List.map]. revert p.
  assert (Hf : forall n, Forall (fun b => b <> 59) (decimal n)).
  { intros n. apply (List.Forall_impl (P := digit)); [|apply decimal_digits]. unfold digit. intros b Hb. lia. }
  induction ps as [|q ps IH]; intros p; cbn [List.map List.concat]; rewrite split_on_join_app by apply Hf.
  - cbn. by rewrite app_nil_r.
  - cbn [app split_on]. rewrite Z.eqb_refl. rewrite IH. by rewrite app_nil_r.
Qed.

Lemma join_text ps : Forall (fun b => 48 <= b < 60) (join_params ps).
Proof.
  assert (Hd : forall n, Forall (fun b => 48 <= b < 60) (decimal n)).
  { intros n. apply (List.Forall_impl (P := digit)); [|apply decimal_digits]. unfold digit. intros b Hb. lia. }
  destruct ps as [|p ps]; [constructor|]. cbn [join_params]. apply Forall_app_2; [done|].
  induction ps as [|q ps IH]; cbn [List.map List.concat app]; [constructor|].
  constructor; [lia|]. by apply Forall_app_2.
Qed.

Lemma feed_collecting l v text :
  vt_mode v = Collecting text -> Forall (fun b => 48 <= b < 60) l ->
  fold_left receive l v = v <| vt_mode := Collecting (text ++ l) |>.
Proof.
  revert v text. induction l as [|b l IH]; intros v text Hm Hl; cbn [fold_left].
  - rewrite app_nil_r, <- Hm. by destruct v.
  - apply List.Forall_cons_iff in Hl as [Hb Hl]. unfold receive at 2. rewrite Hm.
    assert ((64 <=? b) && (b <? 127) = false) as -> by lia.
    rewrite (IH _ (text ++ [b])) by done. by rewrite <- app_assoc.
Qed.

(** A control function is obeyed. *)
Lemma feed_control ps final v :
  vt_mode v = Ground -> 64 <= final < 127 -> ps <> [] -> Forall (fun p => 0 <= p <= U16_MAX) ps ->
  feed v (control ps final) =
    (if final =? 109 then style (rendition ps (vt_pen v)) v
     else match ps with
          | [row; column] => if final =? 72 then move (mkPosition (column - 1) (row - 1)) v else v
          | _ => v
          end).
Proof.
  intros Hm Hf Hn Hp. unfold feed. change (@term_feed vt) with receive. change (@screen vt) with Vt in *.
  unfold control. rewrite !fold_left_app.
  assert (fold_left receive CSI v = v <| vt_mode := Collecting [] |>) as ->.
  { cbn. unfold receive at 2. rewrite Hm. cbn. by destruct v. }
  rewrite (feed_collecting (join_params ps) _ []) by (done || apply join_text).
  cbn [fold_left]. unfold receive. cbn [vt_mode set]. assert ((64 <=? final) && (final <? 127) = true) as -> by lia.
  assert (Hv : (v <| vt_mode := Collecting [] |> <| vt_mode := Collecting ([] ++ join_params ps) |>)
    <| vt_mode := Ground |> = v) by (rewrite <- Hm; by destruct v).
  unfold obey. cbn [app] in *. rewrite split_params by done.
  assert (List.map number (List.map decimal ps) = ps) as ->.
  { clear -Hp. induction Hp as [|p ps Hp _ IH]; [done|]. cbn [List.map]. by rewrite IH, number_decimal. }
  match goal with |- context [vt_pen ?x] => change (vt_pen x) with (vt_pen v) end.
  rewrite Hv. done.
Qed.

Lemma params_ok base c : 30 <= base <= 40 -> color_ok c -> Forall (fun p => 0 <= p <= U16_MAX) (color_params base c).
Proof.
  intros Hb Hc. unfold U16_MAX. destruct c; cbn in *; unfold is_u8, U8_MAX in *;
    repeat constructor; cbn; lia.
Qed.
Lemma params_some base c : color_params base c <> [].
Proof. by destruct c. Qed.

Lemma rendition_flag f s : rendition (flag_params f) s = with_flag f s.
Proof. by destruct f. Qed.
Lemma rendition_fg c s : rendition (color_params 30 c) s = with_fg c s.
Proof. by destruct c. Qed.
Lemma rendition_bg c s : rendition (color_params 40 c) s = with_bg c s.
Proof. by destruct c. Qed.

Lemma feed_move p v :
  vt_mode v = Ground -> on_screen (vt_size v) p -> px p < U16_MAX -> py p < U16_MAX ->
  feed v (control [py p + 1; px p + 1] 72) = move p v.
Proof.
  intros Hv [Hx Hy] Hxm Hym. rewrite feed_control by (done || (repeat constructor; lia)).
  change (72 =? 109) with false. change (72 =? 72) with true. cbv iota.
  replace (px p + 1 - 1) with (px p) by lia. replace (py p + 1 - 1) with (py p) by lia. by destruct p.
Qed.

Lemma feed_rendition ps s' v :
  vt_mode v = Ground -> ps <> [] -> Forall (fun p => 0 <= p <= U16_MAX) ps ->
  rendition ps (vt_pen v) = s' -> feed v (control ps 109) = style s' v.
Proof. intros Hv Hn Hp <-. rewrite feed_control by (done || lia). done. Qed.

#[export] Instance vt_ok : TerminalOk vt.
Proof.
  constructor; cbn [vt screen term_feed idle extent at_cursor pen goto set_pen put printable]; try done.
  - by intros t; destruct t.
  - intros p t [Hx _]. unfold cursor, move. cbn. by assert ((px p <? width (vt_size t)) = true) as -> by lia.
  - intros b p t _ Hc Hx. unfold show. rewrite Hc. unfold cursor. cbn.
    by assert ((px p + 1 <? width (vt_size t)) = true) as -> by lia.
  - intros p t. unfold cursor. destruct (_ <? _); [|done]. intros [= <-]. by destruct t.
  - apply feed_move.
  - intros t Ht. apply feed_rendition; [done|done| |done]. constructor; [unfold U16_MAX; lia|constructor].
  - intros f t Ht. apply feed_rendition; [done|done| |apply rendition_flag].
    constructor; [destruct f; cbn; unfold U16_MAX; lia|constructor].
  - intros c t Ht Hc. apply feed_rendition; [done|apply params_some|apply params_ok; [lia|done]|apply rendition_fg].
  - intros c t Ht Hc. apply feed_rendition; [done|apply params_some|apply params_ok; [lia|done]|apply rendition_bg].
  - intros x t Ht (b & -> & Hb). unfold feed. cbn. unfold receive. rewrite Ht.
    assert ((b =? 27) = false) as -> by lia. assert ((b =? 10) = false) as -> by lia.
    by assert ((32 <=? b) && (b <? 127) = true) as -> by lia.
Qed.
End Vt.

(** * Executions *)
Import SshBackend Vt.

Definition letter (x : Z) (c : Color) : Cell := mkCell [x] c Reset ∅.
Definition frame : list (Z * Z * Cell) :=
  [(3, 1, letter 104 Green); (4, 1, letter 105 Green); (5, 2, mkCell [33] (Indexed 208) Blue {[BOLD]})].

Definition fresh_screen : @screen vt := blank 80 24.
Lemma frame_fits : Forall (cell_ok (mkSize 80 24)) frame.
Proof.
  assert (Hl : forall x c y z, 32 <= x < 127 -> color_ok c -> 0 <= y < 80 -> 0 <= z < 24 ->
    cell_ok (mkSize 80 24) (y, z, letter x c)).
  { intros x c y z Hx Hc Hy Hz. split_and!; cbn; try done; try lia. by exists x. }
  constructor; [apply Hl; cbn; lia || done|]. constructor; [apply Hl; cbn; lia || done|].
  constructor; [|constructor].
  split_and!; cbn; try done; try lia. by exists 33.
Qed.

(** The two cells in a row cost one move and one color. *)
Example frame_bytes :
  b_buf (snd (draw [(3, 1, letter 104 Green); (4, 1, letter 105 Green)] (new 80 24))) =
  [27; 91] ++ str "2;4H" ++ [27; 91] ++ str "32mhi" ++ [27; 91] ++ str "0m".
Proof. vm_compute. reflexivity. Qed.

(** [append_lines] takes the cursor to be in the first column, where a bare line feed does
    not bring it: the next cell that the backend believes to be there is drawn elsewhere. *)
Lemma append_lines_misplaces :
  let b := snd ((draw [(3, 1, letter 104 Reset)] ;;; append_lines 1 ;;;
                 draw [(0, 2, letter 105 Reset)]) (new 80 24)) in
  let v := feed fresh_screen (b_buf b) in
  cell_at (mkPosition 0 2) v = None /\ cell_at (mkPosition 4 2) v = Some ([105], plain).
Proof. vm_compute. by split. Qed.
