(* ===== verification/TuiTerminal.v ===== *)
(** Full-screen programs over a channel: [ssh-tui/terminal.rs].  A terminal is a backend
    and a writer of the channel; what ratatui does between them is some computation over
    the backend.  The theorem joins the backend, the writer and the terminal: the client's
    screen is what was drawn. *)
From stdpp Require Import gmap.
From S2P Require Import Prelude Errors Wire Connection Driver Exec ExecInv TuiBackend TuiScreen.

Definition ENTER : bytes := CSI ++ str "?1049h" ++ CSI ++ str "2J" ++ CSI ++ str "H".
Definition LEAVE : bytes := CSI ++ str "0m" ++ CSI ++ str "?1049l" ++ CSI ++ str "?25h".

(** The backend inside ratatui's [Terminal], and the handler's end of the channel. *)
Record SshTerminal `{T : Tokio} {Hd : Type} := mkSshTerminal {
  st_backend : SshBackend;
  st_endpoint : Endpoint Hd
}.
Arguments SshTerminal {T} Hd.
Arguments mkSshTerminal {T Hd} _ _.
#[export] Instance eta_SshTerminal `{T : Tokio} {Hd} : Eta (SshTerminal Hd) := fun s =>
  mkSshTerminal (st_backend s) (st_endpoint s).

Module SshTerminal.
Section SshTerminal.
Context `{T : Tokio} {Hd : Type}.
Abbreviation SM := (M ErrorKind (SshTerminal Hd)).

Definition on_backend {A} (m : M unit SshBackend A) : SM A := fun s =>
  let '(o, b) := m (st_backend s) in
  (match o with Ok a => Ok a | Err _ => Err OtherError | Panic => Panic | OutOfFuel => OutOfFuel end,
   s <| st_backend := b |>).
Definition on_endpoint {A} (m : M ErrorKind (Endpoint Hd) A) : SM A :=
  zoom st_endpoint (fun e s => s <| st_endpoint := e |>) m.

(** The writes give the chunks that still wait for the budget. *)
Definition new (cols rows : Z) (e : Endpoint Hd) : outcome ErrorKind (list bytes) * SshTerminal Hd :=
  on_endpoint (ChannelSession.write_stdout ENTER) (mkSshTerminal (SshBackend.new cols rows) e).
Definition draw (render : M unit SshBackend unit) : SM (list bytes) :=
  on_backend render ;;;
  let* frame := on_backend SshBackend.take_frame in
  on_endpoint (ChannelSession.write_stdout frame).
Definition resize (cols rows : Z) : SM unit := on_backend (SshBackend.set_size cols rows).
Definition restore : SM (list bytes) := on_endpoint (ChannelSession.write_stdout LEAVE).
End SshTerminal.
End SshTerminal.

(** * What reaches the channel *)
Section Frames.
Context `{T : Tokio} `{!TokioOk T} {Hd : Type}.
Implicit Types e : Endpoint Hd.
Import ChannelSession.

(** What was sent and what waits is what was to be written, in order. *)
Lemma write_stdout_bytes data e left e' :
  write_stdout data e = (Ok left, e') ->
  exists sent, sent_on false (fifo_items (e_out e')) = sent_on false (fifo_items (e_out e)) ++ sent /\
    sent ++ List.concat left = data.
Proof.
  intros H. destruct (send_chunks_spec _ _ _ _ _ H) as (cs & Hi & Hl). exists (List.concat cs).
  rewrite Hi, sent_on_app, sent_on_chunks. split; [done|].
  rewrite <- List.concat_app, <- Hl. apply chunks_concat.
Qed.

(** C33. A frame reaches the screen: when the handler draws cells and the write is done, what the
    channel has queued for the client is what it had, followed by bytes that take the client's
    terminal where placing every cell one by one, with its whole style, would have taken it;
    nothing stays in the backend, and the two are in step for the next frame. *)
Theorem frame_reaches_screen `{V : Terminal} `{!TerminalOk V} content (s s' : SshTerminal Hd) (t : screen) :
  b_buf (st_backend s) = [] -> synced (st_backend s) t -> small (extent t) ->
  Forall (cell_ok (extent t)) content ->
  SshTerminal.draw (SshBackend.draw content) s = (Ok [], s') ->
  exists out,
    sent_on false (fifo_items (e_out (st_endpoint s'))) = sent_on false (fifo_items (e_out (st_endpoint s))) ++ out /\
    feed t out = set_pen plain (paint_all content t) /\
    b_buf (st_backend s') = [] /\ synced (st_backend s') (feed t out).
Proof.
  intros Hb Hs Hm Hc H.
  destruct (draw_exact content (st_backend s) t Hs Hm Hc) as (b' & out & Hdr & Hbuf & Hf & Hs' & _).
  unfold SshTerminal.draw in H. apply bind_Ok in H as (? & s1 & H1 & H).
  unfold SshTerminal.on_backend in H1. rewrite Hdr in H1. injection H1 as _ <-.
  apply bind_Ok in H as (frame & s2 & H2 & H). unfold SshTerminal.on_backend in H2. cbn in H2.
  injection H2 as <- <-. unfold SshTerminal.on_endpoint, zoom in H. cbn in H.
  destruct (write_stdout (b_buf b') (st_endpoint s)) as [o e'] eqn:Hw. injection H as -> <-.
  destruct (write_stdout_bytes _ _ _ _ Hw) as (sent & Ho & Hcat). cbn in Hcat.
  rewrite app_nil_r in Hcat. subst sent. rewrite Hbuf, Hb in Ho. cbn in Ho.
  exists out. split_and!; [exact Ho|exact Hf|done|]. destruct Hs' as [S1 S2 S3]. by constructor.
Qed.
End Frames.

(** * A frame of the demo on its way *)
Import Vt.
Definition canvas : SshTerminal (T := plain_tokio) nat :=
  mkSshTerminal (SshBackend.new 80 24)
    (mkEndpoint (demo_task <| k_budget := (1000, false) |>) [] true).
Definition shown : SshTerminal (T := plain_tokio) nat :=
  Eval vm_compute in snd (SshTerminal.draw (SshBackend.draw frame) canvas).

Lemma frame_reaches_screen_witness :
  exists out,
    sent_on false (fifo_items (e_out (st_endpoint shown))) = out /\
    feed fresh_screen out = Vt.style plain (paint_all frame fresh_screen) /\
    b_buf (st_backend shown) = [] /\ synced (st_backend shown) (feed fresh_screen out).
Proof.
  apply (frame_reaches_screen (T := plain_tokio) frame canvas shown fresh_screen);
    [reflexivity|by constructor|split; vm_compute; discriminate|exact frame_fits|].
  vm_cast_no_check
    (@eq_refl (outcome ErrorKind (list bytes) * SshTerminal (T := plain_tokio) nat) (Ok [], shown)).
Defined.
